(** * A shallow embedding of the lookahead SAT solver of [src/sat/sat_lookahead.cpp]

    The solver is a C++ class, [sat::lookahead], whose methods mutate the
    fields of one object.  The embedding keeps the object as a record
    ([lookahead]) and every method as a function on that record, in the
    order of the source file.  Loops over vectors become structural
    recursion; [while] loops whose bound is not syntactic take a [fuel]
    argument and return [None] when it runs out; the two exceptions of
    [checkpoint] are an explicit outcome ([Throw]) that carries the state
    the unwinding leaves behind.

    Numbers.  Vector sizes and positions are [nat].  Values that the code
    compares with [UINT_MAX] or lets wrap around (stamps, levels, epoch
    ids, ranks, literal indices) are [N], with the 32-bit wrap-around
    written out ([u32]).  [double] is the kernel's binary64 [float].

    Tables indexed by a literal or a variable are lists read with [tnth]
    and written with [upd]; reading or writing past the end is undefined
    in the source (a debug assertion), here a read yields the default
    given at the call and a write does nothing.

    Left out: [TRACE], [SASSERT], [IF_VERBOSE] at levels above 0, the
    statistics counters and the [display_*] printers. *)

From Stdlib Require Import NArith ZArith Floats Uint63 Lia Bool.
From stdpp Require Import base list.

Set Warnings "-inexact-float".

Module sat.

Local Open Scope N_scope.

(** ** Machine arithmetic *)

Definition UINT_MAX : N := 4294967295.
Definition u32 (x : N) : N := x mod 4294967296.
Definition u32_sub (x y : N) : N := (x + 4294967296 - y mod 4294967296) mod 4294967296.
Definition u64 (x : N) : N := x mod 18446744073709551616.
Definition double_of_N (n : N) : float := PrimFloat.of_uint63 (Uint63.of_Z (Z.of_N n)).
Definition double_of_nat (n : nat) : float := double_of_N (N.of_nat n).

(** ** Tables *)

Definition tnth {A} (d : A) (t : list A) (i : N) : A :=
  if i <? N.of_nat (length t) then default d (t !! N.to_nat i) else d.
Definition upd {A} (t : list A) (i : N) (x : A) : list A :=
  if i <? N.of_nat (length t) then <[N.to_nat i := x]> t else t.
Definition nth_nat {A} (d : A) (t : list A) (i : nat) : A := default d (t !! i).
(** [v.back()] and [v.pop_back()] of [util/vector.h], which is not under
    src/.  Both require a vector that is not empty, and there they are the
    last element and the vector without it.  The functions are total: on an
    empty list [back] is the default and [pop_back] the empty list, values
    that stand for nothing the program does.  What [pop] comes to when it
    calls them on an empty vector is in [pop_checked]. *)
Definition back {A} (d : A) (t : list A) : A := default d (last t).
Definition pop_back {A} (t : list A) : list A := removelast t.

(** ** Literals

    Modelled from the spec: [sat_types.h] is not under src/.  "A signed
    Boolean variable: pair (variable-id, sign).  Encoded so that complement
    is a one-bit flip and so that literals index directly into per-literal
    arrays of size 2|V|.  [null_literal] is a distinguished sentinel." *)

Definition bool_var := N.
Record literal := to_literal { index : N }.

Global Instance literal_eq_dec : EqDecision literal.
Proof. solve_decision. Defined.

Definition mk_literal (v : bool_var) (sgn : bool) : literal :=
  to_literal (2 * v + (if sgn then 1 else 0)).
Definition var (l : literal) : bool_var := N.div2 (index l).
Definition sign (l : literal) : bool := N.odd (index l).
Definition lnot (l : literal) : literal := to_literal (N.lxor (index l) 1).
Definition null_bool_var : bool_var := 2147483647.
Definition null_literal : literal := to_literal 4294967294.

Notation "~~ l" := (lnot l) (at level 35, right associativity) : N_scope.

Inductive lbool := l_false | l_undef | l_true.

Global Instance lbool_eq_dec : EqDecision lbool.
Proof. solve_decision. Defined.

Inductive lookahead_mode := searching | lookahead1 | lookahead2.

Global Instance lookahead_mode_eq_dec : EqDecision lookahead_mode.
Proof. solve_decision. Defined.

(** ** Watch lists

    Modelled from the spec: [sat_watched.h] is not under src/.  "For each
    literal a watch list with elements tagged BINARY, TERNARY(l1,l2),
    CLAUSE(blocker, offset), EXT(idx)."  A ternary watch stores its two
    literals in index order. *)

Definition clause_offset := nat.

Inductive watched :=
| BINARY (l : literal) (learned : bool)
| TERNARY (l1 l2 : literal)
| CLAUSE (blocked : literal) (cls_off : clause_offset)
| EXT_CONSTRAINT (idx : nat).

Global Instance watched_eq_dec : EqDecision watched.
Proof. solve_decision. Defined.

Definition mk_ternary (l1 l2 : literal) : watched :=
  if index l2 <? index l1 then TERNARY l2 l1 else TERNARY l1 l2.

Definition watch_list := list watched.

(** Removes the first element for which [p] holds. *)
Fixpoint erase_first {A} (p : A -> bool) (t : list A) : list A :=
  match t with
  | [] => []
  | x :: t' => if p x then t' else x :: erase_first p t'
  end.

(** Modelled from the spec: [sat_watched.cpp] is not under src/; the first
    clause watch of this offset leaves the list. *)
Definition erase_clause_watch (wlist : watch_list) (c : clause_offset) : watch_list :=
  erase_first (fun w => match w with CLAUSE _ c' => bool_decide (c' = c) | _ => false end) wlist.

(** Modelled from the spec: [sat_watched.h] is not under src/; the first
    watch equal to [watched(l1, l2)] leaves the list. *)
Definition erase_ternary_watch (wlist : watch_list) (l1 l2 : literal) : watch_list :=
  erase_first (fun w => bool_decide (w = mk_ternary l1 l2)) wlist.

(** ** The structs of [sat_lookahead.h]

    Modelled from the spec: [sat_lookahead.h] is not under src/.  The
    records below carry the fields that [sat_lookahead.cpp] reads and
    writes, under the names it uses. *)

Record config := mk_config {
  m_dl_success : float;
  m_alpha : float;
  m_max_score : float;
  m_max_hlevel : nat;
  m_min_cutoff : nat;
  m_level_cand : nat;
  m_delta_rho : float;
  m_dl_max_iterations : N;
  m_tc1_limit : N
}.

Module prefix.
Record t := mk { m_prefix : N; m_length : nat }.
End prefix.

Record lit_info := mk_lit_info { m_wnb : float; m_double_lookahead : N }.

Record ternary := mk_ternary_rec { m_u : literal; m_v : literal; m_w : literal }.

Module dfs_info.
Record t := mk {
  m_rank : N;
  m_height : N;
  m_parent : literal;
  m_next : list literal;
  m_nextp : nat;
  m_link : literal;
  m_min : literal;
  m_vcomp : literal
}.
(** [dfs_info::reset()] *)
Definition reset : t := mk 0 0 null_literal [] 0%nat null_literal null_literal null_literal.
End dfs_info.

Module candidate.
Record t := mk { m_var : bool_var; m_rating : float }.
End candidate.

Record literal_offset := mk_literal_offset { m_lit : literal; m_offset : N }.

(** Modelled from the spec: [util/rlimit.h] is not under src/.  "Explicit
    checkpoints consult a cancellation token": [inc] counts the call and
    answers whether the search may go on. *)
Record reslimit := mk_reslimit { m_count : N; m_limit : N; m_cancel : bool }.

Definition reslimit_inc (r : reslimit) : bool * reslimit :=
  let c := m_count r + 1 in
  (negb (m_cancel r) && ((m_limit r =? 0) || (c <=? m_limit r)),
   mk_reslimit c (m_limit r) (m_cancel r)).

(** What the extension may do when called back (section 5 of the
    specification): assign a literal or raise a conflict. *)
Inductive ext_call := ExtAssign (l : literal) | ExtConflict.

(** Modelled from the spec: [sat_extension.h] is not under src/.  The
    extension is "invoked synchronously" with [(l, ext_idx, &keep)], sees
    the current values, "and may call back into assign/set_conflict". *)
Record extension := mk_extension {
  ext_propagate : (literal -> lbool) -> literal -> nat -> list ext_call * bool
}.

(** A clause of the enclosing solver: its literals and its removed flag. *)
Record sclause := mk_sclause { c_lits : list literal; was_removed : bool }.

(** Modelled from the spec: [sat_solver.h] is not under src/.  What the
    lookahead consumes from the enclosing solver (section 6): the binary
    clauses, kept in its watch lists, the longer clauses, the initial
    units, the eliminated-variable flags, the [drat] option, the memory
    ceiling, the random seed and the extension. *)
Record solver := mk_solver {
  s_watches : list (list literal);
  s_clauses : list sclause;
  s_learned : list sclause;
  s_trail : list literal;
  s_init_trail_size : nat;
  s_eliminated : list bool;
  s_drat : bool;
  s_max_memory : N;
  s_allocation_size : N;
  s_rand : N;
  s_ext : option extension
}.

Definition was_eliminated (s : solver) (v : bool_var) : bool := tnth false (s_eliminated s) v.

(** Modelled from the spec: [util/util.h] is not under src/; [m_rand(n)]
    draws from a linear congruential generator and reduces modulo [n]. *)
Definition rand_next (seed : N) : N * N :=
  let d := u32 (seed * 214013 + 2531011) in
  (N.land (N.shiftr d 16) 32767, d).

(** What the proof sink receives. *)
Inductive drat_record :=
| drat_unit (l : literal) (learned : bool)
| drat_clause (c : list literal) (learned : bool)
| drat_lits (c : list literal).

(** Messages written at verbosity 0. *)
Inductive diag :=
| diag_empty_pop
| diag_pop_bad_literal (idx i2 : N)
| diag_adding_assigned_binary (v u : literal)
| diag_l_score (l w : literal) (sz : nat).

(** ** The solver state *)

Record lookahead := mk_lookahead {
  m_s : solver;
  m_num_vars : nat;
  m_rlimit : reslimit;
  m_config : config;
  m_delta_trigger : float;
  m_drat : list drat_record;
  m_assumptions : list literal;
  m_trail : list literal;
  m_trail_lim : list nat;
  m_binary : list (list literal);
  m_binary_trail : list N;
  m_binary_trail_lim : list nat;
  m_num_tc1 : N;
  m_num_tc1_lim : list N;
  m_qhead : nat;
  m_qhead_lim : list nat;
  m_clauses : list clause_offset;
  m_retired_clauses : list clause_offset;
  m_retired_clause_lim : list nat;
  m_retired_ternary : list ternary;
  m_retired_ternary_lim : list nat;
  m_cls_allocator : list (list literal);
  m_inconsistent : bool;
  m_bstamp : list N;
  m_H : list (list float);
  m_heur : nat;
  m_rating : list float;
  m_bstamp_id : N;
  m_istamp_id : N;
  m_stamp : list N;
  m_level : N;
  m_watches : list watch_list;
  m_lits : list lit_info;
  m_full_watches : list (list clause_offset);
  m_weighted_new_binaries : float;
  m_wstack : list literal;
  m_prefix : N;
  m_vprefix : list prefix.t;
  m_freevars : list bool_var;
  m_search_mode : lookahead_mode;
  m_model : list lbool;
  m_candidates : list candidate.t;
  m_select_lookahead_vars : list bool_var;
  m_active : literal;
  m_rank : N;
  m_settled : literal;
  m_dfs : list dfs_info.t;
  m_root_child : literal;
  m_lookahead : list literal_offset;
  m_verbose : list diag
}.

Definition eta_lookahead (s : lookahead) : lookahead :=
  mk_lookahead (m_s s) (m_num_vars s) (m_rlimit s) (m_config s) (m_delta_trigger s)
    (m_drat s) (m_assumptions s) (m_trail s) (m_trail_lim s) (m_binary s)
    (m_binary_trail s) (m_binary_trail_lim s) (m_num_tc1 s) (m_num_tc1_lim s)
    (m_qhead s) (m_qhead_lim s) (m_clauses s) (m_retired_clauses s)
    (m_retired_clause_lim s) (m_retired_ternary s) (m_retired_ternary_lim s)
    (m_cls_allocator s) (m_inconsistent s) (m_bstamp s) (m_H s) (m_heur s)
    (m_rating s) (m_bstamp_id s) (m_istamp_id s) (m_stamp s) (m_level s)
    (m_watches s) (m_lits s) (m_full_watches s) (m_weighted_new_binaries s)
    (m_wstack s) (m_prefix s) (m_vprefix s) (m_freevars s) (m_search_mode s)
    (m_model s) (m_candidates s) (m_select_lookahead_vars s) (m_active s)
    (m_rank s) (m_settled s) (m_dfs s) (m_root_child s) (m_lookahead s)
    (m_verbose s).

(** [set_f v s] is [s] with field [f] replaced by [v]. *)
Ltac make_setter proj :=
  let v := fresh "v" in
  let s := fresh "s" in
  intros v s;
  let body := eval cbv beta delta [eta_lookahead] in (eta_lookahead s) in
  let body' := eval pattern (proj s) in body in
  lazymatch body' with
  | ?F _ => let r := eval cbv beta in (F v) in exact r
  end.

Definition set_m_s : solver -> lookahead -> lookahead := ltac:(make_setter m_s).
Definition set_m_rlimit : reslimit -> lookahead -> lookahead := ltac:(make_setter m_rlimit).
Definition set_m_config : config -> lookahead -> lookahead := ltac:(make_setter m_config).
Definition set_m_delta_trigger : float -> lookahead -> lookahead := ltac:(make_setter m_delta_trigger).
Definition set_m_drat : list drat_record -> lookahead -> lookahead := ltac:(make_setter m_drat).
Definition set_m_assumptions : list literal -> lookahead -> lookahead := ltac:(make_setter m_assumptions).
Definition set_m_trail : list literal -> lookahead -> lookahead := ltac:(make_setter m_trail).
Definition set_m_trail_lim : list nat -> lookahead -> lookahead := ltac:(make_setter m_trail_lim).
Definition set_m_binary : list (list literal) -> lookahead -> lookahead := ltac:(make_setter m_binary).
Definition set_m_binary_trail : list N -> lookahead -> lookahead := ltac:(make_setter m_binary_trail).
Definition set_m_binary_trail_lim : list nat -> lookahead -> lookahead := ltac:(make_setter m_binary_trail_lim).
Definition set_m_num_tc1 : N -> lookahead -> lookahead := ltac:(make_setter m_num_tc1).
Definition set_m_num_tc1_lim : list N -> lookahead -> lookahead := ltac:(make_setter m_num_tc1_lim).
Definition set_m_qhead : nat -> lookahead -> lookahead := ltac:(make_setter m_qhead).
Definition set_m_qhead_lim : list nat -> lookahead -> lookahead := ltac:(make_setter m_qhead_lim).
Definition set_m_clauses : list clause_offset -> lookahead -> lookahead := ltac:(make_setter m_clauses).
Definition set_m_retired_clauses : list clause_offset -> lookahead -> lookahead := ltac:(make_setter m_retired_clauses).
Definition set_m_retired_clause_lim : list nat -> lookahead -> lookahead := ltac:(make_setter m_retired_clause_lim).
Definition set_m_retired_ternary : list ternary -> lookahead -> lookahead := ltac:(make_setter m_retired_ternary).
Definition set_m_retired_ternary_lim : list nat -> lookahead -> lookahead := ltac:(make_setter m_retired_ternary_lim).
Definition set_m_cls_allocator : list (list literal) -> lookahead -> lookahead := ltac:(make_setter m_cls_allocator).
Definition set_m_inconsistent : bool -> lookahead -> lookahead := ltac:(make_setter m_inconsistent).
Definition set_m_bstamp : list N -> lookahead -> lookahead := ltac:(make_setter m_bstamp).
Definition set_m_H : list (list float) -> lookahead -> lookahead := ltac:(make_setter m_H).
Definition set_m_heur : nat -> lookahead -> lookahead := ltac:(make_setter m_heur).
Definition set_m_rating : list float -> lookahead -> lookahead := ltac:(make_setter m_rating).
Definition set_m_bstamp_id : N -> lookahead -> lookahead := ltac:(make_setter m_bstamp_id).
Definition set_m_istamp_id : N -> lookahead -> lookahead := ltac:(make_setter m_istamp_id).
Definition set_m_stamp : list N -> lookahead -> lookahead := ltac:(make_setter m_stamp).
Definition set_m_level : N -> lookahead -> lookahead := ltac:(make_setter m_level).
Definition set_m_watches : list watch_list -> lookahead -> lookahead := ltac:(make_setter m_watches).
Definition set_m_lits : list lit_info -> lookahead -> lookahead := ltac:(make_setter m_lits).
Definition set_m_full_watches : list (list clause_offset) -> lookahead -> lookahead := ltac:(make_setter m_full_watches).
Definition set_m_weighted_new_binaries : float -> lookahead -> lookahead := ltac:(make_setter m_weighted_new_binaries).
Definition set_m_wstack : list literal -> lookahead -> lookahead := ltac:(make_setter m_wstack).
Definition set_m_prefix : N -> lookahead -> lookahead := ltac:(make_setter m_prefix).
Definition set_m_vprefix : list prefix.t -> lookahead -> lookahead := ltac:(make_setter m_vprefix).
Definition set_m_freevars : list bool_var -> lookahead -> lookahead := ltac:(make_setter m_freevars).
Definition set_m_search_mode : lookahead_mode -> lookahead -> lookahead := ltac:(make_setter m_search_mode).
Definition set_m_model : list lbool -> lookahead -> lookahead := ltac:(make_setter m_model).
Definition set_m_candidates : list candidate.t -> lookahead -> lookahead := ltac:(make_setter m_candidates).
Definition set_m_select_lookahead_vars : list bool_var -> lookahead -> lookahead := ltac:(make_setter m_select_lookahead_vars).
Definition set_m_active : literal -> lookahead -> lookahead := ltac:(make_setter m_active).
Definition set_m_rank : N -> lookahead -> lookahead := ltac:(make_setter m_rank).
Definition set_m_settled : literal -> lookahead -> lookahead := ltac:(make_setter m_settled).
Definition set_m_dfs : list dfs_info.t -> lookahead -> lookahead := ltac:(make_setter m_dfs).
Definition set_m_root_child : literal -> lookahead -> lookahead := ltac:(make_setter m_root_child).
Definition set_m_lookahead : list literal_offset -> lookahead -> lookahead := ltac:(make_setter m_lookahead).
Definition set_m_verbose : list diag -> lookahead -> lookahead := ltac:(make_setter m_verbose).

Definition verbose (d : diag) (s : lookahead) : lookahead :=
  set_m_verbose (m_verbose s ++ [d]) s.

(** ** Truth values

    Modelled from the spec: [sat_lookahead.h] is not under src/.  "Per
    variable: a truth value and a level stamp, an integer.  The constant
    [c_fixed_truth] is the sentinel for permanent assignments; lookahead
    assignments use strictly smaller stamps.  A literal is fixed at level
    L iff its stamp >= L."  Levels are even and the low bit of the stamp
    is the truth value: the stamp of a variable made true at level L is L,
    made false L + 1. *)

Definition c_fixed_truth : N := UINT_MAX - 1.

Definition stamp_of (l : literal) (s : lookahead) : N := tnth 0 (m_stamp s) (var l).
Definition is_fixed (l : literal) (s : lookahead) : bool := m_level s <=? stamp_of l s.
Definition is_undef (l : literal) (s : lookahead) : bool := negb (is_fixed l s).
Definition is_false (l : literal) (s : lookahead) : bool :=
  is_fixed l s && xorb (N.odd (stamp_of l s)) (sign l).
Definition is_true (l : literal) (s : lookahead) : bool :=
  is_fixed l s && negb (xorb (N.odd (stamp_of l s)) (sign l)).
Definition set_true (l : literal) (s : lookahead) : lookahead :=
  set_m_stamp (upd (m_stamp s) (var l) (u32 (m_level s + (if sign l then 1 else 0)))) s.
Definition set_undef (l : literal) (s : lookahead) : lookahead :=
  set_m_stamp (upd (m_stamp s) (var l) 0) s.
Definition set_level (d s' : literal) (s : lookahead) : lookahead :=
  set_m_stamp (upd (m_stamp s) (var d)
                 (u32 (N.land (stamp_of s' s) (UINT_MAX - 1) + (if sign d then 1 else 0)))) s.
Definition value (l : literal) (s : lookahead) : lbool :=
  if is_undef l s then l_undef else if is_true l s then l_true else l_false.
Definition is_fixed_at (lit : literal) (level : N) (s : lookahead) : bool :=
  is_fixed lit s && (negb (is_false lit s) || (level <=? stamp_of lit s)).

Definition set_conflict (s : lookahead) : lookahead := set_m_inconsistent true s.
Definition inconsistent (s : lookahead) : bool := m_inconsistent s.
Definition scope_lvl (s : lookahead) : nat := length (m_trail_lim s).

(** ** The set of free variables

    Modelled from the spec: [util/uint_set.h] is not under src/.  An
    indexed set keeps its elements in a vector: [insert] appends, [remove]
    moves the last element into the place of the removed one. *)

Fixpoint replace_first (x y : bool_var) (t : list bool_var) : list bool_var :=
  match t with
  | [] => []
  | z :: t' => if z =? x then y :: t' else z :: replace_first x y t'
  end.

Definition freevars_insert (x : bool_var) (t : list bool_var) : list bool_var := t ++ [x].
Definition freevars_remove (x : bool_var) (t : list bool_var) : list bool_var :=
  match last t with
  | None => t
  | Some y => if x =? y then pop_back t else replace_first x y (pop_back t)
  end.
Definition contains (x : bool_var) (t : list bool_var) : bool := existsb (N.eqb x) t.

(** ** Prefix updates *)

Definition flip_prefix (s : lookahead) : lookahead :=
  if (length (m_trail_lim s) <? 64)%nat then
    let mask := N.shiftl 1 (N.of_nat (length (m_trail_lim s))) in
    set_m_prefix (N.lor mask (N.land (m_prefix s) (mask - 1))) s
  else s.

Definition prune_prefix (s : lookahead) : lookahead :=
  if (length (m_trail_lim s) <? 64)%nat then
    set_m_prefix (N.land (m_prefix s) (N.shiftl 1 (N.of_nat (length (m_trail_lim s))) - 1)) s
  else s.

Definition update_prefix (l : literal) (s : lookahead) : lookahead :=
  let x := var l in
  let p := prefix.m_prefix (tnth (prefix.mk 0 0) (m_vprefix s) x) in
  let pl := prefix.m_length (tnth (prefix.mk 0 0) (m_vprefix s) x) in
  let mask := N.shiftl 1 (N.of_nat (Nat.min 31 pl)) - 1 in
  if (length (m_trail_lim s) <=? pl)%nat
     || negb (N.land p mask =? N.land (m_prefix s) mask) then
    set_m_vprefix (upd (m_vprefix s) x
                     (prefix.mk (u32 (m_prefix s)) (length (m_trail_lim s)))) s
  else s.

Definition active_prefix (x : bool_var) (s : lookahead) : bool :=
  let lvl := length (m_trail_lim s) in
  let p := prefix.m_prefix (tnth (prefix.mk 0 0) (m_vprefix s) x) in
  let l := prefix.m_length (tnth (prefix.mk 0 0) (m_vprefix s) x) in
  if (lvl <? l)%nat then false
  else if (l =? lvl)%nat || (31 <=? l)%nat then m_prefix s =? p
  else
    let mask := N.shiftl 1 (N.of_nat (Nat.min l 31)) - 1 in
    N.land (m_prefix s) mask =? N.land p mask.

(** ** Binary clauses *)

Definition binary_of (l : literal) (s : lookahead) : list literal := tnth [] (m_binary s) (index l).

Definition validate_binary (l1 l2 : literal) (s : lookahead) : lookahead :=
  if bool_decide (m_search_mode s = searching) then
    set_m_drat (m_drat s ++ [drat_lits (m_assumptions s ++ [l1; l2])]) s
  else s.

Definition add_binary (l1 l2 : literal) (s : lookahead) : lookahead :=
  (* don't add tautologies and don't add already added binaries *)
  if bool_decide (~~l1 = l2) then s
  else if negb (bool_decide (binary_of (~~l1) s = []))
          && bool_decide (back null_literal (binary_of (~~l1) s) = l2) then s
  else
    let s := set_m_binary (upd (m_binary s) (index (~~l1)) (binary_of (~~l1) s ++ [l2])) s in
    let s := set_m_binary (upd (m_binary s) (index (~~l2)) (binary_of (~~l2) s ++ [l1])) s in
    let s := set_m_binary_trail (m_binary_trail s ++ [index (~~l1)]) s in
    if s_drat (m_s s) then validate_binary l1 l2 s else s.

Definition del_binary (idx : N) (s : lookahead) : lookahead :=
  let lits := tnth [] (m_binary s) idx in
  let l := back null_literal lits in
  let s := set_m_binary (upd (m_binary s) idx (pop_back lits)) s in
  let s := if bool_decide (back null_literal (binary_of (~~l) s) = ~~(to_literal idx)) then s
           else verbose (diag_pop_bad_literal idx (index (~~l))) s in
  set_m_binary (upd (m_binary s) (index (~~l)) (pop_back (binary_of (~~l) s))) s.

(** ** Stamps of the binary implication graph *)

Definition inc_bstamp (s : lookahead) : lookahead :=
  let s := set_m_bstamp_id (u32 (m_bstamp_id s + 1)) s in
  if m_bstamp_id s =? 0 then
    let s := set_m_bstamp_id (u32 (m_bstamp_id s + 1)) s in
    set_m_bstamp (map (fun _ => 0) (m_bstamp s)) s
  else s.

Definition inc_istamp (s : lookahead) : lookahead :=
  let s := set_m_istamp_id (u32 (m_istamp_id s + 1)) s in
  if m_istamp_id s =? 0 then
    let s := set_m_istamp_id (u32 (m_istamp_id s + 1)) s in
    set_m_lits (map (fun li => mk_lit_info (m_wnb li) 0) (m_lits s)) s
  else s.

Definition set_bstamp (l : literal) (s : lookahead) : lookahead :=
  set_m_bstamp (upd (m_bstamp s) (index l) (m_bstamp_id s)) s.
Definition is_stamped (l : literal) (s : lookahead) : bool :=
  tnth 0 (m_bstamp s) (index l) =? m_bstamp_id s.

Definition set_bstamps (l : literal) (s : lookahead) : lookahead :=
  let s := inc_bstamp s in
  let s := set_bstamp l s in
  fold_left (fun s w => set_bstamp w s) (binary_of l s) s.

(** ** Assignment *)

Definition validate_assign (l : literal) (s : lookahead) : lookahead :=
  if s_drat (m_s s) && bool_decide (m_search_mode s = searching) then
    set_m_drat (m_drat s ++ [drat_lits (m_assumptions s ++ [l])]) s
  else s.

Definition assign (l : literal) (s : lookahead) : lookahead :=
  if is_undef l s then
    let s := set_true l s in
    let s := set_m_trail (m_trail s ++ [l]) s in
    if bool_decide (m_search_mode s = searching) then
      let s := set_m_freevars (freevars_remove (var l) (m_freevars s)) s in
      validate_assign l s
    else s
  else if is_false l s then
    set_conflict (validate_assign l s)
  else s.

Definition propagated (l : literal) (s : lookahead) : lookahead :=
  let s := assign l s in
  match m_search_mode s with
  | searching => s
  | lookahead1 => set_m_wstack (m_wstack s ++ [l]) s
  | lookahead2 => s
  end.

(** ** One-step transitive closure *)

(** The loop of [add_tc1] reads [m_binary[v.index()][i]] for [i] below the
    size taken on entry; [add_binary] only appends, so these are the
    elements [ws] that the vector holds on entry. *)
Fixpoint add_tc1_loop (u : literal) (ws : list literal) (s : lookahead) : bool * lookahead :=
  match ws with
  | [] => (true, s)
  | w :: ws' =>
      (* ~v \/ w *)
      if negb (is_fixed w s) then
        if is_stamped (~~w) s then
          (* u \/ v, ~v \/ w, u \/ ~w => u is unit *)
          (false, assign u s)
        else if m_num_tc1 s <? m_tc1_limit (m_config s) then
          add_tc1_loop u ws' (add_binary u w (set_m_num_tc1 (u32 (m_num_tc1 s + 1)) s))
        else add_tc1_loop u ws' s
      else add_tc1_loop u ws' s
  end.

(** Returns [false] if a unit literal is learned. *)
Definition add_tc1 (u v : literal) (s : lookahead) : bool * lookahead :=
  add_tc1_loop u (binary_of v s) s.

(** Main routine for adding a new binary clause dynamically. *)
Definition try_add_binary (u v : literal) (s : lookahead) : lookahead :=
  let s := if negb (is_undef u s) || negb (is_undef v s)
           then verbose (diag_adding_assigned_binary v u) s else s in
  let s := set_bstamps (~~u) s in
  if is_stamped (~~v) s then
    assign u s                       (* u \/ ~v, u \/ v => u is a unit literal *)
  else if negb (is_stamped v s) then
    let '(r, s) := add_tc1 u v s in
    if r then
      (* u \/ v is not in index *)
      let s := set_bstamps (~~v) s in
      if is_stamped (~~u) s then
        assign v s                   (* v \/ ~u, u \/ v => v is a unit literal *)
      else
        let '(r, s) := add_tc1 v u s in
        if r then add_binary u v (update_prefix v (update_prefix u s)) else s
    else s
  else s.

(** ** Clause management *)

Definition get_clause (off : clause_offset) (s : lookahead) : list literal :=
  nth_nat [] (m_cls_allocator s) off.
Definition set_clause (off : clause_offset) (c : list literal) (s : lookahead) : lookahead :=
  set_m_cls_allocator (<[off := c]> (m_cls_allocator s)) s.
Definition lit_at (c : list literal) (i : nat) : literal := nth_nat null_literal c i.
Definition get_wlist (l : literal) (s : lookahead) : watch_list := tnth [] (m_watches s) (index l).
Definition set_wlist (l : literal) (wl : watch_list) (s : lookahead) : lookahead :=
  set_m_watches (upd (m_watches s) (index l) wl) s.
Definition push_watch (l : literal) (w : watched) (s : lookahead) : lookahead :=
  set_wlist l (get_wlist l s ++ [w]) s.

Definition attach_ternary (l1 l2 l3 : literal) (s : lookahead) : lookahead :=
  let s := push_watch (~~l1) (mk_ternary l2 l3) s in
  let s := push_watch (~~l2) (mk_ternary l1 l3) s in
  push_watch (~~l3) (mk_ternary l1 l2) s.

Definition attach_clause (off : clause_offset) (s : lookahead) : lookahead :=
  let c := get_clause off s in
  if (length c =? 3)%nat then attach_ternary (lit_at c 0) (lit_at c 1) (lit_at c 2) s
  else
    let block_lit := lit_at c (Nat.shiftr (length c) 2) in
    let s := push_watch (~~(lit_at c 0)) (CLAUSE block_lit off) s in
    push_watch (~~(lit_at c 1)) (CLAUSE block_lit off) s.

Definition detach_clause (off : clause_offset) (s : lookahead) : lookahead :=
  let c := get_clause off s in
  let s := set_m_retired_clauses (m_retired_clauses s ++ [off]) s in
  let s := set_wlist (~~(lit_at c 0)) (erase_clause_watch (get_wlist (~~(lit_at c 0)) s) off) s in
  set_wlist (~~(lit_at c 1)) (erase_clause_watch (get_wlist (~~(lit_at c 1)) s) off) s.

Definition detach_ternary (l1 l2 l3 : literal) (s : lookahead) : lookahead :=
  let s := set_m_retired_ternary (m_retired_ternary s ++ [mk_ternary_rec l1 l2 l3]) s in
  (* implicitly erased: erase_ternary_watch(get_wlist(~l1), l2, l3) *)
  let s := set_wlist (~~l2) (erase_ternary_watch (get_wlist (~~l2) s) l1 l3) s in
  set_wlist (~~l3) (erase_ternary_watch (get_wlist (~~l3) s) l1 l2) s.

(** ** Propagation *)

Definition heur (l : literal) (s : lookahead) : float :=
  tnth 0%float (nth_nat [] (m_H s) (m_heur s)) (index l).

(** Position of the first element of [t] satisfying [p], counted from [i]. *)
Fixpoint find_idx (p : literal -> bool) (t : list literal) (i : nat) : option nat :=
  match t with
  | [] => None
  | x :: t' => if p x then Some i else find_idx p t' (S i)
  end.

(** The TERNARY case of [propagate_clauses]: the watch to keep, if any,
    and the new state. *)
Definition propagate_ternary (l l1 l2 : literal) (s : lookahead) : option watched * lookahead :=
  if is_fixed l1 s then
    if is_false l1 s then
      if is_undef l2 s then (Some (TERNARY l1 l2), propagated l2 s)
      else if is_false l2 s then (Some (TERNARY l1 l2), set_conflict s)
      else (Some (TERNARY l1 l2), s)
    else (Some (TERNARY l1 l2), s)         (* retire this clause *)
  else if is_fixed l2 s then
    if is_false l2 s then (Some (TERNARY l1 l2), propagated l1 s)
    else (Some (TERNARY l1 l2), s)         (* retire this clause *)
  else
    match m_search_mode s with
    | searching => (None, try_add_binary l1 l2 (detach_ternary (~~l) l1 l2 s))
    | lookahead1 =>
        (Some (TERNARY l1 l2),
         set_m_weighted_new_binaries
           (m_weighted_new_binaries s + heur l1 s * heur l2 s)%float s)
    | lookahead2 => (Some (TERNARY l1 l2), s)
    end.

(** The CLAUSE case of [propagate_clauses]. *)
Definition propagate_clause (l blocked : literal) (cls_off : clause_offset) (s : lookahead)
  : option watched * lookahead :=
  if is_true blocked s then (Some (CLAUSE blocked cls_off), s)
  else
    let c := get_clause cls_off s in
    let c := if bool_decide (lit_at c 0 = ~~l)
             then <[1%nat := lit_at c 0]> (<[0%nat := lit_at c 1]> c) else c in
    let s := set_clause cls_off c s in
    if is_true (lit_at c 0) s then (Some (CLAUSE (lit_at c 0) cls_off), s)
    else
      match find_idx (fun x => negb (is_false x s)) (drop 2 c) 2 with
      | Some j =>
          (* move the watch from l to c[j] *)
          let c := <[j := ~~l]> (<[1%nat := lit_at c j]> c) in
          let s := set_clause cls_off c s in
          let s := push_watch (~~(lit_at c 1)) (CLAUSE (lit_at c 0) cls_off) s in
          let found := existsb (fun x => negb (is_false x s)) (drop (S j) c) in
          if negb found && is_undef (lit_at c 1) s && is_undef (lit_at c 0) s then
            (* normal clause was converted to a binary clause *)
            match m_search_mode s with
            | searching =>
                (None, try_add_binary (lit_at c 0) (lit_at c 1) (detach_clause cls_off s))
            | lookahead1 =>
                (None, set_m_weighted_new_binaries
                         (m_weighted_new_binaries s
                          + heur (lit_at c 0) s * heur (lit_at c 1) s)%float s)
            | lookahead2 => (None, s)
            end
          else if found && bool_decide (m_search_mode s = lookahead1)
                  && (m_weighted_new_binaries s =? 0)%float then
            (* leave a trail that some clause was reduced but potentially not an autarky *)
            if existsb (fun x => is_true x s) (drop 2 c) then (None, s)
            else (None, set_m_weighted_new_binaries 0.001%float s)
          else (None, s)
      | None =>
          if is_false (lit_at c 0) s then (Some (CLAUSE blocked cls_off), set_conflict s)
          else (Some (CLAUSE blocked cls_off), propagated (lit_at c 0) s)
      end.

Definition ext_apply (c : ext_call) (s : lookahead) : lookahead :=
  match c with
  | ExtAssign l => assign l s
  | ExtConflict => set_conflict s
  end.

(** The EXT_CONSTRAINT case of [propagate_clauses]. *)
Definition propagate_ext (l : literal) (idx : nat) (s : lookahead) : option watched * lookahead :=
  match s_ext (m_s s) with
  | None => (Some (EXT_CONSTRAINT idx), s)
  | Some e =>
      let '(calls, keep) := ext_propagate e (fun x => value x s) l idx in
      let s := fold_left (fun s c => ext_apply c s) calls s in
      if m_inconsistent s then (None, set_conflict s)
      else if keep then (Some (EXT_CONSTRAINT idx), s)
      else (None, s)
  end.

Definition propagate_watch (l : literal) (w : watched) (s : lookahead) : option watched * lookahead :=
  match w with
  | BINARY _ _ => (None, s)                (* UNREACHABLE *)
  | TERNARY l1 l2 => propagate_ternary l l1 l2 s
  | CLAUSE blocked cls_off => propagate_clause l blocked cls_off s
  | EXT_CONSTRAINT idx => propagate_ext l idx s
  end.

(** The loop of [propagate_clauses]: [rest] is what the iterator [it] has
    not reached, [kept] what was copied below [it2]. *)
Fixpoint propagate_clauses_loop (l : literal) (rest kept : watch_list) (s : lookahead) : lookahead :=
  match rest with
  | [] => set_wlist l kept s
  | w :: rest' =>
      if inconsistent s then set_wlist l (kept ++ rest) s
      else
        let '(k, s) := propagate_watch l w s in
        propagate_clauses_loop l rest' (kept ++ option_list k) s
  end.

Definition propagate_clauses (l : literal) (s : lookahead) : lookahead :=
  if inconsistent s then s
  else propagate_clauses_loop l (get_wlist l s) [] s.

Fixpoint propagate_binary_loop (lits : list literal) (s : lookahead) : lookahead :=
  match lits with
  | [] => s
  | w :: lits' => if inconsistent s then s else propagate_binary_loop lits' (assign w s)
  end.

Definition propagate_binary (l : literal) (s : lookahead) : lookahead :=
  propagate_binary_loop (binary_of l s) s.

(** The two passes of [propagate] over the trail window [m_qhead, sz): the
    loops read [m_trail[i]], and the trail only grows while they run, so
    they go over the literals [window] that stand there on entry. *)
Fixpoint propagate_pass (f : literal -> lookahead -> lookahead) (window : list literal)
    (s : lookahead) : lookahead :=
  match window with
  | [] => s
  | l :: window' =>
      if inconsistent s then s
      else propagate_pass f window' (f l s)
  end.

Fixpoint propagate (fuel : nat) (s : lookahead) : option lookahead :=
  if negb (inconsistent s) && (m_qhead s <? length (m_trail s))%nat then
    match fuel with
    | O => None
    | S fuel' =>
        let sz := length (m_trail s) in
        let window := drop (m_qhead s) (m_trail s) in
        let s := propagate_pass propagate_binary window s in
        let s := propagate_pass propagate_clauses window s in
        propagate fuel' (set_m_qhead sz s)
    end
  else Some s.

(** ** Pre-selection (see also 91 - 102 of sat11.w) *)

Definition c_var (s : lookahead) (i : nat) : bool_var :=
  candidate.m_var (nth_nat (candidate.mk 0 0%float) (m_candidates s) i).
Definition c_rating (t : list candidate.t) (i : nat) : float :=
  candidate.m_rating (nth_nat (candidate.mk 0 0%float) t i).

Definition get_rating (l : literal) (s : lookahead) : float := tnth 0%float (m_rating s) (var l).

(** [std::min(a, b)]: [b] if [b < a], else [a]. *)
Definition std_min (a b : float) : float := if (b <? a)%float then b else a.

(** The float [h[l.index()]] of the vector [m_H[hi]]. *)
Definition h_at (hi : nat) (l : literal) (s : lookahead) : float :=
  tnth 0%float (nth_nat [] (m_H s) hi) (index l).

Fixpoint l_score_binary (hi : nat) (l : literal) (lits : list literal) (sum : float)
    (s : lookahead) : float * lookahead :=
  match lits with
  | [] => (sum, s)
  | w :: lits' =>
      let s := if N.of_nat (length (nth_nat [] (m_H s) hi)) <=? index w
               then verbose (diag_l_score l w (length (nth_nat [] (m_H s) hi))) s else s in
      l_score_binary hi l lits' (if is_undef w s then (sum + h_at hi w s)%float else sum) s
  end.

Definition l_score_watch (hi : nat) (l : literal) (w : watched) (tsum : float)
    (s : lookahead) : float :=
  match w with
  | BINARY _ _ => tsum                      (* UNREACHABLE *)
  | TERNARY l1 l2 => (tsum + h_at hi l1 s * h_at hi l2 s)%float
  | CLAUSE _ cls_off =>
      let c := get_clause cls_off s in
      (* approximation compared to ternary clause case:
         we pick two other literals from the clause. *)
      if bool_decide (lit_at c 0 = ~~l)
      then (tsum + h_at hi (lit_at c 1) s * h_at hi (lit_at c 2) s)%float
      else (tsum + h_at hi (lit_at c 0) s * h_at hi (lit_at c 2) s)%float
  | EXT_CONSTRAINT _ => tsum
  end.

Definition l_score (l : literal) (hi : nat) (factor sqfactor afactor : float)
    (s : lookahead) : float * lookahead :=
  let '(sum, s) := l_score_binary hi l (binary_of l s) 0%float s in
  let tsum := fold_left (fun t w => l_score_watch hi l w t s) (get_wlist l s) 0%float in
  let sum := (0.1 + afactor * sum + sqfactor * tsum)%float in
  (std_min (m_max_score (m_config s)) sum, s).

(** The normalising sum of [h_scores], and its guard against zero. *)
Definition h_sum (hi : nat) (s : lookahead) : float :=
  fold_left (fun sum x =>
               let l := mk_literal x false in
               (sum + (h_at hi l s + h_at hi (~~l) s))%float)
            (m_freevars s) 0%float.
Definition h_denominator (sum : float) : float :=
  if (sum =? 0)%float then 0.0001%float else sum.
Definition h_factor (hi : nat) (s : lookahead) : float :=
  (double_of_N (u32 (2 * N.of_nat (length (m_freevars s)))) / h_denominator (h_sum hi s))%float.

Definition set_H (hpi : nat) (l : literal) (x : float) (s : lookahead) : lookahead :=
  set_m_H (<[hpi := upd (nth_nat [] (m_H s) hpi) (index l) x]> (m_H s)) s.

Definition h_scores_var (hi hpi : nat) (factor sqfactor afactor : float) (x : bool_var)
    (s : lookahead) : lookahead :=
  let l := mk_literal x false in
  let '(pos, s) := l_score l hi factor sqfactor afactor s in
  let '(neg, s) := l_score (~~l) hi factor sqfactor afactor s in
  let s := set_H hpi l pos s in
  let s := set_H hpi (~~l) neg s in
  set_m_rating (upd (m_rating s) (var l) (pos * neg)%float) s.

(** [h_scores(m_H[hi], m_H[hpi])] *)
Definition h_scores (hi hpi : nat) (s : lookahead) : lookahead :=
  let factor := h_factor hi s in
  let sqfactor := (factor * factor)%float in
  let afactor := (factor * m_alpha (m_config s))%float in
  fold_left (fun s x => h_scores_var hi hpi factor sqfactor afactor x s) (m_freevars s) s.

Definition ensure_H (level : nat) (s : lookahead) : lookahead :=
  set_m_H (m_H s ++ replicate (S level - length (m_H s))
                      (replicate (m_num_vars s * 2) 0%float)) s.

Definition init_pre_selection (level : nat) (s : lookahead) : lookahead :=
  let max_level := m_max_hlevel (m_config s) in
  if (level <=? 1)%nat then
    let s := ensure_H 2 s in
    let s := h_scores 0 1 s in
    let round s := h_scores 2 0 (h_scores 1 2 s) in
    let s := round (round s) in
    set_m_heur 1%nat s
  else if (level <? max_level)%nat then
    let s := ensure_H level s in
    let s := h_scores (level - 1) level s in
    set_m_heur level s
  else
    let s := ensure_H max_level s in
    let s := h_scores (max_level - 1) max_level s in
    set_m_heur max_level s.

Definition init_candidates (level : nat) (newbies : bool) (s : lookahead) : float * lookahead :=
  let s := set_m_candidates [] s in
  fold_left
    (fun '(sum, s) x =>
       if negb (bool_decide (m_select_lookahead_vars s = [])) then
         if contains x (m_select_lookahead_vars s) then
           (sum + tnth 0 (m_rating s) x,
            set_m_candidates (m_candidates s ++ [candidate.mk x (tnth 0 (m_rating s) x)]) s)
         else (sum, s)
       else if newbies || active_prefix x s then
         (sum + tnth 0 (m_rating s) x,
          set_m_candidates (m_candidates s ++ [candidate.mk x (tnth 0 (m_rating s) x)]) s)
       else (sum, s))%float
    (m_freevars s) (0%float, s).

Definition is_unsat (s : lookahead) : bool :=
  existsb (fun off => forallb (fun x => is_false x s) (get_clause off s)) (m_clauses s).

Definition is_sat (s : lookahead) : bool :=
  forallb (fun x =>
             let l := mk_literal x false in
             forallb (fun w => is_true w s) (binary_of l s)
             && forallb (fun w => is_true w s) (binary_of (~~l) s))
          (m_freevars s)
  && forallb (fun off => existsb (fun x => is_true x s) (get_clause off s)) (m_clauses s).

Definition sift_up_pick (t : list candidate.t) (k : nat) : nat :=
  (* pick largest parent *)
  if (S k <? length t)%nat && (c_rating t k <? c_rating t (S k))%float then S k else k.

Fixpoint sift_up_loop (fuel : nat) (c : candidate.t) (i k : nat) (t : list candidate.t)
  : nat * list candidate.t :=
  match fuel with
  | O => (i, t)
  | S fuel' =>
      if (k <? length t)%nat then
        let k := sift_up_pick t k in
        if (candidate.m_rating c <=? c_rating t k)%float then (i, t)
        else sift_up_loop fuel' c k (2 * k + 1) (<[i := nth_nat c t k]> t)
      else (i, t)
  end.

(** The loop doubles [k] until it passes the size, so [length t] rounds suffice. *)
Definition sift_up (j : nat) (t : list candidate.t) : list candidate.t :=
  let c := nth_nat (candidate.mk 0 0%float) t j in
  let '(i, t) := sift_up_loop (length t) c j (2 * j + 1) t in
  if (j <? i)%nat then <[i := c]> t else t.

(** One sweep of step 1 of the cut: [i] advances or the vector shrinks. *)
Fixpoint cut_sweep (fuel : nat) (max2 : nat) (mean : float) (i : nat) (sum : float)
    (progress : bool) (t : list candidate.t) : float * bool * list candidate.t :=
  match fuel with
  | O => (sum, progress, t)
  | S fuel' =>
      if (i <? length t)%nat && (max2 <=? length t)%nat then
        if (mean <=? c_rating t i)%float
        then cut_sweep fuel' max2 mean (S i) (sum + c_rating t i)%float progress t
        else cut_sweep fuel' max2 mean i sum true
               (pop_back (<[i := back (candidate.mk 0 0%float) t]> t))
      else (sum, progress, t)
  end.

Fixpoint cut_loop (fuel : nat) (max2 : nat) (sum : float) (t : list candidate.t)
  : list candidate.t :=
  match fuel with
  | O => t
  | S fuel' =>
      if (max2 <=? length t)%nat then
        let mean := (sum / (double_of_nat (length t) + 0.0001))%float in
        let '(sum, progress, t) := cut_sweep (length t) max2 mean 0 0%float false t in
        if progress then cut_loop fuel' max2 sum t else t
      else t
  end.

Fixpoint heapify (j : nat) (t : list candidate.t) : list candidate.t :=
  match j with
  | O => t
  | S j' => heapify j' (sift_up j' t)
  end.

Fixpoint heap_cut (fuel : nat) (max_num_cand : nat) (t : list candidate.t) : list candidate.t :=
  match fuel with
  | O => t
  | S fuel' =>
      let t := pop_back (<[0%nat := back (candidate.mk 0 0%float) t]> t) in
      if (length t =? max_num_cand)%nat then t
      else heap_cut fuel' max_num_cand (sift_up 0 t)
  end.

(** The first loop of [select]: candidates, with newcomers on the second round. *)
Fixpoint select_candidates (fuel : nat) (level : nat) (newbies : bool) (s : lookahead)
  : option (option float * lookahead) :=
  match fuel with
  | O => None
  | S fuel' =>
      let '(sum, s) := init_candidates level newbies s in
      if negb (bool_decide (m_candidates s = [])) then Some (Some sum, s)
      else if is_sat s then Some (None, s)
      else select_candidates fuel' level true s
  end.

Definition select (fuel : nat) (level : nat) (s : lookahead) : option (bool * lookahead) :=
  let s := init_pre_selection level s in
  let level_cand := Nat.max (m_level_cand (m_config s)) (length (m_freevars s) / 50) in
  let max_num_cand := if (level =? 0)%nat then length (m_freevars s) else (level_cand / level)%nat in
  let max_num_cand := Nat.max (m_min_cutoff (m_config s)) max_num_cand in
  match select_candidates fuel level false s with
  | None => None
  | Some (None, s) => Some (false, s)
  | Some (Some sum, s) =>
      (* cut number of candidates down to max_num_cand.
         step 1. cut it to at most 2*max_num_cand.
         step 2. use a heap to sift through the rest. *)
      let t := cut_loop (S (length (m_candidates s))) (max_num_cand * 2) sum (m_candidates s) in
      let t := if (max_num_cand <? length t)%nat
               then heap_cut (length t) max_num_cand (heapify (length t / 2) t)
               else t in
      Some (true, set_m_candidates t s)
  end.

(** ** Implication graph: ordering and strongly connected components
       (sat11.w 103 - 114)

    Modelled from the spec: the accessors of [dfs_info] are declared in
    [sat_lookahead.h], which is not under src/.  "DFS info per literal:
    rank, parent, min (SCC lowlink), link (list threading), height, child,
    vcomp"; each accessor reads or writes the field of its name in
    [m_dfs[l.index()]]. *)

Definition dfs_of (l : literal) (s : lookahead) : dfs_info.t := tnth dfs_info.reset (m_dfs s) (index l).
Definition set_dfs (l : literal) (d : dfs_info.t) (s : lookahead) : lookahead :=
  set_m_dfs (upd (m_dfs s) (index l) d) s.

Definition get_min (v : literal) (s : lookahead) : literal := dfs_info.m_min (dfs_of v s).
Definition get_rank (v : literal) (s : lookahead) : N := dfs_info.m_rank (dfs_of v s).
Definition get_height (v : literal) (s : lookahead) : N := dfs_info.m_height (dfs_of v s).
Definition get_parent (u : literal) (s : lookahead) : literal := dfs_info.m_parent (dfs_of u s).
Definition get_link (u : literal) (s : lookahead) : literal := dfs_info.m_link (dfs_of u s).
Definition get_vcomp (u : literal) (s : lookahead) : literal := dfs_info.m_vcomp (dfs_of u s).
Definition num_next (u : literal) (s : lookahead) : nat := length (dfs_info.m_next (dfs_of u s)).
Definition get_next (u : literal) (i : nat) (s : lookahead) : literal :=
  lit_at (dfs_info.m_next (dfs_of u s)) i.
Definition has_arc (v : literal) (s : lookahead) : bool :=
  (dfs_info.m_nextp (dfs_of v s) <? length (dfs_info.m_next (dfs_of v s)))%nat.

Definition set_rank (v : literal) (r : N) (s : lookahead) : lookahead :=
  let d := dfs_of v s in
  set_dfs v (dfs_info.mk r (dfs_info.m_height d) (dfs_info.m_parent d) (dfs_info.m_next d)
               (dfs_info.m_nextp d) (dfs_info.m_link d) (dfs_info.m_min d) (dfs_info.m_vcomp d)) s.
Definition set_height (v : literal) (h : N) (s : lookahead) : lookahead :=
  let d := dfs_of v s in
  set_dfs v (dfs_info.mk (dfs_info.m_rank d) h (dfs_info.m_parent d) (dfs_info.m_next d)
               (dfs_info.m_nextp d) (dfs_info.m_link d) (dfs_info.m_min d) (dfs_info.m_vcomp d)) s.
Definition set_parent (v p : literal) (s : lookahead) : lookahead :=
  let d := dfs_of v s in
  set_dfs v (dfs_info.mk (dfs_info.m_rank d) (dfs_info.m_height d) p (dfs_info.m_next d)
               (dfs_info.m_nextp d) (dfs_info.m_link d) (dfs_info.m_min d) (dfs_info.m_vcomp d)) s.
Definition set_link (v u : literal) (s : lookahead) : lookahead :=
  let d := dfs_of v s in
  set_dfs v (dfs_info.mk (dfs_info.m_rank d) (dfs_info.m_height d) (dfs_info.m_parent d)
               (dfs_info.m_next d) (dfs_info.m_nextp d) u (dfs_info.m_min d) (dfs_info.m_vcomp d)) s.
Definition set_min (v u : literal) (s : lookahead) : lookahead :=
  let d := dfs_of v s in
  set_dfs v (dfs_info.mk (dfs_info.m_rank d) (dfs_info.m_height d) (dfs_info.m_parent d)
               (dfs_info.m_next d) (dfs_info.m_nextp d) (dfs_info.m_link d) u (dfs_info.m_vcomp d)) s.
Definition set_vcomp (v u : literal) (s : lookahead) : lookahead :=
  let d := dfs_of v s in
  set_dfs v (dfs_info.mk (dfs_info.m_rank d) (dfs_info.m_height d) (dfs_info.m_parent d)
               (dfs_info.m_next d) (dfs_info.m_nextp d) (dfs_info.m_link d) (dfs_info.m_min d) u) s.
Definition add_arc (u v : literal) (s : lookahead) : lookahead :=
  let d := dfs_of u s in
  set_dfs u (dfs_info.mk (dfs_info.m_rank d) (dfs_info.m_height d) (dfs_info.m_parent d)
               (dfs_info.m_next d ++ [v]) (dfs_info.m_nextp d) (dfs_info.m_link d)
               (dfs_info.m_min d) (dfs_info.m_vcomp d)) s.
Definition pop_arc (u : literal) (s : lookahead) : literal * lookahead :=
  let d := dfs_of u s in
  (lit_at (dfs_info.m_next d) (dfs_info.m_nextp d),
   set_dfs u (dfs_info.mk (dfs_info.m_rank d) (dfs_info.m_height d) (dfs_info.m_parent d)
                (dfs_info.m_next d) (S (dfs_info.m_nextp d)) (dfs_info.m_link d)
                (dfs_info.m_min d) (dfs_info.m_vcomp d)) s).

Definition init_dfs_info (l : literal) (s : lookahead) : lookahead :=
  set_bstamp l (set_dfs l dfs_info.reset s).

(** arcs are added in the opposite direction of implications.
    So for implications l => u we add arcs u -> l *)
Definition init_arcs (l : literal) (s : lookahead) : lookahead :=
  fold_left (fun s u =>
               if (index l <? index u) && is_stamped u s
               then add_arc u l (add_arc (~~l) (~~u) s) else s)
            (binary_of l s) s.

Definition init_scc (s : lookahead) : lookahead :=
  let s := inc_bstamp s in
  let s := fold_left (fun s c =>
                        let lit := mk_literal (candidate.m_var c) false in
                        init_dfs_info (~~lit) (init_dfs_info lit s))
                     (m_candidates s) s in
  let s := fold_left (fun s c =>
                        let lit := mk_literal (candidate.m_var c) false in
                        init_arcs (~~lit) (init_arcs lit s))
                     (m_candidates s) s in
  set_m_settled null_literal (set_m_active null_literal (set_m_rank 0 s)).

Definition activate_scc (l : literal) (s : lookahead) : lookahead :=
  let s := set_m_rank (u32 (m_rank s + 1)) s in
  let s := set_rank l (m_rank s) s in
  let s := set_link l (m_active s) s in
  let s := set_min l l s in
  set_m_active l s.

(** The [while (t != v)] loop of [found_scc]; the literal and rating that
    come back are [best] and [best_rating]. *)
Fixpoint found_scc_loop (fuel : nat) (v t best : literal) (best_rating : float) (s : lookahead)
  : option (literal * lookahead) :=
  if bool_decide (t = v) then Some (best, s)
  else
    match fuel with
    | O => None
    | S fuel' =>
        if bool_decide (t = ~~v) then
          (* found contradiction during scc search *)
          Some (best, set_conflict s)
        else
          let s := set_rank t UINT_MAX s in
          let s := set_parent t v s in
          let t_rating := get_rating t s in
          if (best_rating <? t_rating)%float
          then found_scc_loop fuel' v (get_link t s) t t_rating s
          else found_scc_loop fuel' v (get_link t s) best best_rating s
    end.

(** make v root of the scc equivalence class;
    set vcomp to be the highest rated literal *)
Definition found_scc (fuel : nat) (v : literal) (s : lookahead) : option lookahead :=
  let t := m_active s in
  let s := set_m_active (get_link v s) s in
  let s := set_rank v UINT_MAX s in
  let s := set_link v (m_settled s) s in
  let s := set_m_settled t s in
  match found_scc_loop fuel v t v (get_rating v s) s with
  | None => None
  | Some (best, s) =>
      let s := set_parent v v s in
      let s := set_vcomp v best s in
      if get_rank (~~v) s =? UINT_MAX
      then Some (set_vcomp v (~~(get_vcomp (get_parent (~~v) s) s)) s)
      else Some s
  end.

(** The [do ... while] of [get_scc(literal v)]. *)
Fixpoint get_scc_loop (fuel : nat) (v : literal) (s : lookahead) : option lookahead :=
  match fuel with
  | O => None
  | S fuel' =>
      let ll := get_min v s in
      let next :=
        if has_arc v s then
          let '(u, s) := pop_arc v s in
          let r := get_rank u s in
          if 0 <? r then
            (* u was processed before ll *)
            Some (v, if r <? get_rank ll s then set_min v u s else s)
          else
            (* process u in dfs order, add v to dfs stack for u *)
            Some (u, activate_scc u (set_parent u v s))
        else
          let u := get_parent v s in
          if bool_decide (v = ll) then
            match found_scc fuel' v s with
            | None => None
            | Some s => Some (u, s)
            end
          else if get_rank ll s <? get_rank (get_min u s) s then Some (u, set_min u ll s)
          else Some (u, s)          (* walk back in the dfs stack *)
      in
      match next with
      | None => None
      | Some (v, s) =>
          if negb (bool_decide (v = null_literal)) && negb (inconsistent s)
          then get_scc_loop fuel' v s
          else Some s
      end
  end.

Definition get_scc_from (fuel : nat) (v : literal) (s : lookahead) : option lookahead :=
  get_scc_loop fuel v (activate_scc v (set_parent v null_literal s)).

Fixpoint get_scc_candidates (fuel : nat) (cands : list candidate.t) (s : lookahead)
  : option lookahead :=
  match cands with
  | [] => Some s
  | c :: cands' =>
      if inconsistent s then Some s
      else
        let lit := mk_literal (candidate.m_var c) false in
        match (if get_rank lit s =? 0 then get_scc_from fuel lit s else Some s) with
        | None => None
        | Some s =>
            match (if get_rank (~~lit) s =? 0 then get_scc_from fuel (~~lit) s else Some s) with
            | None => None
            | Some s => get_scc_candidates fuel cands' s
            end
        end
  end.

Definition get_scc (fuel : nat) (s : lookahead) : option lookahead :=
  let s := init_scc s in
  get_scc_candidates fuel (m_candidates s) s.

(** ** Lookahead forest (sat11.w 115-121) *)

Definition get_child (u : literal) (s : lookahead) : literal :=
  if bool_decide (u = null_literal) then m_root_child s else dfs_info.m_min (dfs_of u s).

Definition set_child (v u : literal) (s : lookahead) : lookahead :=
  if bool_decide (v = null_literal) then set_m_root_child u s else set_min v u s.

(** The inner loop of [find_heights]: the nodes in order of implication. *)
Fixpoint find_heights_next (u p : literal) (js : list nat) (h : N) (w : literal) (s : lookahead)
  : N * literal :=
  match js with
  | [] => (h, w)
  | j :: js' =>
      let v := ~~(get_next (~~u) j s) in
      let pv := get_parent v s in
      (* skip nodes in same equivalence, they will all be processed *)
      if bool_decide (pv = p) then find_heights_next u p js' h w s
      else
        let hh := get_height pv s in
        (* update the maximal height descendant *)
        if h <=? hh then find_heights_next u p js' (u32 (hh + 1)) pv s
        else find_heights_next u p js' h w s
  end.

Fixpoint find_heights_loop (fuel : nat) (u pp : literal) (h : N) (w : literal) (s : lookahead)
  : option lookahead :=
  if bool_decide (u = null_literal) then Some s
  else
    match fuel with
    | O => None
    | S fuel' =>
        let uu := get_link u s in
        let p := get_parent u s in
        let '(h, w, pp) := if bool_decide (p = pp) then (h, w, pp) else (0, null_literal, p) in
        let '(h, w) := find_heights_next u p (seq 0 (num_next (~~u) s)) h w s in
        let s :=
          if bool_decide (p = u) then
            (* u is an equivalence class representative; it is processed last *)
            let v := get_child w s in
            let s := set_height u h s in
            let s := set_child u null_literal s in
            let s := set_link u v s in
            set_child w u s
          else s in
        find_heights_loop fuel' uu pp h w s
    end.

Definition find_heights (fuel : nat) (s : lookahead) : option lookahead :=
  let s := set_m_root_child null_literal s in
  find_heights_loop fuel (m_settled s) null_literal 0 null_literal s.

Definition set_offset (idx : N) (offset : N) (s : lookahead) : lookahead :=
  set_m_lookahead
    (upd (m_lookahead s) idx
       (mk_literal_offset (m_lit (tnth (mk_literal_offset null_literal 0) (m_lookahead s) idx))
          offset)) s.
Definition set_lookahead (l : literal) (s : lookahead) : lookahead :=
  set_m_lookahead (m_lookahead s ++ [mk_literal_offset l 0]) s.

(** The two nested loops of [construct_lookahead_table]: [table_down] is
    the outer [while (u != null_literal)], [table_up] the inner
    [while (true)]. *)
Fixpoint table_down (fuel : nat) (u v : literal) (offset : N) (s : lookahead) : option lookahead :=
  if bool_decide (u = null_literal) then Some s
  else
    match fuel with
    | O => None
    | S fuel' =>
        let s := set_rank u (N.of_nat (length (m_lookahead s))) s in
        let s := set_lookahead (get_vcomp u s) s in
        if negb (bool_decide (null_literal = get_child u s)) then
          let s := set_parent u v s in
          table_down fuel' (get_child u s) u offset s
        else table_up fuel' u v offset s
    end
with table_up (fuel : nat) (u v : literal) (offset : N) (s : lookahead) : option lookahead :=
  match fuel with
  | O => None
  | S fuel' =>
      let s := set_offset (get_rank u s) offset s in
      let offset := u32 (offset + 2) in
      let s := set_parent u (if bool_decide (v = null_literal) then v else get_vcomp v s) s in
      let u := get_link u s in
      if bool_decide (u = null_literal) && negb (bool_decide (v = null_literal))
      then table_up fuel' v (get_parent v s) offset s
      else table_down fuel' u v offset s
  end.

Definition construct_lookahead_table (fuel : nat) (s : lookahead) : option lookahead :=
  table_down fuel (get_child null_literal s) null_literal 0 s.

Definition pre_select (fuel : nat) (s : lookahead) : option lookahead :=
  let s := set_m_lookahead [] s in
  match select fuel (scope_lvl s) s with
  | None => None
  | Some (false, s) => Some s
  | Some (true, s) =>
      match get_scc fuel s with
      | None => None
      | Some s =>
          if inconsistent s then Some s
          else
            match find_heights fuel s with
            | None => None
            | Some s => construct_lookahead_table fuel s
            end
      end
  end.

(** ** Initialization *)

Definition init_var (v : bool_var) (s : lookahead) : lookahead :=
  let s := set_m_binary (m_binary s ++ [[]; []]) s in
  let s := set_m_watches (m_watches s ++ [[]; []]) s in
  let s := set_m_full_watches (m_full_watches s ++ [[]; []]) s in
  let s := set_m_bstamp (m_bstamp s ++ [0; 0]) s in
  let s := set_m_stamp (m_stamp s ++ [0]) s in
  let s := set_m_dfs (m_dfs s ++ [dfs_info.reset; dfs_info.reset]) s in
  let s := set_m_lits (m_lits s ++ [mk_lit_info 0 0; mk_lit_info 0 0]) s in
  let s := set_m_rating (m_rating s ++ [0%float]) s in
  let s := set_m_vprefix (m_vprefix s ++ [prefix.mk 0 0]) s in
  if negb (was_eliminated (m_s s) v)
  then set_m_freevars (freevars_insert v (m_freevars s)) s
  else s.

Definition copy_clause (c : sclause) (s : lookahead) : lookahead :=
  if was_removed c then s
  else
    let off := length (m_cls_allocator s) in
    let s := set_m_cls_allocator (m_cls_allocator s ++ [c_lits c]) s in
    let s := set_m_clauses (m_clauses s ++ [off]) s in
    let s := attach_clause off s in
    let s := fold_left
               (fun s x =>
                  set_m_full_watches
                    (upd (m_full_watches s) (index (~~x))
                       (tnth [] (m_full_watches s) (index (~~x)) ++ [off])) s)
               (c_lits c) s in
    if s_drat (m_s s) then set_m_drat (m_drat s ++ [drat_clause (c_lits c) false]) s else s.

Definition copy_clauses (clauses : list sclause) (s : lookahead) : lookahead :=
  fold_left (fun s c => copy_clause c s) clauses s.

(** The binary clauses of the enclosing solver, each copied once. *)
Definition copy_binary (s : lookahead) : lookahead :=
  fold_left
    (fun s l_idx =>
       let l := ~~(to_literal (N.of_nat l_idx)) in
       fold_left (fun s l2 => if index l <? index l2 then add_binary l l2 s else s)
                 (nth_nat [] (s_watches (m_s s)) l_idx) s)
    (seq 0 (length (s_watches (m_s s)))) s.

Definition copy_units (s : lookahead) : lookahead :=
  fold_left
    (fun s l =>
       if negb (was_eliminated (m_s s) (var l)) then
         let s := if s_drat (m_s s) then set_m_drat (m_drat s ++ [drat_unit l false]) s else s in
         assign l s
       else s)
    (take (s_init_trail_size (m_s s)) (s_trail (m_s s))) s.

Definition is_ext_constraint (w : watched) : bool :=
  match w with EXT_CONSTRAINT _ => true | _ => false end.

(** The loop labelled "copy externals" goes over the watch lists of the
    lookahead itself and appends to the list it is reading each extension
    watch it meets (once each here; the source appends to the vector it
    iterates over). *)
Definition copy_externals (s : lookahead) : lookahead :=
  fold_left
    (fun s idx =>
       let wl := nth_nat [] (m_watches s) idx in
       set_m_watches
         (<[idx := wl ++ List.filter is_ext_constraint wl]>
            (m_watches s)) s)
    (seq 0 (length (m_watches s))) s.

Definition init (fuel : nat) (s : lookahead) : option lookahead :=
  let s := set_m_delta_trigger (double_of_nat (m_num_vars s / 10)) s in
  let s := set_m_config (mk_config 0.8 (m_alpha (m_config s)) (m_max_score (m_config s))
                           (m_max_hlevel (m_config s)) (m_min_cutoff (m_config s))
                           (m_level_cand (m_config s)) (m_delta_rho (m_config s))
                           (m_dl_max_iterations (m_config s)) (m_tc1_limit (m_config s))) s in
  let s := set_m_inconsistent false s in
  let s := set_m_qhead 0%nat s in
  let s := set_m_bstamp_id 0 s in
  let s := fold_left (fun s i => init_var (N.of_nat i) s) (seq 0 (m_num_vars s)) s in
  let s := copy_binary s in
  let s := copy_clauses (s_clauses (m_s s)) s in
  let s := copy_clauses (s_learned (m_s s)) s in
  let s := copy_units s in
  let s := copy_externals s in
  match propagate fuel s with
  | None => None
  | Some s => Some (set_m_qhead (length (m_trail s)) s)
  end.

(** ** Search *)

(** [scoped_level _sl] of the source sets [m_level] for the rest of the
    enclosing block and puts the saved level back when the block is left:
    [save] below. *)

Definition push (fuel : nat) (lit : literal) (level : N) (s : lookahead) : option lookahead :=
  let s := set_m_binary_trail_lim (m_binary_trail_lim s ++ [length (m_binary_trail s)]) s in
  let s := set_m_trail_lim (m_trail_lim s ++ [length (m_trail s)]) s in
  let s := set_m_num_tc1_lim (m_num_tc1_lim s ++ [m_num_tc1 s]) s in
  let s := set_m_retired_clause_lim (m_retired_clause_lim s ++ [length (m_retired_clauses s)]) s in
  let s := set_m_retired_ternary_lim (m_retired_ternary_lim s ++ [length (m_retired_ternary s)]) s in
  let s := set_m_qhead_lim (m_qhead_lim s ++ [m_qhead s]) s in
  let save := m_level s in
  let s := set_m_level level s in
  let s := set_m_assumptions (m_assumptions s ++ [~~lit]) s in
  let s := assign lit s in
  match propagate fuel s with
  | None => None
  | Some s => Some (set_m_level save s)
  end.

(** [pop] is its blocks in the order of the source. *)
Definition pop_assumptions (s : lookahead) : lookahead :=
  let s := if bool_decide (m_assumptions s = []) then verbose diag_empty_pop s else s in
  let s := set_m_assumptions (pop_back (m_assumptions s)) s in
  set_m_inconsistent false s.

(** m_freevars only for main search; undo assignments *)
Definition pop_trail (s : lookahead) : lookahead :=
  let old_sz := back 0%nat (m_trail_lim s) in
  let s := fold_left (fun s l => set_m_freevars (freevars_insert (var l) (m_freevars s))
                                   (set_undef l s))
                     (rev (drop old_sz (m_trail s))) s in
  let s := set_m_trail (take old_sz (m_trail s)) s in  (* reset assignment. *)
  set_m_trail_lim (pop_back (m_trail_lim s)) s.

Definition pop_num_tc1 (s : lookahead) : lookahead :=
  let s := set_m_num_tc1 (back 0 (m_num_tc1_lim s)) s in
  set_m_num_tc1_lim (pop_back (m_num_tc1_lim s)) s.

(** unretire clauses *)
Definition pop_retired_clauses (s : lookahead) : lookahead :=
  let old_sz := back 0%nat (m_retired_clause_lim s) in
  let s := fold_left (fun s off => attach_clause off s) (drop old_sz (m_retired_clauses s)) s in
  let s := set_m_retired_clauses (take old_sz (m_retired_clauses s)) s in
  set_m_retired_clause_lim (pop_back (m_retired_clause_lim s)) s.

Definition pop_retired_ternary (s : lookahead) : lookahead :=
  let old_sz := back 0%nat (m_retired_ternary_lim s) in
  let s := fold_left (fun s t => attach_ternary (m_u t) (m_v t) (m_w t) s)
                     (drop old_sz (m_retired_ternary s)) s in
  let s := set_m_retired_ternary (take old_sz (m_retired_ternary s)) s in
  set_m_retired_ternary_lim (pop_back (m_retired_ternary_lim s)) s.

(** remove local binary clauses *)
Definition pop_binary (s : lookahead) : lookahead :=
  let old_sz := back 0%nat (m_binary_trail_lim s) in
  let s := fold_left (fun s idx => del_binary idx s) (rev (drop old_sz (m_binary_trail s))) s in
  let s := set_m_binary_trail (take old_sz (m_binary_trail s)) s in
  set_m_binary_trail_lim (pop_back (m_binary_trail_lim s)) s.

(** reset propagation queue *)
Definition pop_qhead (s : lookahead) : lookahead :=
  let s := set_m_qhead (back 0%nat (m_qhead_lim s)) s in
  set_m_qhead_lim (pop_back (m_qhead_lim s)) s.

Definition pop (s : lookahead) : lookahead :=
  pop_qhead (pop_binary (pop_retired_ternary (pop_retired_clauses
    (pop_num_tc1 (pop_trail (pop_assumptions s)))))).

(** [pop] with the requirement of the vector operations written out.
    [pop] calls [pop_back()] on [m_assumptions] and [back()] on each of the
    six stacks of marks with no test that would stop it, so a call of [pop]
    returns, or it comes to one of these calls with the vector empty.  The
    source does not say what happens then: the run ends there, in the
    state in which the call is made.  (The calls inside [del_binary], which
    the source guards with an assertion of its own, are as in
    [pop_binary].) *)
Inductive pop_run :=
| pop_returns (s : lookahead)
| pop_empty_vector (s : lookahead).

Definition vec_guard {A} (v : list A) (s : lookahead) : pop_run :=
  match v with
  | [] => pop_empty_vector s
  | _ :: _ => pop_returns s
  end.

Definition pop_bind (r : pop_run) (f : lookahead -> pop_run) : pop_run :=
  match r with
  | pop_returns s => f s
  | pop_empty_vector s => pop_empty_vector s
  end.

Definition pop_checked (s : lookahead) : pop_run :=
  let s := if bool_decide (m_assumptions s = []) then verbose diag_empty_pop s else s in
  pop_bind (vec_guard (m_assumptions s) s) (fun s =>           (* m_assumptions.pop_back() *)
  let s := set_m_assumptions (pop_back (m_assumptions s)) s in
  let s := set_m_inconsistent false s in
  pop_bind (vec_guard (m_trail_lim s) s) (fun s =>             (* m_trail_lim.back() *)
  let s := pop_trail s in
  pop_bind (vec_guard (m_num_tc1_lim s) s) (fun s =>           (* m_num_tc1_lim.back() *)
  let s := pop_num_tc1 s in
  pop_bind (vec_guard (m_retired_clause_lim s) s) (fun s =>    (* m_retired_clause_lim.back() *)
  let s := pop_retired_clauses s in
  pop_bind (vec_guard (m_retired_ternary_lim s) s) (fun s =>   (* m_retired_ternary_lim.back() *)
  let s := pop_retired_ternary s in
  pop_bind (vec_guard (m_binary_trail_lim s) s) (fun s =>      (* m_binary_trail_lim.back() *)
  let s := pop_binary s in
  pop_bind (vec_guard (m_qhead_lim s) s) (fun s =>             (* m_qhead_lim.back() *)
  pop_returns (pop_qhead s)))))))).

(** Returns whether the probe ended in conflict. *)
Definition push_lookahead2 (fuel : nat) (lit : literal) (level : N) (s : lookahead)
  : option (bool * lookahead) :=
  let save := m_level s in
  let s := set_m_level level s in
  let s := set_m_search_mode lookahead2 s in
  let s := assign lit s in
  match propagate fuel s with
  | None => None
  | Some s =>
      let unsat := inconsistent s in
      let s := set_m_search_mode lookahead1 s in
      let s := set_m_inconsistent false s in
      Some (unsat, set_m_level save s)
  end.

Definition push_lookahead1 (fuel : nat) (lit : literal) (level : N) (s : lookahead)
  : option lookahead :=
  let s := set_m_search_mode lookahead1 s in
  let save := m_level s in
  let s := set_m_level level s in
  let s := assign lit s in
  match propagate fuel s with
  | None => None
  | Some s => Some (set_m_level save s)
  end.

Definition pop_lookahead1 (lit : literal) (s : lookahead) : lookahead :=
  let unsat := inconsistent s in
  let s := set_m_inconsistent false s in
  let s := set_m_search_mode searching s in
  (* convert windfalls to binary clauses. *)
  let s := if negb unsat
           then fold_left (fun s l2 => add_binary (~~lit) l2 s) (m_wstack s) s
           else s in
  set_m_wstack [] s.

(** ** Weighted new binaries

    Modelled from the spec: [get_wnb], [set_wnb], [inc_wnb], [dl_enabled],
    [dl_disable] and [dl_no_overflow] are declared in [sat_lookahead.h],
    which is not under src/; they read and write the per-literal record
    [m_lits[l.index()]]. *)

Definition get_wnb (l : literal) (s : lookahead) : float :=
  m_wnb (tnth (mk_lit_info 0 0) (m_lits s) (index l)).
Definition set_wnb (l : literal) (f : float) (s : lookahead) : lookahead :=
  set_m_lits (upd (m_lits s) (index l)
                (mk_lit_info f (m_double_lookahead (tnth (mk_lit_info 0 0) (m_lits s) (index l))))) s.
Definition inc_wnb (l : literal) (f : float) (s : lookahead) : lookahead :=
  set_wnb l (get_wnb l s + f)%float s.
Definition dl_enabled (l : literal) (s : lookahead) : bool :=
  negb (m_double_lookahead (tnth (mk_lit_info 0 0) (m_lits s) (index l)) =? m_istamp_id s).
Definition dl_disable (l : literal) (s : lookahead) : lookahead :=
  set_m_lits (upd (m_lits s) (index l) (mk_lit_info (get_wnb l s) (m_istamp_id s))) s.
Definition dl_no_overflow (base : N) (s : lookahead) : bool :=
  u64 (base + 2 * N.of_nat (length (m_lookahead s)) * (m_dl_max_iterations (m_config s) + 1))
  <? c_fixed_truth.

(** Modelled from the spec: [mix_diff] is declared in [sat_lookahead.h],
    which is not under src/; "the canonical mix is a*b + a + b". *)
Definition mix_diff (a b : float) : float := (a * b + a + b)%float.

Definition init_wnb (s : lookahead) : lookahead :=
  let s := set_m_qhead_lim (m_qhead_lim s ++ [m_qhead s]) s in
  set_m_trail_lim (m_trail_lim s ++ [length (m_trail s)]) s.

Definition reset_wnb (s : lookahead) : lookahead :=
  let s := set_m_qhead (back 0%nat (m_qhead_lim s)) s in
  let old_sz := back 0%nat (m_trail_lim s) in
  let s := fold_left (fun s l => set_undef l s) (drop old_sz (m_trail s)) s in
  let s := set_m_trail (take old_sz (m_trail s)) s in
  let s := set_m_trail_lim (pop_back (m_trail_lim s)) s in
  set_m_qhead_lim (pop_back (m_qhead_lim s)) s.

(** [reset_wnb(literal l)] *)
Definition reset_wnb_lit (l : literal) (s : lookahead) : lookahead :=
  let s := set_m_weighted_new_binaries 0%float s in
  (* inherit propagation effect from parent. *)
  let p := get_parent l s in
  set_wnb l (if bool_decide (p = null_literal) then 0%float else get_wnb p s) s.

(** The statements of [check_autarky] that stand after its first
    [return false;] and never run. *)
Definition check_autarky_body (l : literal) (level : N) (s : lookahead) : bool :=
  (* no propagations are allowed to reduce clauses. *)
  forallb (fun off => existsb (fun x => is_true x s) (get_clause off s))
          (tnth [] (m_full_watches s) (index l))
  (* bail out if there is a pending binary propagation. *)
  && forallb (fun l2 => is_true l2 s) (binary_of l s).

Definition check_autarky (l : literal) (level : N) (s : lookahead) : bool := false.

Definition update_wnb (fuel : nat) (l : literal) (level : N) (s : lookahead) : option lookahead :=
  if (m_weighted_new_binaries s =? 0)%float then
    if negb (check_autarky l level s) then Some s          (* skip *)
    else if (get_wnb l s =? 0)%float then
      let s := reset_wnb s in
      let s := assign l s in
      match propagate fuel s with
      | None => None
      | Some s => Some (init_wnb s)
      end
    else
      (* l => p is known, but p => l is possibly not.  add p => l. *)
      let p := get_parent l s in
      if tnth 0 (m_stamp s) (var l) <? tnth 0 (m_stamp s) (var p)
      then Some (set_level l p (add_binary (~~l) p s))
      else Some s
  else Some (inc_wnb l (m_weighted_new_binaries s) s).

(** The [for] loop of [double_look]; returns [change]. *)
Fixpoint double_look_pass (fuel : nat) (dl_truth base : N) (idxs : list nat) (change : bool)
    (s : lookahead) : option (bool * lookahead) :=
  match idxs with
  | [] => Some (change, s)
  | i :: idxs' =>
      if inconsistent s then Some (change, s)
      else
        let e := nth_nat (mk_literal_offset null_literal 0) (m_lookahead s) i in
        let lit := m_lit e in
        if is_fixed_at lit dl_truth s then double_look_pass fuel dl_truth base idxs' change s
        else
          match push_lookahead2 fuel lit (u32 (base + m_offset e)) s with
          | None => None
          | Some (false, s) => double_look_pass fuel dl_truth base idxs' change s
          | Some (true, s) =>
              let s := reset_wnb s in
              let s := assign (~~lit) s in
              match propagate fuel s with
              | None => None
              | Some s => double_look_pass fuel dl_truth base idxs' true (init_wnb s)
              end
          end
  end.

(** The [while] loop of [double_look]; [rounds] is what is left of
    [m_dl_max_iterations]. *)
Fixpoint double_look_loop (fuel : nat) (rounds : nat) (dl_truth base : N) (change : bool)
    (s : lookahead) : option (N * lookahead) :=
  match rounds with
  | O => Some (base, s)
  | S rounds' =>
      if change && negb (inconsistent s) then
        let base := u32 (base + 2 * N.of_nat (length (m_lookahead s))) in
        match double_look_pass fuel dl_truth base (seq 0 (length (m_lookahead s))) false s with
        | None => None
        | Some (change, s) => double_look_loop fuel rounds' dl_truth base change s
        end
      else Some (base, s)
  end.

(** Returns the new value of [base]. *)
Definition double_look (fuel : nat) (l : literal) (base : N) (s : lookahead)
  : option (N * lookahead) :=
  let dl_truth := u32 (base + 2 * N.of_nat (length (m_lookahead s))
                              * (m_dl_max_iterations (m_config s) + 1)) in
  let save := m_level s in
  let s := set_m_level dl_truth s in
  let s := init_wnb s in
  let s := assign l s in
  match propagate fuel s with
  | None => None
  | Some s =>
      match double_look_loop fuel (N.to_nat (m_dl_max_iterations (m_config s)))
              dl_truth base true s with
      | None => None
      | Some (_, s) => Some (dl_truth, set_m_level save (reset_wnb s))
      end
  end.

(** Returns the new value of [base]. *)
Definition do_double (fuel : nat) (l : literal) (base : N) (s : lookahead)
  : option (N * lookahead) :=
  if negb (inconsistent s) && (1 <? scope_lvl s)%nat && dl_enabled l s then
    if (m_delta_trigger s <? get_wnb l s)%float then
      if dl_no_overflow base s then
        match double_look fuel l base s with
        | None => None
        | Some (base, s) =>
            Some (base, dl_disable l (set_m_delta_trigger (get_wnb l s) s))
        end
      else Some (base, s)
    else Some (base, set_m_delta_trigger (m_delta_trigger s * m_delta_rho (m_config s))%float s)
  else Some (base, s).

(** ** Outcomes of the operations that reach a checkpoint *)

Inductive exn := Z3_CANCELED_MSG | Z3_MAX_MEMORY_MSG.

Inductive outcome (A : Type) :=
| Ret (a : A) (s : lookahead)
| Throw (e : exn) (s : lookahead)
| OutOfFuel.
Arguments Ret {A} a s.
Arguments Throw {A} e s.
Arguments OutOfFuel {A}.

Definition checkpoint (s : lookahead) : outcome unit :=
  let '(ok, r) := reslimit_inc (m_rlimit s) in
  let s := set_m_rlimit r s in
  if negb ok then Throw Z3_CANCELED_MSG s
  else if s_max_memory (m_s s) <? s_allocation_size (m_s s) then Throw Z3_MAX_MEMORY_MSG s
  else Ret tt s.

(** The [for] loop of [compute_wnb]; returns [base] and [change]. *)
Fixpoint compute_wnb_pass (fuel : nat) (first : bool) (idxs : list nat) (base : N)
    (change : bool) (s : lookahead) : outcome (N * bool) :=
  match idxs with
  | [] => Ret (base, change) s
  | i :: idxs' =>
      if inconsistent s then Ret (base, change) s
      else
        match checkpoint s with
        | Throw e s => Throw e s
        | OutOfFuel => OutOfFuel
        | Ret _ s =>
            let e := nth_nat (mk_literal_offset null_literal 0) (m_lookahead s) i in
            let lit := m_lit e in
            if is_fixed_at lit c_fixed_truth s then compute_wnb_pass fuel first idxs' base change s
            else
              let level := u32 (base + m_offset e) in
              if level <=? tnth 0 (m_stamp s) (var lit)
              then compute_wnb_pass fuel first idxs' base change s
              else
                let s := reset_wnb_lit lit s in
                match push_lookahead1 fuel lit level s with
                | None => OutOfFuel
                | Some s =>
                    match (if negb first then do_double fuel lit base s else Some (base, s)) with
                    | None => OutOfFuel
                    | Some (base, s) =>
                        let unsat := inconsistent s in
                        let s := pop_lookahead1 lit s in
                        if unsat then
                          (* backtracking and setting ~lit *)
                          let s := reset_wnb s in
                          let s := assign (~~lit) s in
                          match propagate fuel s with
                          | None => OutOfFuel
                          | Some s => compute_wnb_pass fuel first idxs' base true (init_wnb s)
                          end
                        else
                          match update_wnb fuel lit level s with
                          | None => OutOfFuel
                          | Some s => compute_wnb_pass fuel first idxs' base change s
                          end
                    end
                end
        end
  end.

(** The [while (change && !inconsistent())] loop of [compute_wnb]. *)
Fixpoint compute_wnb_loop (fuel : nat) (rounds : nat) (first : bool) (base : N) (change : bool)
    (s : lookahead) : outcome unit :=
  if change && negb (inconsistent s) then
    match rounds with
    | O => OutOfFuel
    | S rounds' =>
        match compute_wnb_pass fuel first (seq 0 (length (m_lookahead s))) base false s with
        | Throw e s => Throw e s
        | OutOfFuel => OutOfFuel
        | Ret (base, change) s =>
            if u32_sub c_fixed_truth (u32 (2 * N.of_nat (length (m_lookahead s)))) <? base
            then Ret tt s
            else
              let '(first, change) :=
                if first && negb change then (false, true) else (first, change) in
              compute_wnb_loop fuel rounds' first base change (init_wnb (reset_wnb s))
        end
    end
  else Ret tt s.

Definition compute_wnb (fuel : nat) (s : lookahead) : outcome unit :=
  let s := init_wnb s in
  match compute_wnb_loop fuel fuel true 2 true s with
  | Throw e s => Throw e s
  | OutOfFuel => OutOfFuel
  | Ret _ s => Ret tt (reset_wnb s)
  end.

(** Returns [l], [h] and [count] after the entry [e]. *)
Definition select_literal_step (e : literal_offset) (l : literal) (h : float) (count : N)
    (s : lookahead) : literal * float * N * lookahead :=
  let lit := m_lit e in
  if sign lit || negb (is_undef lit s) then (l, h, count, s)
  else
    let diff1 := get_wnb lit s in
    let diff2 := get_wnb (~~lit) s in
    let mixd := mix_diff diff1 diff2 in
    let count := if (mixd =? h)%float then u32 (count + 1) else count in
    let pick := if (diff1 <? diff2)%float then lit else ~~lit in
    if (h <? mixd)%float then (pick, mixd, 1, s)
    else if (mixd =? h)%float then
      let '(r, seed) := rand_next (s_rand (m_s s)) in
      let ms := m_s s in
      let s := set_m_s (mk_solver (s_watches ms) (s_clauses ms) (s_learned ms) (s_trail ms)
                          (s_init_trail_size ms) (s_eliminated ms) (s_drat ms)
                          (s_max_memory ms) (s_allocation_size ms) seed (s_ext ms)) s in
      if r mod count =? 0 then (pick, mixd, count, s) else (l, h, count, s)
    else (l, h, count, s).

Definition select_literal (s : lookahead) : literal * lookahead :=
  let '(l, _, _, s) :=
    fold_left (fun '(l, h, count, s) e => select_literal_step e l h count s)
              (m_lookahead s) (null_literal, 0%float, 1, s) in
  (l, s).

(** The [while (inconsistent())] loop of [backtrack]; the decisions are
    taken off the end of [trail]. *)
Fixpoint backtrack (fuel : nat) (rounds : nat) (trail : list literal) (s : lookahead)
  : option (bool * list literal * lookahead) :=
  if inconsistent s then
    match rounds with
    | O => None
    | S rounds' =>
        if bool_decide (trail = []) then Some (false, trail, s)
        else
          let s := pop s in
          let s := flip_prefix s in
          let s := assign (~~(back null_literal trail)) s in
          match propagate fuel s with
          | None => None
          | Some s => backtrack fuel rounds' (pop_back trail) s
          end
    end
  else Some (true, trail, s).

Fixpoint choose (fuel : nat) (s : lookahead) : outcome literal :=
  match fuel with
  | O => OutOfFuel
  | S fuel' =>
      match pre_select fuel s with
      | None => OutOfFuel
      | Some s =>
          if bool_decide (m_lookahead s = []) then Ret null_literal s
          else
            match compute_wnb fuel s with
            | Throw e s => Throw e s
            | OutOfFuel => OutOfFuel
            | Ret _ s =>
                if inconsistent s then Ret null_literal s
                else
                  let '(l, s) := select_literal s in
                  if bool_decide (l = null_literal) then choose fuel' s else Ret l s
            end
      end
  end.

(** The [while (true)] loop of [search]. *)
Fixpoint search_loop (fuel : nat) (rounds : nat) (trail : list literal) (s : lookahead)
  : outcome lbool :=
  match rounds with
  | O => OutOfFuel
  | S rounds' =>
      let s := inc_istamp s in
      match checkpoint s with
      | Throw e s => Throw e s
      | OutOfFuel => OutOfFuel
      | Ret _ s =>
          if inconsistent s then
            match backtrack fuel (S (length trail)) trail s with
            | None => OutOfFuel
            | Some (false, _, s) => Ret l_false s
            | Some (true, trail, s) => search_loop fuel rounds' trail s
            end
          else
            match choose fuel s with
            | Throw e s => Throw e s
            | OutOfFuel => OutOfFuel
            | Ret l s =>
                if inconsistent s then
                  match backtrack fuel (S (length trail)) trail s with
                  | None => OutOfFuel
                  | Some (false, _, s) => Ret l_false s
                  | Some (true, trail, s) => search_loop fuel rounds' trail s
                  end
                else if bool_decide (l = null_literal) then Ret l_true s
                else
                  match push fuel l c_fixed_truth s with
                  | None => OutOfFuel
                  | Some s => search_loop fuel rounds' (trail ++ [l]) s
                  end
            end
      end
  end.

Definition search (fuel : nat) (s : lookahead) : outcome lbool :=
  let s := set_m_model [] s in
  let save := m_level s in
  let s := set_m_level c_fixed_truth s in
  let s := set_m_search_mode searching s in
  match search_loop fuel fuel [] s with
  | Ret r s => Ret r (set_m_level save s)
  | Throw e s => Throw e (set_m_level save s)
  | OutOfFuel => OutOfFuel
  end.

Definition init_model (s : lookahead) : lookahead :=
  let s := set_m_model [] s in
  fold_left
    (fun s i =>
       let lit := mk_literal (N.of_nat i) false in
       let val := l_undef in                   (* lbool val, not yet given a value *)
       let val := if is_undef lit s then l_undef else val in
       let val := if is_true lit s then l_true else l_false in
       set_m_model (m_model s ++ [val]) s)
    (seq 0 (m_num_vars s)) s.

Definition init_search (fuel : nat) (s : lookahead) : option lookahead :=
  let s := set_m_search_mode searching s in
  let save := m_level s in
  let s := set_m_level c_fixed_truth s in
  match init fuel s with
  | None => None
  | Some s => Some (set_m_level save s)
  end.

Definition get_model (s : lookahead) : list lbool * lookahead :=
  let s := if bool_decide (m_model s = []) then init_model s else s in
  (m_model s, s).

(** Modelled from the spec: [check] is declared in [sat_lookahead.h], which
    is not under src/; the search driver of section 4.8 starts with
    [init()] and runs the decision loop. *)
Definition check (fuel : nat) (s : lookahead) : outcome lbool :=
  match init_search fuel s with
  | None => OutOfFuel
  | Some s => search fuel s
  end.

(** ** Construction and the scenarios of the specification *)

(** Modelled from the spec: the constructor and the default options are in
    [sat_lookahead.h], which is not under src/.  Section 6 names the
    options; "all structures are created by [init()] from the external
    solver's clause database", so a new object has empty tables. *)
Definition default_config : config :=
  mk_config 0.8 3.5 20 50 30 600 0.9995 32 10000000.

Definition new_lookahead (ms : solver) (num_vars : nat) : lookahead :=
  mk_lookahead ms num_vars (mk_reslimit 0 0 false) default_config 0%float
    [] [] [] [] [] [] [] 0 [] 0%nat [] [] [] [] [] [] [] false [] [] 0%nat [] 0 0 [] 2
    [] [] [] 0%float [] 0 [] [] searching [] [] [] null_literal 0 null_literal []
    null_literal [] [].

(** The literals [+x] and [-x] of section 8, for [x] from 1. *)
Definition pos (x : N) : literal := mk_literal (x - 1) false.
Definition neg (x : N) : literal := mk_literal (x - 1) true.

(** The binary clause [(a \/ b)] as the enclosing solver watches it. *)
Definition watch_binary (a b : literal) (w : list (list literal)) : list (list literal) :=
  let w := upd w (index (~~a)) (tnth [] w (index (~~a)) ++ [b]) in
  upd w (index (~~b)) (tnth [] w (index (~~b)) ++ [a]).

(** An enclosing solver over [n] variables that holds the binary clauses
    [bins], the longer clauses [cls] and the units [units], with no
    variable eliminated, no proof sink and no extension. *)
Definition solver_of_cnf (n : nat) (bins : list (literal * literal))
    (cls : list (list literal)) (units : list literal) : solver :=
  mk_solver (fold_left (fun w ab => watch_binary ab.1 ab.2 w) bins (replicate (2 * n) []))
    (map (fun c => mk_sclause c false) cls) [] units (length units)
    (replicate n false) false 1000000000 0 0 None.

Definition lookahead_of_cnf (n : nat) (bins : list (literal * literal))
    (cls : list (list literal)) (units : list literal) : lookahead :=
  new_lookahead (solver_of_cnf n bins cls units) n.

(** The state in which [search] starts: after [init_search]. *)
Definition initial (fuel : nat) (s : lookahead) : lookahead :=
  match init_search fuel s with
  | Some s' => s'
  | None => s
  end.

(** Scenario 1: { (+1 \/ +2) }. *)
Definition trivial_sat : lookahead := lookahead_of_cnf 2 [(pos 1, pos 2)] [] [].

(** Scenario 3: { (+1 \/ +2), (-1 \/ -2), (+1 \/ -2), (-1 \/ +2) }. *)
Definition pigeonhole : lookahead :=
  lookahead_of_cnf 2 [(pos 1, pos 2); (neg 1, neg 2); (pos 1, neg 2); (neg 1, pos 2)] [] [].

(** Scenario 4: { (+1 \/ +2 \/ +3), (+1 \/ -2 \/ +4) }. *)
Definition autarky_trigger : lookahead :=
  lookahead_of_cnf 4 [] [[pos 1; pos 2; pos 3]; [pos 1; neg 2; pos 4]] [].

(** * Properties *)

(** ** Tables and vectors *)

Lemma tnth_lookup {A} (d : A) (t : list A) (i : N) :
  tnth d t i = default d (t !! N.to_nat i).
Proof.
  unfold tnth. destruct (N.ltb_spec i (N.of_nat (length t))) as [H|H]; [done|].
  rewrite lookup_ge_None_2; [done|lia].
Qed.

Lemma upd_insert {A} (t : list A) (i : N) (x : A) :
  upd t i x = <[N.to_nat i := x]> t.
Proof.
  unfold upd. destruct (N.ltb_spec i (N.of_nat (length t))) as [H|H]; [done|].
  rewrite list_insert_ge; [done|lia].
Qed.

Lemma length_upd {A} (t : list A) (i : N) (x : A) : length (upd t i x) = length t.
Proof. rewrite upd_insert. apply length_insert. Qed.

Lemma tnth_upd_eq {A} (d : A) (t : list A) (i : N) (x : A) :
  (N.to_nat i < length t)%nat -> tnth d (upd t i x) i = x.
Proof.
  intros H. rewrite tnth_lookup, upd_insert, list_lookup_insert_eq; done.
Qed.

Lemma tnth_upd_ne {A} (d : A) (t : list A) (i j : N) (x : A) :
  i <> j -> tnth d (upd t i x) j = tnth d t j.
Proof.
  intros H. rewrite !tnth_lookup, upd_insert, list_lookup_insert_ne; [done|lia].
Qed.

Lemma back_snoc {A} (d : A) (t : list A) (x : A) : back d (t ++ [x]) = x.
Proof. unfold back. by rewrite last_snoc. Qed.

Lemma pop_back_snoc {A} (t : list A) (x : A) : pop_back (t ++ [x]) = t.
Proof. apply removelast_last. Qed.

Lemma fold_left_frame {A B} (f : lookahead -> A -> lookahead) (proj : lookahead -> B) :
  (forall s a, proj (f s a) = proj s) ->
  forall l s, proj (fold_left f l s) = proj s.
Proof.
  intros Hf l. induction l as [|a l IH]; intros s; simpl; [done|].
  by rewrite IH, Hf.
Qed.

(** ** Literals *)

Lemma lxor1_div2 (i : N) : N.div2 (N.lxor i 1) = N.div2 i.
Proof. destruct i as [|[p|p|]]; reflexivity. Qed.

Lemma lxor1_odd (i : N) : N.odd (N.lxor i 1) = negb (N.odd i).
Proof. destruct i as [|[p|p|]]; reflexivity. Qed.

Lemma lxor1_invol (i : N) : N.lxor (N.lxor i 1) 1 = i.
Proof. destruct i as [|[p|p|]]; reflexivity. Qed.

Lemma lt_double_div2 (i n : N) : i < 2 * n <-> N.div2 i < n.
Proof.
  pose proof (N.div2_odd i) as H. destruct (N.odd i); simpl in H; lia.
Qed.

Lemma lxor1_lt (i n : N) : i < 2 * n <-> N.lxor i 1 < 2 * n.
Proof. by rewrite !lt_double_div2, lxor1_div2. Qed.

Lemma var_lnot (l : literal) : var (~~l) = var l.
Proof. apply lxor1_div2. Qed.

Lemma sign_lnot (l : literal) : sign (~~l) = negb (sign l).
Proof. apply lxor1_odd. Qed.

Lemma lnot_lnot (l : literal) : ~~(~~l) = l.
Proof. destruct l as [i]. unfold lnot. simpl. by rewrite lxor1_invol. Qed.

Lemma lnot_inj (l1 l2 : literal) : ~~l1 = ~~l2 -> l1 = l2.
Proof. intros H. by rewrite <- (lnot_lnot l1), H, lnot_lnot. Qed.

Lemma lnot_ne (l : literal) : ~~l <> l.
Proof.
  destruct l as [i]. unfold lnot. simpl. intros H. injection H as H.
  destruct i as [|[p|p|]]; discriminate.
Qed.

(** ** Stamp epochs (C8) *)

(** Every stamp in the table was written at the current epoch or before,
    and the epoch is a 32-bit value: what [init], [set_bstamp] and
    [inc_bstamp] keep. *)
Definition bstamp_inv (s : lookahead) : Prop :=
  Forall (fun x => x <= m_bstamp_id s) (m_bstamp s) /\ m_bstamp_id s <= UINT_MAX.

Lemma bstamp_inv_set_bstamp (l : literal) (s : lookahead) :
  bstamp_inv s -> bstamp_inv (set_bstamp l s).
Proof.
  intros [H1 H2]. split; [|done]. unfold set_bstamp. simpl.
  rewrite upd_insert. apply Forall_insert; [done|lia].
Qed.

Lemma tnth_zeros (t : list N) (i : N) : tnth 0 (map (fun _ => 0) t) i = 0.
Proof.
  rewrite tnth_lookup, list_lookup_fmap. by destruct (t !! N.to_nat i).
Qed.

(** C8.  After [inc_bstamp] no literal carries the current epoch, given
    that no stamp in the table is ahead of the epoch; the table keeps that
    property; and when the 32-bit epoch wraps around to 0 the table is set
    to zero and the epoch is incremented a second time, to 1. *)
Theorem inc_bstamp_no_literal_stamped (s : lookahead) :
  bstamp_inv s ->
  (forall l, is_stamped l (inc_bstamp s) = false)
  /\ bstamp_inv (inc_bstamp s)
  /\ (m_bstamp_id s = UINT_MAX ->
      m_bstamp_id (inc_bstamp s) = 1
      /\ m_bstamp (inc_bstamp s) = map (fun _ => 0) (m_bstamp s)).
Proof.
  intros [Hle Hid]. unfold inc_bstamp, is_stamped, bstamp_inv, UINT_MAX in *. simpl.
  destruct (N.eqb_spec (u32 (m_bstamp_id s + 1)) 0) as [Hz|Hnz]; simpl.
  - rewrite Hz. change (u32 (0 + 1)) with 1. repeat split.
    + intros l. by rewrite tnth_zeros.
    + apply Forall_fmap, Forall_true. simpl. lia.
    + lia.
  - assert (Hlt : m_bstamp_id s + 1 < 4294967296).
    { destruct (N.lt_ge_cases (m_bstamp_id s + 1) 4294967296) as [?|Hge]; [done|].
      assert (m_bstamp_id s + 1 = 4294967296) as Heq by lia.
      rewrite Heq in Hnz. by exfalso. }
    assert (Hu : u32 (m_bstamp_id s + 1) = m_bstamp_id s + 1).
    { unfold u32. by apply N.mod_small. }
    rewrite Hu. split; [|split; [split|]].
    + intros l. apply N.eqb_neq. rewrite tnth_lookup.
      destruct (m_bstamp s !! N.to_nat (index l)) as [x|] eqn:Hx; simpl; [|lia].
      eapply Forall_lookup_1 in Hle; [|done]. simpl in Hle. lia.
    + eapply Forall_impl; [done|]. simpl. lia.
    + lia.
    + intros Heq. lia.
Qed.

Definition bstamp_example : lookahead :=
  set_m_bstamp [0; 3; 5; 4] (set_m_bstamp_id 5 (lookahead_of_cnf 2 [] [] [])).

Lemma inc_bstamp_no_literal_stamped_witness :
  bstamp_inv bstamp_example
  /\ (forall l, is_stamped l (inc_bstamp bstamp_example) = false).
Proof.
  assert (H : bstamp_inv bstamp_example).
  { split; [|vm_compute; discriminate].
    repeat constructor; vm_compute; discriminate. }
  split; [exact H|].
  exact (proj1 (inc_bstamp_no_literal_stamped bstamp_example H)).
Defined.

(** ** Binary adjacency (C6) *)

(** A literal of a solver with [n] variables. *)
Definition lit_ok (n : N) (l : literal) : Prop := index l < 2 * n.

Lemma lit_ok_lnot (n : N) (l : literal) : lit_ok n l <-> lit_ok n (~~l).
Proof. unfold lit_ok, lnot. simpl. apply lxor1_lt. Qed.

Lemma index_inj (l1 l2 : literal) : index l1 = index l2 -> l1 = l2.
Proof. destruct l1, l2. simpl. by intros ->. Qed.

Lemma upd_tnth_id {A} (d : A) (t : list A) (i : N) : upd t i (tnth d t i) = t.
Proof.
  rewrite upd_insert, tnth_lookup.
  destruct (t !! N.to_nat i) as [x|] eqn:E; simpl.
  - by apply list_insert_id.
  - apply list_insert_ge. by apply lookup_ge_None.
Qed.

Lemma upd_upd_eq {A} (t : list A) (i : N) (x y : A) : upd (upd t i x) i y = upd t i y.
Proof. rewrite !upd_insert. apply list_insert_insert_eq. Qed.

Lemma upd_upd_ne {A} (t : list A) (i j : N) (x y : A) :
  i <> j -> upd (upd t i x) j y = upd (upd t j y) i x.
Proof. intros H. rewrite !upd_insert. apply list_insert_insert_ne. lia. Qed.

(** What [add_binary] does to the table [m_binary] when it adds. *)
Definition add_tbl (u v : literal) (b : list (list literal)) : list (list literal) :=
  let b1 := upd b (index (~~u)) (tnth [] b (index (~~u)) ++ [v]) in
  upd b1 (index (~~v)) (tnth [] b1 (index (~~v)) ++ [u]).

(** What [del_binary] does to the table [m_binary]. *)
Definition del_tbl (idx : N) (b : list (list literal)) : list (list literal) :=
  let lits := tnth [] b idx in
  let l := back null_literal lits in
  let b1 := upd b idx (pop_back lits) in
  upd b1 (index (~~l)) (pop_back (tnth [] b1 (index (~~l)))).

(** The two tests of [add_binary] that make it return at once. *)
Definition add_skips (u v : literal) (s : lookahead) : bool :=
  bool_decide (~~u = v)
  || (negb (bool_decide (binary_of (~~u) s = []))
      && bool_decide (back null_literal (binary_of (~~u) s) = v)).

Lemma m_binary_add_binary (u v : literal) (s : lookahead) :
  m_binary (add_binary u v s)
  = if add_skips u v s then m_binary s else add_tbl u v (m_binary s).
Proof.
  unfold add_binary, add_skips, add_tbl, binary_of, validate_binary.
  repeat case_bool_decide; simpl; try done;
  repeat case_match; simpl; try done.
Qed.

Lemma m_binary_trail_add_binary (u v : literal) (s : lookahead) :
  m_binary_trail (add_binary u v s)
  = if add_skips u v s then m_binary_trail s else m_binary_trail s ++ [index (~~u)].
Proof.
  unfold add_binary, add_skips, binary_of, validate_binary.
  repeat case_bool_decide; simpl; try done;
  repeat case_match; simpl; try done.
Qed.

Lemma m_binary_del_binary (idx : N) (s : lookahead) :
  m_binary (del_binary idx s) = del_tbl idx (m_binary s).
Proof.
  unfold del_binary, del_tbl, binary_of, verbose. simpl.
  case_bool_decide; simpl; done.
Qed.

Lemma del_add_tbl (n : N) (u v : literal) (b : list (list literal)) :
  length b = N.to_nat (2 * n) -> lit_ok n u -> lit_ok n v ->
  del_tbl (index (~~u)) (add_tbl u v b) = b.
Proof.
  intros Hlen Hu Hv. apply lit_ok_lnot in Hu, Hv. unfold lit_ok in *.
  assert (Ha : (N.to_nat (index (~~u)) < length b)%nat) by lia.
  assert (Hc : (N.to_nat (index (~~v)) < length b)%nat) by lia.
  unfold del_tbl, add_tbl.
  destruct (decide (index (~~u) = index (~~v))) as [Heq|Hne].
  - assert (u = v) as <- by (by apply lnot_inj, index_inj).
    rewrite (tnth_upd_eq _ b) by (rewrite ?length_upd; done). rewrite upd_upd_eq.
    rewrite tnth_upd_eq by (rewrite ?length_upd; done). rewrite back_snoc, pop_back_snoc, upd_upd_eq.
    rewrite tnth_upd_eq by (rewrite ?length_upd; done). rewrite pop_back_snoc, upd_upd_eq.
    apply upd_tnth_id.
  - rewrite (tnth_upd_ne _ b) by (rewrite ?length_upd; done).
    rewrite (tnth_upd_ne _ (upd b _ _) (index (~~v)) (index (~~u))) by (rewrite ?length_upd; done).
    rewrite tnth_upd_eq by (rewrite ?length_upd; done).
    rewrite back_snoc, pop_back_snoc.
    rewrite (upd_upd_ne _ (index (~~v)) (index (~~u))) by (rewrite ?length_upd; done).
    repeat (rewrite upd_upd_eq || rewrite upd_tnth_id || rewrite pop_back_snoc
            || rewrite tnth_upd_eq by (rewrite ?length_upd; done)).
    done.
Qed.

Lemma elem_of_add_tbl (n : N) (u v : literal) (b : list (list literal)) (l : literal) (i : N) :
  length b = N.to_nat (2 * n) -> lit_ok n u -> lit_ok n v ->
  l ∈ tnth [] (add_tbl u v b) i
  <-> l ∈ tnth [] b i \/ (i = index (~~u) /\ l = v) \/ (i = index (~~v) /\ l = u).
Proof.
  intros Hlen Hu Hv. apply lit_ok_lnot in Hu, Hv. unfold lit_ok in *.
  assert (Ha : (N.to_nat (index (~~u)) < length b)%nat) by lia.
  assert (Hc : (N.to_nat (index (~~v)) < length b)%nat) by lia.
  unfold add_tbl.
  set (a := index (~~u)) in *. set (c := index (~~v)) in *.
  destruct (decide (c = i)) as [Hci|Hci].
  - rewrite <- Hci. rewrite tnth_upd_eq by (rewrite ?length_upd; done).
    destruct (decide (a = c)) as [Hac|Hac].
    + rewrite Hac. rewrite tnth_upd_eq by done.
      rewrite !elem_of_app, !list_elem_of_singleton. intuition congruence.
    + rewrite tnth_upd_ne by done.
      rewrite !elem_of_app, !list_elem_of_singleton. intuition congruence.
  - rewrite (tnth_upd_ne _ _ c i) by done.
    destruct (decide (a = i)) as [Hai|Hai].
    + rewrite <- Hai. rewrite tnth_upd_eq by done.
      rewrite !elem_of_app, !list_elem_of_singleton. intuition congruence.
    + rewrite tnth_upd_ne by done. intuition congruence.
Qed.

Lemma length_add_tbl (u v : literal) (b : list (list literal)) :
  length (add_tbl u v b) = length b.
Proof. unfold add_tbl. by rewrite !length_upd. Qed.

Lemma length_m_binary_add_binary (u v : literal) (s : lookahead) :
  length (m_binary (add_binary u v s)) = length (m_binary s).
Proof. rewrite m_binary_add_binary. case_match; [done|]. apply length_add_tbl. Qed.

Lemma add_skips_false (u v : literal) (s : lookahead) :
  add_skips u v s = false <-> ~~u <> v /\ last (binary_of (~~u) s) <> Some v.
Proof.
  unfold add_skips, back.
  destruct (binary_of (~~u) s) as [|x t _] using rev_ind.
  - repeat case_bool_decide; simpl; intuition congruence.
  - rewrite last_snoc. simpl.
    repeat case_bool_decide; simpl; try (intuition congruence).
    by destruct t.
Qed.

Lemma add_binary_skip (u v : literal) (s : lookahead) :
  add_skips u v s = true -> add_binary u v s = s.
Proof.
  unfold add_skips, add_binary. intros H.
  case_bool_decide; [done|]. simpl in H. by rewrite H.
Qed.

(** The adjacency lists hold each binary clause in both directions. *)
Definition binary_sym (s : lookahead) : Prop :=
  forall a b, b ∈ binary_of (~~a) s <-> a ∈ binary_of (~~b) s.

Lemma binary_sym_add_binary (n : N) (u v : literal) (s : lookahead) :
  length (m_binary s) = N.to_nat (2 * n) -> lit_ok n u -> lit_ok n v ->
  binary_sym s -> binary_sym (add_binary u v s).
Proof.
  intros Hlen Hu Hv Hsym a b. unfold binary_of. rewrite m_binary_add_binary.
  destruct (add_skips u v s); [apply Hsym|].
  rewrite !(elem_of_add_tbl n) by done.
  specialize (Hsym a b). unfold binary_of in Hsym.
  split; intros [H|[[H1 H2]|[H1 H2]]]; try (left; tauto);
    apply index_inj, lnot_inj in H1; subst; tauto.
Qed.

(** After [add_binary u v], unless [(u \/ v)] is a tautology, each literal
    is in the list of the complement of the other. *)
Lemma add_binary_elem (n : N) (u v : literal) (s : lookahead) :
  length (m_binary s) = N.to_nat (2 * n) -> lit_ok n u -> lit_ok n v ->
  binary_sym s -> ~~u <> v ->
  v ∈ binary_of (~~u) (add_binary u v s) /\ u ∈ binary_of (~~v) (add_binary u v s).
Proof.
  intros Hlen Hu Hv Hsym Hne. unfold binary_of. rewrite m_binary_add_binary.
  destruct (add_skips u v s) eqn:E.
  - assert (Hin : v ∈ binary_of (~~u) s).
    { unfold add_skips in E. rewrite bool_decide_false in E by done. simpl in E.
      apply andb_true_iff in E as [E1 E2]. apply bool_decide_eq_true in E2.
      unfold back in E2. destruct (last (binary_of (~~u) s)) as [x|] eqn:El.
      - simpl in E2. subst x. apply last_Some in El as [t ->].
        apply elem_of_app. right. by apply list_elem_of_singleton.
      - apply last_None in El. rewrite El in E1. by rewrite bool_decide_true in E1. }
    split; [done|]. by apply Hsym.
  - rewrite !(elem_of_add_tbl n) by done. tauto.
Qed.

(** What [add_binary] has put in a list stays there. *)
Lemma add_binary_mono (n : N) (u v : literal) (s : lookahead) (l x : literal) :
  length (m_binary s) = N.to_nat (2 * n) -> lit_ok n u -> lit_ok n v ->
  x ∈ binary_of l s -> x ∈ binary_of l (add_binary u v s).
Proof.
  intros Hlen Hu Hv Hin. unfold binary_of in *. rewrite m_binary_add_binary.
  destruct (add_skips u v s); [done|].
  rewrite (elem_of_add_tbl n) by done. by left.
Qed.

(** C6.  In a solver with [n] variables whose adjacency lists hold every
    binary clause in both directions, [add_binary u v] keeps them so; it
    returns at once on a tautology ([~u = v]) and when the last element of
    [adj(~u)] is already [v]; otherwise, and also in the second of these
    cases, [v] is in [adj(~u)] and [u] in [adj(~v)] afterwards; and
    [del_binary] on the index that an addition recorded removes both
    entries again. *)
Theorem add_binary_symmetric (n : N) (u v : literal) (s : lookahead) :
  length (m_binary s) = N.to_nat (2 * n) -> lit_ok n u -> lit_ok n v ->
  binary_sym s ->
  binary_sym (add_binary u v s)
  /\ (~~u = v -> add_binary u v s = s)
  /\ (last (binary_of (~~u) s) = Some v -> add_binary u v s = s)
  /\ (~~u <> v ->
      v ∈ binary_of (~~u) (add_binary u v s) /\ u ∈ binary_of (~~v) (add_binary u v s))
  /\ (~~u <> v -> last (binary_of (~~u) s) <> Some v ->
      m_binary (del_binary (index (~~u)) (add_binary u v s)) = m_binary s).
Proof.
  intros Hlen Hu Hv Hsym. split; [by eapply binary_sym_add_binary|].
  split; [|split; [|split]].
  - intros H. apply add_binary_skip. unfold add_skips. by rewrite bool_decide_true.
  - intros H. apply add_binary_skip.
    destruct (add_skips u v s) eqn:E; [done|]. apply add_skips_false in E. tauto.
  - intros Hne. by eapply add_binary_elem.
  - intros H1 H2. rewrite m_binary_del_binary, m_binary_add_binary.
    rewrite (proj2 (add_skips_false u v s)) by done. by eapply del_add_tbl.
Qed.

(** ** Scopes: what a push records and a pop undoes (C3) *)

(** The six scope stacks. *)
Definition lims (s : lookahead)
  : list nat * list nat * list nat * list N * list nat * list nat :=
  (m_trail_lim s, m_qhead_lim s, m_binary_trail_lim s, m_num_tc1_lim s,
   m_retired_clause_lim s, m_retired_ternary_lim s).

Definition watch_ok (n : N) (na : nat) (w : watched) : Prop :=
  match w with
  | TERNARY l1 l2 => lit_ok n l1 /\ lit_ok n l2
  | CLAUSE _ off => (off < na)%nat
  | _ => True
  end.

Definition clause_ok (n : N) (c : list literal) : Prop :=
  (2 <= length c)%nat /\ Forall (lit_ok n) c.

Definition call_ok (n : N) (c : ext_call) : Prop :=
  match c with ExtAssign l => lit_ok n l | ExtConflict => True end.

Definition ext_ok (n : N) (e : extension) : Prop :=
  forall view l idx, Forall (call_ok n) (fst (ext_propagate e view l idx)).

(** A well-formed state of a solver with [n] variables: the adjacency table
    has an entry per literal, and every literal that the binary lists, the
    trail, the watches, the clauses or the extension can hand to the
    propagation engine is a literal of these variables. *)
Record wf (n : N) (s : lookahead) : Prop := mk_wf {
  wf_binary_len : length (m_binary s) = N.to_nat (2 * n);
  wf_binary : Forall (Forall (lit_ok n)) (m_binary s);
  wf_trail : Forall (lit_ok n) (m_trail s);
  wf_watches : Forall (Forall (watch_ok n (length (m_cls_allocator s)))) (m_watches s);
  wf_clauses : Forall (clause_ok n) (m_cls_allocator s);
  wf_ext : forall e, s_ext (m_s s) = Some e -> ext_ok n e
}.

(** What [pop] does to the adjacency table for the binary-trail entries [suf]. *)
Definition undo_binary (suf : list N) (b : list (list literal)) : list (list literal) :=
  fold_left (fun b idx => del_tbl idx b) (rev suf) b.

(** [s'] comes after [s] in the same scope: the stacks of marks are those
    of [s], the trail and the retired lists of [s] have only grown, and the
    binary trail has grown by entries whose deletion gives back the
    adjacency table of [s]. *)
Record step (n : N) (s s' : lookahead) : Prop := mk_step {
  st_wf : wf n s';
  st_alloc : length (m_cls_allocator s') = length (m_cls_allocator s);
  st_trail : m_trail s `prefix_of` m_trail s';
  st_rc : m_retired_clauses s `prefix_of` m_retired_clauses s';
  st_rt : m_retired_ternary s `prefix_of` m_retired_ternary s';
  st_bin : exists suf, m_binary_trail s' = m_binary_trail s ++ suf
                       /\ undo_binary suf (m_binary s') = m_binary s;
  st_lims : lims s' = lims s;
  st_assumptions : m_assumptions s' = m_assumptions s
}.

(** The fields that [wf] and [step] read. *)
Definition core (s : lookahead) :=
  (m_s s, m_binary s, m_binary_trail s, m_trail s, m_watches s, m_cls_allocator s,
   m_retired_clauses s, m_retired_ternary s, m_assumptions s, lims s).

Lemma undo_binary_app (suf1 suf2 : list N) (b : list (list literal)) :
  undo_binary (suf1 ++ suf2) b = undo_binary suf1 (undo_binary suf2 b).
Proof. unfold undo_binary. by rewrite rev_app_distr, fold_left_app. Qed.

Lemma step_refl (n : N) (s : lookahead) : wf n s -> step n s s.
Proof.
  intros H. split; try done. exists []. by rewrite app_nil_r.
Qed.

Lemma step_trans (n : N) (s1 s2 s3 : lookahead) :
  step n s1 s2 -> step n s2 s3 -> step n s1 s3.
Proof.
  intros [_ A1 T1 C1 R1 (suf1 & B1 & U1) L1 M1] [W2 A2 T2 C2 R2 (suf2 & B2 & U2) L2 M2].
  split; try done; try (etrans; done); try congruence.
  exists (suf1 ++ suf2). split.
  - by rewrite B2, B1, app_assoc.
  - by rewrite undo_binary_app, U2, U1.
Qed.

Ltac core_rewrite s' :=
  repeat match goal with
         | E : ?f s' = _ |- _ => rewrite ?E; clear E
         end.

Lemma wf_core (n : N) (s s' : lookahead) :
  core s' = core s -> wf n s -> wf n s'.
Proof.
  unfold core, lims. intros H [W1 W2 W3 W4 W5 W6]. simplify_eq.
  split; core_rewrite s'; done.
Qed.

Lemma step_core (n : N) (s s' : lookahead) :
  core s' = core s -> wf n s -> step n s s'.
Proof.
  intros H W. pose proof (wf_core n s s' H W) as W'.
  unfold core, lims in H. simplify_eq.
  split; [done|..]; clear W'; unfold lims; core_rewrite s'; try done.
  exists []. by rewrite app_nil_r.
Qed.

Ltac core_tac :=
  unfold core, lims; simpl; repeat case_match; simpl; reflexivity.

Lemma core_set_bstamp l s : core (set_bstamp l s) = core s.
Proof. reflexivity. Qed.

Lemma core_inc_bstamp s : core (inc_bstamp s) = core s.
Proof. unfold inc_bstamp. core_tac. Qed.

Lemma core_set_bstamps l s : core (set_bstamps l s) = core s.
Proof.
  unfold set_bstamps. rewrite (fold_left_frame _ core); [|done].
  rewrite core_set_bstamp. apply core_inc_bstamp.
Qed.

Lemma core_update_prefix l s : core (update_prefix l s) = core s.
Proof. unfold update_prefix. core_tac. Qed.

Lemma core_verbose d s : core (verbose d s) = core s.
Proof. reflexivity. Qed.

Lemma core_set_conflict s : core (set_conflict s) = core s.
Proof. reflexivity. Qed.
Lemma step_core_of (n : N) (s s1 s2 : lookahead) :
  core s2 = core s1 -> step n s s1 -> step n s s2.
Proof.
  intros H St. eapply step_trans; [done|]. apply step_core; [done|]. by destruct St.
Qed.

Lemma step_then (n : N) (s s1 s2 : lookahead) :
  step n s s1 -> (wf n s1 -> step n s1 s2) -> step n s s2.
Proof. intros H1 H2. eapply step_trans; [done|]. apply H2. by destruct H1. Qed.

Lemma Forall_tnth {A} (P : A -> Prop) (d : A) (t : list A) (i : N) :
  P d -> Forall P t -> P (tnth d t i).
Proof.
  intros Hd Ht. rewrite tnth_lookup. destruct (t !! N.to_nat i) eqn:E; [|done].
  by eapply (Forall_lookup_1 P).
Qed.

Lemma Forall_upd {A} (P : A -> Prop) (t : list A) (i : N) (x : A) :
  Forall P t -> P x -> Forall P (upd t i x).
Proof. intros. rewrite upd_insert. by apply Forall_insert. Qed.

Lemma wf_binary_of (n : N) (l : literal) (s : lookahead) :
  wf n s -> Forall (lit_ok n) (binary_of l s).
Proof. intros W. unfold binary_of. apply Forall_tnth; [done|]. by destruct W. Qed.

Lemma step_push_trail (n : N) (l : literal) (s : lookahead) :
  wf n s -> lit_ok n l -> step n s (set_m_trail (m_trail s ++ [l]) s).
Proof.
  intros [W1 W2 W3 W4 W5 W6] Hl. split; simpl; try done.
  - split; simpl; try done. apply Forall_app. split; [done|]. by constructor.
  - by apply prefix_app_r.
  - exists []. by rewrite app_nil_r.
Qed.

Lemma step_add_tbl (n : N) (u v : literal) (s : lookahead) :
  wf n s -> lit_ok n u -> lit_ok n v ->
  step n s (set_m_binary_trail (m_binary_trail s ++ [index (~~u)])
              (set_m_binary (add_tbl u v (m_binary s)) s)).
Proof.
  intros [W1 W2 W3 W4 W5 W6] Hu Hv. split; simpl; try done.
  - split; simpl; try done.
    + by rewrite length_add_tbl.
    + unfold add_tbl. apply Forall_upd.
      * apply Forall_upd; [done|]. apply Forall_app. split; [by apply Forall_tnth|].
        by constructor.
      * apply Forall_app. split; [|by constructor].
        apply Forall_tnth; [done|]. apply Forall_upd; [done|].
        apply Forall_app. split; [by apply Forall_tnth|]. by constructor.
  - exists [index (~~u)]. split; [done|]. unfold undo_binary. simpl. by eapply del_add_tbl.
Qed.

Lemma step_retire_clause (n : N) (off : clause_offset) (s : lookahead) :
  wf n s -> step n s (set_m_retired_clauses (m_retired_clauses s ++ [off]) s).
Proof.
  intros [W1 W2 W3 W4 W5 W6]. split; simpl; try done.
  - by apply prefix_app_r.
  - exists []. by rewrite app_nil_r.
Qed.

Lemma step_retire_ternary (n : N) (t : ternary) (s : lookahead) :
  wf n s -> step n s (set_m_retired_ternary (m_retired_ternary s ++ [t]) s).
Proof.
  intros [W1 W2 W3 W4 W5 W6]. split; simpl; try done.
  - by apply prefix_app_r.
  - exists []. by rewrite app_nil_r.
Qed.

Lemma step_set_wlist (n : N) (l : literal) (wl : watch_list) (s : lookahead) :
  wf n s -> Forall (watch_ok n (length (m_cls_allocator s))) wl -> step n s (set_wlist l wl s).
Proof.
  intros [W1 W2 W3 W4 W5 W6] Hw. split; simpl; try done.
  - split; simpl; try done. by apply Forall_upd.
  - exists []. by rewrite app_nil_r.
Qed.

Lemma step_set_clause (n : N) (off : clause_offset) (c : list literal) (s : lookahead) :
  wf n s -> clause_ok n c -> step n s (set_clause off c s).
Proof.
  intros [W1 W2 W3 W4 W5 W6] Hc. split; simpl; try done.
  - split; simpl; try done.
    + by rewrite length_insert.
    + by apply Forall_insert.
  - by rewrite length_insert.
  - exists []. by rewrite app_nil_r.
Qed.

Lemma wf_get_wlist (n : N) (l : literal) (s : lookahead) :
  wf n s -> Forall (watch_ok n (length (m_cls_allocator s))) (get_wlist l s).
Proof. intros W. unfold get_wlist. apply Forall_tnth; [done|]. by destruct W. Qed.

Lemma nth_nat_lt {A} (d : A) (t : list A) (i : nat) :
  (i < length t)%nat -> t !! i = Some (nth_nat d t i).
Proof.
  intros H. unfold nth_nat. destruct (t !! i) eqn:E; [done|].
  apply lookup_ge_None in E. lia.
Qed.

Lemma Forall_nth_nat {A} (P : A -> Prop) (d : A) (t : list A) (i : nat) :
  Forall P t -> (i < length t)%nat -> P (nth_nat d t i).
Proof.
  intros Ht Hi. eapply (Forall_lookup_1 P); [done|]. by apply nth_nat_lt.
Qed.

Lemma wf_get_clause (n : N) (off : nat) (s : lookahead) :
  wf n s -> (off < length (m_cls_allocator s))%nat -> clause_ok n (get_clause off s).
Proof.
  intros W H. unfold get_clause. apply Forall_nth_nat; [|done]. by destruct W.
Qed.

Lemma clause_ok_lit_at (n : N) (c : list literal) (i : nat) :
  clause_ok n c -> (i < length c)%nat -> lit_ok n (lit_at c i).
Proof. intros [_ H] Hi. unfold lit_at. by apply Forall_nth_nat. Qed.

Lemma clause_ok_insert (n : N) (c : list literal) (i : nat) (l : literal) :
  clause_ok n c -> lit_ok n l -> clause_ok n (<[i := l]> c).
Proof.
  intros [H1 H2] Hl. split; [by rewrite length_insert|]. by apply Forall_insert.
Qed.

Lemma Forall_erase_first {A} (P : A -> Prop) (p : A -> bool) (t : list A) :
  Forall P t -> Forall P (erase_first p t).
Proof.
  induction 1 as [|x t Hx Ht IH]; simpl; [done|].
  destruct (p x); [done|]. by constructor.
Qed.

(** *** The primitive operations of the propagation engine *)

Lemma step_assign (n : N) (l : literal) (s : lookahead) :
  wf n s -> lit_ok n l -> step n s (assign l s).
Proof.
  intros W Hl. unfold assign. destruct (is_undef l s).
  - eapply step_core_of; [|by apply (step_push_trail n l)].
    unfold validate_assign. core_tac.
  - apply step_core; [|done]. unfold validate_assign. core_tac.
Qed.

Lemma step_add_binary (n : N) (u v : literal) (s : lookahead) :
  wf n s -> lit_ok n u -> lit_ok n v -> step n s (add_binary u v s).
Proof.
  intros W Hu Hv. destruct (add_skips u v s) eqn:E.
  - rewrite add_binary_skip by done. by apply step_refl.
  - eapply step_core_of; [|by apply (step_add_tbl n u v)].
    unfold core, lims.
    rewrite m_binary_add_binary, m_binary_trail_add_binary, E.
    unfold add_binary, validate_binary. simpl. repeat case_match; simpl; reflexivity.
Qed.

Lemma step_propagated (n : N) (l : literal) (s : lookahead) :
  wf n s -> lit_ok n l -> step n s (propagated l s).
Proof.
  intros W Hl. unfold propagated.
  eapply step_core_of; [|by apply step_assign]. core_tac.
Qed.

Lemma step_add_tc1_loop (n : N) (u : literal) (ws : list literal) (s : lookahead) :
  wf n s -> lit_ok n u -> Forall (lit_ok n) ws -> step n s (add_tc1_loop u ws s).2.
Proof.
  intros W Hu Hws. revert s W. induction Hws as [|w ws Hw Hws IH]; intros s W; simpl.
  - by apply step_refl.
  - repeat case_match; simpl; try (by apply IH).
    + by apply step_assign.
    + eapply (step_then n s (add_binary u w (set_m_num_tc1 _ s))); [|apply IH].
      eapply (step_then n s (set_m_num_tc1 _ s)).
      * by apply step_core.
      * intros W'. by apply step_add_binary.
Qed.

Lemma step_add_tc1 (n : N) (u v : literal) (s : lookahead) :
  wf n s -> lit_ok n u -> step n s (add_tc1 u v s).2.
Proof. intros W Hu. apply step_add_tc1_loop; try done. by apply wf_binary_of. Qed.

Lemma step_try_add_binary (n : N) (u v : literal) (s : lookahead) :
  wf n s -> lit_ok n u -> lit_ok n v -> step n s (try_add_binary u v s).
Proof.
  intros W Hu Hv. unfold try_add_binary. cbv zeta.
  set (s1 := if negb (is_undef u s) || negb (is_undef v s) then _ else s).
  assert (S1 : step n s s1) by (apply step_core; [subst s1; core_tac|done]).
  set (s2 := set_bstamps (~~u) s1).
  assert (S2 : step n s s2).
  { eapply step_then; [exact S1|]. intros W1. apply step_core; [apply core_set_bstamps|done]. }
  clearbody s2. clear S1. clearbody s1.
  destruct (is_stamped (~~v) s2).
  { eapply step_then; [exact S2|]. intros W2. by apply step_assign. }
  destruct (negb (is_stamped v s2)); [|exact S2].
  destruct (add_tc1 u v s2) as [r s3] eqn:E1.
  assert (S3 : step n s s3).
  { eapply step_then; [exact S2|]. intros W2.
    pose proof (step_add_tc1 n u v s2 W2 Hu) as H'. by rewrite E1 in H'. }
  clear E1. destruct r; [|exact S3].
  set (s4 := set_bstamps (~~v) s3).
  assert (S4 : step n s s4).
  { eapply step_then; [exact S3|]. intros W3. apply step_core; [apply core_set_bstamps|done]. }
  clearbody s4.
  destruct (is_stamped (~~u) s4).
  { eapply step_then; [exact S4|]. intros W4. by apply step_assign. }
  destruct (add_tc1 v u s4) as [r2 s5] eqn:E2.
  assert (S5 : step n s s5).
  { eapply step_then; [exact S4|]. intros W4.
    pose proof (step_add_tc1 n v u s4 W4 Hv) as H'. by rewrite E2 in H'. }
  clear E2. destruct r2; [|exact S5].
  eapply step_then; [exact S5|]. intros W5.
  eapply (step_then n s5 (update_prefix v (update_prefix u s5))).
  - apply step_core; [|done]. by rewrite !core_update_prefix.
  - intros W6. by apply step_add_binary.
Qed.
Lemma step_push_watch (n : N) (l : literal) (w : watched) (s : lookahead) :
  wf n s -> watch_ok n (length (m_cls_allocator s)) w -> step n s (push_watch l w s).
Proof.
  intros W Hw. unfold push_watch. apply step_set_wlist; [done|].
  apply Forall_app. split; [by apply wf_get_wlist|]. by constructor.
Qed.

Lemma step_detach_ternary (n : N) (l1 l2 l3 : literal) (s : lookahead) :
  wf n s -> step n s (detach_ternary l1 l2 l3 s).
Proof.
  intros W. unfold detach_ternary. cbv zeta.
  set (s1 := set_m_retired_ternary _ s).
  assert (S1 : step n s s1) by by apply step_retire_ternary.
  clearbody s1.
  set (s2 := set_wlist (~~l2) _ s1).
  assert (S2 : step n s s2).
  { eapply step_then; [exact S1|]. intros W1. apply step_set_wlist; [done|].
    unfold erase_ternary_watch. apply Forall_erase_first. by apply wf_get_wlist. }
  clearbody s2.
  eapply step_then; [exact S2|]. intros W2. apply step_set_wlist; [done|].
  unfold erase_ternary_watch. apply Forall_erase_first. by apply wf_get_wlist.
Qed.

Lemma step_detach_clause (n : N) (off : clause_offset) (s : lookahead) :
  wf n s -> step n s (detach_clause off s).
Proof.
  intros W. unfold detach_clause. cbv zeta.
  set (c := get_clause off s). clearbody c.
  set (s1 := set_m_retired_clauses _ s).
  assert (S1 : step n s s1) by by apply step_retire_clause.
  clearbody s1.
  set (s2 := set_wlist (~~(lit_at c 0)) _ s1).
  assert (S2 : step n s s2).
  { eapply step_then; [exact S1|]. intros W1. apply step_set_wlist; [done|].
    unfold erase_clause_watch. apply Forall_erase_first. by apply wf_get_wlist. }
  clearbody s2.
  eapply step_then; [exact S2|]. intros W2. apply step_set_wlist; [done|].
  unfold erase_clause_watch. apply Forall_erase_first. by apply wf_get_wlist.
Qed.

(** The result of one case of [propagate_clauses]: the state has made a
    step and the watch that stays, if one does, is well-formed. *)
Definition watch_step (n : N) (s : lookahead) (r : option watched * lookahead) : Prop :=
  step n s r.2 /\ Forall (watch_ok n (length (m_cls_allocator s))) (option_list r.1).

Lemma watch_step_intro (n : N) (s s' : lookahead) (k : option watched) :
  step n s s' -> Forall (watch_ok n (length (m_cls_allocator s))) (option_list k) ->
  watch_step n s (k, s').
Proof. by split. Qed.

Lemma step_propagate_ternary (n : N) (l l1 l2 : literal) (s : lookahead) :
  wf n s -> lit_ok n l -> lit_ok n l1 -> lit_ok n l2 ->
  watch_step n s (propagate_ternary l l1 l2 s).
Proof.
  intros W Hl H1 H2. unfold propagate_ternary.
  assert (Hk : Forall (watch_ok n (length (m_cls_allocator s))) (option_list (Some (TERNARY l1 l2)))).
  { by repeat constructor. }
  repeat case_match; apply watch_step_intro; try done;
    try (by apply step_refl); try (by apply step_propagated);
    try (by apply step_core); try (by constructor).
  eapply step_then; [by apply step_detach_ternary|]. intros W1.
  by apply step_try_add_binary.
Qed.

Lemma find_idx_Some (p : literal -> bool) (t : list literal) (i j : nat) :
  find_idx p t i = Some j -> (i <= j < i + length t)%nat.
Proof.
  revert i. induction t as [|x t IH]; intros i; simpl; [done|].
  destruct (p x).
  - intros [= <-]. lia.
  - intros H. apply IH in H. lia.
Qed.

Lemma step_propagate_clause (n : N) (l blocked : literal) (off : clause_offset) (s : lookahead) :
  wf n s -> lit_ok n l -> (off < length (m_cls_allocator s))%nat ->
  watch_step n s (propagate_clause l blocked off s).
Proof.
  intros W Hl Hoff. unfold propagate_clause.
  assert (Hk : forall b, Forall (watch_ok n (length (m_cls_allocator s)))
                           (option_list (Some (CLAUSE b off)))).
  { intros b. by repeat constructor. }
  destruct (is_true blocked s); [by apply watch_step_intro; [apply step_refl|]|].
  cbv zeta.
  pose proof (wf_get_clause n off s W Hoff) as Hc.
  set (c := if bool_decide (lit_at (get_clause off s) 0 = ~~l) then _ else get_clause off s).
  assert (Hc' : clause_ok n c).
  { subst c. case_bool_decide; [|done].
    pose proof Hc as [Hc1 Hc2].
    apply clause_ok_insert; [apply clause_ok_insert; [done|]|];
      apply clause_ok_lit_at; (done || lia). }
  clearbody c. clear Hc.
  set (s1 := set_clause off c s).
  assert (S1 : step n s s1) by by apply step_set_clause.
  clearbody s1.
  assert (H0 : lit_ok n (lit_at c 0)) by (apply clause_ok_lit_at; [done|destruct Hc'; lia]).
  destruct (is_true (lit_at c 0) s1); [by apply watch_step_intro|].
  destruct (find_idx _ (drop 2 c) 2) as [j|] eqn:Ej.
  - apply find_idx_Some in Ej. rewrite length_drop in Ej.
    assert (Hj : lit_ok n (lit_at c j)) by (apply clause_ok_lit_at; [done|destruct Hc'; lia]).
    set (c2 := <[j := ~~l]> (<[1%nat := lit_at c j]> c)).
    assert (Hc2 : clause_ok n c2).
    { subst c2. apply clause_ok_insert; [by apply clause_ok_insert|]. by apply (proj1 (lit_ok_lnot n l)). }
    clearbody c2.
    assert (H20 : lit_ok n (lit_at c2 0)) by (apply clause_ok_lit_at; [done|destruct Hc2; lia]).
    assert (H21 : lit_ok n (lit_at c2 1)) by (apply clause_ok_lit_at; [done|destruct Hc2; lia]).
    set (s2 := set_clause off c2 s1).
    assert (S2 : step n s s2).
    { eapply step_then; [exact S1|]. intros W1. by apply step_set_clause. }
    clearbody s2.
    set (s3 := push_watch _ _ s2).
    assert (S3 : step n s s3).
    { eapply step_then; [exact S2|]. intros W2. apply step_push_watch; [done|]. simpl.
      destruct S2 as [_ -> _ _ _ _ _ _]. done. }
    clearbody s3.
    repeat case_match; apply watch_step_intro; try done; try (by constructor).
    + eapply step_then; [exact S3|]. intros W3.
      eapply step_then; [by apply step_detach_clause|]. intros W4.
      by apply step_try_add_binary.
    + eapply step_then; [exact S3|]. intros W3. by apply step_core.
    + eapply step_then; [exact S3|]. intros W3. by apply step_core.
  - destruct (is_false (lit_at c 0) s1); apply watch_step_intro; try done.
    + eapply step_then; [exact S1|]. intros W1. by apply step_core.
    + eapply step_then; [exact S1|]. intros W1. by apply step_propagated.
Qed.

Lemma step_ext_calls (n : N) (calls : list ext_call) (s : lookahead) :
  wf n s -> Forall (call_ok n) calls ->
  step n s (fold_left (fun s c => ext_apply c s) calls s).
Proof.
  intros W H. revert s W. induction H as [|c calls Hc _ IH]; intros s W; simpl.
  - by apply step_refl.
  - eapply step_then; [|apply IH].
    destruct c; simpl; [by apply step_assign|by apply step_core].
Qed.

Lemma step_propagate_ext (n : N) (l : literal) (idx : nat) (s : lookahead) :
  wf n s -> watch_step n s (propagate_ext l idx s).
Proof.
  intros W. unfold propagate_ext.
  destruct (s_ext (m_s s)) as [e|] eqn:Ee.
  - destruct (ext_propagate e _ l idx) as [calls keep] eqn:Ec.
    assert (S1 : step n s (fold_left (fun s c => ext_apply c s) calls s)).
    { apply step_ext_calls; [done|].
      destruct W as [_ _ _ _ _ W6]. specialize (W6 e Ee (fun x => value x s) l idx).
      by rewrite Ec in W6. }
    repeat case_match; apply watch_step_intro; try done; try (by repeat constructor).
    eapply step_then; [exact S1|]. intros W1. by apply step_core.
  - apply watch_step_intro; [by apply step_refl|by repeat constructor].
Qed.

Lemma step_propagate_watch (n : N) (l : literal) (w : watched) (s : lookahead) :
  wf n s -> lit_ok n l -> watch_ok n (length (m_cls_allocator s)) w ->
  watch_step n s (propagate_watch l w s).
Proof.
  intros W Hl Hw. destruct w as [x b|l1 l2|b off|idx]; simpl in *.
  - apply watch_step_intro; [by apply step_refl|by constructor].
  - destruct Hw. by apply step_propagate_ternary.
  - by apply step_propagate_clause.
  - by apply step_propagate_ext.
Qed.

Lemma step_propagate_clauses_loop (n : N) (l : literal) (rest kept : watch_list) (s : lookahead) :
  wf n s -> lit_ok n l ->
  Forall (watch_ok n (length (m_cls_allocator s))) rest ->
  Forall (watch_ok n (length (m_cls_allocator s))) kept ->
  step n s (propagate_clauses_loop l rest kept s).
Proof.
  intros W Hl Hrest. revert kept s W Hrest.
  induction rest as [|w rest IH]; intros kept s W Hrest Hkept; simpl.
  - by apply step_set_wlist.
  - destruct (inconsistent s).
    { apply step_set_wlist; [done|]. by apply Forall_app. }
    apply Forall_cons in Hrest as [Hw Hrest].
    destruct (step_propagate_watch n l w s W Hl Hw) as [S1 Hk].
    destruct (propagate_watch l w s) as [k s1]. simpl in *.
    eapply step_then; [exact S1|]. intros W1.
    destruct S1 as [_ Ha _ _ _ _ _ _].
    apply IH; rewrite ?Ha; try done. by apply Forall_app.
Qed.

Lemma step_propagate_clauses (n : N) (l : literal) (s : lookahead) :
  wf n s -> lit_ok n l -> step n s (propagate_clauses l s).
Proof.
  intros W Hl. unfold propagate_clauses. destruct (inconsistent s); [by apply step_refl|].
  apply step_propagate_clauses_loop; try done. by apply wf_get_wlist.
Qed.

Lemma step_propagate_binary (n : N) (l : literal) (s : lookahead) :
  wf n s -> lit_ok n l -> step n s (propagate_binary l s).
Proof.
  intros W Hl. unfold propagate_binary.
  pose proof (wf_binary_of n l s W) as H. revert H. generalize (binary_of l s). intros lits H.
  revert s W. induction H as [|w lits Hw _ IH]; intros s W; simpl.
  - by apply step_refl.
  - destruct (inconsistent s); [by apply step_refl|].
    eapply step_then; [by apply step_assign|]. apply IH.
Qed.

Lemma step_propagate_pass (n : N) (f : literal -> lookahead -> lookahead)
    (window : list literal) (s : lookahead) :
  (forall l s, wf n s -> lit_ok n l -> step n s (f l s)) ->
  wf n s -> Forall (lit_ok n) window -> step n s (propagate_pass f window s).
Proof.
  intros Hf W H. revert s W. induction H as [|l window Hl _ IH]; intros s W; simpl.
  - by apply step_refl.
  - destruct (inconsistent s); [by apply step_refl|].
    eapply step_then; [by apply Hf|]. apply IH.
Qed.

Lemma step_propagate (n : N) (fuel : nat) (s s' : lookahead) :
  wf n s -> propagate fuel s = Some s' -> step n s s'.
Proof.
  revert s. induction fuel as [|fuel IH]; intros s W; simpl.
  - case_match; [done|]. intros [= <-]. by apply step_refl.
  - case_match; [|intros [= <-]; by apply step_refl].
    intros Hp.
    assert (Hwin : Forall (lit_ok n) (drop (m_qhead s) (m_trail s))).
    { apply Forall_drop. by destruct W. }
    revert Hp. generalize (drop (m_qhead s) (m_trail s)) Hwin. intros window Hwin' Hp.
    eapply step_then.
    { apply (step_propagate_pass n propagate_binary window s); try done.
      intros. by apply step_propagate_binary. }
    intros W1. eapply step_then.
    { apply (step_propagate_pass n propagate_clauses window); try done.
      intros. by apply step_propagate_clauses. }
    intros W2. eapply step_then; [|intros W3; by apply IH].
    by apply step_core.
Qed.
(** *** Push and pop *)

(** What a scope saves on [push] and [pop] puts back: the trail, the
    adjacency table and the binary trail, the two retired lists, [qhead],
    the tc1 counter, the assumptions, and the stacks of marks themselves. *)
Definition scope (s : lookahead) :=
  (m_trail s, m_binary s, m_binary_trail s, m_retired_clauses s, m_retired_ternary s,
   m_qhead s, m_num_tc1 s, m_assumptions s, lims s).

Lemma scope_pop_assumptions (s : lookahead) :
  scope (pop_assumptions s)
  = (m_trail s, m_binary s, m_binary_trail s, m_retired_clauses s, m_retired_ternary s,
     m_qhead s, m_num_tc1 s, pop_back (m_assumptions s), lims s).
Proof. unfold pop_assumptions. case_bool_decide; reflexivity. Qed.

Lemma scope_pop_trail (s : lookahead) :
  scope (pop_trail s)
  = (take (back 0%nat (m_trail_lim s)) (m_trail s), m_binary s, m_binary_trail s,
     m_retired_clauses s, m_retired_ternary s, m_qhead s, m_num_tc1 s, m_assumptions s,
     (pop_back (m_trail_lim s), m_qhead_lim s, m_binary_trail_lim s, m_num_tc1_lim s,
      m_retired_clause_lim s, m_retired_ternary_lim s)).
Proof.
  unfold pop_trail. cbv zeta.
  match goal with
  | |- context [fold_left ?f ?l s] =>
      pose proof (fold_left_frame f scope (fun _ _ => eq_refl) l s) as H;
      generalize dependent (fold_left f l s)
  end.
  intros s' H. unfold scope, lims in *. simpl. congruence.
Qed.

Lemma scope_pop_num_tc1 (s : lookahead) :
  scope (pop_num_tc1 s)
  = (m_trail s, m_binary s, m_binary_trail s, m_retired_clauses s, m_retired_ternary s,
     m_qhead s, back 0 (m_num_tc1_lim s), m_assumptions s,
     (m_trail_lim s, m_qhead_lim s, m_binary_trail_lim s, pop_back (m_num_tc1_lim s),
      m_retired_clause_lim s, m_retired_ternary_lim s)).
Proof. reflexivity. Qed.

Lemma scope_push_watch (l : literal) (w : watched) (s : lookahead) :
  scope (push_watch l w s) = scope s.
Proof. reflexivity. Qed.

Lemma scope_attach_ternary (l1 l2 l3 : literal) (s : lookahead) :
  scope (attach_ternary l1 l2 l3 s) = scope s.
Proof. reflexivity. Qed.

Lemma scope_attach_clause (off : clause_offset) (s : lookahead) :
  scope (attach_clause off s) = scope s.
Proof. unfold attach_clause. by case_match. Qed.

Lemma scope_pop_retired_clauses (s : lookahead) :
  scope (pop_retired_clauses s)
  = (m_trail s, m_binary s, m_binary_trail s,
     take (back 0%nat (m_retired_clause_lim s)) (m_retired_clauses s), m_retired_ternary s,
     m_qhead s, m_num_tc1 s, m_assumptions s,
     (m_trail_lim s, m_qhead_lim s, m_binary_trail_lim s, m_num_tc1_lim s,
      pop_back (m_retired_clause_lim s), m_retired_ternary_lim s)).
Proof.
  unfold pop_retired_clauses. cbv zeta.
  match goal with
  | |- context [fold_left ?f ?l s] =>
      pose proof (fold_left_frame f scope (fun s a => scope_attach_clause a s) l s) as H;
      generalize dependent (fold_left f l s)
  end.
  intros s' H. unfold scope, lims in *. simpl. congruence.
Qed.

Lemma scope_pop_retired_ternary (s : lookahead) :
  scope (pop_retired_ternary s)
  = (m_trail s, m_binary s, m_binary_trail s, m_retired_clauses s,
     take (back 0%nat (m_retired_ternary_lim s)) (m_retired_ternary s),
     m_qhead s, m_num_tc1 s, m_assumptions s,
     (m_trail_lim s, m_qhead_lim s, m_binary_trail_lim s, m_num_tc1_lim s,
      m_retired_clause_lim s, pop_back (m_retired_ternary_lim s))).
Proof.
  unfold pop_retired_ternary. cbv zeta.
  match goal with
  | |- context [fold_left ?f ?l s] =>
      pose proof (fold_left_frame f scope (fun _ _ => eq_refl) l s) as H;
      generalize dependent (fold_left f l s)
  end.
  intros s' H. unfold scope, lims in *. simpl. congruence.
Qed.

Lemma scope_del_binary (idx : N) (s : lookahead) :
  scope (del_binary idx s)
  = (m_trail s, del_tbl idx (m_binary s), m_binary_trail s, m_retired_clauses s,
     m_retired_ternary s, m_qhead s, m_num_tc1 s, m_assumptions s, lims s).
Proof.
  unfold scope. rewrite m_binary_del_binary.
  unfold del_binary, verbose. simpl. by case_bool_decide.
Qed.

Lemma scope_fold_del_binary (l : list N) (s : lookahead) :
  scope (fold_left (fun s idx => del_binary idx s) l s)
  = (m_trail s, fold_left (fun b idx => del_tbl idx b) l (m_binary s), m_binary_trail s,
     m_retired_clauses s, m_retired_ternary s, m_qhead s, m_num_tc1 s, m_assumptions s,
     lims s).
Proof.
  revert s. induction l as [|idx l IH]; intros s; simpl; [done|].
  rewrite IH. pose proof (scope_del_binary idx s) as H.
  unfold scope, lims in *. congruence.
Qed.

Lemma scope_pop_binary (s : lookahead) :
  scope (pop_binary s)
  = (m_trail s,
     undo_binary (drop (back 0%nat (m_binary_trail_lim s)) (m_binary_trail s)) (m_binary s),
     take (back 0%nat (m_binary_trail_lim s)) (m_binary_trail s),
     m_retired_clauses s, m_retired_ternary s, m_qhead s, m_num_tc1 s, m_assumptions s,
     (m_trail_lim s, m_qhead_lim s, pop_back (m_binary_trail_lim s), m_num_tc1_lim s,
      m_retired_clause_lim s, m_retired_ternary_lim s)).
Proof.
  unfold pop_binary, undo_binary. cbv zeta.
  match goal with
  | |- context [fold_left ?f ?l s] =>
      pose proof (scope_fold_del_binary l s) as H;
      generalize dependent (fold_left f l s)
  end.
  intros s' H. unfold scope, lims in *. simpl. congruence.
Qed.

Lemma scope_pop_qhead (s : lookahead) :
  scope (pop_qhead s)
  = (m_trail s, m_binary s, m_binary_trail s, m_retired_clauses s, m_retired_ternary s,
     back 0%nat (m_qhead_lim s), m_num_tc1 s, m_assumptions s,
     (m_trail_lim s, pop_back (m_qhead_lim s), m_binary_trail_lim s, m_num_tc1_lim s,
      m_retired_clause_lim s, m_retired_ternary_lim s)).
Proof. reflexivity. Qed.

Lemma scope_pop (s : lookahead) :
  scope (pop s)
  = (take (back 0%nat (m_trail_lim s)) (m_trail s),
     undo_binary (drop (back 0%nat (m_binary_trail_lim s)) (m_binary_trail s)) (m_binary s),
     take (back 0%nat (m_binary_trail_lim s)) (m_binary_trail s),
     take (back 0%nat (m_retired_clause_lim s)) (m_retired_clauses s),
     take (back 0%nat (m_retired_ternary_lim s)) (m_retired_ternary s),
     back 0%nat (m_qhead_lim s), back 0 (m_num_tc1_lim s), pop_back (m_assumptions s),
     (pop_back (m_trail_lim s), pop_back (m_qhead_lim s), pop_back (m_binary_trail_lim s),
      pop_back (m_num_tc1_lim s), pop_back (m_retired_clause_lim s),
      pop_back (m_retired_ternary_lim s))).
Proof.
  unfold pop.
  pose proof (scope_pop_assumptions s) as H1.
  generalize dependent (pop_assumptions s). intros s1 H1.
  pose proof (scope_pop_trail s1) as H2.
  generalize dependent (pop_trail s1). intros s2 H2.
  pose proof (scope_pop_num_tc1 s2) as H3.
  generalize dependent (pop_num_tc1 s2). intros s3 H3.
  pose proof (scope_pop_retired_clauses s3) as H4.
  generalize dependent (pop_retired_clauses s3). intros s4 H4.
  pose proof (scope_pop_retired_ternary s4) as H5.
  generalize dependent (pop_retired_ternary s4). intros s5 H5.
  pose proof (scope_pop_binary s5) as H6.
  generalize dependent (pop_binary s5). intros s6 H6.
  rewrite scope_pop_qhead.
  unfold scope, lims in *. congruence.
Qed.

(** The first statements of [push]: the marks, the level and the assumption. *)
Definition push_marks (lit : literal) (level : N) (s : lookahead) : lookahead :=
  let s := set_m_binary_trail_lim (m_binary_trail_lim s ++ [length (m_binary_trail s)]) s in
  let s := set_m_trail_lim (m_trail_lim s ++ [length (m_trail s)]) s in
  let s := set_m_num_tc1_lim (m_num_tc1_lim s ++ [m_num_tc1 s]) s in
  let s := set_m_retired_clause_lim (m_retired_clause_lim s ++ [length (m_retired_clauses s)]) s in
  let s := set_m_retired_ternary_lim (m_retired_ternary_lim s ++ [length (m_retired_ternary s)]) s in
  let s := set_m_qhead_lim (m_qhead_lim s ++ [m_qhead s]) s in
  let s := set_m_level level s in
  set_m_assumptions (m_assumptions s ++ [~~lit]) s.

Lemma push_eq (fuel : nat) (lit : literal) (level : N) (s : lookahead) :
  push fuel lit level s
  = match propagate fuel (assign lit (push_marks lit level s)) with
    | None => None
    | Some s' => Some (set_m_level (m_level s) s')
    end.
Proof. unfold push, push_marks. cbv zeta. simpl m_level. reflexivity. Qed.

Lemma wf_push_marks (n : N) (lit : literal) (level : N) (s : lookahead) :
  wf n s -> wf n (push_marks lit level s).
Proof. intros [W1 W2 W3 W4 W5 W6]. by split. Qed.

(** A pop after any step made within the scope that [push_marks] opened
    gives back what the scope saved. *)
Lemma pop_after_step (n : N) (lit : literal) (level : N) (s s2 : lookahead) :
  step n (push_marks lit level s) s2 -> scope (pop s2) = scope s.
Proof.
  intros [_ _ [t Ht] [rc Hrc] [rt Hrt] (suf & Hbt & Hb) Hl Ha].
  rewrite scope_pop. unfold lims in Hl. simpl in *.
  injection Hl as -> -> -> -> -> ->. rewrite Ht, Hbt, Hrc, Hrt, Ha.
  rewrite !back_snoc, !pop_back_snoc, !take_app_length, drop_app_length, Hb.
  reflexivity.
Qed.

(** C3.  In a well-formed state of a solver with [n] variables, for a
    literal of these variables and any level: a [push] followed by its
    [pop] restores the trail, the binary adjacency lists and the binary
    trail, the retired-clause and retired-ternary lists, [qhead], the tc1
    counter, the assumptions and all six scope stacks to their values
    before the push; and so does the pop when binary clauses have been
    added with [add_binary] between the two. *)
Theorem push_pop_restores (n : N) (fuel : nat) (lit : literal) (level : N)
    (s s1 : lookahead) :
  wf n s -> lit_ok n lit ->
  push fuel lit level s = Some s1 ->
  scope (pop s1) = scope s
  /\ forall adds : list (literal * literal),
       Forall (fun uv => lit_ok n uv.1 /\ lit_ok n uv.2) adds ->
       scope (pop (fold_left (fun s uv => add_binary uv.1 uv.2 s) adds s1)) = scope s.
Proof.
  intros W Hlit Hpush. rewrite push_eq in Hpush.
  destruct (propagate fuel _) as [s'|] eqn:Hp; [|done]. injection Hpush as <-.
  assert (S1 : step n (push_marks lit level s) (set_m_level (m_level s) s')).
  { eapply step_then; [apply step_assign; [by apply wf_push_marks|done]|].
    intros W1. eapply step_then; [by eapply step_propagate|].
    intros W2. by apply step_core. }
  split; [by eapply pop_after_step|].
  intros adds Hadds. eapply pop_after_step.
  eapply step_then; [exact S1|]. clear S1 Hp.
  generalize (set_m_level (m_level s) s'). intros s1.
  revert s1. induction Hadds as [|[u v] adds [Hu Hv] _ IH]; intros s1 W1; simpl.
  - by apply step_refl.
  - eapply (step_then n s1 (add_binary u v s1)); [by apply step_add_binary|]. apply IH.
Qed.

(** *** A decision procedure for well-formedness, for concrete states *)

Definition lit_okb (n : N) (l : literal) : bool := index l <? 2 * n.

Definition watch_okb (n : N) (na : nat) (w : watched) : bool :=
  match w with
  | TERNARY l1 l2 => lit_okb n l1 && lit_okb n l2
  | CLAUSE _ off => (off <? na)%nat
  | _ => true
  end.

Definition wfb (n : N) (s : lookahead) : bool :=
  (length (m_binary s) =? N.to_nat (2 * n))%nat
  && forallb (forallb (lit_okb n)) (m_binary s)
  && forallb (lit_okb n) (m_trail s)
  && forallb (forallb (watch_okb n (length (m_cls_allocator s)))) (m_watches s)
  && forallb (fun c => (2 <=? length c)%nat && forallb (lit_okb n) c) (m_cls_allocator s)
  && match s_ext (m_s s) with None => true | Some _ => false end.

Lemma forallb_Forall {A} (p : A -> bool) (P : A -> Prop) (l : list A) :
  (forall x, p x = true -> P x) -> forallb p l = true -> Forall P l.
Proof.
  intros Hp. induction l as [|x l IH]; simpl; [done|].
  intros [H1 H2]%andb_true_iff. constructor; eauto.
Qed.

Lemma lit_okb_ok (n : N) (l : literal) : lit_okb n l = true -> lit_ok n l.
Proof. unfold lit_okb, lit_ok. by intros ?%N.ltb_lt. Qed.

Lemma wfb_wf (n : N) (s : lookahead) : wfb n s = true -> wf n s.
Proof.
  unfold wfb. rewrite !andb_true_iff. intros [[[[[H1 H2] H3] H4] H5] H6].
  split.
  - by apply Nat.eqb_eq.
  - eapply forallb_Forall; [|exact H2]. intros x. apply forallb_Forall, lit_okb_ok.
  - eapply forallb_Forall; [|exact H3]. apply lit_okb_ok.
  - eapply forallb_Forall; [|exact H4]. intros x. apply forallb_Forall.
    intros w Hw. destruct w as [y b|l1 l2|b off|idx]; simpl in *; try done.
    + apply andb_true_iff in Hw as [? ?]. split; by apply lit_okb_ok.
    + by apply Nat.ltb_lt.
  - eapply forallb_Forall; [|exact H5]. intros c [Ha Hb]%andb_true_iff. split.
    + by apply Nat.leb_le.
    + eapply forallb_Forall; [|exact Hb]. apply lit_okb_ok.
  - intros e He. by rewrite He in H6.
Qed.

(** *** Concrete states *)

(** Scenario 4 after [init_search], and after a push of [-1] on it. *)
Definition autarky_state : lookahead := Eval vm_compute in initial 10 autarky_trigger.

Lemma autarky_state_eq : initial 10 autarky_trigger = autarky_state.
Proof. vm_compute. reflexivity. Qed.

Definition autarky_pushed : lookahead :=
  Eval vm_compute in
    match push 10 (neg 1) c_fixed_truth autarky_state with
    | Some s => s
    | None => autarky_state
    end.

Lemma push_pop_restores_witness :
  wf 4 autarky_state /\ lit_ok 4 (neg 1)
  /\ push 10 (neg 1) c_fixed_truth autarky_state = Some autarky_pushed
  /\ m_binary autarky_pushed <> m_binary autarky_state
  /\ scope (pop autarky_pushed) = scope autarky_state.
Proof.
  assert (W : wf 4 autarky_state) by (apply wfb_wf; vm_compute; reflexivity).
  assert (L : lit_ok 4 (neg 1)) by (vm_compute; reflexivity).
  assert (E : push 10 (neg 1) c_fixed_truth autarky_state = Some autarky_pushed)
    by (vm_compute; reflexivity).
  split; [exact W|]. split; [exact L|]. split; [exact E|]. split.
  - vm_compute. discriminate.
  - exact (proj1 (push_pop_restores 4 10 (neg 1) c_fixed_truth _ _ W L E)).
Defined.

Lemma binary_sym_autarky_state : binary_sym autarky_state.
Proof.
  assert (H : forall l, binary_of l autarky_state = []).
  { intros l. unfold binary_of. apply (Forall_tnth (fun x => x = [])); [done|].
    vm_compute. repeat constructor. }
  intros a b. rewrite !H. split; intros Hin; by apply elem_of_nil in Hin.
Qed.

Lemma add_binary_symmetric_witness :
  binary_sym (add_binary (pos 1) (pos 2) autarky_state)
  /\ pos 2 ∈ binary_of (neg 1) (add_binary (pos 1) (pos 2) autarky_state)
  /\ pos 1 ∈ binary_of (neg 2) (add_binary (pos 1) (pos 2) autarky_state)
  /\ m_binary (del_binary (index (neg 1)) (add_binary (pos 1) (pos 2) autarky_state))
     = m_binary autarky_state.
Proof.
  assert (Hlen : length (m_binary autarky_state) = N.to_nat (2 * 4)) by (vm_compute; reflexivity).
  assert (H1 : lit_ok 4 (pos 1)) by (vm_compute; reflexivity).
  assert (H2 : lit_ok 4 (pos 2)) by (vm_compute; reflexivity).
  destruct (add_binary_symmetric 4 (pos 1) (pos 2) autarky_state Hlen H1 H2
              binary_sym_autarky_state) as (A & _ & _ & B & C).
  assert (Hne : ~~(pos 1) <> pos 2) by (vm_compute; discriminate).
  split; [exact A|]. split; [exact (proj1 (B Hne))|]. split; [exact (proj2 (B Hne))|].
  apply C; [exact Hne|]. vm_compute. discriminate.
Defined.

(** ** Scenario 3: the pigeonhole instance *)

Definition pigeonhole_state : lookahead := Eval vm_compute in initial 20 pigeonhole.

(** C9. On the CNF of two pigeons and one hole,
    [{(+1 \/ +2), (-1 \/ -2), (+1 \/ -2), (-1 \/ +2)}], [init_search]
    returns and [search] runs to its end and answers [l_false]: it neither
    runs out of fuel nor throws. *)
Theorem pigeonhole_unsat :
  init_search 20 pigeonhole = Some pigeonhole_state
  /\ exists s', search 20 pigeonhole_state = Ret l_false s'.
Proof.
  split; [vm_compute; reflexivity|].
  eexists. vm_compute. reflexivity.
Qed.

(** ** Model extraction *)








(** ** Autarky *)

(** Scenario 4 inside the first round of [compute_wnb]: after [pre_select]
    and [init_wnb], and after the lookahead1 probe of [+1] at level 2. *)
Definition autarky_preselected : lookahead :=
  Eval vm_compute in
    let s := inc_istamp (set_m_level c_fixed_truth autarky_state) in
    match pre_select 20 s with
    | Some s' => init_wnb s'
    | None => s
    end.

Definition autarky_probed : lookahead :=
  Eval vm_compute in
    let s := reset_wnb_lit (pos 1) autarky_preselected in
    match push_lookahead1 20 (pos 1) 2 s with
    | Some s' => pop_lookahead1 (pos 1) s'
    | None => s
    end.

(** C1. [check_autarky] answers [false] before it looks at any clause, so
    [update_wnb] assigns nothing: it returns the state as it is when the
    probe produced no new binary, and only adds to the WNB of the literal
    otherwise.  After the probe of [+1] in scenario 4 no new binary was
    produced, the WNB of [+1] is zero and the statements after the first
    [return] of [check_autarky] would answer [true]; [+1] stays unassigned. *)
Theorem update_wnb_never_promotes :
  (forall (fuel : nat) (l : literal) (level : N) (s : lookahead),
      check_autarky l level s = false
      /\ update_wnb fuel l level s =
           Some (if (m_weighted_new_binaries s =? 0)%float then s
                 else inc_wnb l (m_weighted_new_binaries s) s))
  /\ push_lookahead1 20 (pos 1) 2 (reset_wnb_lit (pos 1) autarky_preselected) <> None
  /\ (m_weighted_new_binaries autarky_probed =? 0)%float = true
  /\ (get_wnb (pos 1) autarky_probed =? 0)%float = true
  /\ check_autarky_body (pos 1) 2 autarky_probed = true
  /\ update_wnb 20 (pos 1) 2 autarky_probed = Some autarky_probed
  /\ is_fixed_at (pos 1) c_fixed_truth (reset_wnb autarky_probed) = false.
Proof.
  split.
  - intros fuel l level s. split; [reflexivity|].
    unfold update_wnb, check_autarky. simpl negb.
    by destruct (m_weighted_new_binaries s =? 0)%float.
  - repeat split; try (vm_compute; reflexivity).
    vm_compute. discriminate.
Qed.

(** ** [pop] without a matching [push] *)

Lemma pop_bind_guard_returns {A} (v : list A) (s s' : lookahead) (f : lookahead -> pop_run) :
  pop_bind (vec_guard v s) f = pop_returns s' -> v <> [] /\ f s = pop_returns s'.
Proof. destruct v; simpl; [discriminate|]. intros H. split; [discriminate|exact H]. Qed.

Lemma pop_bind_guard_ok {A} (v : list A) (s : lookahead) (f : lookahead -> pop_run) :
  v <> [] -> pop_bind (vec_guard v s) f = f s.
Proof. by destruct v. Qed.

(** Where [pop_checked] returns, the assumptions were not empty and the
    state is the one [pop] gives. *)
Lemma pop_checked_returns (s s' : lookahead) :
  pop_checked s = pop_returns s' -> m_assumptions s <> [] /\ s' = pop s.
Proof.
  unfold pop_checked. cbv zeta. case_bool_decide as Ha.
  - change (m_assumptions (verbose diag_empty_pop s)) with (m_assumptions s).
    rewrite Ha. discriminate.
  - intros H. split; [exact Ha|].
    do 7 apply pop_bind_guard_returns in H as [_ H].
    injection H as <-. unfold pop, pop_assumptions. by rewrite bool_decide_false.
Qed.

(** With a mark on each stack and an assumption to take off, [pop_checked]
    returns what [pop] gives. *)
Lemma pop_checked_matched (s : lookahead) :
  m_assumptions s <> [] -> m_trail_lim s <> [] -> m_num_tc1_lim s <> [] ->
  m_retired_clause_lim s <> [] -> m_retired_ternary_lim s <> [] ->
  m_binary_trail_lim s <> [] -> m_qhead_lim s <> [] ->
  pop_checked s = pop_returns (pop s).
Proof.
  intros Ha Htl Htc Hrc Hrt Hbt Hq.
  unfold pop_checked. cbv zeta. rewrite bool_decide_false by exact Ha.
  rewrite pop_bind_guard_ok by exact Ha.
  assert (E1 : set_m_inconsistent false (set_m_assumptions (pop_back (m_assumptions s)) s)
               = pop_assumptions s).
  { unfold pop_assumptions. by rewrite bool_decide_false. }
  rewrite E1. unfold pop.
  pose proof (scope_pop_assumptions s) as H1.
  generalize dependent (pop_assumptions s). intros s1 _ H1.
  rewrite pop_bind_guard_ok by (unfold scope, lims in H1; congruence).
  pose proof (scope_pop_trail s1) as H2.
  generalize dependent (pop_trail s1). intros s2 H2.
  rewrite pop_bind_guard_ok by (unfold scope, lims in H1, H2; congruence).
  pose proof (scope_pop_num_tc1 s2) as H3.
  generalize dependent (pop_num_tc1 s2). intros s3 H3.
  rewrite pop_bind_guard_ok by (unfold scope, lims in H1, H2, H3; congruence).
  pose proof (scope_pop_retired_clauses s3) as H4.
  generalize dependent (pop_retired_clauses s3). intros s4 H4.
  rewrite pop_bind_guard_ok by (unfold scope, lims in H1, H2, H3, H4; congruence).
  pose proof (scope_pop_retired_ternary s4) as H5.
  generalize dependent (pop_retired_ternary s4). intros s5 H5.
  rewrite pop_bind_guard_ok by (unfold scope, lims in H1, H2, H3, H4, H5; congruence).
  pose proof (scope_pop_binary s5) as H6.
  generalize dependent (pop_binary s5). intros s6 H6.
  rewrite pop_bind_guard_ok by (unfold scope, lims in H1, H2, H3, H4, H5, H6; congruence).
  reflexivity.
Qed.

(** The [pop] of a scope that [push_marks] opened returns, whatever was
    done in the scope. *)
Lemma pop_checked_after_push (n : N) (lit : literal) (level : N) (s s2 : lookahead) :
  step n (push_marks lit level s) s2 -> pop_checked s2 = pop_returns (pop s2).
Proof.
  intros [_ _ _ _ _ _ Hl Ha]. unfold lims in Hl. simpl in Hl, Ha.
  injection Hl as E1 E2 E3 E4 E5 E6.
  apply pop_checked_matched; rewrite ?Ha, ?E1, ?E2, ?E3, ?E4, ?E5, ?E6;
    intros [_ ?]%app_eq_nil; discriminate.
Qed.

(** The state in which the search on the pigeonhole instance ends. *)
Definition pigeonhole_final : lookahead :=
  Eval vm_compute in
    match search 20 pigeonhole_state with
    | Ret _ s => s
    | _ => pigeonhole_state
    end.


Lemma lims_scope (s : lookahead) : lims s = (scope s).2.
Proof. reflexivity. Qed.




(** ** Windfalls *)

(** A check of [binary_sym] for concrete states: every entry [x] of the
    list at index [i] is a literal of the table, and the list of [~x]
    holds the complement of the literal with index [i]. *)
Definition binary_symb (s : lookahead) : bool :=
  forallb
    (fun i =>
       forallb
         (fun x =>
            (index x <? N.of_nat (length (m_binary s)))
            && bool_decide (~~(to_literal (N.of_nat i)) ∈ tnth [] (m_binary s) (index (~~x))))
         (nth_nat [] (m_binary s) i))
    (seq 0 (length (m_binary s))).

Lemma binary_symb_half (s : lookahead) (a b : literal) :
  binary_symb s = true -> b ∈ binary_of (~~a) s -> a ∈ binary_of (~~b) s.
Proof.
  unfold binary_symb, binary_of. intros H Hin.
  rewrite forallb_forall in H.
  unfold tnth in Hin at 1.
  destruct (N.ltb_spec (index (~~a)) (N.of_nat (length (m_binary s)))) as [Hlt|Hge];
    [|by apply elem_of_nil in Hin].
  specialize (H (N.to_nat (index (~~a)))).
  rewrite in_seq, forallb_forall in H.
  specialize (H ltac:(lia) b). unfold nth_nat in H.
  rewrite <- list_elem_of_In in H. specialize (H Hin).
  apply andb_true_iff in H as [_ H]. apply bool_decide_eq_true in H.
  rewrite N2Nat.id in H.
  assert (E : ~~(to_literal (index (~~a))) = a) by (destruct a; apply lnot_lnot).
  by rewrite E in H.
Qed.

Lemma binary_symb_sym (s : lookahead) : binary_symb s = true -> binary_sym s.
Proof.
  intros H a b. split; intros Hin; by apply binary_symb_half.
Qed.

Lemma windfalls_fold (n : N) (lit : literal) (ws : list literal) (s : lookahead) :
  length (m_binary s) = N.to_nat (2 * n) -> lit_ok n lit -> Forall (lit_ok n) ws ->
  binary_sym s ->
  forall s', s' = fold_left (fun s l2 => add_binary (~~lit) l2 s) ws s ->
  length (m_binary s') = N.to_nat (2 * n)
  /\ binary_sym s'
  /\ (forall l x, x ∈ binary_of l s -> x ∈ binary_of l s')
  /\ (forall w, w ∈ ws -> w <> lit ->
        w ∈ binary_of lit s' /\ ~~lit ∈ binary_of (~~w) s').
Proof.
  intros Hlen Hlit Hws Hsym s' ->. revert s Hlen Hsym.
  assert (Hn : lit_ok n (~~lit)) by by apply (proj1 (lit_ok_lnot n lit)).
  induction Hws as [|w ws Hw Hws IH]; intros s Hlen Hsym; simpl.
  - split; [done|]. split; [done|]. split; [done|].
    intros w Hin. by apply elem_of_nil in Hin.
  - destruct (IH (add_binary (~~lit) w s)) as (L & S & M & W).
    { by rewrite length_m_binary_add_binary. }
    { by eapply binary_sym_add_binary. }
    split; [done|]. split; [done|]. split.
    + intros l x Hin. apply M. by eapply add_binary_mono.
    + intros w' Hin Hne. apply elem_of_cons in Hin as [->|Hin]; [|by apply W].
      destruct (add_binary_elem n (~~lit) w s) as [E1 E2]; try done.
      { rewrite lnot_lnot. congruence. }
      rewrite lnot_lnot in E1. split; by apply M.
Qed.

(** C4. In a solver with [n] variables whose adjacency lists hold every
    binary clause in both directions, [pop_lookahead1 lit] empties the
    wstack.  After a probe without conflict it has added the binary clause
    [(~lit \/ w)] for every [w] of the wstack other than [lit] itself: [w]
    is in [adj(lit)] and [~lit] in [adj(~w)]; the clauses are on the binary
    trail of the enclosing scope, and what the lists held stays.  After a
    probe that ended in conflict the lists and the binary trail are as
    before.  In mode [lookahead1], [propagated l] puts [l] on the wstack. *)
Theorem pop_lookahead1_windfalls (n : N) (lit : literal) (s : lookahead) :
  length (m_binary s) = N.to_nat (2 * n) -> lit_ok n lit ->
  Forall (lit_ok n) (m_wstack s) -> binary_sym s ->
  m_wstack (pop_lookahead1 lit s) = []
  /\ (inconsistent s = false ->
      (forall w, w ∈ m_wstack s -> w <> lit ->
         w ∈ binary_of lit (pop_lookahead1 lit s)
         /\ ~~lit ∈ binary_of (~~w) (pop_lookahead1 lit s))
      /\ (forall l x, x ∈ binary_of l s -> x ∈ binary_of l (pop_lookahead1 lit s)))
  /\ (inconsistent s = true ->
      m_binary (pop_lookahead1 lit s) = m_binary s
      /\ m_binary_trail (pop_lookahead1 lit s) = m_binary_trail s)
  /\ (forall l, m_search_mode s = lookahead1 ->
        m_wstack (propagated l s) = m_wstack s ++ [l]).
Proof.
  intros Hlen Hlit Hws Hsym. unfold pop_lookahead1, inconsistent. cbv zeta.
  split; [reflexivity|]. split; [|split].
  - intros Hc. rewrite Hc. simpl negb. cbv iota.
    set (s0 := set_m_search_mode searching (set_m_inconsistent false s)).
    destruct (windfalls_fold n lit (m_wstack s) s0 Hlen Hlit Hws Hsym _ eq_refl)
      as (_ & _ & M & W).
    split.
    + intros w Hin Hne. exact (W w Hin Hne).
    + intros l x Hin. exact (M l x Hin).
  - intros Hc. rewrite Hc. split; reflexivity.
  - intros l Hm. unfold propagated. cbv zeta.
    assert (E : m_search_mode (assign l s) = m_search_mode s
                /\ m_wstack (assign l s) = m_wstack s).
    { unfold assign, validate_assign, set_conflict, set_true.
      repeat case_match; split; reflexivity. }
    destruct E as [E1 E2]. rewrite E1, Hm. simpl. by rewrite E2.
Qed.

(** The windfall of section 8: on [{(-1 \/ +2), (-1 \/ -2 \/ +3)}] the probe
    of [+1] propagates [+3]. *)
Definition windfall_cnf : lookahead :=
  lookahead_of_cnf 3 [(neg 1, pos 2)] [[neg 1; neg 2; pos 3]] [].

Definition windfall_probed : lookahead :=
  Eval vm_compute in
    let s := inc_istamp (set_m_level c_fixed_truth (initial 20 windfall_cnf)) in
    match pre_select 20 s with
    | Some s1 =>
        match push_lookahead1 20 (pos 1) 2 (reset_wnb_lit (pos 1) (init_wnb s1)) with
        | Some s2 => s2
        | None => s
        end
    | None => s
    end.

Lemma pop_lookahead1_windfalls_witness :
  m_wstack windfall_probed = [pos 3]
  /\ inconsistent windfall_probed = false
  /\ pos 3 ∈ binary_of (pos 1) (pop_lookahead1 (pos 1) windfall_probed)
  /\ neg 1 ∈ binary_of (neg 3) (pop_lookahead1 (pos 1) windfall_probed)
  /\ m_wstack (pop_lookahead1 (pos 1) windfall_probed) = [].
Proof.
  assert (Hlen : length (m_binary windfall_probed) = N.to_nat (2 * 3))
    by (vm_compute; reflexivity).
  assert (Hlit : lit_ok 3 (pos 1)) by (vm_compute; reflexivity).
  assert (Hws : Forall (lit_ok 3) (m_wstack windfall_probed)).
  { apply (forallb_Forall (lit_okb 3)); [apply lit_okb_ok|]. vm_compute. reflexivity. }
  assert (Hsym : binary_sym windfall_probed)
    by (apply binary_symb_sym; vm_compute; reflexivity).
  assert (Hc : inconsistent windfall_probed = false) by (vm_compute; reflexivity).
  destruct (pop_lookahead1_windfalls 3 (pos 1) windfall_probed Hlen Hlit Hws Hsym)
    as (E & W & _).
  destruct (W Hc) as [W1 _].
  assert (Hin : pos 3 ∈ m_wstack windfall_probed)
    by (replace (m_wstack windfall_probed) with [pos 3] by (vm_compute; reflexivity);
        apply list_elem_of_singleton; reflexivity).
  assert (Hne : pos 3 <> pos 1) by (vm_compute; discriminate).
  destruct (W1 (pos 3) Hin Hne) as [A B].
  split; [vm_compute; reflexivity|]. split; [exact Hc|].
  split; [exact A|]. split; [exact B|exact E].
Defined.

(** ** Scores (C10)

    The doubles of the source are the binary64 floats of [PrimFloat]; their
    operations are related to [SpecFloat] by the specifications of
    [FloatAxioms]. *)

(** Not negative: a zero, a positive number, plus infinity, or a NaN. *)
Definition sf_nonneg (f : spec_float) : bool :=
  match f with
  | S754_nan | S754_zero _ => true
  | S754_infinity sg | S754_finite sg _ _ => negb sg
  end.

Definition sf_finite (f : spec_float) : bool :=
  match f with
  | S754_zero _ | S754_finite _ _ _ => true
  | _ => false
  end.

Definition sf_zero (f : spec_float) : bool :=
  match f with
  | S754_zero _ => true
  | _ => false
  end.

Lemma sf_nonneg_round_aux (m e : Z) (l : location) :
  sf_nonneg (binary_round_aux prec emax false m e l) = true.
Proof.
  unfold binary_round_aux.
  destruct (shr_fexp prec emax m e l) as [mrs e'].
  destruct (shr_fexp prec emax _ e' loc_Exact) as [mrs' e''].
  destruct (shr_m mrs'); [done| |done]. by case_match.
Qed.

Lemma sf_nonneg_normalize (m e : Z) :
  (0 <= m)%Z -> sf_nonneg (binary_normalize prec emax m e false) = true.
Proof.
  intros Hm. destruct m as [|p|p]; [done| |lia].
  unfold binary_normalize, binary_round.
  destruct (shl_align p e _). apply sf_nonneg_round_aux.
Qed.

Lemma sf_nonneg_mul (x y : spec_float) :
  sf_nonneg x = true -> sf_nonneg y = true -> sf_nonneg (SF64mul x y) = true.
Proof.
  destruct x as [sx|sx| |sx mx ex], y as [sy|sy| |sy my ey]; simpl; try done;
    try (destruct sx, sy; done).
  destruct sx, sy; try done. intros _ _. apply sf_nonneg_round_aux.
Qed.

Lemma sf_nonneg_add (x y : spec_float) :
  sf_nonneg x = true -> sf_nonneg y = true -> sf_nonneg (SF64add x y) = true.
Proof.
  destruct x as [sx|sx| |sx mx ex], y as [sy|sy| |sy my ey]; simpl; try done;
    try (destruct sx, sy; done).
  destruct sx, sy; try done. intros _ _. by apply sf_nonneg_normalize.
Qed.

Lemma sf_nonneg_div (x y : spec_float) :
  sf_nonneg x = true -> sf_nonneg y = true -> sf_zero y = false ->
  sf_nonneg (SF64div x y) = true.
Proof.
  destruct x as [sx|sx| |sx mx ex], y as [sy|sy| |sy my ey]; simpl; try done;
    try (destruct sx, sy; done).
  destruct sx, sy; try done. intros _ _ _.
  unfold SF64div, SFdiv. destruct (SFdiv_core_binary prec emax _ ex _ ey) as [[mz ez] lz].
  apply sf_nonneg_round_aux.
Qed.

Lemma SFcompare_refl (x : spec_float) : sf_finite x = true -> SFcompare x x = Some Eq.
Proof.
  destruct x as [sx|sx| |sx mx ex]; simpl; try done. intros _.
  destruct sx; rewrite Z.compare_refl; f_equal.
  - by rewrite Pos.compare_cont_refl.
  - by rewrite Pos.compare_cont_refl.
Qed.

(** ** The same on floats *)

Definition nonneg (x : float) : bool := sf_nonneg (Prim2SF x).

Lemma nonneg_mul (x y : float) : nonneg x = true -> nonneg y = true -> nonneg (x * y)%float = true.
Proof. unfold nonneg. rewrite FloatAxioms.mul_spec. apply sf_nonneg_mul. Qed.

Lemma nonneg_add (x y : float) : nonneg x = true -> nonneg y = true -> nonneg (x + y)%float = true.
Proof. unfold nonneg. rewrite FloatAxioms.add_spec. apply sf_nonneg_add. Qed.

Lemma eqb_zero (x : float) : (x =? 0)%float = sf_zero (Prim2SF x).
Proof.
  rewrite FloatAxioms.eqb_spec. change (Prim2SF 0) with (S754_zero false).
  by destruct (Prim2SF x) as [sx|sx| |sx mx ex]; try destruct sx.
Qed.

Lemma nonneg_div (x y : float) :
  nonneg x = true -> nonneg y = true -> (y =? 0)%float = false -> nonneg (x / y)%float = true.
Proof. unfold nonneg. rewrite FloatAxioms.div_spec, eqb_zero. apply sf_nonneg_div. Qed.

Lemma nonneg_double_of_N (n : N) : nonneg (double_of_N n) = true.
Proof.
  unfold nonneg, double_of_N. rewrite FloatAxioms.of_uint63_spec.
  apply sf_nonneg_normalize. apply Uint63.to_Z_bounded.
Qed.

(** [0 <= x] says that [x] is not negative and not a NaN. *)
Lemma leb_zero (x : float) :
  (0 <=? x)%float = sf_nonneg (Prim2SF x) && negb (is_nan x).
Proof.
  unfold is_nan. rewrite FloatAxioms.leb_spec, FloatAxioms.eqb_spec. change (Prim2SF 0) with (S754_zero false).
  destruct (Prim2SF x) as [sx|sx| |sx mx ex] eqn:E;
    try reflexivity; try (destruct sx; reflexivity).
  unfold SFeqb. rewrite SFcompare_refl by done. by destruct sx.
Qed.

Lemma leb_zero_nonneg (x : float) : (0 <=? x)%float = true -> nonneg x = true.
Proof. rewrite leb_zero. by intros [? _]%andb_true_iff. Qed.

Lemma is_finite_spec (x : float) : is_finite x = sf_finite (Prim2SF x).
Proof.
  unfold is_finite, is_nan, is_infinity. rewrite !FloatAxioms.eqb_spec, FloatAxioms.abs_spec.
  change (Prim2SF infinity) with (S754_infinity false).
  destruct (Prim2SF x) as [sx|sx| |sx mx ex] eqn:E;
    try reflexivity; try (destruct sx; reflexivity).
  unfold SFeqb. rewrite SFcompare_refl by done. reflexivity.
Qed.

(** [std::min(m, x)] for a finite [m >= 0] and an [x] that is not negative
    is finite, at most [m] and at least 0. *)
Lemma std_min_bounded (m x : float) :
  is_finite m = true -> (0 <=? m)%float = true -> nonneg x = true ->
  is_finite (std_min m x) = true
  /\ (std_min m x <=? m)%float = true
  /\ (0 <=? std_min m x)%float = true.
Proof.
  intros Hf Hm Hx. unfold std_min.
  destruct (x <? m)%float eqn:Hlt.
  - rewrite leb_zero. unfold is_nan. rewrite is_finite_spec, FloatAxioms.leb_spec, FloatAxioms.eqb_spec.
    rewrite is_finite_spec in Hf. rewrite FloatAxioms.ltb_spec in Hlt. unfold nonneg in Hx.
    unfold SFltb in Hlt. unfold SFleb, SFeqb.
    destruct (Prim2SF x) as [sx|sx| |sx mx ex], (Prim2SF m) as [sm|sm| |sm mm em];
      try done; simpl in *;
      try (destruct sx; done); try (destruct sx, sm; done).
    + destruct sx; [done|]. destruct sm; [done|].
      rewrite Z.compare_refl, Pos.compare_cont_refl.
      destruct (ex ?= em)%Z; try done.
      by destruct (Pos.compare_cont Eq mx mm).
  - split; [done|]. split; [|done].
    rewrite FloatAxioms.leb_spec. unfold SFleb. rewrite is_finite_spec in Hf.
    by rewrite SFcompare_refl.
Qed.

(** ** [h_scores] *)

(** Every entry of the tables [m_H] is a number that is at least 0. *)
Definition H_ok (s : lookahead) : Prop :=
  Forall (Forall (fun x => (0 <=? x)%float = true)) (m_H s).

(** The options that [l_score] reads: [max_score] is finite and at least 0,
    [alpha] is at least 0. *)
Definition config_ok (c : config) : Prop :=
  is_finite (m_max_score c) = true
  /\ (0 <=? m_max_score c)%float = true
  /\ (0 <=? m_alpha c)%float = true.

(** A score: finite, at most [m], at least 0. *)
Definition score_ok (m x : float) : Prop :=
  is_finite x = true /\ (x <=? m)%float = true /\ (0 <=? x)%float = true.

(** What [h_scores] reads of the solver besides the literals' lists. *)
Definition hview (s : lookahead) := (m_H s, m_config s).

Lemma H_ok_h_at (hi : nat) (l : literal) (s : lookahead) :
  H_ok s -> (0 <=? h_at hi l s)%float = true.
Proof.
  intros H. unfold h_at. apply (Forall_tnth (fun x => (0 <=? x)%float = true)); [done|].
  unfold nth_nat. destruct (m_H s !! hi) as [t|] eqn:E; simpl; [|done].
  by eapply (Forall_lookup_1 (Forall (fun x => (0 <=? x)%float = true))).
Qed.

Lemma nonneg_h_at (hi : nat) (l : literal) (s : lookahead) :
  H_ok s -> nonneg (h_at hi l s) = true.
Proof. intros H. by apply leb_zero_nonneg, H_ok_h_at. Qed.

Lemma hview_H_ok (s s' : lookahead) : hview s' = hview s -> H_ok s -> H_ok s'.
Proof. unfold hview, H_ok. intros [= -> _]. done. Qed.

Lemma hview_h_at (hi : nat) (l : literal) (s s' : lookahead) :
  hview s' = hview s -> h_at hi l s' = h_at hi l s.
Proof. unfold hview, h_at. by intros [= -> _]. Qed.

Lemma l_score_binary_ok (hi : nat) (l : literal) (lits : list literal) (sum : float)
    (s : lookahead) :
  H_ok s -> nonneg sum = true ->
  nonneg (l_score_binary hi l lits sum s).1 = true
  /\ hview (l_score_binary hi l lits sum s).2 = hview s.
Proof.
  revert sum s. induction lits as [|w lits IH]; intros sum s Hs Hsum; simpl; [done|].
  set (s' := if N.of_nat (length (nth_nat [] (m_H s) hi)) <=? index w
             then verbose (diag_l_score l w (length (nth_nat [] (m_H s) hi))) s else s).
  assert (V : hview s' = hview s) by (unfold s'; by case_match).
  assert (Hs' : H_ok s') by by eapply hview_H_ok.
  destruct (IH (if is_undef w s' then (sum + h_at hi w s')%float else sum) s') as [I1 I2].
  - done.
  - destruct (is_undef w s'); [|done]. apply nonneg_add; [done|]. by apply nonneg_h_at.
  - split; [done|]. by rewrite I2.
Qed.

Lemma l_score_watch_ok (hi : nat) (l : literal) (w : watched) (tsum : float) (s : lookahead) :
  H_ok s -> nonneg tsum = true -> nonneg (l_score_watch hi l w tsum s) = true.
Proof.
  intros Hs Ht. destruct w as [y b|l1 l2|b off|idx]; simpl; try done;
    repeat case_match; apply nonneg_add; try done; apply nonneg_mul; by apply nonneg_h_at.
Qed.

Lemma l_score_ok (l : literal) (hi : nat) (factor sqfactor afactor : float) (s : lookahead) :
  H_ok s -> config_ok (m_config s) ->
  nonneg sqfactor = true -> nonneg afactor = true ->
  score_ok (m_max_score (m_config s)) (l_score l hi factor sqfactor afactor s).1
  /\ hview (l_score l hi factor sqfactor afactor s).2 = hview s.
Proof.
  intros Hs (C1 & C2 & C3) Hq Ha. unfold l_score.
  destruct (l_score_binary_ok hi l (binary_of l s) 0%float s Hs eq_refl) as [B1 B2].
  destruct (l_score_binary hi l (binary_of l s) 0 s) as [sum s1]. simpl in B1, B2.
  cbv zeta. simpl. split; [|done].
  assert (E : m_config s1 = m_config s) by (unfold hview in B2; congruence).
  rewrite E. apply std_min_bounded; try done.
  apply nonneg_add; [apply nonneg_add; [done|by apply nonneg_mul]|].
  apply nonneg_mul; [done|].
  assert (Hs1 : H_ok s1) by by eapply hview_H_ok.
  generalize (get_wlist l s1). intros ws.
  assert (G : forall t, nonneg t = true ->
            nonneg (fold_left (fun t w => l_score_watch hi l w t s1) ws t) = true).
  { induction ws as [|w ws IH]; intros t Ht; simpl; [done|].
    apply IH. by apply l_score_watch_ok. }
  by apply G.
Qed.

(** The guard of [h_scores]: the denominator is never zero. *)
Lemma h_denominator_nonzero (sum : float) : (h_denominator sum =? 0)%float = false.
Proof.
  unfold h_denominator. destruct (sum =? 0)%float eqn:E; [reflexivity|exact E].
Qed.

Lemma nonneg_h_sum (hi : nat) (s : lookahead) : H_ok s -> nonneg (h_sum hi s) = true.
Proof.
  intros Hs. unfold h_sum. generalize (m_freevars s). intros xs.
  assert (G : forall t, nonneg t = true ->
            nonneg (fold_left (fun sum x =>
                                 let l := mk_literal x false in
                                 (sum + (h_at hi l s + h_at hi (~~l) s))%float) xs t) = true).
  { induction xs as [|x xs IH]; intros t Ht; simpl; [done|].
    apply IH. apply nonneg_add; [done|]. apply nonneg_add; by apply nonneg_h_at. }
  by apply G.
Qed.

Lemma nonneg_h_factor (hi : nat) (s : lookahead) : H_ok s -> nonneg (h_factor hi s) = true.
Proof.
  intros Hs. unfold h_factor. apply nonneg_div.
  - apply nonneg_double_of_N.
  - unfold h_denominator. case_match; [reflexivity|]. by apply nonneg_h_sum.
  - apply h_denominator_nonzero.
Qed.

Lemma H_ok_set_H (hpi : nat) (l : literal) (v : float) (s : lookahead) :
  H_ok s -> (0 <=? v)%float = true -> H_ok (set_H hpi l v s).
Proof.
  intros Hs Hv. unfold H_ok, set_H. simpl. apply Forall_insert; [done|].
  apply Forall_upd; [|done].
  unfold nth_nat. destruct (m_H s !! hpi) as [t|] eqn:E; simpl; [|done].
  by eapply (Forall_lookup_1 (Forall (fun x => (0 <=? x)%float = true))).
Qed.

(** After [set_H hpi l v] an entry is the written value or what it was. *)
Lemma h_at_set_H (hi hpi : nat) (l l' : literal) (v : float) (s : lookahead) :
  h_at hi l' (set_H hpi l v s) = v \/ h_at hi l' (set_H hpi l v s) = h_at hi l' s.
Proof.
  unfold h_at, set_H. simpl. unfold nth_nat.
  destruct (decide (hi = hpi)) as [->|Hne].
  - destruct (m_H s !! hpi) as [t|] eqn:E.
    + rewrite list_lookup_insert_eq by (by eapply lookup_lt_Some). simpl.
      destruct (decide (index l = index l')) as [Hi|Hi].
      * rewrite <- Hi. rewrite !tnth_lookup, upd_insert.
        destruct (decide (N.to_nat (index l) < length t)%nat) as [Hlt|Hge].
        -- left. by rewrite list_lookup_insert_eq.
        -- right. by rewrite list_insert_ge by lia.
      * right. by apply tnth_upd_ne.
    + right. rewrite list_insert_ge by (by apply lookup_ge_None_1). by rewrite E.
  - right. by rewrite list_lookup_insert_ne.
Qed.

(** The entry of [l] itself is the written value, or 0 when the table has
    no such entry. *)
Lemma h_at_set_H_same (hpi : nat) (l : literal) (v : float) (s : lookahead) :
  h_at hpi l (set_H hpi l v s) = v \/ h_at hpi l (set_H hpi l v s) = 0%float.
Proof.
  unfold h_at, set_H. simpl. unfold nth_nat.
  destruct (m_H s !! hpi) as [t|] eqn:E.
  - rewrite list_lookup_insert_eq by (by eapply lookup_lt_Some). simpl.
    rewrite !tnth_lookup, upd_insert.
    destruct (decide (N.to_nat (index l) < length t)%nat) as [Hlt|Hge].
    + left. by rewrite list_lookup_insert_eq.
    + right. rewrite list_insert_ge by lia. by rewrite lookup_ge_None_2 by lia.
  - right. rewrite list_insert_ge by (by apply lookup_ge_None_1). rewrite E. simpl.
    by rewrite tnth_lookup.
Qed.

Lemma score_ok_zero (c : config) : config_ok c -> score_ok (m_max_score c) 0%float.
Proof. intros (C1 & C2 & C3). by repeat split. Qed.

Lemma score_ok_leb (m x : float) : score_ok m x -> (0 <=? x)%float = true.
Proof. by intros (_ & _ & ?). Qed.

Lemma h_scores_var_ok (hi hpi : nat) (factor sqfactor afactor : float) (x : bool_var)
    (s : lookahead) :
  H_ok s -> config_ok (m_config s) ->
  nonneg sqfactor = true -> nonneg afactor = true ->
  forall s', s' = h_scores_var hi hpi factor sqfactor afactor x s ->
  H_ok s' /\ m_config s' = m_config s
  /\ score_ok (m_max_score (m_config s)) (h_at hpi (mk_literal x false) s')
  /\ score_ok (m_max_score (m_config s)) (h_at hpi (~~(mk_literal x false)) s')
  /\ forall l', score_ok (m_max_score (m_config s)) (h_at hpi l' s) ->
                score_ok (m_max_score (m_config s)) (h_at hpi l' s').
Proof.
  intros Hs Hc Hq Ha s' ->. unfold h_scores_var. cbv zeta.
  set (lit := mk_literal x false).
  destruct (l_score_ok lit hi factor sqfactor afactor s Hs Hc Hq Ha) as [P1 P2].
  destruct (l_score lit hi factor sqfactor afactor s) as [pos s1]. simpl in P1, P2.
  assert (Hs1 : H_ok s1) by by eapply hview_H_ok.
  assert (E1 : m_config s1 = m_config s) by (unfold hview in P2; congruence).
  assert (Hc1 : config_ok (m_config s1)) by by rewrite E1.
  destruct (l_score_ok (~~lit) hi factor sqfactor afactor s1 Hs1 Hc1 Hq Ha) as [N1 N2].
  destruct (l_score (~~lit) hi factor sqfactor afactor s1) as [neg s2]. simpl in N1, N2.
  rewrite E1 in N1.
  assert (Hs2 : H_ok s2) by by eapply hview_H_ok.
  assert (E2 : m_config s2 = m_config s) by (unfold hview in N2; congruence).
  set (s3 := set_H hpi lit pos s2).
  set (s4 := set_H hpi (~~lit) neg s3).
  assert (Hs3 : H_ok s3) by (apply H_ok_set_H; [done|by eapply score_ok_leb]).
  assert (Hs4 : H_ok s4) by (apply H_ok_set_H; [done|by eapply score_ok_leb]).
  assert (R : forall l, h_at hpi l (set_m_rating (upd (m_rating s4) (var lit) (pos * neg)%float) s4)
                        = h_at hpi l s4) by reflexivity.
  assert (Z : score_ok (m_max_score (m_config s)) 0%float) by by apply score_ok_zero.
  split; [exact Hs4|]. split; [exact E2|]. split; [|split].
  - rewrite R. unfold s4.
    destruct (h_at_set_H hpi hpi (~~lit) lit neg s3) as [H|H]; rewrite H; [done|].
    unfold s3. by destruct (h_at_set_H_same hpi lit pos s2) as [H'|H']; rewrite H'.
  - rewrite R. unfold s4.
    by destruct (h_at_set_H_same hpi (~~lit) neg s3) as [H|H]; rewrite H.
  - intros l' Hl'. rewrite R. unfold s4.
    destruct (h_at_set_H hpi hpi (~~lit) l' neg s3) as [H|H]; rewrite H; [done|].
    unfold s3.
    destruct (h_at_set_H hpi hpi lit l' pos s2) as [H'|H']; rewrite H'; [done|].
    by rewrite (hview_h_at hpi l' s1 s2 N2), (hview_h_at hpi l' s s1 P2).
Qed.

Lemma h_scores_fold_ok (hi hpi : nat) (factor sqfactor afactor : float) (xs : list bool_var)
    (s : lookahead) :
  H_ok s -> config_ok (m_config s) ->
  nonneg sqfactor = true -> nonneg afactor = true ->
  forall s', s' = fold_left (fun s x => h_scores_var hi hpi factor sqfactor afactor x s) xs s ->
  H_ok s'
  /\ (forall x, x ∈ xs ->
        score_ok (m_max_score (m_config s)) (h_at hpi (mk_literal x false) s')
        /\ score_ok (m_max_score (m_config s)) (h_at hpi (~~(mk_literal x false)) s'))
  /\ forall l', score_ok (m_max_score (m_config s)) (h_at hpi l' s) ->
                score_ok (m_max_score (m_config s)) (h_at hpi l' s').
Proof.
  intros Hs Hc Hq Ha s' ->. revert s Hs Hc.
  induction xs as [|x xs IH]; intros s Hs Hc; simpl.
  - split; [done|]. split; [|done]. intros x Hx. by apply elem_of_nil in Hx.
  - destruct (h_scores_var_ok hi hpi factor sqfactor afactor x s Hs Hc Hq Ha _ eq_refl)
      as (V1 & V2 & V3 & V4 & V5).
    destruct (IH (h_scores_var hi hpi factor sqfactor afactor x s) V1) as (I1 & I2 & I3).
    { by rewrite V2. }
    rewrite V2 in I2, I3.
    split; [done|]. split.
    + intros y [->|Hy]%elem_of_cons; [|by apply I2]. split; by apply I3.
    + intros l' Hl'. by apply I3, V5.
Qed.

(** C10. [h_scores] never divides by zero: the sum of the scores is replaced
    by 0.0001 when it is 0, so the denominator of [factor] is not 0.  When
    the tables [m_H] hold only numbers that are at least 0, [max_score] is
    finite and at least 0 and [alpha] is at least 0, every score that
    [h_scores] stores, for a free variable and either sign, is finite, at
    most [max_score] and at least 0, and the tables stay so. *)
Theorem h_scores_finite_bounded (hi hpi : nat) (s : lookahead) :
  H_ok s -> config_ok (m_config s) ->
  (h_denominator (h_sum hi s) =? 0)%float = false
  /\ H_ok (h_scores hi hpi s)
  /\ forall x, x ∈ m_freevars s ->
       score_ok (m_max_score (m_config s)) (h_at hpi (mk_literal x false) (h_scores hi hpi s))
       /\ score_ok (m_max_score (m_config s))
            (h_at hpi (~~(mk_literal x false)) (h_scores hi hpi s)).
Proof.
  intros Hs Hc. split; [apply h_denominator_nonzero|].
  assert (Hf : nonneg (h_factor hi s) = true) by by apply nonneg_h_factor.
  assert (Hq : nonneg (h_factor hi s * h_factor hi s)%float = true) by by apply nonneg_mul.
  assert (Ha : nonneg (h_factor hi s * m_alpha (m_config s))%float = true).
  { apply nonneg_mul; [done|]. apply leb_zero_nonneg. by destruct Hc as (_ & _ & ?). }
  destruct (h_scores_fold_ok hi hpi (h_factor hi s) _ _ (m_freevars s) s Hs Hc Hq Ha _ eq_refl)
    as (F1 & F2 & _).
  unfold h_scores. cbv zeta. by split.
Qed.

(** [init_pre_selection] keeps the tables and the options so: the tables
    start empty, [ensure_H] adds zeros and [h_scores] stores scores. *)
Lemma h_scores_keeps (hi hpi : nat) (s : lookahead) :
  H_ok s -> config_ok (m_config s) ->
  H_ok (h_scores hi hpi s) /\ m_config (h_scores hi hpi s) = m_config s.
Proof.
  intros Hs Hc.
  assert (Hf : nonneg (h_factor hi s) = true) by by apply nonneg_h_factor.
  assert (Hq : nonneg (h_factor hi s * h_factor hi s)%float = true) by by apply nonneg_mul.
  assert (Ha : nonneg (h_factor hi s * m_alpha (m_config s))%float = true).
  { apply nonneg_mul; [done|]. apply leb_zero_nonneg. by destruct Hc as (_ & _ & ?). }
  unfold h_scores. cbv zeta. clear Hf. revert Hq Ha.
  generalize (h_factor hi s * m_alpha (m_config s))%float. intros af.
  generalize (h_factor hi s * h_factor hi s)%float. intros sq.
  generalize (h_factor hi s). intros f Hq' Ha'.
  generalize (m_freevars s). intros xs. revert s Hs Hc.
  induction xs as [|x xs IH]; intros s Hs Hc; simpl; [done|].
  destruct (h_scores_var_ok hi hpi f sq af x s Hs Hc Hq' Ha' _ eq_refl) as (V1 & V2 & _).
  destruct (IH (h_scores_var hi hpi f sq af x s) V1) as [I1 I2]; [by rewrite V2|].
  split; [done|]. by rewrite I2.
Qed.

Lemma H_ok_ensure_H (level : nat) (s : lookahead) : H_ok s -> H_ok (ensure_H level s).
Proof.
  intros Hs. unfold H_ok, ensure_H. simpl. apply Forall_app. split; [done|].
  apply Forall_replicate. by apply Forall_replicate.
Qed.

Lemma H_ok_init_pre_selection (level : nat) (s : lookahead) :
  H_ok s -> config_ok (m_config s) ->
  H_ok (init_pre_selection level s)
  /\ m_config (init_pre_selection level s) = m_config s.
Proof.
  intros Hs Hc.
  assert (K : forall hi hpi t, H_ok t /\ m_config t = m_config s ->
                H_ok (h_scores hi hpi t) /\ m_config (h_scores hi hpi t) = m_config s).
  { intros hi hpi t [Ht Et]. destruct (h_scores_keeps hi hpi t Ht) as [K1 K2].
    - by rewrite Et.
    - split; [done|congruence]. }
  assert (E : forall lvl, H_ok (ensure_H lvl s) /\ m_config (ensure_H lvl s) = m_config s).
  { intros lvl. split; [by apply H_ok_ensure_H|reflexivity]. }
  unfold init_pre_selection. cbv zeta.
  destruct (level <=? 1)%nat; [|destruct (level <? m_max_hlevel (m_config s))%nat].
  - destruct (K 2%nat 0%nat _ (K 1%nat 2%nat _ (K 2%nat 0%nat _ (K 1%nat 2%nat _
                (K 0%nat 1%nat _ (E 2%nat)))))) as [A B].
    split; [exact A|exact B].
  - destruct (K (level - 1)%nat level _ (E level)) as [A B]. split; [exact A|exact B].
  - destruct (K (m_max_hlevel (m_config s) - 1)%nat (m_max_hlevel (m_config s)) _
                (E (m_max_hlevel (m_config s)))) as [A B].
    split; [exact A|exact B].
Qed.

Definition H_okb (s : lookahead) : bool :=
  forallb (forallb (fun x => (0 <=? x)%float)) (m_H s).

Lemma H_okb_ok (s : lookahead) : H_okb s = true -> H_ok s.
Proof.
  unfold H_okb, H_ok. apply forallb_Forall. intros t. by apply forallb_Forall.
Qed.

Lemma h_scores_finite_bounded_witness :
  H_ok autarky_preselected
  /\ config_ok (m_config autarky_preselected)
  /\ 0 ∈ m_freevars autarky_preselected
  /\ H_ok (h_scores 1 2 autarky_preselected)
  /\ score_ok 20 (h_at 2 (pos 1) (h_scores 1 2 autarky_preselected))
  /\ score_ok 20 (h_at 2 (neg 1) (h_scores 1 2 autarky_preselected)).
Proof.
  assert (Hs : H_ok autarky_preselected) by (apply H_okb_ok; vm_compute; reflexivity).
  assert (Hc : config_ok (m_config autarky_preselected))
    by (repeat split; vm_compute; reflexivity).
  assert (Hx : 0 ∈ m_freevars autarky_preselected)
    by (apply list_elem_of_In; vm_compute; left; reflexivity).
  destruct (h_scores_finite_bounded 1 2 autarky_preselected Hs Hc) as (_ & A & B).
  destruct (B 0 Hx) as [B1 B2].
  split; [exact Hs|]. split; [exact Hc|]. split; [exact Hx|]. split; [exact A|].
  split; [exact B1|exact B2].
Defined.

(** ** The scope stacks (C5)

    Every function of the solver other than [push], [pop], [init_wnb] and
    [reset_wnb] leaves the six scope stacks as they are. *)

Create Rewrite HintDb lims.

(** A setter of a field that is not a scope stack. *)
Ltac lims_setter := intros; reflexivity.

Lemma lims_set_m_s v s : lims (set_m_s v s) = lims s.
Proof. lims_setter. Qed.
Lemma lims_set_m_rlimit v s : lims (set_m_rlimit v s) = lims s.
Proof. lims_setter. Qed.
Lemma lims_set_m_config v s : lims (set_m_config v s) = lims s.
Proof. lims_setter. Qed.
Lemma lims_set_m_delta_trigger v s : lims (set_m_delta_trigger v s) = lims s.
Proof. lims_setter. Qed.
Lemma lims_set_m_drat v s : lims (set_m_drat v s) = lims s.
Proof. lims_setter. Qed.
Lemma lims_set_m_assumptions v s : lims (set_m_assumptions v s) = lims s.
Proof. lims_setter. Qed.
Lemma lims_set_m_trail v s : lims (set_m_trail v s) = lims s.
Proof. lims_setter. Qed.
Lemma lims_set_m_binary v s : lims (set_m_binary v s) = lims s.
Proof. lims_setter. Qed.
Lemma lims_set_m_binary_trail v s : lims (set_m_binary_trail v s) = lims s.
Proof. lims_setter. Qed.
Lemma lims_set_m_num_tc1 v s : lims (set_m_num_tc1 v s) = lims s.
Proof. lims_setter. Qed.
Lemma lims_set_m_qhead v s : lims (set_m_qhead v s) = lims s.
Proof. lims_setter. Qed.
Lemma lims_set_m_clauses v s : lims (set_m_clauses v s) = lims s.
Proof. lims_setter. Qed.
Lemma lims_set_m_retired_clauses v s : lims (set_m_retired_clauses v s) = lims s.
Proof. lims_setter. Qed.
Lemma lims_set_m_retired_ternary v s : lims (set_m_retired_ternary v s) = lims s.
Proof. lims_setter. Qed.
Lemma lims_set_m_cls_allocator v s : lims (set_m_cls_allocator v s) = lims s.
Proof. lims_setter. Qed.
Lemma lims_set_m_inconsistent v s : lims (set_m_inconsistent v s) = lims s.
Proof. lims_setter. Qed.
Lemma lims_set_m_bstamp v s : lims (set_m_bstamp v s) = lims s.
Proof. lims_setter. Qed.
Lemma lims_set_m_H v s : lims (set_m_H v s) = lims s.
Proof. lims_setter. Qed.
Lemma lims_set_m_heur v s : lims (set_m_heur v s) = lims s.
Proof. lims_setter. Qed.
Lemma lims_set_m_rating v s : lims (set_m_rating v s) = lims s.
Proof. lims_setter. Qed.
Lemma lims_set_m_bstamp_id v s : lims (set_m_bstamp_id v s) = lims s.
Proof. lims_setter. Qed.
Lemma lims_set_m_istamp_id v s : lims (set_m_istamp_id v s) = lims s.
Proof. lims_setter. Qed.
Lemma lims_set_m_stamp v s : lims (set_m_stamp v s) = lims s.
Proof. lims_setter. Qed.
Lemma lims_set_m_level v s : lims (set_m_level v s) = lims s.
Proof. lims_setter. Qed.
Lemma lims_set_m_watches v s : lims (set_m_watches v s) = lims s.
Proof. lims_setter. Qed.
Lemma lims_set_m_lits v s : lims (set_m_lits v s) = lims s.
Proof. lims_setter. Qed.
Lemma lims_set_m_full_watches v s : lims (set_m_full_watches v s) = lims s.
Proof. lims_setter. Qed.
Lemma lims_set_m_weighted_new_binaries v s : lims (set_m_weighted_new_binaries v s) = lims s.
Proof. lims_setter. Qed.
Lemma lims_set_m_wstack v s : lims (set_m_wstack v s) = lims s.
Proof. lims_setter. Qed.
Lemma lims_set_m_prefix v s : lims (set_m_prefix v s) = lims s.
Proof. lims_setter. Qed.
Lemma lims_set_m_vprefix v s : lims (set_m_vprefix v s) = lims s.
Proof. lims_setter. Qed.
Lemma lims_set_m_freevars v s : lims (set_m_freevars v s) = lims s.
Proof. lims_setter. Qed.
Lemma lims_set_m_search_mode v s : lims (set_m_search_mode v s) = lims s.
Proof. lims_setter. Qed.
Lemma lims_set_m_model v s : lims (set_m_model v s) = lims s.
Proof. lims_setter. Qed.
Lemma lims_set_m_candidates v s : lims (set_m_candidates v s) = lims s.
Proof. lims_setter. Qed.
Lemma lims_set_m_select_lookahead_vars v s : lims (set_m_select_lookahead_vars v s) = lims s.
Proof. lims_setter. Qed.
Lemma lims_set_m_active v s : lims (set_m_active v s) = lims s.
Proof. lims_setter. Qed.
Lemma lims_set_m_rank v s : lims (set_m_rank v s) = lims s.
Proof. lims_setter. Qed.
Lemma lims_set_m_settled v s : lims (set_m_settled v s) = lims s.
Proof. lims_setter. Qed.
Lemma lims_set_m_dfs v s : lims (set_m_dfs v s) = lims s.
Proof. lims_setter. Qed.
Lemma lims_set_m_root_child v s : lims (set_m_root_child v s) = lims s.
Proof. lims_setter. Qed.
Lemma lims_set_m_lookahead v s : lims (set_m_lookahead v s) = lims s.
Proof. lims_setter. Qed.
Lemma lims_set_m_verbose v s : lims (set_m_verbose v s) = lims s.
Proof. lims_setter. Qed.

#[local] Hint Rewrite
  lims_set_m_s lims_set_m_rlimit lims_set_m_config lims_set_m_delta_trigger lims_set_m_drat
  lims_set_m_assumptions lims_set_m_trail lims_set_m_binary lims_set_m_binary_trail
  lims_set_m_num_tc1 lims_set_m_qhead lims_set_m_clauses lims_set_m_retired_clauses
  lims_set_m_retired_ternary lims_set_m_cls_allocator lims_set_m_inconsistent
  lims_set_m_bstamp lims_set_m_H lims_set_m_heur lims_set_m_rating lims_set_m_bstamp_id
  lims_set_m_istamp_id lims_set_m_stamp lims_set_m_level lims_set_m_watches lims_set_m_lits
  lims_set_m_full_watches lims_set_m_weighted_new_binaries lims_set_m_wstack lims_set_m_prefix
  lims_set_m_vprefix lims_set_m_freevars lims_set_m_search_mode lims_set_m_model
  lims_set_m_candidates lims_set_m_select_lookahead_vars lims_set_m_active lims_set_m_rank
  lims_set_m_settled lims_set_m_dfs lims_set_m_root_child lims_set_m_lookahead
  lims_set_m_verbose : lims.

(** Unfolds nothing: takes the goal apart along its [if]s and [match]es and
    rewrites with the lemmas collected so far. *)
Ltac lims_auto :=
  repeat first
    [ progress autorewrite with lims
    | reflexivity
    | assumption
    | case_match ].

Lemma lims_verbose d s : lims (verbose d s) = lims s.
Proof. reflexivity. Qed.
Lemma lims_set_true l s : lims (set_true l s) = lims s.
Proof. reflexivity. Qed.
Lemma lims_set_undef l s : lims (set_undef l s) = lims s.
Proof. reflexivity. Qed.
Lemma lims_set_level d l s : lims (set_level d l s) = lims s.
Proof. reflexivity. Qed.
Lemma lims_set_conflict s : lims (set_conflict s) = lims s.
Proof. reflexivity. Qed.
Lemma lims_flip_prefix s : lims (flip_prefix s) = lims s.
Proof. unfold flip_prefix. lims_auto. Qed.
Lemma lims_prune_prefix s : lims (prune_prefix s) = lims s.
Proof. unfold prune_prefix. lims_auto. Qed.
Lemma lims_update_prefix l s : lims (update_prefix l s) = lims s.
Proof. unfold update_prefix. cbv zeta. lims_auto. Qed.
Lemma lims_validate_binary l1 l2 s : lims (validate_binary l1 l2 s) = lims s.
Proof. unfold validate_binary. lims_auto. Qed.
#[local] Hint Rewrite lims_verbose lims_set_true lims_set_undef lims_set_level lims_set_conflict
  lims_flip_prefix lims_prune_prefix lims_update_prefix lims_validate_binary : lims.

Lemma lims_add_binary l1 l2 s : lims (add_binary l1 l2 s) = lims s.
Proof. unfold add_binary. cbv zeta. lims_auto. Qed.
Lemma lims_del_binary idx s : lims (del_binary idx s) = lims s.
Proof. unfold del_binary. cbv zeta. lims_auto. Qed.
Lemma lims_inc_bstamp s : lims (inc_bstamp s) = lims s.
Proof. unfold inc_bstamp. cbv zeta. lims_auto. Qed.
Lemma lims_inc_istamp s : lims (inc_istamp s) = lims s.
Proof. unfold inc_istamp. cbv zeta. lims_auto. Qed.
Lemma lims_set_bstamp l s : lims (set_bstamp l s) = lims s.
Proof. reflexivity. Qed.
#[local] Hint Rewrite lims_add_binary lims_del_binary lims_inc_bstamp lims_inc_istamp
  lims_set_bstamp : lims.

Lemma lims_fold_left {A} (f : lookahead -> A -> lookahead) (l : list A) (s : lookahead) :
  (forall s a, lims (f s a) = lims s) -> lims (fold_left f l s) = lims s.
Proof. intros H. by apply (fold_left_frame f lims). Qed.

Lemma lims_set_bstamps l s : lims (set_bstamps l s) = lims s.
Proof.
  unfold set_bstamps. cbv zeta. rewrite lims_fold_left by (intros; lims_auto). lims_auto.
Qed.
Lemma lims_validate_assign l s : lims (validate_assign l s) = lims s.
Proof. unfold validate_assign. lims_auto. Qed.
#[local] Hint Rewrite lims_set_bstamps lims_validate_assign : lims.

Lemma lims_assign l s : lims (assign l s) = lims s.
Proof. unfold assign. cbv zeta. lims_auto. Qed.
#[local] Hint Rewrite lims_assign : lims.

Lemma lims_propagated l s : lims (propagated l s) = lims s.
Proof. unfold propagated. cbv zeta. lims_auto. Qed.
#[local] Hint Rewrite lims_propagated : lims.

Lemma lims_add_tc1_loop u ws s : lims (add_tc1_loop u ws s).2 = lims s.
Proof.
  revert s. induction ws as [|w ws IH]; intros s; simpl; [done|].
  repeat case_match; simpl; rewrite ?IH; lims_auto.
Qed.

Lemma lims_add_tc1 u v s : lims (add_tc1 u v s).2 = lims s.
Proof. apply lims_add_tc1_loop. Qed.

Lemma lims_try_add_binary u v s : lims (try_add_binary u v s) = lims s.
Proof.
  unfold try_add_binary. cbv zeta.
  repeat match goal with
         | |- context [add_tc1 ?a ?b ?t] =>
             let H := fresh "H" in
             pose proof (lims_add_tc1 a b t) as H;
             destruct (add_tc1 a b t); simpl in H
         | _ => case_match
         end;
    repeat first [progress autorewrite with lims | match goal with H : lims _ = _ |- _ => rewrite H; clear H end];
    reflexivity.
Qed.
#[local] Hint Rewrite lims_try_add_binary : lims.

Lemma lims_set_clause off c s : lims (set_clause off c s) = lims s.
Proof. reflexivity. Qed.
Lemma lims_set_wlist l wl s : lims (set_wlist l wl s) = lims s.
Proof. reflexivity. Qed.
Lemma lims_push_watch l w s : lims (push_watch l w s) = lims s.
Proof. reflexivity. Qed.
Lemma lims_attach_ternary l1 l2 l3 s : lims (attach_ternary l1 l2 l3 s) = lims s.
Proof. reflexivity. Qed.
Lemma lims_attach_clause off s : lims (attach_clause off s) = lims s.
Proof. unfold attach_clause. by case_match. Qed.
Lemma lims_detach_clause off s : lims (detach_clause off s) = lims s.
Proof. reflexivity. Qed.
Lemma lims_detach_ternary l1 l2 l3 s : lims (detach_ternary l1 l2 l3 s) = lims s.
Proof. reflexivity. Qed.
#[local] Hint Rewrite lims_set_clause lims_set_wlist lims_push_watch lims_attach_ternary
  lims_attach_clause lims_detach_clause lims_detach_ternary : lims.

Lemma lims_propagate_ternary l l1 l2 s : lims (propagate_ternary l l1 l2 s).2 = lims s.
Proof. unfold propagate_ternary. repeat case_match; simpl; lims_auto. Qed.

Lemma lims_propagate_clause l b off s : lims (propagate_clause l b off s).2 = lims s.
Proof. unfold propagate_clause. cbv zeta. repeat case_match; simpl; lims_auto. Qed.

Lemma lims_ext_apply c s : lims (ext_apply c s) = lims s.
Proof. destruct c; simpl; lims_auto. Qed.
#[local] Hint Rewrite lims_ext_apply : lims.

Lemma lims_propagate_ext l idx s : lims (propagate_ext l idx s).2 = lims s.
Proof.
  unfold propagate_ext. destruct (s_ext (m_s s)) as [e|]; [|done].
  destruct (ext_propagate e _ l idx) as [calls keep]. cbv zeta.
  repeat case_match; simpl; rewrite ?lims_set_conflict;
    apply lims_fold_left; intros; lims_auto.
Qed.

Lemma lims_propagate_watch l w s : lims (propagate_watch l w s).2 = lims s.
Proof.
  destruct w; simpl; [done|apply lims_propagate_ternary|apply lims_propagate_clause|
                     apply lims_propagate_ext].
Qed.

Lemma lims_propagate_clauses_loop l rest kept s :
  lims (propagate_clauses_loop l rest kept s) = lims s.
Proof.
  revert kept s. induction rest as [|w rest IH]; intros kept s; simpl; [done|].
  destruct (inconsistent s); [done|].
  pose proof (lims_propagate_watch l w s) as H.
  destruct (propagate_watch l w s) as [k s1]. simpl in H. by rewrite IH.
Qed.

Lemma lims_propagate_clauses l s : lims (propagate_clauses l s) = lims s.
Proof. unfold propagate_clauses. case_match; [done|]. apply lims_propagate_clauses_loop. Qed.

Lemma lims_propagate_binary_loop lits s : lims (propagate_binary_loop lits s) = lims s.
Proof.
  revert s. induction lits as [|w lits IH]; intros s; simpl; [done|].
  destruct (inconsistent s); [done|]. by rewrite IH, lims_assign.
Qed.

Lemma lims_propagate_binary l s : lims (propagate_binary l s) = lims s.
Proof. apply lims_propagate_binary_loop. Qed.

Lemma lims_propagate_pass f window s :
  (forall l s, lims (f l s) = lims s) -> lims (propagate_pass f window s) = lims s.
Proof.
  intros Hf. revert s. induction window as [|l window IH]; intros s; simpl; [done|].
  destruct (inconsistent s); [done|]. by rewrite IH, Hf.
Qed.

Lemma lims_propagate fuel s s' : propagate fuel s = Some s' -> lims s' = lims s.
Proof.
  revert s. induction fuel as [|fuel IH]; intros s; simpl.
  - case_match; [done|]. by intros [= ->].
  - case_match; [|by intros [= ->]]. intros Hp. apply IH in Hp. rewrite Hp.
    rewrite lims_set_m_qhead.
    rewrite lims_propagate_pass by apply lims_propagate_clauses.
    by rewrite lims_propagate_pass by apply lims_propagate_binary.
Qed.

#[local] Hint Rewrite lims_propagate_clauses lims_propagate_binary : lims.

Lemma lims_l_score_binary hi l lits sum s : lims (l_score_binary hi l lits sum s).2 = lims s.
Proof.
  revert sum s. induction lits as [|w lits IH]; intros sum s; simpl; [done|].
  rewrite IH. by case_match.
Qed.

Lemma lims_l_score l hi f sq af s : lims (l_score l hi f sq af s).2 = lims s.
Proof.
  unfold l_score. pose proof (lims_l_score_binary hi l (binary_of l s) 0%float s) as H.
  by destruct (l_score_binary hi l (binary_of l s) 0 s).
Qed.

Lemma lims_set_H hpi l x s : lims (set_H hpi l x s) = lims s.
Proof. reflexivity. Qed.

Lemma lims_h_scores_var hi hpi f sq af x s : lims (h_scores_var hi hpi f sq af x s) = lims s.
Proof.
  unfold h_scores_var. cbv zeta.
  pose proof (lims_l_score (mk_literal x false) hi f sq af s) as H1.
  destruct (l_score (mk_literal x false) hi f sq af s) as [pos s1]. simpl in H1.
  pose proof (lims_l_score (~~(mk_literal x false)) hi f sq af s1) as H2.
  destruct (l_score (~~(mk_literal x false)) hi f sq af s1) as [neg s2]. simpl in H2.
  rewrite lims_set_m_rating, !lims_set_H. congruence.
Qed.

Lemma lims_h_scores hi hpi s : lims (h_scores hi hpi s) = lims s.
Proof.
  unfold h_scores. cbv zeta. apply lims_fold_left. intros. apply lims_h_scores_var.
Qed.

Lemma lims_ensure_H level s : lims (ensure_H level s) = lims s.
Proof. reflexivity. Qed.
#[local] Hint Rewrite lims_h_scores lims_ensure_H : lims.

Lemma lims_init_pre_selection level s : lims (init_pre_selection level s) = lims s.
Proof. unfold init_pre_selection. cbv zeta. lims_auto. Qed.

Lemma lims_init_candidates level newbies s : lims (init_candidates level newbies s).2 = lims s.
Proof.
  unfold init_candidates. cbv zeta.
  match goal with
  | |- lims (fold_left ?F ?xs ?p).2 = _ =>
      assert (G : forall ys q, lims (fold_left F ys q).2 = lims q.2);
      [|by rewrite G]
  end.
  induction ys as [|x ys IH]; intros [sum s0]; simpl; [done|].
  rewrite IH. repeat case_match; reflexivity.
Qed.

Lemma lims_select_candidates fuel level newbies s r s' :
  select_candidates fuel level newbies s = Some (r, s') -> lims s' = lims s.
Proof.
  revert newbies s. induction fuel as [|fuel IH]; intros newbies s; simpl; [done|].
  pose proof (lims_init_candidates level newbies s) as H.
  destruct (init_candidates level newbies s) as [sum s1]. simpl in H.
  repeat case_match; try (intros [= <- <-]; done).
  intros Hs. apply IH in Hs. congruence.
Qed.

Lemma lims_select fuel level s b s' : select fuel level s = Some (b, s') -> lims s' = lims s.
Proof.
  unfold select. cbv zeta.
  destruct (select_candidates fuel level false (init_pre_selection level s))
    as [[[sum|] s1]|] eqn:E; [| |done];
    apply lims_select_candidates in E; rewrite lims_init_pre_selection in E;
    intros [= <- <-]; [by rewrite lims_set_m_candidates|done].
Qed.

(** *** Strongly connected components and the lookahead table *)

Lemma lims_set_dfs l d s : lims (set_dfs l d s) = lims s.
Proof. reflexivity. Qed.
Lemma lims_set_rank v r s : lims (set_rank v r s) = lims s.
Proof. reflexivity. Qed.
Lemma lims_set_height v h s : lims (set_height v h s) = lims s.
Proof. reflexivity. Qed.
Lemma lims_set_parent v p s : lims (set_parent v p s) = lims s.
Proof. reflexivity. Qed.
Lemma lims_set_link v u s : lims (set_link v u s) = lims s.
Proof. reflexivity. Qed.
Lemma lims_set_min v u s : lims (set_min v u s) = lims s.
Proof. reflexivity. Qed.
Lemma lims_set_vcomp v u s : lims (set_vcomp v u s) = lims s.
Proof. reflexivity. Qed.
Lemma lims_add_arc u v s : lims (add_arc u v s) = lims s.
Proof. reflexivity. Qed.
Lemma lims_pop_arc u s : lims (pop_arc u s).2 = lims s.
Proof. reflexivity. Qed.
Lemma lims_init_dfs_info l s : lims (init_dfs_info l s) = lims s.
Proof. reflexivity. Qed.
Lemma lims_set_child v u s : lims (set_child v u s) = lims s.
Proof. unfold set_child. by case_match. Qed.
Lemma lims_set_offset idx offset s : lims (set_offset idx offset s) = lims s.
Proof. reflexivity. Qed.
Lemma lims_set_lookahead l s : lims (set_lookahead l s) = lims s.
Proof. reflexivity. Qed.
#[local] Hint Rewrite lims_set_dfs lims_set_rank lims_set_height lims_set_parent lims_set_link
  lims_set_min lims_set_vcomp lims_add_arc lims_init_dfs_info lims_set_child lims_set_offset
  lims_set_lookahead : lims.

Lemma lims_init_arcs l s : lims (init_arcs l s) = lims s.
Proof. unfold init_arcs. apply lims_fold_left. intros. lims_auto. Qed.
#[local] Hint Rewrite lims_init_arcs : lims.

Lemma lims_init_scc s : lims (init_scc s) = lims s.
Proof.
  unfold init_scc. cbv zeta. autorewrite with lims.
  rewrite lims_fold_left by (intros; cbv zeta; by autorewrite with lims).
  rewrite lims_fold_left by (intros; cbv zeta; by autorewrite with lims).
  by autorewrite with lims.
Qed.

Lemma lims_activate_scc l s : lims (activate_scc l s) = lims s.
Proof. reflexivity. Qed.
#[local] Hint Rewrite lims_init_scc lims_activate_scc : lims.

Lemma lims_found_scc_loop fuel v t best br s r s' :
  found_scc_loop fuel v t best br s = Some (r, s') -> lims s' = lims s.
Proof.
  revert t best br s. induction fuel as [|fuel IH]; intros t best br s; simpl.
  - case_match; [|done]. by intros [= <- <-].
  - case_match; [by intros [= <- <-]|]. case_match; [by intros [= <- <-]|].
    case_match; intros Hs; apply IH in Hs; by rewrite Hs.
Qed.

Lemma lims_found_scc fuel v s s' : found_scc fuel v s = Some s' -> lims s' = lims s.
Proof.
  unfold found_scc. cbv zeta.
  match goal with
  | |- context [found_scc_loop ?a ?b ?c ?d ?e ?f] =>
      destruct (found_scc_loop a b c d e f) as [[best s1]|] eqn:E; [|done]
  end.
  apply lims_found_scc_loop in E.
  assert (E' : lims s1 = lims s) by (rewrite E; reflexivity).
  case_match; intros [= <-]; autorewrite with lims; exact E'.
Qed.

Lemma lims_get_scc_loop fuel v s s' : get_scc_loop fuel v s = Some s' -> lims s' = lims s.
Proof.
  revert v s. induction fuel as [|fuel IH]; intros v s; simpl; [done|].
  match goal with
  | |- match ?next with _ => _ end = _ -> _ =>
      assert (Hn : forall v1 s1, next = Some (v1, s1) -> lims s1 = lims s);
      [|destruct next as [[v1 s1]|]; [|done]]
  end.
  { intros v1 s1. repeat case_match; try done; try (intros [= <- <-]; done).
    intros [= <- <-]. match goal with H : found_scc _ _ _ = Some _ |- _ =>
      by apply lims_found_scc in H end. }
  specialize (Hn v1 s1 eq_refl).
  case_match; [|intros [= <-]; done].
  intros Hs. apply IH in Hs. congruence.
Qed.

Lemma lims_get_scc_from fuel v s s' : get_scc_from fuel v s = Some s' -> lims s' = lims s.
Proof. unfold get_scc_from. intros H. by apply lims_get_scc_loop in H. Qed.

Lemma lims_get_scc_candidates fuel cands s s' :
  get_scc_candidates fuel cands s = Some s' -> lims s' = lims s.
Proof.
  revert s. induction cands as [|c cands IH]; intros s; simpl; [by intros [= <-]|].
  case_match; [by intros [= <-]|].
  set (lit := mk_literal (candidate.m_var c) false).
  destruct (if get_rank lit s =? 0 then get_scc_from fuel lit s else Some s) as [s1|] eqn:E1;
    [|done].
  assert (H1 : lims s1 = lims s).
  { destruct (get_rank lit s =? 0); [by apply lims_get_scc_from in E1|by injection E1 as <-]. }
  destruct (if get_rank (~~lit) s1 =? 0 then get_scc_from fuel (~~lit) s1 else Some s1)
    as [s2|] eqn:E2; [|done].
  assert (H2 : lims s2 = lims s1).
  { destruct (get_rank (~~lit) s1 =? 0); [by apply lims_get_scc_from in E2|by injection E2 as <-]. }
  intros Hs. apply IH in Hs. congruence.
Qed.

Lemma lims_get_scc fuel s s' : get_scc fuel s = Some s' -> lims s' = lims s.
Proof.
  unfold get_scc. cbv zeta. intros H. apply lims_get_scc_candidates in H.
  by rewrite lims_init_scc in H.
Qed.

Lemma lims_find_heights_loop fuel u pp h w s s' :
  find_heights_loop fuel u pp h w s = Some s' -> lims s' = lims s.
Proof.
  revert u pp h w s. induction fuel as [|fuel IH]; intros u pp h w s; simpl.
  - case_match; [|done]. by intros [= <-].
  - case_match; [by intros [= <-]|].
    repeat case_match; intros Hs; apply IH in Hs; rewrite Hs; lims_auto.
Qed.

Lemma lims_find_heights fuel s s' : find_heights fuel s = Some s' -> lims s' = lims s.
Proof. unfold find_heights. cbv zeta. intros H. by apply lims_find_heights_loop in H. Qed.

Lemma lims_table fuel :
  (forall u v offset s s', table_down fuel u v offset s = Some s' -> lims s' = lims s)
  /\ (forall u v offset s s', table_up fuel u v offset s = Some s' -> lims s' = lims s).
Proof.
  induction fuel as [|fuel [IHd IHu]]; split; intros u v offset s s'; simpl; try done.
  - case_match; [|done]. by intros [= <-].
  - case_match; [by intros [= <-]|].
    case_match; intros Hs; [apply IHd in Hs|apply IHu in Hs]; rewrite Hs; lims_auto.
  - case_match; intros Hs; [apply IHu in Hs|apply IHd in Hs]; rewrite Hs; lims_auto.
Qed.

Lemma lims_construct_lookahead_table fuel s s' :
  construct_lookahead_table fuel s = Some s' -> lims s' = lims s.
Proof. unfold construct_lookahead_table. apply lims_table. Qed.

Lemma lims_pre_select fuel s s' : pre_select fuel s = Some s' -> lims s' = lims s.
Proof.
  unfold pre_select. cbv zeta.
  destruct (select fuel _ (set_m_lookahead [] s)) as [[[] s1]|] eqn:E1; [| |done];
    apply lims_select in E1; rewrite lims_set_m_lookahead in E1; [|by intros [= <-]].
  destruct (get_scc fuel s1) as [s2|] eqn:E2; [|done]. apply lims_get_scc in E2.
  case_match; [intros [= <-]; congruence|].
  destruct (find_heights fuel s2) as [s3|] eqn:E3; [|done]. apply lims_find_heights in E3.
  intros Ht. apply lims_construct_lookahead_table in Ht. congruence.
Qed.

(** *** The depth of the six stacks *)

(** The lengths of [m_trail_lim], [m_qhead_lim], [m_binary_trail_lim],
    [m_num_tc1_lim], [m_retired_clause_lim] and [m_retired_ternary_lim]. *)
Definition depth_of (l : list nat * list nat * list nat * list N * list nat * list nat)
  : nat * nat * nat * nat * nat * nat :=
  let '(a, b, c, d, e, f) := l in
  (length a, length b, length c, length d, length e, length f).

Definition depth (s : lookahead) : nat * nat * nat * nat * nat * nat := depth_of (lims s).

(** All six stacks hold [k] marks. *)
Definition level6 (k : nat) : nat * nat * nat * nat * nat * nat := (k, k, k, k, k, k).

Definition balanced (s : lookahead) : Prop := exists k, depth s = level6 k.

(** One mark more on [m_trail_lim] and [m_qhead_lim] only: what [init_wnb]
    opens. *)
Definition bump (d : nat * nat * nat * nat * nat * nat) : nat * nat * nat * nat * nat * nat :=
  let '(a, b, c, d, e, f) := d in (S a, S b, c, d, e, f).

Definition succ6 (d : nat * nat * nat * nat * nat * nat) : nat * nat * nat * nat * nat * nat :=
  let '(a, b, c, d, e, f) := d in (S a, S b, S c, S d, S e, S f).

Definition pred6 (d : nat * nat * nat * nat * nat * nat) : nat * nat * nat * nat * nat * nat :=
  let '(a, b, c, d, e, f) := d in
  (Nat.pred a, Nat.pred b, Nat.pred c, Nat.pred d, Nat.pred e, Nat.pred f).

Lemma depth_lims (s s' : lookahead) : lims s' = lims s -> depth s' = depth s.
Proof. unfold depth. by intros ->. Qed.

Lemma length_pop_back {A} (t : list A) : length (pop_back t) = Nat.pred (length t).
Proof.
  destruct t as [|x t _] using rev_ind; [done|].
  rewrite pop_back_snoc, length_app. simpl. lia.
Qed.

Lemma depth_init_wnb (s : lookahead) : depth (init_wnb s) = bump (depth s).
Proof.
  unfold depth, depth_of, init_wnb, bump, lims. simpl. rewrite !length_app. simpl.
  repeat f_equal; lia.
Qed.

Lemma depth_reset_wnb (s : lookahead) (d : nat * nat * nat * nat * nat * nat) :
  depth s = bump d -> depth (reset_wnb s) = d.
Proof.
  destruct d as [[[[[a b] c] e] f] g]. unfold reset_wnb. cbv zeta.
  match goal with
  | |- context [fold_left ?F ?l ?s0] =>
      pose proof (lims_fold_left F l s0 (fun s a => lims_set_undef a s)) as H;
      generalize dependent (fold_left F l s0)
  end.
  intros s1 H. simpl in H. unfold depth, depth_of, bump, lims in *. simpl.
  rewrite !length_pop_back. injection H as -> -> -> -> -> ->.
  intros [= -> -> -> -> -> ->]. reflexivity.
Qed.

Lemma depth_push (fuel : nat) (lit : literal) (level : N) (s s' : lookahead) :
  push fuel lit level s = Some s' -> depth s' = succ6 (depth s).
Proof.
  unfold push. cbv zeta.
  match goal with
  | |- match propagate fuel ?t with _ => _ end = _ -> _ =>
      destruct (propagate fuel t) as [s1|] eqn:E; [|done]
  end.
  apply lims_propagate in E. rewrite lims_assign in E. intros [= <-].
  unfold depth. rewrite lims_set_m_level, E. unfold depth_of, succ6, lims. simpl.
  rewrite !length_app. simpl. repeat f_equal; lia.
Qed.

Lemma depth_pop (s : lookahead) : depth (pop s) = pred6 (depth s).
Proof.
  unfold depth. rewrite (lims_scope (pop s)), scope_pop.
  unfold depth_of, pred6, lims. simpl. by rewrite !length_pop_back.
Qed.

Lemma balanced_pop (s : lookahead) : balanced s -> balanced (pop s).
Proof. intros [k Hk]. exists (Nat.pred k). by rewrite depth_pop, Hk. Qed.

Lemma balanced_push (fuel : nat) (lit : literal) (level : N) (s s' : lookahead) :
  push fuel lit level s = Some s' -> balanced s -> balanced s'.
Proof. intros Hp [k Hk]. exists (S k). by rewrite (depth_push _ _ _ _ _ Hp), Hk. Qed.

Lemma balanced_lims (s s' : lookahead) : lims s' = lims s -> balanced s -> balanced s'.
Proof. intros H [k Hk]. exists k. by rewrite (depth_lims _ _ H). Qed.

(** *** Lookahead *)

Lemma lims_push_lookahead2 fuel lit level s b s' :
  push_lookahead2 fuel lit level s = Some (b, s') -> lims s' = lims s.
Proof.
  unfold push_lookahead2. cbv zeta.
  match goal with
  | |- match propagate fuel ?t with _ => _ end = _ -> _ =>
      destruct (propagate fuel t) as [s1|] eqn:E; [|done]
  end.
  apply lims_propagate in E. rewrite lims_assign in E. intros [= <- <-].
  by autorewrite with lims.
Qed.

Lemma lims_push_lookahead1 fuel lit level s s' :
  push_lookahead1 fuel lit level s = Some s' -> lims s' = lims s.
Proof.
  unfold push_lookahead1. cbv zeta.
  match goal with
  | |- match propagate fuel ?t with _ => _ end = _ -> _ =>
      destruct (propagate fuel t) as [s1|] eqn:E; [|done]
  end.
  apply lims_propagate in E. rewrite lims_assign in E. intros [= <-].
  by autorewrite with lims.
Qed.

Lemma lims_pop_lookahead1 lit s : lims (pop_lookahead1 lit s) = lims s.
Proof.
  unfold pop_lookahead1. cbv zeta. rewrite lims_set_m_wstack.
  case_match; [|reflexivity].
  by rewrite lims_fold_left by (intros; apply lims_add_binary).
Qed.

Lemma lims_set_wnb l f s : lims (set_wnb l f s) = lims s.
Proof. reflexivity. Qed.
Lemma lims_inc_wnb l f s : lims (inc_wnb l f s) = lims s.
Proof. reflexivity. Qed.
Lemma lims_dl_disable l s : lims (dl_disable l s) = lims s.
Proof. reflexivity. Qed.
Lemma lims_reset_wnb_lit l s : lims (reset_wnb_lit l s) = lims s.
Proof. reflexivity. Qed.
#[local] Hint Rewrite lims_pop_lookahead1 lims_set_wnb lims_inc_wnb lims_dl_disable
  lims_reset_wnb_lit : lims.

Lemma lims_update_wnb fuel l level s s' : update_wnb fuel l level s = Some s' -> lims s' = lims s.
Proof.
  unfold update_wnb, check_autarky. simpl negb. cbv iota.
  case_match; intros [= <-]; [done|apply lims_inc_wnb].
Qed.

Lemma depth_double_look_pass fuel dl_truth base idxs change s d r s' :
  depth s = bump d ->
  double_look_pass fuel dl_truth base idxs change s = Some (r, s') -> depth s' = bump d.
Proof.
  revert change s. induction idxs as [|i idxs IH]; intros change s Hd; simpl.
  - by intros [= <- <-].
  - case_match; [by intros [= <- <-]|].
    case_match; [by apply IH|].
    match goal with
    | |- match push_lookahead2 ?a ?b ?c ?e with _ => _ end = _ -> _ =>
        destruct (push_lookahead2 a b c e) as [[[] s1]|] eqn:E; [| |done]
    end; apply lims_push_lookahead2, depth_lims in E.
    + match goal with
      | |- match propagate fuel ?t with _ => _ end = _ -> _ =>
          destruct (propagate fuel t) as [s2|] eqn:E2; [|done]
      end.
      apply lims_propagate in E2. rewrite lims_assign in E2. apply depth_lims in E2.
      apply IH. rewrite depth_init_wnb, E2. f_equal. apply depth_reset_wnb. congruence.
    + apply IH. congruence.
Qed.

Lemma depth_double_look_loop fuel rounds dl_truth base change s d r s' :
  depth s = bump d ->
  double_look_loop fuel rounds dl_truth base change s = Some (r, s') -> depth s' = bump d.
Proof.
  revert base change s. induction rounds as [|rounds IH]; intros base change s Hd; simpl.
  - by intros [= <- <-].
  - case_match; [|by intros [= <- <-]].
    match goal with
    | |- match double_look_pass ?a ?b ?c ?e ?f ?g with _ => _ end = _ -> _ =>
        destruct (double_look_pass a b c e f g) as [[ch s1]|] eqn:E; [|done]
    end.
    eapply depth_double_look_pass in E; [|done]. by apply IH.
Qed.

Lemma depth_double_look fuel l base s r s' :
  double_look fuel l base s = Some (r, s') -> depth s' = depth s.
Proof.
  unfold double_look. cbv zeta.
  match goal with
  | |- match propagate fuel ?t with _ => _ end = _ -> _ =>
      destruct (propagate fuel t) as [s1|] eqn:E; [|done]
  end.
  apply lims_propagate in E. rewrite lims_assign in E. apply depth_lims in E.
  rewrite depth_init_wnb in E.
  match goal with
  | |- match double_look_loop ?a ?b ?c ?e ?f ?g with _ => _ end = _ -> _ =>
      destruct (double_look_loop a b c e f g) as [[b1 s2]|] eqn:E2; [|done]
  end.
  eapply depth_double_look_loop in E2; [|exact E].
  intros [= <- <-].
  rewrite (depth_lims _ _ (lims_set_m_level _ _)). apply depth_reset_wnb.
  by rewrite E2.
Qed.

Lemma depth_do_double fuel l base s r s' :
  do_double fuel l base s = Some (r, s') -> depth s' = depth s.
Proof.
  unfold do_double. repeat case_match; try (intros [= <- <-]; done); try done.
  intros [= <- <-].
  match goal with H : double_look _ _ _ _ = Some _ |- _ => apply depth_double_look in H end.
  etrans; [|eassumption]. apply depth_lims. reflexivity.
Qed.

(** *** Checkpoints and the search *)

(** What an operation that may throw leaves behind: the depth [d] when it
    returns, the depth [e] when it throws. *)
Definition leaves {A} (o : outcome A) (d e : nat * nat * nat * nat * nat * nat) : Prop :=
  match o with
  | Ret _ s' => depth s' = d
  | Throw _ s' => depth s' = e
  | OutOfFuel => True
  end.

Lemma depth_checkpoint (s : lookahead) : leaves (checkpoint s) (depth s) (depth s).
Proof.
  unfold checkpoint. destruct (reslimit_inc (m_rlimit s)) as [ok r].
  repeat case_match; simpl; reflexivity.
Qed.

Lemma depth_compute_wnb_pass fuel first idxs base change s d :
  depth s = bump d ->
  leaves (compute_wnb_pass fuel first idxs base change s) (bump d) (bump d).
Proof.
  revert base change s. induction idxs as [|i idxs IH]; intros base change s Hd; simpl; [done|].
  case_match; [done|].
  pose proof (depth_checkpoint s) as Hc.
  destruct (checkpoint s) as [[] s0|e s0|]; simpl in Hc; [|simpl; congruence|done].
  assert (Hd0 : depth s0 = bump d) by congruence. clear Hc.
  case_match; [by apply IH|]. case_match; [by apply IH|].
  match goal with
  | |- leaves (match push_lookahead1 ?a ?b ?c ?t with _ => _ end) _ _ =>
      destruct (push_lookahead1 a b c t) as [s1|] eqn:E1; [|done]
  end.
  apply lims_push_lookahead1, depth_lims in E1.
  rewrite (depth_lims _ _ (lims_reset_wnb_lit _ _)) in E1.
  match goal with
  | |- leaves (match ?dd with _ => _ end) _ _ =>
      assert (Hdd : forall b2 s2, dd = Some (b2, s2) -> depth s2 = depth s1);
      [|destruct dd as [[b2 s2]|]; [|done]]
  end.
  { intros b2 s2. case_match; [apply depth_do_double|by intros [= <- <-]]. }
  specialize (Hdd b2 s2 eq_refl).
  assert (Hd2 : depth (pop_lookahead1 (m_lit (nth_nat (mk_literal_offset null_literal 0)
                                                 (m_lookahead s0) i)) s2) = bump d).
  { rewrite (depth_lims _ _ (lims_pop_lookahead1 _ _)). congruence. }
  case_match.
  - match goal with
    | |- leaves (match propagate fuel ?t with _ => _ end) _ _ =>
        destruct (propagate fuel t) as [s3|] eqn:E3; [|done]
    end.
    apply lims_propagate in E3. rewrite lims_assign in E3. apply depth_lims in E3.
    apply IH. rewrite depth_init_wnb, E3. f_equal. by apply depth_reset_wnb.
  - match goal with
    | |- leaves (match update_wnb ?a ?b ?c ?t with _ => _ end) _ _ =>
        destruct (update_wnb a b c t) as [s3|] eqn:E3; [|done]
    end.
    apply lims_update_wnb, depth_lims in E3. apply IH. congruence.
Qed.

Lemma depth_compute_wnb_loop fuel rounds first base change s d :
  depth s = bump d ->
  leaves (compute_wnb_loop fuel rounds first base change s) (bump d) (bump d).
Proof.
  revert first base change s. induction rounds as [|rounds IH]; intros first base change s Hd;
    simpl.
  - by case_match.
  - case_match; [|done].
    pose proof (depth_compute_wnb_pass fuel first (seq 0 (length (m_lookahead s))) base false
                  s d Hd) as Hp.
    destruct (compute_wnb_pass fuel first (seq 0 (length (m_lookahead s))) base false s)
      as [[b1 c1] s1|e s1|]; simpl in Hp; [|done|done].
    case_match; [done|].
    destruct (if first && negb c1 then (false, true) else (first, c1)) as [f2 c2].
    apply IH. rewrite depth_init_wnb. f_equal. by apply depth_reset_wnb.
Qed.

(** [compute_wnb] closes the scope that its [init_wnb] opens when it
    returns, and leaves it open when a checkpoint throws. *)
Lemma depth_compute_wnb fuel s : leaves (compute_wnb fuel s) (depth s) (bump (depth s)).
Proof.
  unfold compute_wnb. cbv zeta.
  pose proof (depth_compute_wnb_loop fuel fuel true 2 true (init_wnb s) (depth s)
                (depth_init_wnb s)) as H.
  destruct (compute_wnb_loop fuel fuel true 2 true (init_wnb s)) as [[] s1|e s1|]; simpl in *;
    [|done|done].
  by apply depth_reset_wnb.
Qed.

Lemma lims_select_literal_step e l h count s :
  lims (select_literal_step e l h count s).2 = lims s.
Proof.
  unfold select_literal_step. cbv zeta.
  repeat case_match; simpl; try reflexivity.
Qed.

Lemma lims_select_literal s : lims (select_literal s).2 = lims s.
Proof.
  unfold select_literal.
  match goal with
  | |- context [fold_left ?F ?xs ?p] =>
      assert (G : forall ys q, lims (fold_left F ys q).2 = lims q.2)
  end.
  { induction ys as [|x ys IH]; intros [[[l h] c] s0]; simpl; [done|].
    rewrite IH. apply lims_select_literal_step. }
  specialize (G (m_lookahead s) (null_literal, 0%float, 1, s)).
  destruct (fold_left _ (m_lookahead s) _) as [[[l h] c] s1]. exact G.
Qed.

Lemma balanced_backtrack fuel rounds trail s b t s' :
  backtrack fuel rounds trail s = Some (b, t, s') -> balanced s -> balanced s'.
Proof.
  revert trail s. induction rounds as [|rounds IH]; intros trail s; simpl.
  - case_match; [done|]. by intros [= <- <- <-].
  - case_match; [|by intros [= <- <- <-]].
    case_match; [by intros [= <- <- <-]|].
    match goal with
    | |- match propagate fuel ?u with _ => _ end = _ -> _ =>
        destruct (propagate fuel u) as [s1|] eqn:E; [|done]
    end.
    apply lims_propagate in E. rewrite lims_assign, lims_flip_prefix in E.
    intros Hb Hs. eapply IH; [exact Hb|].
    eapply balanced_lims; [exact E|]. by apply balanced_pop.
Qed.

Lemma depth_choose fuel s : leaves (choose fuel s) (depth s) (bump (depth s)).
Proof.
  revert s. induction fuel as [|fuel IH]; intros s; simpl; [done|].
  destruct (pre_select (S fuel) s) as [s1|] eqn:E1; [|done].
  apply lims_pre_select, depth_lims in E1.
  destruct (bool_decide (m_lookahead s1 = [])); [done|].
  pose proof (depth_compute_wnb (S fuel) s1) as Hc.
  destruct (compute_wnb (S fuel) s1) as [[] s2|e s2|]; unfold leaves in Hc;
    [|unfold leaves; by rewrite Hc, E1|done].
  destruct (inconsistent s2); [unfold leaves; congruence|].
  pose proof (lims_select_literal s2) as Hl.
  destruct (select_literal s2) as [l s3]. simpl in Hl. apply depth_lims in Hl.
  destruct (bool_decide (l = null_literal)); [|unfold leaves; congruence].
  specialize (IH s3). rewrite Hl, Hc, E1 in IH. exact IH.
Qed.

(** What [search] may leave behind when a checkpoint throws: the six
    stacks level, or [m_trail_lim] and [m_qhead_lim] one mark above the
    other four. *)
Definition unwound (s : lookahead) : Prop :=
  exists k, depth s = level6 k \/ depth s = bump (level6 k).

Definition search_leaves (o : outcome lbool) : Prop :=
  match o with
  | Ret _ s' => balanced s'
  | Throw _ s' => unwound s'
  | OutOfFuel => True
  end.

Lemma search_loop_leaves fuel rounds trail s :
  balanced s -> search_leaves (search_loop fuel rounds trail s).
Proof.
  revert trail s. induction rounds as [|rounds IH]; intros trail s Hb; [exact I|].
  cbn [search_loop].
  pose proof (depth_checkpoint (inc_istamp s)) as Hc.
  rewrite (depth_lims _ _ (lims_inc_istamp s)) in Hc.
  destruct (checkpoint (inc_istamp s)) as [[] s0|e s0|]; unfold leaves in Hc; cbn iota;
    [| |exact I].
  2:{ destruct Hb as [k Hk]. exists k. left. congruence. }
  assert (Hb0 : balanced s0) by (destruct Hb as [k Hk]; exists k; congruence).
  destruct (inconsistent s0).
  { destruct (backtrack fuel (S (length trail)) trail s0) as [[[[] t2] s2]|] eqn:E;
      [| |exact I]; eapply balanced_backtrack in E; try done. by apply IH. }
  pose proof (depth_choose fuel s0) as Hch.
  destruct (choose fuel s0) as [l s1|e s1|]; unfold leaves in Hch; cbn iota; [| |exact I].
  2:{ destruct Hb0 as [k Hk]. exists k. right. congruence. }
  assert (Hb1 : balanced s1) by (destruct Hb0 as [k Hk]; exists k; congruence).
  destruct (inconsistent s1).
  { destruct (backtrack fuel (S (length trail)) trail s1) as [[[[] t2] s2]|] eqn:E;
      [| |exact I]; eapply balanced_backtrack in E; try done. by apply IH. }
  destruct (bool_decide (l = null_literal)); [done|].
  destruct (push fuel l c_fixed_truth s1) as [s2|] eqn:E; [|exact I].
  apply IH. by eapply balanced_push.
Qed.

Lemma search_leaves_search fuel s : balanced s -> search_leaves (search fuel s).
Proof.
  intros Hb. unfold search. cbv zeta.
  match goal with
  | |- search_leaves (match search_loop fuel fuel [] ?t with _ => _ end) =>
      pose proof (search_loop_leaves fuel fuel [] t) as H;
      destruct (search_loop fuel fuel [] t) as [r s1|e s1|]
  end; simpl in *; [| |done].
  - destruct H as [k Hk]; [by eapply balanced_lims; [|exact Hb]|]. by exists k.
  - destruct H as [k Hk]; [by eapply balanced_lims; [|exact Hb]|]. by exists k.
Qed.

(** *** Initialization *)

Lemma lims_init_var v s : lims (init_var v s) = lims s.
Proof. unfold init_var. cbv zeta. by case_match. Qed.

Lemma lims_copy_clause c s : lims (copy_clause c s) = lims s.
Proof.
  unfold copy_clause. destruct (was_removed c); [done|]. cbv zeta.
  match goal with
  | |- context [fold_left ?F ?l ?s0] =>
      pose proof (lims_fold_left F l s0 (fun _ _ => eq_refl)) as Hf;
      generalize dependent (fold_left F l s0)
  end.
  intros s1 Hf. rewrite lims_attach_clause in Hf. simpl in Hf.
  case_match; by autorewrite with lims.
Qed.

Lemma lims_copy_clauses clauses s : lims (copy_clauses clauses s) = lims s.
Proof. apply lims_fold_left. intros. apply lims_copy_clause. Qed.

Lemma lims_copy_binary s : lims (copy_binary s) = lims s.
Proof.
  apply lims_fold_left. intros s0 i. cbv zeta. apply lims_fold_left.
  intros s1 l2. case_match; [apply lims_add_binary|done].
Qed.

Lemma lims_copy_units s : lims (copy_units s) = lims s.
Proof. apply lims_fold_left. intros s0 l. cbv zeta. repeat case_match; lims_auto. Qed.

Lemma lims_copy_externals s : lims (copy_externals s) = lims s.
Proof. apply lims_fold_left. intros. reflexivity. Qed.

Lemma lims_init fuel s s' : init fuel s = Some s' -> lims s' = lims s.
Proof.
  unfold init. cbv zeta.
  match goal with
  | |- match propagate fuel ?t with _ => _ end = _ -> _ =>
      destruct (propagate fuel t) as [s1|] eqn:E; [|done]
  end.
  apply lims_propagate in E.
  rewrite lims_copy_externals, lims_copy_units, !lims_copy_clauses, lims_copy_binary in E.
  rewrite lims_fold_left in E by (intros; apply lims_init_var).
  intros [= <-]. rewrite lims_set_m_qhead, E. reflexivity.
Qed.

Lemma lims_init_search fuel s s' : init_search fuel s = Some s' -> lims s' = lims s.
Proof.
  unfold init_search. cbv zeta.
  match goal with
  | |- match init fuel ?t with _ => _ end = _ -> _ =>
      destruct (init fuel t) as [s1|] eqn:E; [|done]
  end.
  apply lims_init in E. intros [= <-]. rewrite lims_set_m_level, E. reflexivity.
Qed.

(** *** The stacks across [init_search] and [search] *)

(** Scenario 1 with a resource limit that lets one checkpoint pass. *)
Definition trivial_sat_limited : lookahead :=
  Eval vm_compute in set_m_rlimit (mk_reslimit 0 1 false) (initial 20 trivial_sat).

Definition trivial_sat_thrown : lookahead :=
  Eval vm_compute in
    match search 20 trivial_sat_limited with
    | Throw _ s => s
    | _ => trivial_sat_limited
    end.

(** An exception leaves a scope open: with the limit of one checkpoint the
    search on [{(+1 \/ +2)}] passes the checkpoint of [search] and is
    cancelled at the first checkpoint of [compute_wnb], after [init_wnb];
    nothing pops the mark that [init_wnb] put on [m_trail_lim] and
    [m_qhead_lim], and the stacks are left with lengths 1, 1, 0, 0, 0, 0. *)
Lemma cancelled_search_unbalanced :
  depth trivial_sat_limited = level6 0
  /\ search 20 trivial_sat_limited = Throw Z3_CANCELED_MSG trivial_sat_thrown
  /\ depth trivial_sat_thrown = (1, 1, 0, 0, 0, 0)%nat
  /\ ~ balanced trivial_sat_thrown.
Proof.
  split; [vm_compute; reflexivity|]. split; [vm_compute; reflexivity|].
  assert (D : depth trivial_sat_thrown = (1, 1, 0, 0, 0, 0)%nat) by (vm_compute; reflexivity).
  split; [exact D|]. intros [k Hk]. rewrite D in Hk. unfold level6 in Hk. congruence.
Qed.

(** C5 (as the code has it). From a state in which the six scope stacks
    have equal length, [init_search] returns with the stacks as they were,
    and [search], when it returns, leaves the six stacks with equal length:
    [push] puts one mark on each of the six, [pop] takes one off each, and
    the mark that [init_wnb] puts on [m_trail_lim] and [m_qhead_lim] alone
    is taken off by [reset_wnb] before [compute_wnb] returns.  When a
    checkpoint throws, nothing is popped: the six stacks have equal length,
    or, when the checkpoint was the one in [compute_wnb], [m_trail_lim] and
    [m_qhead_lim] are one mark longer than the other four. *)
Theorem search_scope_stacks (fuel : nat) (s : lookahead) :
  balanced s ->
  (forall s', init_search fuel s = Some s' -> depth s' = depth s)
  /\ match search fuel s with
     | Ret _ s' => balanced s'
     | Throw _ s' =>
         exists k, depth s' = level6 k \/ depth s' = (S k, S k, k, k, k, k)
     | OutOfFuel => True
     end.
Proof.
  intros Hb. split.
  - intros s' H. by apply depth_lims, (lims_init_search fuel).
  - pose proof (search_leaves_search fuel s Hb) as H.
    destruct (search fuel s); exact H.
Qed.

Definition trivial_sat_state : lookahead := Eval vm_compute in initial 20 trivial_sat.

Definition trivial_sat_final : lookahead :=
  Eval vm_compute in
    match search 20 trivial_sat_state with
    | Ret _ s => s
    | _ => trivial_sat_state
    end.

Lemma search_scope_stacks_witness :
  balanced trivial_sat_state
  /\ search 20 trivial_sat_state = Ret l_true trivial_sat_final
  /\ balanced trivial_sat_final
  /\ depth trivial_sat_final = level6 1.
Proof.
  assert (Hb : balanced trivial_sat_state) by (exists 0%nat; vm_compute; reflexivity).
  assert (E : search 20 trivial_sat_state = Ret l_true trivial_sat_final)
    by (vm_compute; reflexivity).
  destruct (search_scope_stacks 20 trivial_sat_state Hb) as [_ H].
  rewrite E in H.
  split; [exact Hb|]. split; [exact E|]. split; [exact H|]. vm_compute. reflexivity.
Defined.

(** ** Scenario 1: the model of [{(+1 \/ +2)}]

    No probe produces a new binary, so every candidate has the mixed
    difference 0 and [select_literal] takes the complement of a positive
    literal: the decision is [-2] here, [+1] follows by propagation, and
    the model gives variable 2 [l_false]. *)
Lemma trivial_sat_model :
  search 20 trivial_sat_state = Ret l_true trivial_sat_final
  /\ m_trail trivial_sat_final = [neg 2; pos 1]
  /\ m_trail_lim trivial_sat_final = [0%nat]
  /\ (get_model trivial_sat_final).1 = [l_true; l_false].
Proof. repeat split; vm_compute; reflexivity. Qed.

(** * Further properties of the solver *)

(** ** The answers of [search] *)

Lemma depth_pop_level6 (k : nat) (s : lookahead) :
  depth s = level6 (S k) -> depth (pop s) = level6 k.
Proof. intros H. by rewrite depth_pop, H. Qed.

(** [backtrack] pops one scope for each decision it takes off [trail]; it
    answers [true] in a state without conflict and [false] only when no
    decision is left and the conflict stands. *)
Lemma backtrack_spec (fuel rounds : nat) (trail : list literal) (s : lookahead) (k : nat)
    (b : bool) (t : list literal) (s' : lookahead) :
  backtrack fuel rounds trail s = Some (b, t, s') ->
  depth s = level6 (k + length trail) ->
  depth s' = level6 (k + length t)
  /\ (length t <= length trail)%nat
  /\ (if b then inconsistent s' = false else t = [] /\ inconsistent s' = true).
Proof.
  revert trail s. induction rounds as [|rounds IH]; intros trail s; simpl.
  - destruct (inconsistent s) eqn:Hi; [done|]. intros [= <- <- <-] Hd. by rewrite Hi.
  - destruct (inconsistent s) eqn:Hi; [|intros [= <- <- <-] Hd; by rewrite Hi].
    case_bool_decide as Ht; [intros [= <- <- <-] Hd; by rewrite Hi|].
    match goal with
    | |- match propagate fuel ?u with _ => _ end = _ -> _ =>
        destruct (propagate fuel u) as [s1|] eqn:E; [|done]
    end.
    apply lims_propagate in E. rewrite lims_assign, lims_flip_prefix in E.
    apply depth_lims in E. intros Hb Hd.
    destruct trail as [|x trail _] using rev_ind; [done|].
    rewrite length_app in Hd. simpl in Hd. rewrite pop_back_snoc in Hb.
    apply IH in Hb.
    + destruct Hb as (B1 & B2 & B3). split; [done|]. split; [|done].
      rewrite length_app. simpl. lia.
    + rewrite E. apply depth_pop_level6. rewrite Hd. f_equal. lia.
Qed.

Definition search_answer (k : nat) (o : outcome lbool) : Prop :=
  match o with
  | Ret l_true s' => inconsistent s' = false /\ exists j, depth s' = level6 (k + j)
  | Ret l_false s' => inconsistent s' = true /\ depth s' = level6 k
  | Ret l_undef _ => False
  | _ => True
  end.

Lemma search_loop_answer (fuel rounds : nat) (trail : list literal) (s : lookahead) (k : nat) :
  depth s = level6 (k + length trail) ->
  search_answer k (search_loop fuel rounds trail s).
Proof.
  revert trail s. induction rounds as [|rounds IH]; intros trail s Hd; [exact I|].
  cbn [search_loop].
  pose proof (depth_checkpoint (inc_istamp s)) as Hc.
  rewrite (depth_lims _ _ (lims_inc_istamp s)) in Hc.
  destruct (checkpoint (inc_istamp s)) as [[] s0|e s0|]; unfold leaves in Hc; cbn iota;
    [|exact I|exact I].
  assert (Hd0 : depth s0 = level6 (k + length trail)) by congruence.
  destruct (inconsistent s0) eqn:Hi0.
  { destruct (backtrack fuel (S (length trail)) trail s0) as [[[[] t2] s2]|] eqn:E;
      [| |exact I]; eapply backtrack_spec in E; try exact Hd0.
    - apply IH. by destruct E.
    - destruct E as (E1 & _ & -> & E3). simpl. split; [done|].
      rewrite E1. simpl. f_equal. lia. }
  pose proof (depth_choose fuel s0) as Hch.
  destruct (choose fuel s0) as [l s1|e s1|]; unfold leaves in Hch; cbn iota;
    [|exact I|exact I].
  assert (Hd1 : depth s1 = level6 (k + length trail)) by congruence.
  destruct (inconsistent s1) eqn:Hi1.
  { destruct (backtrack fuel (S (length trail)) trail s1) as [[[[] t2] s2]|] eqn:E;
      [| |exact I]; eapply backtrack_spec in E; try exact Hd1.
    - apply IH. by destruct E.
    - destruct E as (E1 & _ & -> & E3). simpl. split; [done|].
      rewrite E1. simpl. f_equal. lia. }
  destruct (bool_decide (l = null_literal)).
  { simpl. split; [done|]. by exists (length trail). }
  destruct (push fuel l c_fixed_truth s1) as [s2|] eqn:E; [|exact I].
  apply IH. rewrite (depth_push _ _ _ _ _ E), Hd1, length_app. simpl.
  unfold succ6, level6. repeat f_equal; lia.
Qed.

(** X1. [search], started with [k] marks on each of the six scope stacks,
    answers [l_true] only in a state without conflict, where the scopes of
    the decisions in force are still open; it answers [l_false] only with
    the conflict standing and after [backtrack] has popped every scope that
    the search pushed, the stacks again at [k]; it never answers
    [l_undef]. *)
Theorem search_answers (fuel : nat) (s : lookahead) (k : nat) :
  depth s = level6 k ->
  match search fuel s with
  | Ret l_true s' => inconsistent s' = false /\ exists j, depth s' = level6 (k + j)
  | Ret l_false s' => inconsistent s' = true /\ depth s' = level6 k
  | Ret l_undef _ => False
  | _ => True
  end.
Proof.
  intros Hd. unfold search. cbv zeta.
  match goal with
  | |- context [search_loop fuel fuel [] ?t] =>
      pose proof (search_loop_answer fuel fuel [] t k) as H;
      destruct (search_loop fuel fuel [] t) as [r s1|e s1|]
  end; [|exact I|exact I].
  unfold search_answer in H.
  assert (Hd' : depth s = level6 (k + 0)) by (rewrite Hd; f_equal; lia).
  specialize (H Hd'). destruct r; exact H.
Qed.

Lemma search_answers_witness :
  depth pigeonhole_state = level6 0
  /\ search 20 pigeonhole_state = Ret l_false pigeonhole_final
  /\ inconsistent pigeonhole_final = true
  /\ depth pigeonhole_final = level6 0.
Proof.
  assert (Hd : depth pigeonhole_state = level6 0) by (vm_compute; reflexivity).
  assert (E : search 20 pigeonhole_state = Ret l_false pigeonhole_final)
    by (vm_compute; reflexivity).
  pose proof (search_answers 20 pigeonhole_state 0 Hd) as H. rewrite E in H.
  destruct H as [H1 H2].
  split; [exact Hd|]. split; [exact E|]. split; [exact H1|exact H2].
Defined.

(** ** The decision literal *)

Lemma is_undef_frame (l : literal) (s s' : lookahead) :
  m_stamp s' = m_stamp s -> m_level s' = m_level s -> is_undef l s' = is_undef l s.
Proof. intros H1 H2. unfold is_undef, is_fixed, stamp_of. by rewrite H1, H2. Qed.

Lemma is_undef_lnot (l : literal) (s : lookahead) : is_undef (~~l) s = is_undef l s.
Proof. unfold is_undef, is_fixed, stamp_of. by rewrite var_lnot. Qed.

(** What [select_literal] has picked after some entries of the table. *)
Definition picked (s : lookahead) (es : list literal_offset) (l : literal) : Prop :=
  l = null_literal
  \/ exists e, e ∈ es /\ sign (m_lit e) = false /\ is_undef (m_lit e) s = true
               /\ (l = m_lit e \/ l = ~~(m_lit e)).

Lemma picked_mono (s : lookahead) (es es' : list literal_offset) (l : literal) :
  es ⊆ es' -> picked s es l -> picked s es' l.
Proof.
  intros Hsub [->|(e & He & H)]; [by left|]. right. exists e. split; [by apply Hsub|done].
Qed.

Lemma select_literal_step_picked (s0 : lookahead) (es : list literal_offset)
    (e : literal_offset) (l : literal) (h : float) (count : N) (s : lookahead) :
  m_stamp s = m_stamp s0 -> m_level s = m_level s0 -> picked s0 es l ->
  let r := select_literal_step e l h count s in
  m_stamp r.2 = m_stamp s0 /\ m_level r.2 = m_level s0 /\ picked s0 (es ++ [e]) r.1.1.1.
Proof.
  intros H1 H2 Hp. cbv zeta.
  assert (Hold : picked s0 (es ++ [e]) l).
  { eapply picked_mono; [|done]. intros x Hx. apply elem_of_app. by left. }
  unfold select_literal_step. cbv zeta.
  destruct (sign (m_lit e) || negb (is_undef (m_lit e) s)) eqn:Hc; [done|].
  apply orb_false_iff in Hc as [Hs Hu]. apply negb_false_iff in Hu.
  rewrite (is_undef_frame _ s0 s H1 H2) in Hu.
  assert (Hnew : picked s0 (es ++ [e])
                   (if (get_wnb (m_lit e) s <? get_wnb (~~(m_lit e)) s)%float
                    then m_lit e else ~~(m_lit e))).
  { right. exists e. split; [apply elem_of_app; right; by apply list_elem_of_singleton|].
    split; [done|]. split; [done|]. case_match; [by left|by right]. }
  repeat case_match; simpl; try done.
Qed.

(** X2. [select_literal] answers [null_literal] or a literal of the
    lookahead table or its complement; the entry of the table is a positive
    literal that is not assigned, so neither is the answer; and the
    stamps, the level and the trail are left as they are. *)
Theorem select_literal_unassigned (s : lookahead) :
  let '(l, s') := select_literal s in
  m_stamp s' = m_stamp s /\ m_level s' = m_level s /\ m_trail s' = m_trail s
  /\ (l = null_literal
      \/ is_undef l s' = true
         /\ exists e, e ∈ m_lookahead s /\ sign (m_lit e) = false
                      /\ (l = m_lit e \/ l = ~~(m_lit e))).
Proof.
  unfold select_literal.
  assert (G : forall es done q,
             m_stamp q.2 = m_stamp s -> m_level q.2 = m_level s -> m_trail q.2 = m_trail s ->
             picked s done q.1.1.1 ->
             let r := fold_left (fun '(l, h, count, s) e => select_literal_step e l h count s)
                                es q in
             m_stamp r.2 = m_stamp s /\ m_level r.2 = m_level s /\ m_trail r.2 = m_trail s
             /\ picked s (done ++ es) r.1.1.1).
  { induction es as [|e es IH]; intros done [[[l h] c] s1] H1 H2 H3 Hp; simpl in *.
    - by rewrite app_nil_r.
    - destruct (select_literal_step_picked s done e l h c s1 H1 H2 Hp) as (A & B & C).
      assert (T : m_trail (select_literal_step e l h c s1).2 = m_trail s).
      { rewrite <- H3. unfold select_literal_step. cbv zeta. repeat case_match; reflexivity. }
      destruct (select_literal_step e l h c s1) as [[[l2 h2] c2] s2]. simpl in *.
      specialize (IH (done ++ [e]) (l2, h2, c2, s2) A B T C). simpl in IH.
      by rewrite <- app_assoc in IH. }
  specialize (G (m_lookahead s) [] (null_literal, 0%float, 1, s) eq_refl eq_refl eq_refl
                (or_introl eq_refl)).
  cbv zeta in G. simpl in G.
  destruct (fold_left _ (m_lookahead s) _) as [[[l h] c] s']. simpl in G.
  destruct G as (A & B & T & [->|(e & He & Hs & Hu & Hl)]).
  - split; [done|]. split; [done|]. split; [done|]. by left.
  - split; [done|]. split; [done|]. split; [done|]. right. split.
    + rewrite (is_undef_frame _ s s' A B). destruct Hl as [->| ->]; [done|].
      by rewrite is_undef_lnot.
    + by exists e.
Qed.

(** ** Epochs of the double lookahead *)

(** No literal was stopped from double lookahead at an epoch ahead of the
    current one, and the epoch is a 32-bit value. *)
Definition istamp_inv (s : lookahead) : Prop :=
  Forall (fun li => m_double_lookahead li <= m_istamp_id s) (m_lits s)
  /\ m_istamp_id s <= UINT_MAX.

(** X3. After [inc_istamp] the double lookahead is enabled for every
    literal, given that no literal carries an epoch ahead of the current
    one; the property is kept, the WNB of every literal is as it was, and
    when the 32-bit epoch wraps around to 0 it is incremented a second
    time, to 1, and the epoch of every literal is set to 0. *)
Theorem inc_istamp_enables_double_lookahead (s : lookahead) :
  istamp_inv s ->
  (forall l, dl_enabled l (inc_istamp s) = true)
  /\ istamp_inv (inc_istamp s)
  /\ (forall l, get_wnb l (inc_istamp s) = get_wnb l s)
  /\ (m_istamp_id s = UINT_MAX ->
      m_istamp_id (inc_istamp s) = 1
      /\ Forall (fun li => m_double_lookahead li = 0) (m_lits (inc_istamp s))).
Proof.
  intros [Hle Hid]. unfold inc_istamp, dl_enabled, get_wnb, istamp_inv, UINT_MAX in *. simpl.
  destruct (N.eqb_spec (u32 (m_istamp_id s + 1)) 0) as [Hz|Hnz]; simpl.
  - rewrite Hz. change (u32 (0 + 1)) with 1. split; [|split; [split|split]].
    + intros l. rewrite tnth_lookup, list_lookup_fmap.
      by destruct (m_lits s !! N.to_nat (index l)).
    + apply Forall_fmap, Forall_true. simpl. lia.
    + lia.
    + intros l. rewrite !tnth_lookup, list_lookup_fmap.
      by destruct (m_lits s !! N.to_nat (index l)).
    + intros _. split; [done|]. by apply Forall_fmap, Forall_true.
  - assert (Hlt : m_istamp_id s + 1 < 4294967296).
    { destruct (N.lt_ge_cases (m_istamp_id s + 1) 4294967296) as [?|Hge]; [done|].
      assert (m_istamp_id s + 1 = 4294967296) as Heq by lia.
      rewrite Heq in Hnz. by exfalso. }
    assert (Hu : u32 (m_istamp_id s + 1) = m_istamp_id s + 1).
    { unfold u32. by apply N.mod_small. }
    rewrite Hu. split; [|split; [split|split]].
    + intros l. apply negb_true_iff, N.eqb_neq. rewrite tnth_lookup.
      destruct (m_lits s !! N.to_nat (index l)) as [x|] eqn:Hx; simpl; [|lia].
      eapply (Forall_lookup_1 (fun li => m_double_lookahead li <= m_istamp_id s)) in Hle;
        [|done]. simpl in Hle. lia.
    + eapply Forall_impl; [done|]. simpl. lia.
    + lia.
    + done.
    + intros Heq. lia.
Qed.

Definition istamp_example : lookahead :=
  set_m_lits [mk_lit_info 0 0; mk_lit_info 0 7; mk_lit_info 0 3; mk_lit_info 0 7]
    (set_m_istamp_id 7 (lookahead_of_cnf 2 [] [] [])).

Lemma inc_istamp_enables_double_lookahead_witness :
  istamp_inv istamp_example
  /\ dl_enabled (neg 1) istamp_example = false
  /\ (forall l, dl_enabled l (inc_istamp istamp_example) = true).
Proof.
  assert (H : istamp_inv istamp_example).
  { split; [|vm_compute; discriminate].
    repeat constructor; vm_compute; discriminate. }
  split; [exact H|]. split; [vm_compute; reflexivity|].
  exact (proj1 (inc_istamp_enables_double_lookahead istamp_example H)).
Defined.

(** ** Stamping the consequences of a literal *)

Lemma inc_bstamp_fresh (s : lookahead) :
  bstamp_inv s ->
  bstamp_inv (inc_bstamp s) /\ forall l, is_stamped l (inc_bstamp s) = false.
Proof.
  intros [Hle Hid]. unfold inc_bstamp, is_stamped, bstamp_inv, UINT_MAX in *. simpl.
  destruct (N.eqb_spec (u32 (m_bstamp_id s + 1)) 0) as [Hz|Hnz]; simpl.
  - rewrite Hz. change (u32 (0 + 1)) with 1. split; [split|].
    + apply Forall_fmap, Forall_true. simpl. lia.
    + lia.
    + intros l. by rewrite tnth_zeros.
  - assert (Hlt : m_bstamp_id s + 1 < 4294967296).
    { destruct (N.lt_ge_cases (m_bstamp_id s + 1) 4294967296) as [?|Hge]; [done|].
      assert (m_bstamp_id s + 1 = 4294967296) as Heq by lia.
      rewrite Heq in Hnz. by exfalso. }
    assert (Hu : u32 (m_bstamp_id s + 1) = m_bstamp_id s + 1).
    { unfold u32. by apply N.mod_small. }
    rewrite Hu. split; [split|].
    + eapply Forall_impl; [done|]. simpl. lia.
    + lia.
    + intros l. apply N.eqb_neq. rewrite tnth_lookup.
      destruct (m_bstamp s !! N.to_nat (index l)) as [x|] eqn:Hx; simpl; [|lia].
      eapply Forall_lookup_1 in Hle; [|done]. simpl in Hle. lia.
Qed.

Lemma is_stamped_set_bstamp (u w : literal) (s : lookahead) :
  (N.to_nat (index u) < length (m_bstamp s))%nat ->
  is_stamped u (set_bstamp w s) = bool_decide (u = w) || is_stamped u s.
Proof.
  intros Hu. unfold is_stamped, set_bstamp. simpl.
  case_bool_decide as E.
  - subst. rewrite tnth_upd_eq by done. simpl. apply N.eqb_refl.
  - rewrite tnth_upd_ne; [done|]. intros Hi. apply E. symmetry. by apply index_inj.
Qed.

Lemma is_stamped_fold_set_bstamp (u : literal) (ws : list literal) (s : lookahead) :
  (N.to_nat (index u) < length (m_bstamp s))%nat ->
  is_stamped u (fold_left (fun s w => set_bstamp w s) ws s)
  = bool_decide (u ∈ ws) || is_stamped u s.
Proof.
  revert s. induction ws as [|w ws IH]; intros s Hu; simpl; [done|].
  rewrite IH by (unfold set_bstamp; simpl; by rewrite length_upd).
  rewrite is_stamped_set_bstamp by done.
  destruct (decide (u = w)) as [->|Hne].
  - rewrite (bool_decide_eq_true_2 (w = w)) by done.
    rewrite (bool_decide_eq_true_2 (w ∈ w :: ws)) by apply list_elem_of_here.
    by rewrite orb_true_r.
  - rewrite (bool_decide_eq_false_2 (u = w)) by done. simpl.
    f_equal. apply bool_decide_ext. rewrite elem_of_cons. tauto.
Qed.

(** X4. After [set_bstamps l] the literals that carry the current stamp are
    [l] and the literals of [adj(l)], the consequences of [l], and no
    other, given that no stamp in the table is ahead of the epoch. *)
Theorem set_bstamps_marks_consequences (l u : literal) (s : lookahead) :
  bstamp_inv s -> (N.to_nat (index u) < length (m_bstamp s))%nat ->
  is_stamped u (set_bstamps l s) = true <-> u = l \/ u ∈ binary_of l s.
Proof.
  intros Hinv Hu. destruct (inc_bstamp_fresh s Hinv) as [_ Hf].
  assert (Hlen : length (m_bstamp (inc_bstamp s)) = length (m_bstamp s)).
  { unfold inc_bstamp. cbv zeta. case_match; simpl; [by rewrite length_map|done]. }
  assert (Hb : binary_of l (set_bstamp l (inc_bstamp s)) = binary_of l s).
  { unfold binary_of, set_bstamp, inc_bstamp. cbv zeta. by case_match. }
  unfold set_bstamps. cbv zeta.
  rewrite is_stamped_fold_set_bstamp
    by (unfold set_bstamp; simpl; rewrite length_upd; by rewrite Hlen).
  rewrite is_stamped_set_bstamp by (by rewrite Hlen).
  rewrite Hf, orb_false_r, Hb, orb_true_iff, !bool_decide_eq_true. tauto.
Qed.

Lemma set_bstamps_marks_consequences_witness :
  bstamp_inv trivial_sat_state
  /\ binary_of (neg 1) trivial_sat_state = [pos 2]
  /\ is_stamped (pos 2) (set_bstamps (neg 1) trivial_sat_state) = true
  /\ is_stamped (pos 1) (set_bstamps (neg 1) trivial_sat_state) <> true.
Proof.
  assert (H : bstamp_inv trivial_sat_state).
  { split; [|vm_compute; discriminate]. repeat constructor; vm_compute; discriminate. }
  assert (H2 : (N.to_nat (index (pos 2)) < length (m_bstamp trivial_sat_state))%nat)
    by (vm_compute; lia).
  assert (H1 : (N.to_nat (index (pos 1)) < length (m_bstamp trivial_sat_state))%nat)
    by (vm_compute; lia).
  assert (B : binary_of (neg 1) trivial_sat_state = [pos 2]) by (vm_compute; reflexivity).
  split; [exact H|]. split; [exact B|]. split.
  - apply (set_bstamps_marks_consequences (neg 1) (pos 2) _ H H2). right. rewrite B.
    apply list_elem_of_here.
  - intros E. apply (set_bstamps_marks_consequences (neg 1) (pos 1) _ H H1) in E.
    rewrite B in E. destruct E as [E|E]; [vm_compute in E; discriminate|].
    apply list_elem_of_singleton in E. vm_compute in E. discriminate.
Defined.

(** ** The limit on the transitive closure *)

(** The counter of binary clauses added by [add_tc1], and its limit. *)
Definition tc1 (s : lookahead) : N * N := (m_num_tc1 s, m_tc1_limit (m_config s)).

Definition tc1_ok (s : lookahead) : Prop := m_num_tc1 s <= m_tc1_limit (m_config s).

Lemma tc1_ok_eq (s s' : lookahead) : tc1 s' = tc1 s -> tc1_ok s -> tc1_ok s'.
Proof. unfold tc1, tc1_ok. by intros [= -> ->]. Qed.

Lemma tc1_fold_left {A} (f : lookahead -> A -> lookahead) (l : list A) (s : lookahead) :
  (forall s a, tc1 (f s a) = tc1 s) -> tc1 (fold_left f l s) = tc1 s.
Proof. intros H. by apply (fold_left_frame f tc1). Qed.

Lemma tc1_assign l s : tc1 (assign l s) = tc1 s.
Proof.
  unfold assign, validate_assign, set_conflict, set_true. cbv zeta.
  repeat case_match; reflexivity.
Qed.

Lemma tc1_add_binary l1 l2 s : tc1 (add_binary l1 l2 s) = tc1 s.
Proof. unfold add_binary, validate_binary. cbv zeta. repeat case_match; reflexivity. Qed.

Lemma tc1_set_bstamps l s : tc1 (set_bstamps l s) = tc1 s.
Proof.
  unfold set_bstamps. cbv zeta. rewrite tc1_fold_left by reflexivity.
  unfold set_bstamp, inc_bstamp. cbv zeta. by case_match.
Qed.

Lemma tc1_update_prefix l s : tc1 (update_prefix l s) = tc1 s.
Proof. unfold update_prefix. cbv zeta. by case_match. Qed.

Lemma tc1_propagated l s : tc1 (propagated l s) = tc1 s.
Proof. unfold propagated. cbv zeta. case_match; apply tc1_assign. Qed.

Lemma tc1_ok_add_tc1_loop u ws s : tc1_ok s -> tc1_ok (add_tc1_loop u ws s).2.
Proof.
  revert s. induction ws as [|w ws IH]; intros s Hs; simpl; [done|].
  destruct (negb (is_fixed w s)); [|by apply IH].
  destruct (is_stamped (~~w) s); [simpl; by eapply tc1_ok_eq; [apply tc1_assign|]|].
  destruct (N.ltb_spec (m_num_tc1 s) (m_tc1_limit (m_config s))) as [Hlt|Hge]; [|by apply IH].
  apply IH. eapply tc1_ok_eq; [apply tc1_add_binary|].
  unfold tc1_ok, u32. simpl.
  etrans; [apply N.Div0.mod_le|]. lia.
Qed.

Lemma tc1_ok_try_add_binary u v s : tc1_ok s -> tc1_ok (try_add_binary u v s).
Proof.
  intros Hs. unfold try_add_binary. cbv zeta.
  set (s0 := if negb (is_undef u s) || negb (is_undef v s)
             then verbose (diag_adding_assigned_binary v u) s else s).
  assert (H0 : tc1_ok s0) by (unfold s0; by case_match).
  clearbody s0. clear Hs.
  assert (H1 : tc1_ok (set_bstamps (~~u) s0)) by (by eapply tc1_ok_eq; [apply tc1_set_bstamps|]).
  generalize dependent (set_bstamps (~~u) s0). intros s1 H1.
  destruct (is_stamped (~~v) s1); [by eapply tc1_ok_eq; [apply tc1_assign|]|].
  destruct (negb (is_stamped v s1)); [|done].
  pose proof (tc1_ok_add_tc1_loop u (binary_of v s1) s1 H1) as H2.
  unfold add_tc1. destruct (add_tc1_loop u (binary_of v s1) s1) as [[] s2]; simpl in H2; [|done].
  assert (H3 : tc1_ok (set_bstamps (~~v) s2)) by (by eapply tc1_ok_eq; [apply tc1_set_bstamps|]).
  generalize dependent (set_bstamps (~~v) s2). intros s3 H3.
  destruct (is_stamped (~~u) s3); [by eapply tc1_ok_eq; [apply tc1_assign|]|].
  pose proof (tc1_ok_add_tc1_loop v (binary_of u s3) s3 H3) as H4.
  destruct (add_tc1_loop v (binary_of u s3) s3) as [[] s4]; simpl in H4; [|done].
  eapply tc1_ok_eq; [apply tc1_add_binary|].
  eapply tc1_ok_eq; [apply tc1_update_prefix|].
  by eapply tc1_ok_eq; [apply tc1_update_prefix|].
Qed.

Lemma tc1_ok_propagate_ternary l l1 l2 s : tc1_ok s -> tc1_ok (propagate_ternary l l1 l2 s).2.
Proof.
  intros Hs. unfold propagate_ternary.
  repeat case_match; simpl;
    first [ exact Hs
          | eapply tc1_ok_eq; [apply tc1_propagated|]; exact Hs
          | apply tc1_ok_try_add_binary; exact Hs ].
Qed.

Lemma tc1_ok_propagate_clause l b off s : tc1_ok s -> tc1_ok (propagate_clause l b off s).2.
Proof.
  intros Hs. unfold propagate_clause. cbv zeta.
  repeat case_match; simpl;
    first [ exact Hs
          | eapply tc1_ok_eq; [apply tc1_propagated|]; exact Hs
          | apply tc1_ok_try_add_binary; exact Hs ].
Qed.

Lemma tc1_ok_propagate_ext l idx s : tc1_ok s -> tc1_ok (propagate_ext l idx s).2.
Proof.
  intros Hs. unfold propagate_ext. destruct (s_ext (m_s s)) as [e|]; [|done].
  destruct (ext_propagate e _ l idx) as [calls keep]. cbv zeta.
  assert (H : tc1 (fold_left (fun s c => ext_apply c s) calls s) = tc1 s).
  { apply tc1_fold_left. intros s0 [x|]; simpl; [apply tc1_assign|reflexivity]. }
  repeat case_match; simpl; by eapply tc1_ok_eq; [|exact Hs].
Qed.

Lemma tc1_ok_propagate_clauses l s : tc1_ok s -> tc1_ok (propagate_clauses l s).
Proof.
  intros Hs. unfold propagate_clauses. destruct (inconsistent s); [done|].
  generalize (@nil watched). generalize (get_wlist l s). intros rest. revert s Hs.
  induction rest as [|w rest IH]; intros s Hs kept; simpl; [done|].
  destruct (inconsistent s); [done|].
  assert (H : tc1_ok (propagate_watch l w s).2).
  { destruct w; simpl; [done|by apply tc1_ok_propagate_ternary|
                        by apply tc1_ok_propagate_clause|by apply tc1_ok_propagate_ext]. }
  destruct (propagate_watch l w s) as [k s1]. by apply IH.
Qed.

Lemma tc1_ok_propagate_binary l s : tc1_ok s -> tc1_ok (propagate_binary l s).
Proof.
  unfold propagate_binary. generalize (binary_of l s). intros lits. revert s.
  induction lits as [|w lits IH]; intros s Hs; simpl; [done|].
  destruct (inconsistent s); [done|]. apply IH. by eapply tc1_ok_eq; [apply tc1_assign|].
Qed.

Lemma tc1_ok_propagate_pass f window s :
  (forall l s, tc1_ok s -> tc1_ok (f l s)) -> tc1_ok s -> tc1_ok (propagate_pass f window s).
Proof.
  intros Hf. revert s. induction window as [|l window IH]; intros s Hs; simpl; [done|].
  destruct (inconsistent s); [done|]. by apply IH, Hf.
Qed.

Lemma tc1_ok_propagate fuel s s' : propagate fuel s = Some s' -> tc1_ok s -> tc1_ok s'.
Proof.
  revert s. induction fuel as [|fuel IH]; intros s; simpl.
  - case_match; [done|]. by intros [= ->].
  - case_match; [|by intros [= ->]]. intros Hp Hs. eapply IH; [exact Hp|].
    change (tc1_ok (propagate_pass propagate_clauses (drop (m_qhead s) (m_trail s))
                      (propagate_pass propagate_binary (drop (m_qhead s) (m_trail s)) s))).
    apply tc1_ok_propagate_pass; [apply tc1_ok_propagate_clauses|].
    by apply tc1_ok_propagate_pass; [apply tc1_ok_propagate_binary|].
Qed.

Lemma m_num_tc1_scope (s : lookahead) : m_num_tc1 s = (scope s).1.1.2.
Proof. reflexivity. Qed.

(** X5. The counter of the binary clauses that [add_tc1] adds never passes
    [tc1_limit]: if it is within the limit before [try_add_binary], or
    before a [push] with its propagation, it is within the limit after,
    and [pop] puts back the count that the scope saved. *)
Theorem tc1_limit_kept (fuel : nat) (u v lit : literal) (level : N) (s : lookahead) :
  m_num_tc1 s <= m_tc1_limit (m_config s) ->
  m_num_tc1 (try_add_binary u v s) <= m_tc1_limit (m_config (try_add_binary u v s))
  /\ (forall s', push fuel lit level s = Some s' ->
        m_num_tc1 s' <= m_tc1_limit (m_config s')
        /\ m_num_tc1 (pop s') = m_num_tc1 s).
Proof.
  intros Hs. split; [by apply tc1_ok_try_add_binary|].
  intros s' Hp. split.
  - unfold push in Hp. cbv zeta in Hp.
    match type of Hp with
    | match propagate fuel ?t with _ => _ end = _ =>
        destruct (propagate fuel t) as [s1|] eqn:E; [|done]
    end.
    injection Hp as <-. apply tc1_ok_propagate in E.
    + exact E.
    + eapply tc1_ok_eq; [apply tc1_assign|]. exact Hs.
  - assert (L : lims s' = lims (push_marks lit level s)).
    { rewrite push_eq in Hp.
      destruct (propagate fuel _) as [s1|] eqn:E; [|done]. injection Hp as <-.
      apply lims_propagate in E. rewrite lims_assign in E.
      by rewrite lims_set_m_level. }
    assert (L4 : m_num_tc1_lim s' = m_num_tc1_lim s ++ [m_num_tc1 s]).
    { apply (f_equal (fun x => x.1.1.2)) in L. exact L. }
    rewrite (m_num_tc1_scope (pop s')), scope_pop. cbn [fst snd].
    rewrite L4. apply back_snoc.
Qed.

Lemma tc1_limit_kept_witness :
  m_num_tc1 autarky_state <= m_tc1_limit (m_config autarky_state)
  /\ m_num_tc1 autarky_pushed <= m_tc1_limit (m_config autarky_pushed)
  /\ m_num_tc1 (pop autarky_pushed) = m_num_tc1 autarky_state.
Proof.
  assert (H : m_num_tc1 autarky_state <= m_tc1_limit (m_config autarky_state))
    by (vm_compute; discriminate).
  assert (E : push 10 (neg 1) c_fixed_truth autarky_state = Some autarky_pushed)
    by (vm_compute; reflexivity).
  destruct (tc1_limit_kept 10 (pos 1) (pos 2) (neg 1) c_fixed_truth autarky_state H) as [_ P].
  destruct (P _ E) as [P1 P2].
  split; [exact H|]. split; [exact P1|exact P2].
Defined.

(** ** The candidates of [select] *)

Section Candidates.
Variable P : candidate.t -> Prop.

Lemma sift_up_loop_keeps (fuel : nat) (c : candidate.t) (i k : nat) (t : list candidate.t) :
  Forall P t ->
  Forall P (sift_up_loop fuel c i k t).2
  /\ length (sift_up_loop fuel c i k t).2 = length t.
Proof.
  revert i k t. induction fuel as [|fuel IH]; intros i k t Ht; simpl; [done|].
  destruct (k <? length t)%nat eqn:Hk; [|done].
  destruct (candidate.m_rating c <=? c_rating t (sift_up_pick t k))%float; [done|].
  set (k' := sift_up_pick t k).
  assert (Hk' : (k' < length t)%nat).
  { unfold k', sift_up_pick. apply Nat.ltb_lt in Hk.
    destruct (S k <? length t)%nat eqn:E; simpl; [|done].
    apply Nat.ltb_lt in E. by case_match. }
  destruct (IH k' (2 * k' + 1)%nat (<[i := nth_nat c t k']> t)) as [I1 I2].
  - apply Forall_insert; [done|]. by apply Forall_nth_nat.
  - split; [exact I1|]. etrans; [exact I2|apply length_insert].
Qed.

Lemma sift_up_keeps (j : nat) (t : list candidate.t) :
  Forall P t -> Forall P (sift_up j t) /\ length (sift_up j t) = length t.
Proof.
  intros Ht. unfold sift_up. cbv zeta.
  destruct (decide (j < length t)%nat) as [Hj|Hj].
  - destruct (sift_up_loop_keeps (length t) (nth_nat (candidate.mk 0 0%float) t j) j
                (2 * j + 1) t Ht) as [H1 H2].
    destruct (sift_up_loop _ _ j _ t) as [i t']. simpl in *.
    case_match; [|done]. split; [|by rewrite length_insert].
    apply Forall_insert; [done|]. by apply Forall_nth_nat.
  - assert (E : sift_up_loop (length t) (nth_nat (candidate.mk 0 0%float) t j) j
                  (2 * j + 1) t = (j, t)).
    { destruct (length t) as [|n] eqn:El; [done|]. cbn [sift_up_loop].
      rewrite El. by rewrite (proj2 (Nat.ltb_ge (2 * j + 1) (S n))) by lia. }
    rewrite E. by rewrite Nat.ltb_irrefl.
Qed.

Lemma heapify_keeps (j : nat) (t : list candidate.t) :
  Forall P t -> Forall P (heapify j t) /\ length (heapify j t) = length t.
Proof.
  revert t. induction j as [|j IH]; intros t Ht; simpl; [done|].
  destruct (sift_up_keeps j t Ht) as [S1 S2].
  destruct (IH (sift_up j t) S1) as [I1 I2]. split; [done|congruence].
Qed.

Lemma Forall_pop_back (t : list candidate.t) : Forall P t -> Forall P (pop_back t).
Proof.
  destruct t as [|x t _] using rev_ind; [done|].
  rewrite pop_back_snoc. by intros [? _]%Forall_app.
Qed.

Lemma Forall_back (t : list candidate.t) (d : candidate.t) :
  Forall P t -> t <> [] -> P (back d t).
Proof.
  destruct t as [|x t _] using rev_ind; [done|]. intros [_ H]%Forall_app _.
  rewrite back_snoc. by apply Forall_inv in H.
Qed.

(** The heap loop of [select] stops with exactly [max_num_cand] candidates. *)
Lemma heap_cut_keeps (fuel max_num_cand : nat) (t : list candidate.t) :
  Forall P t -> (max_num_cand < length t)%nat -> (length t <= fuel + max_num_cand)%nat ->
  Forall P (heap_cut fuel max_num_cand t)
  /\ length (heap_cut fuel max_num_cand t) = max_num_cand.
Proof.
  revert t. induction fuel as [|fuel IH]; intros t Ht Hlt Hf; simpl; [lia|].
  assert (Hne : t <> []) by (intros ->; simpl in Hlt; lia).
  set (t1 := pop_back (<[0%nat := back (candidate.mk 0 0%float) t]> t)).
  assert (H1 : Forall P t1).
  { apply Forall_pop_back, Forall_insert; [done|]. by apply Forall_back. }
  assert (L1 : length t1 = Nat.pred (length t)).
  { unfold t1. by rewrite length_pop_back, length_insert. }
  destruct (Nat.eqb_spec (length t1) max_num_cand) as [E|E]; [done|].
  destruct (sift_up_keeps 0 t1 H1) as [S1 S2].
  apply IH; [done|lia|lia].
Qed.

Lemma cut_sweep_keeps (fuel max2 : nat) (mean : float) (i : nat) (sum : float)
    (progress : bool) (t : list candidate.t) :
  Forall P t ->
  Forall P (cut_sweep fuel max2 mean i sum progress t).2
  /\ (length (cut_sweep fuel max2 mean i sum progress t).2 <= length t)%nat.
Proof.
  revert i sum progress t. induction fuel as [|fuel IH]; intros i sum progress t Ht; simpl;
    [done|].
  destruct ((i <? length t)%nat && (max2 <=? length t)%nat) eqn:Hc; [|done].
  apply andb_true_iff in Hc as [Hi _]. apply Nat.ltb_lt in Hi.
  destruct (mean <=? c_rating t i)%float; [by apply IH|].
  assert (Hne : t <> []) by (intros ->; simpl in Hi; lia).
  destruct (IH i sum true (pop_back (<[i := back (candidate.mk 0 0%float) t]> t))) as [I1 I2].
  - apply Forall_pop_back, Forall_insert; [done|]. by apply Forall_back.
  - split; [done|]. rewrite length_pop_back, length_insert in I2. lia.
Qed.

Lemma cut_loop_keeps (fuel max2 : nat) (sum : float) (t : list candidate.t) :
  Forall P t ->
  Forall P (cut_loop fuel max2 sum t) /\ (length (cut_loop fuel max2 sum t) <= length t)%nat.
Proof.
  revert sum t. induction fuel as [|fuel IH]; intros sum t Ht; simpl; [done|].
  destruct (max2 <=? length t)%nat; [|done].
  match goal with
  | |- context [cut_sweep ?a ?b ?c ?d ?e ?f ?g] =>
      destruct (cut_sweep_keeps a b c d e f g Ht) as [C1 C2];
      destruct (cut_sweep a b c d e f g) as [[sum' progress] t']
  end.
  simpl in C1, C2. destruct progress; [|done].
  destruct (IH sum' t' C1) as [I1 I2]. split; [done|lia].
Qed.
End Candidates.

(** [init_candidates] takes its candidates from the free variables. *)
Lemma init_candidates_free (level : nat) (newbies : bool) (s : lookahead) :
  m_freevars (init_candidates level newbies s).2 = m_freevars s
  /\ m_config (init_candidates level newbies s).2 = m_config s
  /\ Forall (fun c => candidate.m_var c ∈ m_freevars s)
            (m_candidates (init_candidates level newbies s).2).
Proof.
  unfold init_candidates. cbv zeta.
  match goal with
  | |- context [fold_left ?F ?xs ?p] =>
      assert (G : forall ys q,
                 Forall (fun x => x ∈ m_freevars s) ys ->
                 m_freevars q.2 = m_freevars s -> m_config q.2 = m_config s ->
                 Forall (fun c => candidate.m_var c ∈ m_freevars s) (m_candidates q.2) ->
                 m_freevars (fold_left F ys q).2 = m_freevars s
                 /\ m_config (fold_left F ys q).2 = m_config s
                 /\ Forall (fun c => candidate.m_var c ∈ m_freevars s)
                           (m_candidates (fold_left F ys q).2))
  end.
  { induction ys as [|x ys IH]; intros [sum s0] Hys H1 H2 H3; simpl in *; [done|].
    apply Forall_cons in Hys as [Hx Hys].
    apply IH; [done|..]; repeat case_match; simpl; try done;
      apply Forall_app; (split; [done|]); by repeat constructor. }
  apply G; simpl; try done. apply Forall_forall. auto.
Qed.

Lemma select_candidates_free (fuel level : nat) (newbies : bool) (s : lookahead)
    (r : option float) (s' : lookahead) :
  select_candidates fuel level newbies s = Some (r, s') ->
  m_freevars s' = m_freevars s /\ m_config s' = m_config s
  /\ Forall (fun c => candidate.m_var c ∈ m_freevars s) (m_candidates s').
Proof.
  revert newbies s. induction fuel as [|fuel IH]; intros newbies s; simpl; [done|].
  destruct (init_candidates_free level newbies s) as (H1 & H2 & H3).
  destruct (init_candidates level newbies s) as [sum s1]. simpl in *.
  destruct (negb (bool_decide (m_candidates s1 = []))); [by intros [= <- <-]|].
  destruct (is_sat s1); [by intros [= <- <-]|].
  intros Hs. apply IH in Hs as (I1 & I2 & I3). rewrite H1 in *. rewrite H2 in *. done.
Qed.

(** The free variables and the options, which the scores leave alone. *)
Definition fview (s : lookahead) : list bool_var * config := (m_freevars s, m_config s).

Lemma fview_l_score_binary hi l lits sum s : fview (l_score_binary hi l lits sum s).2 = fview s.
Proof.
  revert sum s. induction lits as [|w lits IH]; intros sum s; simpl; [done|].
  rewrite IH. by case_match.
Qed.

Lemma fview_l_score l hi f sq af s : fview (l_score l hi f sq af s).2 = fview s.
Proof.
  unfold l_score. pose proof (fview_l_score_binary hi l (binary_of l s) 0%float s) as H.
  by destruct (l_score_binary hi l (binary_of l s) 0 s).
Qed.

Lemma fview_h_scores_var hi hpi f sq af x s : fview (h_scores_var hi hpi f sq af x s) = fview s.
Proof.
  unfold h_scores_var. cbv zeta.
  pose proof (fview_l_score (mk_literal x false) hi f sq af s) as H1.
  destruct (l_score (mk_literal x false) hi f sq af s) as [pos s1]. simpl in H1.
  pose proof (fview_l_score (~~(mk_literal x false)) hi f sq af s1) as H2.
  destruct (l_score (~~(mk_literal x false)) hi f sq af s1) as [neg s2]. simpl in H2.
  rewrite <- H1, <- H2. reflexivity.
Qed.

Lemma m_freevars_h_scores (hi hpi : nat) (s : lookahead) :
  m_freevars (h_scores hi hpi s) = m_freevars s /\ m_config (h_scores hi hpi s) = m_config s.
Proof.
  assert (G : fview (h_scores hi hpi s) = fview s).
  { unfold h_scores. cbv zeta. apply (fold_left_frame _ fview).
    intros. apply fview_h_scores_var. }
  unfold fview in G. by injection G as -> ->.
Qed.

Lemma m_freevars_init_pre_selection (level : nat) (s : lookahead) :
  m_freevars (init_pre_selection level s) = m_freevars s
  /\ m_config (init_pre_selection level s) = m_config s.
Proof.
  assert (K : forall hi hpi t, m_freevars t = m_freevars s /\ m_config t = m_config s ->
                m_freevars (h_scores hi hpi t) = m_freevars s
                /\ m_config (h_scores hi hpi t) = m_config s).
  { intros hi hpi t [H1 H2]. destruct (m_freevars_h_scores hi hpi t) as [A B].
    split; congruence. }
  assert (E : forall lvl, m_freevars (ensure_H lvl s) = m_freevars s
                          /\ m_config (ensure_H lvl s) = m_config s) by done.
  unfold init_pre_selection. cbv zeta.
  destruct (level <=? 1)%nat; [|destruct (level <? m_max_hlevel (m_config s))%nat].
  - exact (K 2%nat 0%nat _ (K 1%nat 2%nat _ (K 2%nat 0%nat _ (K 1%nat 2%nat _
             (K 0%nat 1%nat _ (E 2%nat)))))).
  - exact (K (level - 1)%nat level _ (E level)).
  - exact (K (m_max_hlevel (m_config s) - 1)%nat (m_max_hlevel (m_config s)) _
             (E (m_max_hlevel (m_config s)))).
Qed.

Lemma m_candidates_set_m_candidates t s : m_candidates (set_m_candidates t s) = t.
Proof. reflexivity. Qed.

Lemma m_freevars_set_m_candidates t s : m_freevars (set_m_candidates t s) = m_freevars s.
Proof. reflexivity. Qed.

(** The bound of [select] on the number of candidates. *)
Definition max_num_cand (level : nat) (s : lookahead) : nat :=
  Nat.max (m_min_cutoff (m_config s))
    (if (level =? 0)%nat then length (m_freevars s)
     else (Nat.max (m_level_cand (m_config s)) (length (m_freevars s) / 50) / level)%nat).

(** X6. When [select] answers [true] it leaves at most [max_num_cand]
    candidates, the larger of [min_cutoff] and the bound of the level, and
    every candidate is a free variable of the solver; the free variables
    are as before. *)
Theorem select_candidates_bounded (fuel level : nat) (s s' : lookahead) :
  select fuel level s = Some (true, s') ->
  (length (m_candidates s') <= max_num_cand level s)%nat
  /\ Forall (fun c => candidate.m_var c ∈ m_freevars s) (m_candidates s')
  /\ m_freevars s' = m_freevars s.
Proof.
  unfold select. cbv zeta.
  destruct (m_freevars_init_pre_selection level s) as [F0 C0].
  destruct (select_candidates fuel level false (init_pre_selection level s))
    as [[[sum|] s1]|] eqn:E; [|done|done].
  apply select_candidates_free in E as (F1 & C1 & A1).
  rewrite F0 in F1, A1. rewrite C0 in C1.
  match goal with
  | |- Some (true, set_m_candidates ?T s1) = _ -> _ => remember T as T' eqn:HT
  end.
  intros [= <-]. rewrite m_candidates_set_m_candidates, m_freevars_set_m_candidates.
  subst T'. rewrite F0, C0.
  unfold max_num_cand.
  set (M := Nat.max (m_min_cutoff (m_config s)) _).
  set (P := fun c => candidate.m_var c ∈ m_freevars s) in *.
  destruct (cut_loop_keeps P (S (length (m_candidates s1))) (M * 2) sum
              (m_candidates s1) A1) as [K1 K2].
  set (t := cut_loop _ _ sum (m_candidates s1)) in *.
  destruct (Nat.ltb_spec M (length t)) as [Hlt|Hge].
  - destruct (heapify_keeps P (length t / 2) t K1) as [H1 H2].
    destruct (heap_cut_keeps P (length t) M (heapify (length t / 2) t) H1)
      as [G1 G2]; [lia|lia|].
    split; [lia|]. split; [done|done].
  - split; [done|]. split; [done|done].
Qed.

Lemma select_candidates_bounded_witness :
  exists s',
    select 20 0 autarky_state = Some (true, s')
    /\ (length (m_candidates s') <= max_num_cand 0 autarky_state)%nat
    /\ m_candidates s' <> [].
Proof.
  destruct (select 20 0 autarky_state) as [[[] s']|] eqn:E;
    [|vm_compute in E; discriminate|vm_compute in E; discriminate].
  exists s'. split; [reflexivity|].
  split; [exact (proj1 (select_candidates_bounded 20 0 autarky_state s' E))|].
  revert E. vm_compute. intros [= <-]. discriminate.
Defined.

(** ** What [init] establishes *)

(** The enclosing solver hands over literals of its [n] variables only: in
    its binary watches, its clauses, its trail and through its extension. *)
Definition solver_ok (n : N) (ms : solver) : Prop :=
  (length (s_watches ms) <= N.to_nat (2 * n))%nat
  /\ Forall (Forall (lit_ok n)) (s_watches ms)
  /\ Forall (fun c => clause_ok n (c_lits c)) (s_clauses ms)
  /\ Forall (fun c => clause_ok n (c_lits c)) (s_learned ms)
  /\ Forall (lit_ok n) (s_trail ms)
  /\ (forall e, s_ext ms = Some e -> ext_ok n e).

(** Well-formed, and still with the enclosing solver [ms]. *)
Definition wf_with (n : N) (ms : solver) (s : lookahead) : Prop := wf n s /\ m_s s = ms.

Lemma wf_with_fold {A} (n : N) (ms : solver) (Q : A -> Prop) (f : lookahead -> A -> lookahead)
    (l : list A) (s : lookahead) :
  (forall s a, Q a -> wf_with n ms s -> wf_with n ms (f s a)) ->
  Forall Q l -> wf_with n ms s -> wf_with n ms (fold_left f l s).
Proof.
  intros Hf Hl. revert s. induction Hl as [|a l Ha Hl IH]; intros s Hs; simpl; [done|].
  by apply IH, Hf.
Qed.

Lemma m_s_add_binary u v s : m_s (add_binary u v s) = m_s s.
Proof. unfold add_binary, validate_binary. cbv zeta. repeat case_match; reflexivity. Qed.

Lemma m_s_assign l s : m_s (assign l s) = m_s s.
Proof.
  unfold assign, validate_assign, set_conflict, set_true. cbv zeta.
  repeat case_match; reflexivity.
Qed.

Lemma wf_with_add_binary n ms u v s :
  lit_ok n u -> lit_ok n v -> wf_with n ms s -> wf_with n ms (add_binary u v s).
Proof.
  intros Hu Hv [W E]. split; [|by rewrite m_s_add_binary].
  by destruct (step_add_binary n u v s W Hu Hv).
Qed.

Lemma wf_with_assign n ms l s : lit_ok n l -> wf_with n ms s -> wf_with n ms (assign l s).
Proof.
  intros Hl [W E]. split; [|by rewrite m_s_assign]. by destruct (step_assign n l s W Hl).
Qed.

Lemma wf_with_core n ms s s' :
  core s' = core s -> wf_with n ms s -> wf_with n ms s'.
Proof.
  intros H [W E]. split; [by eapply wf_core|].
  unfold core in H. rewrite <- E. by simplify_eq.
Qed.

Lemma watch_ok_mono n na na' w : (na <= na')%nat -> watch_ok n na w -> watch_ok n na' w.
Proof. intros H. destruct w; simpl; try done. lia. Qed.

(** *** The tables of [init_var] *)

Lemma replicate_double {A} (k : nat) (x : A) :
  replicate (2 * S k) x = [x; x] ++ replicate (2 * k) x.
Proof. replace (2 * S k)%nat with (S (S (2 * k))) by lia. reflexivity. Qed.

Lemma init_vars_tables (vs : list nat) (s : lookahead) :
  let s' := fold_left (fun s i => init_var (N.of_nat i) s) vs s in
  m_binary s' = m_binary s ++ replicate (2 * length vs) []
  /\ m_watches s' = m_watches s ++ replicate (2 * length vs) []
  /\ m_trail s' = m_trail s /\ m_cls_allocator s' = m_cls_allocator s
  /\ m_s s' = m_s s /\ m_num_vars s' = m_num_vars s.
Proof.
  cbv zeta. revert s. induction vs as [|v vs IH]; intros s.
  - simpl. by rewrite !app_nil_r.
  - cbn [fold_left length]. rewrite !replicate_double.
    destruct (IH (init_var (N.of_nat v) s)) as (I1 & I2 & I3 & I4 & I5 & I6).
    rewrite I1, I2, I3, I4, I5, I6.
    assert (E : m_binary (init_var (N.of_nat v) s) = m_binary s ++ [[]; []]
                /\ m_watches (init_var (N.of_nat v) s) = m_watches s ++ [[]; []]
                /\ m_trail (init_var (N.of_nat v) s) = m_trail s
                /\ m_cls_allocator (init_var (N.of_nat v) s) = m_cls_allocator s
                /\ m_s (init_var (N.of_nat v) s) = m_s s
                /\ m_num_vars (init_var (N.of_nat v) s) = m_num_vars s).
    { unfold init_var. cbv zeta. by case_match. }
    destruct E as (E1 & E2 & E3 & E4 & E5 & E6). rewrite E1, E2, E3, E4, E5, E6.
    by rewrite <- !app_assoc.
Qed.

(** *** Copying the clauses *)

Lemma wf_with_push_watch n ms l w s :
  watch_ok n (length (m_cls_allocator s)) w -> wf_with n ms s -> wf_with n ms (push_watch l w s).
Proof.
  intros Hw [W E]. split; [|exact E]. by destruct (step_push_watch n l w s W Hw).
Qed.

Lemma wf_with_attach_clause n ms off s :
  (off < length (m_cls_allocator s))%nat -> wf_with n ms s -> wf_with n ms (attach_clause off s).
Proof.
  intros Hoff Hs. unfold attach_clause.
  assert (Hc : clause_ok n (get_clause off s)).
  { destruct Hs as [W _]. by apply wf_get_clause. }
  destruct (length (get_clause off s) =? 3)%nat eqn:E3.
  - apply Nat.eqb_eq in E3. destruct Hc as [_ Hc].
    assert (L : forall i, (i < 3)%nat -> lit_ok n (lit_at (get_clause off s) i)).
    { intros i Hi. unfold lit_at. apply Forall_nth_nat; [done|lia]. }
    unfold attach_ternary. cbv zeta.
    assert (T : forall a b, (a < 3)%nat -> (b < 3)%nat -> forall na,
               watch_ok n na (mk_ternary (lit_at (get_clause off s) a)
                                (lit_at (get_clause off s) b))).
    { intros a b Ha Hb na. unfold mk_ternary. case_match; simpl; split; by apply L. }
    apply wf_with_push_watch; [apply T; lia|].
    apply wf_with_push_watch; [apply T; lia|].
    apply wf_with_push_watch; [apply T; lia|]. done.
  - cbv zeta. apply wf_with_push_watch; [exact Hoff|].
    apply wf_with_push_watch; [exact Hoff|]. done.
Qed.

Lemma wf_with_copy_clause n ms c s :
  clause_ok n (c_lits c) -> wf_with n ms s -> wf_with n ms (copy_clause c s).
Proof.
  intros Hc Hs. unfold copy_clause. destruct (was_removed c); [done|]. cbv zeta.
  set (s1 := set_m_clauses (m_clauses (set_m_cls_allocator (m_cls_allocator s ++ [c_lits c]) s)
                              ++ [length (m_cls_allocator s)])
               (set_m_cls_allocator (m_cls_allocator s ++ [c_lits c]) s)).
  assert (H1 : wf_with n ms s1).
  { destruct Hs as [[W1 W2 W3 W4 W5 W6] E]. split; [|exact E]. split; try done.
    - simpl. eapply Forall_impl; [exact W4|]. intros wl Hwl.
      eapply Forall_impl; [exact Hwl|]. intros w. apply watch_ok_mono.
      rewrite length_app. lia.
    - simpl. apply Forall_app. split; [done|]. by constructor. }
  assert (H2 : wf_with n ms (attach_clause (length (m_cls_allocator s)) s1)).
  { apply wf_with_attach_clause; [|done]. simpl. rewrite length_app. simpl. lia. }
  generalize dependent (attach_clause (length (m_cls_allocator s)) s1). intros s2 H2.
  match goal with
  | |- context [fold_left ?F ?l s2] =>
      pose proof (fold_left_frame F core (fun _ _ => eq_refl) l s2) as Hf;
      generalize dependent (fold_left F l s2)
  end.
  intros s3 Hf. apply (wf_with_core n ms s2); [|done].
  rewrite <- Hf. by case_match.
Qed.

Lemma wf_with_copy_clauses n ms cs s :
  Forall (fun c => clause_ok n (c_lits c)) cs -> wf_with n ms s ->
  wf_with n ms (copy_clauses cs s).
Proof.
  intros Hcs Hs. unfold copy_clauses.
  apply (wf_with_fold n ms (fun c => clause_ok n (c_lits c))); [|done|done].
  intros s0 c Hc H0. by apply wf_with_copy_clause.
Qed.

Lemma wf_with_copy_binary n ms s :
  solver_ok n ms -> wf_with n ms s -> wf_with n ms (copy_binary s).
Proof.
  intros (K1 & K2 & _) Hs. unfold copy_binary.
  destruct Hs as [W E]. rewrite E.
  apply (wf_with_fold n ms (fun i => (i < length (s_watches ms))%nat)); [| |done].
  - intros s0 i Hi H0. cbv zeta. destruct H0 as [W0 E0]. rewrite E0.
    apply (wf_with_fold n ms (lit_ok n)); [| |done].
    + intros s1 l2 Hl2 H1. case_match; [|done].
      apply wf_with_add_binary; [|done|done].
      apply (proj1 (lit_ok_lnot n _)). unfold lit_ok. simpl. lia.
    + by apply Forall_nth_nat.
  - apply Forall_forall. intros i Hi. apply elem_of_seq in Hi. lia.
Qed.

Lemma wf_with_copy_units n ms s :
  solver_ok n ms -> wf_with n ms s -> wf_with n ms (copy_units s).
Proof.
  intros (_ & _ & _ & _ & K5 & _) Hs. unfold copy_units.
  destruct Hs as [W E]. rewrite E.
  apply (wf_with_fold n ms (lit_ok n)); [| |done].
  - intros s0 l Hl H0. cbv zeta. case_match; [|done].
    apply wf_with_assign; [done|]. case_match; [|done].
    by apply (wf_with_core n ms s0).
  - by apply Forall_take.
Qed.

Lemma wf_with_copy_externals n ms s : wf_with n ms s -> wf_with n ms (copy_externals s).
Proof.
  intros Hs. unfold copy_externals.
  apply (wf_with_fold n ms (fun _ => True)); [| |done].
  - intros s0 idx _ [[W1 W2 W3 W4 W5 W6] E]. split; [|exact E]. split; try done. simpl.
    apply Forall_insert; [done|]. apply Forall_app.
    assert (Hwl : Forall (watch_ok n (length (m_cls_allocator s0)))
                    (nth_nat [] (m_watches s0) idx)).
    { destruct (decide (idx < length (m_watches s0))%nat) as [Hi|Hi].
      - by apply Forall_nth_nat.
      - unfold nth_nat. rewrite lookup_ge_None_2; [by constructor|].
        apply Nat.nlt_ge. exact Hi. }
    split; [done|]. apply Forall_forall. intros w Hw.
    apply list_elem_of_In, filter_In in Hw as [Hw _].
    apply list_elem_of_In in Hw. by eapply (proj1 (Forall_forall _ _) Hwl).
  - apply Forall_forall. done.
Qed.

(** X7. [init], run on a new object for an enclosing solver whose binary
    watches, clauses, trail and extension mention only literals of its
    [m_num_vars] variables, returns a well-formed state: the adjacency
    table has two lists per variable, and every literal in the lists, the
    trail, the watches and the clauses is a literal of these variables.
    The propagation queue is empty: [m_qhead] is the size of the trail. *)
Theorem init_establishes_wf (fuel : nat) (s s' : lookahead) :
  solver_ok (N.of_nat (m_num_vars s)) (m_s s) ->
  m_binary s = [] -> m_watches s = [] -> m_cls_allocator s = [] -> m_trail s = [] ->
  init fuel s = Some s' ->
  wf (N.of_nat (m_num_vars s)) s' /\ m_qhead s' = length (m_trail s').
Proof.
  intros Hok Hb Hw Ha Ht. unfold init. cbv zeta.
  set (n := N.of_nat (m_num_vars s)) in *. set (ms := m_s s) in *.
  match goal with
  | |- context [fold_left ?F (seq 0 ?k) ?t] =>
      destruct (init_vars_tables (seq 0 k) t) as (T1 & T2 & T3 & T4 & T5 & T6);
      generalize dependent (fold_left F (seq 0 k) t)
  end.
  simpl. rewrite Hb, Hw, Ha, Ht, length_seq. simpl. intros s1 T1 T2 T3 T4 T5 T6.
  assert (H1 : wf_with n ms s1).
  { split; [|exact T5]. split.
    - rewrite T1, length_replicate. unfold n. lia.
    - rewrite T1. by apply Forall_replicate.
    - by rewrite T3.
    - rewrite T2. by apply Forall_replicate.
    - by rewrite T4.
    - rewrite T5. by destruct Hok as (_ & _ & _ & _ & _ & ?). }
  clear T1 T2 T3 T4 T6.
  assert (H2 : wf_with n ms (copy_binary s1)) by by apply wf_with_copy_binary.
  generalize dependent (copy_binary s1). intros s2 H2.
  assert (H3 : wf_with n ms (copy_clauses (s_clauses (m_s s2)) s2)).
  { destruct H2 as [W E]. rewrite E. apply wf_with_copy_clauses; [|done].
    by destruct Hok as (_ & _ & ? & _). }
  generalize dependent (copy_clauses (s_clauses (m_s s2)) s2). intros s3 H3.
  assert (H4 : wf_with n ms (copy_clauses (s_learned (m_s s3)) s3)).
  { destruct H3 as [W E]. rewrite E. apply wf_with_copy_clauses; [|done].
    by destruct Hok as (_ & _ & _ & ? & _). }
  generalize dependent (copy_clauses (s_learned (m_s s3)) s3). intros s4 H4.
  assert (H5 : wf_with n ms (copy_externals (copy_units s4))).
  { by apply wf_with_copy_externals, wf_with_copy_units. }
  generalize dependent (copy_externals (copy_units s4)). intros s5 H5.
  destruct (propagate fuel s5) as [s6|] eqn:E; [|done]. intros [= <-].
  split; [|reflexivity].
  destruct H5 as [W5 _]. destruct (step_propagate n fuel s5 s6 W5 E) as [W6 _].
  by apply (wf_core n s6).
Qed.

Lemma init_establishes_wf_witness :
  exists s',
    init 20 autarky_trigger = Some s'
    /\ wf 4 s' /\ m_qhead s' = length (m_trail s').
Proof.
  assert (Hok : solver_ok (N.of_nat (m_num_vars autarky_trigger)) (m_s autarky_trigger)).
  { split; [vm_compute; lia|]. split; [by repeat constructor|].
    split; [repeat constructor; vm_compute; (lia || reflexivity)|].
    split; [by constructor|]. split; [by constructor|]. intros e He. vm_compute in He.
    discriminate. }
  destruct (init 20 autarky_trigger) as [s'|] eqn:E; [|vm_compute in E; discriminate].
  exists s'. split; [reflexivity|].
  exact (init_establishes_wf 20 autarky_trigger s' Hok eq_refl eq_refl eq_refl eq_refl E).
Defined.

(** ** Assignments only grow *)

(** The fields that hold the assignment: the stamps, the level they are
    read at, the trail and the conflict flag. *)
Definition assg (s : lookahead) := (m_stamp s, m_level s, m_trail s, m_inconsistent s).

Lemma drop_prefix {A} (t1 t2 e : list A) : t2 = t1 ++ e -> drop (length t1) t2 = e.
Proof. intros ->. apply drop_app_length. Qed.

(** [s'] extends the assignment of [s]: same level, the stamps of the
    variables fixed in [s] are those of [s], a stamp that is not the one
    of [s] is the level or the level plus one and belongs to a literal
    added to the trail, the literals added to the trail were not fixed in
    [s], the trail of [s] is a prefix of the trail of [s'] and a conflict
    of [s] is still one. *)
Record grows (s s' : lookahead) : Prop := mk_grows {
  gr_level : m_level s' = m_level s;
  gr_len : length (m_stamp s') = length (m_stamp s);
  gr_stamp : forall x, m_level s <= tnth 0 (m_stamp s) x ->
                       tnth 0 (m_stamp s') x = tnth 0 (m_stamp s) x;
  gr_new : forall x, tnth 0 (m_stamp s') x = tnth 0 (m_stamp s) x
                     \/ tnth 0 (m_stamp s') x = u32 (m_level s + 0)
                     \/ tnth 0 (m_stamp s') x = u32 (m_level s + 1);
  gr_from : forall x, tnth 0 (m_stamp s') x = tnth 0 (m_stamp s) x
                      \/ Exists (fun l => var l = x) (drop (length (m_trail s)) (m_trail s'));
  gr_ext : forall l, l ∈ drop (length (m_trail s)) (m_trail s') ->
                     tnth 0 (m_stamp s) (var l) < m_level s;
  gr_trail : m_trail s `prefix_of` m_trail s';
  gr_conflict : inconsistent s = true -> inconsistent s' = true
}.

Lemma grows_refl (s : lookahead) : grows s s.
Proof.
  split; try done; try (by left).
  intros l. rewrite drop_all. by intros H%elem_of_nil.
Qed.

Lemma grows_trans (s1 s2 s3 : lookahead) : grows s1 s2 -> grows s2 s3 -> grows s1 s3.
Proof.
  intros [L1 N1 S1 M1 F1 E1 T1 C1] [L2 N2 S2 M2 F2 E2 T2 C2].
  destruct T1 as [e1 T1]. destruct T2 as [e2 T2].
  assert (D1 : drop (length (m_trail s1)) (m_trail s2) = e1) by (by apply drop_prefix).
  assert (D2 : drop (length (m_trail s2)) (m_trail s3) = e2) by (by apply drop_prefix).
  assert (D3 : drop (length (m_trail s1)) (m_trail s3) = e1 ++ e2).
  { apply drop_prefix. by rewrite T2, T1, <- app_assoc. }
  rewrite D1 in F1, E1. rewrite D2 in F2, E2. split.
  - by rewrite L2.
  - by rewrite N2.
  - intros x Hx. rewrite S2; [by apply S1|]. rewrite L1, S1; done.
  - intros x. rewrite L1 in M2. destruct (M2 x) as [->|[->| ->]]; [apply M1|tauto|tauto].
  - intros x. rewrite D3. destruct (F2 x) as [->|H].
    + destruct (F1 x) as [->|H]; [by left|]. right. apply Exists_app. by left.
    + right. apply Exists_app. by right.
  - intros l. rewrite D3. intros [H|H]%elem_of_app; [by apply E1|].
    specialize (E2 l H). rewrite L1 in E2.
    destruct (N.lt_ge_cases (tnth 0 (m_stamp s1) (var l)) (m_level s1)) as [Hlt|Hge]; [done|].
    rewrite (S1 _ Hge) in E2. lia.
  - exists (e1 ++ e2). by rewrite T2, T1, <- app_assoc.
  - auto.
Qed.

Lemma grows_assg (s s' : lookahead) : assg s' = assg s -> grows s s'.
Proof.
  unfold assg, inconsistent. intros [= Hs Hl Ht Hc]. split; unfold inconsistent.
  - done.
  - by rewrite Hs.
  - by rewrite Hs.
  - left. by rewrite Hs.
  - left. by rewrite Hs.
  - intros l. rewrite Ht, drop_all. by intros H%elem_of_nil.
  - by rewrite Ht.
  - by rewrite Hc.
Qed.

Lemma grows_then (s0 s s' : lookahead) : assg s' = assg s -> grows s0 s -> grows s0 s'.
Proof. intros H H0. eapply grows_trans; [exact H0|by apply grows_assg]. Qed.

Lemma assg_fold_left {A} (f : lookahead -> A -> lookahead) (l : list A) (s : lookahead) :
  (forall s a, assg (f s a) = assg s) -> assg (fold_left f l s) = assg s.
Proof. intros H. by apply (fold_left_frame f assg). Qed.

Lemma assg_assign (l : literal) (s : lookahead) :
  assg (assign l s)
  = if is_undef l s then
      (upd (m_stamp s) (var l) (u32 (m_level s + (if sign l then 1 else 0))),
       m_level s, m_trail s ++ [l], m_inconsistent s)
    else if is_false l s then (m_stamp s, m_level s, m_trail s, true)
    else assg s.
Proof.
  unfold assign, validate_assign, set_conflict, set_true, is_undef, is_false, is_fixed, stamp_of.
  cbv zeta. repeat case_match; reflexivity.
Qed.

Lemma grows_assign (l : literal) (s : lookahead) : grows s (assign l s).
Proof.
  pose proof (assg_assign l s) as H. unfold assg in H.
  destruct (is_undef l s) eqn:Hu; [|destruct (is_false l s)].
  - injection H as Hs Hl Ht Hc. split; unfold inconsistent.
    + done.
    + by rewrite Hs, length_upd.
    + intros x Hx. rewrite Hs. apply tnth_upd_ne. intros Hxe. subst x.
      unfold is_undef, is_fixed, stamp_of in Hu.
      apply negb_true_iff, N.leb_gt in Hu. lia.
    + intros x. rewrite Hs. destruct (decide (var l = x)) as [<-|Hne].
      * destruct (decide (N.to_nat (var l) < length (m_stamp s))%nat) as [Hin|Hout].
        -- rewrite tnth_upd_eq by done. destruct (sign l); tauto.
        -- left. unfold upd.
           destruct (N.ltb_spec (var l) (N.of_nat (length (m_stamp s)))); [lia|done].
      * left. by apply tnth_upd_ne.
    + intros x. rewrite Hs, Ht, drop_app_length. destruct (decide (var l = x)) as [<-|Hne].
      * right. by constructor.
      * left. by apply tnth_upd_ne.
    + intros l'. rewrite Ht, drop_app_length. intros ->%list_elem_of_singleton.
      unfold is_undef, is_fixed, stamp_of in Hu.
      by apply negb_true_iff, N.leb_gt in Hu.
    + rewrite Ht. by apply prefix_app_r.
    + by rewrite Hc.
  - injection H as Hs Hl Ht Hc. split; unfold inconsistent.
    + done.
    + by rewrite Hs.
    + by rewrite Hs.
    + left. by rewrite Hs.
    + left. by rewrite Hs.
    + intros l'. rewrite Ht, drop_all. by intros H%elem_of_nil.
    + by rewrite Ht.
    + by rewrite Hc.
  - by apply grows_assg.
Qed.

Lemma grows_set_conflict (s : lookahead) : grows s (set_conflict s).
Proof.
  split; try done; try (by left).
  intros l. simpl. rewrite drop_all. by intros H%elem_of_nil.
Qed.

Lemma grows_propagated (l : literal) (s : lookahead) : grows s (propagated l s).
Proof.
  unfold propagated. cbv zeta.
  case_match; first [apply grows_assign | eapply grows_then; [|apply grows_assign]; reflexivity].
Qed.

Lemma assg_add_binary l1 l2 s : assg (add_binary l1 l2 s) = assg s.
Proof. unfold add_binary, validate_binary. cbv zeta. repeat case_match; reflexivity. Qed.

Lemma assg_set_bstamps l s : assg (set_bstamps l s) = assg s.
Proof.
  unfold set_bstamps. cbv zeta. rewrite assg_fold_left by reflexivity.
  unfold set_bstamp, inc_bstamp. cbv zeta. by case_match.
Qed.

Lemma assg_update_prefix l s : assg (update_prefix l s) = assg s.
Proof. unfold update_prefix. cbv zeta. by case_match. Qed.

Lemma grows_add_tc1_loop u ws s0 s : grows s0 s -> grows s0 (add_tc1_loop u ws s).2.
Proof.
  revert s. induction ws as [|w ws IH]; intros s Hs; simpl; [done|].
  destruct (negb (is_fixed w s)); [|by apply IH].
  destruct (is_stamped (~~w) s); [simpl; eapply grows_trans; [exact Hs|apply grows_assign]|].
  destruct (m_num_tc1 s <? m_tc1_limit (m_config s)); [|by apply IH].
  apply IH. eapply grows_then; [|exact Hs].
  etrans; [apply assg_add_binary|reflexivity].
Qed.

Lemma grows_try_add_binary u v s : grows s (try_add_binary u v s).
Proof.
  unfold try_add_binary. cbv zeta.
  set (s0 := if negb (is_undef u s) || negb (is_undef v s)
             then verbose (diag_adding_assigned_binary v u) s else s).
  assert (H0 : grows s s0) by (unfold s0; case_match; by apply grows_assg).
  clearbody s0.
  assert (H1 : grows s (set_bstamps (~~u) s0)) by (by eapply grows_then; [apply assg_set_bstamps|]).
  generalize dependent (set_bstamps (~~u) s0). intros s1 H1.
  destruct (is_stamped (~~v) s1); [eapply grows_trans; [exact H1|apply grows_assign]|].
  destruct (negb (is_stamped v s1)); [|done].
  pose proof (grows_add_tc1_loop u (binary_of v s1) s s1 H1) as H2.
  unfold add_tc1. destruct (add_tc1_loop u (binary_of v s1) s1) as [[] s2]; simpl in H2; [|done].
  assert (H3 : grows s (set_bstamps (~~v) s2)) by (by eapply grows_then; [apply assg_set_bstamps|]).
  generalize dependent (set_bstamps (~~v) s2). intros s3 H3.
  destruct (is_stamped (~~u) s3); [eapply grows_trans; [exact H3|apply grows_assign]|].
  pose proof (grows_add_tc1_loop v (binary_of u s3) s s3 H3) as H4.
  destruct (add_tc1_loop v (binary_of u s3) s3) as [[] s4]; simpl in H4; [|done].
  eapply grows_then; [apply assg_add_binary|].
  eapply grows_then; [apply assg_update_prefix|].
  by eapply grows_then; [apply assg_update_prefix|].
Qed.

Lemma assg_detach_ternary l1 l2 l3 s : assg (detach_ternary l1 l2 l3 s) = assg s.
Proof. reflexivity. Qed.

Lemma assg_detach_clause off s : assg (detach_clause off s) = assg s.
Proof. reflexivity. Qed.

Lemma assg_set_clause off c s : assg (set_clause off c s) = assg s.
Proof. reflexivity. Qed.

Lemma assg_push_watch l w s : assg (push_watch l w s) = assg s.
Proof. reflexivity. Qed.

Lemma grows_propagate_ternary l l1 l2 s : grows s (propagate_ternary l l1 l2 s).2.
Proof.
  unfold propagate_ternary.
  repeat case_match; simpl;
    first [ apply grows_refl
          | apply grows_propagated
          | apply grows_set_conflict
          | eapply grows_trans; [|apply grows_try_add_binary];
            apply grows_assg, assg_detach_ternary
          | by apply grows_assg ].
Qed.

Lemma grows_propagate_clause l b off s : grows s (propagate_clause l b off s).2.
Proof.
  unfold propagate_clause. cbv zeta.
  repeat case_match; simpl;
    first [ apply grows_refl
          | by apply grows_assg
          | eapply grows_trans; [|apply grows_propagated]; by apply grows_assg
          | eapply grows_trans; [|apply grows_set_conflict]; by apply grows_assg
          | eapply grows_trans; [|apply grows_try_add_binary]; by apply grows_assg ].
Qed.

Lemma grows_ext_calls calls s : grows s (fold_left (fun s c => ext_apply c s) calls s).
Proof.
  revert s. induction calls as [|c calls IH]; intros s; simpl; [apply grows_refl|].
  eapply grows_trans; [|apply IH].
  destruct c; simpl; [apply grows_assign|apply grows_set_conflict].
Qed.

Lemma grows_propagate_ext l idx s : grows s (propagate_ext l idx s).2.
Proof.
  unfold propagate_ext. destruct (s_ext (m_s s)) as [e|]; [|apply grows_refl].
  destruct (ext_propagate e _ l idx) as [calls keep]. cbv zeta.
  pose proof (grows_ext_calls calls s) as H.
  repeat case_match; simpl; try exact H.
  eapply grows_trans; [exact H|apply grows_set_conflict].
Qed.

Lemma grows_propagate_watch l w s : grows s (propagate_watch l w s).2.
Proof.
  destruct w; simpl;
    [apply grows_refl|apply grows_propagate_ternary|
     apply grows_propagate_clause|apply grows_propagate_ext].
Qed.

Lemma grows_propagate_clauses l s : grows s (propagate_clauses l s).
Proof.
  unfold propagate_clauses. destruct (inconsistent s); [apply grows_refl|].
  assert (H : grows s s) by apply grows_refl. revert H.
  generalize (@nil watched). generalize (get_wlist l s). intros rest.
  generalize s at 2 4 as s1. intros s1. revert s1.
  induction rest as [|w rest IH]; intros s1 kept Hs; simpl.
  - by eapply grows_then; [|exact Hs].
  - destruct (inconsistent s1); [by eapply grows_then; [|exact Hs]|].
    pose proof (grows_propagate_watch l w s1) as H.
    destruct (propagate_watch l w s1) as [k s2]. apply IH.
    eapply grows_trans; [exact Hs|exact H].
Qed.

Lemma grows_propagate_binary_loop lits s : grows s (propagate_binary_loop lits s).
Proof.
  revert s. induction lits as [|w lits IH]; intros s; simpl; [apply grows_refl|].
  destruct (inconsistent s); [apply grows_refl|].
  eapply grows_trans; [apply grows_assign|apply IH].
Qed.

Lemma grows_propagate_binary l s : grows s (propagate_binary l s).
Proof. apply grows_propagate_binary_loop. Qed.

Lemma grows_propagate_pass f window s :
  (forall l s, grows s (f l s)) -> grows s (propagate_pass f window s).
Proof.
  intros Hf. revert s. induction window as [|l window IH]; intros s; simpl; [apply grows_refl|].
  destruct (inconsistent s); [apply grows_refl|].
  eapply grows_trans; [apply Hf|apply IH].
Qed.

Lemma grows_propagate fuel s s' : propagate fuel s = Some s' -> grows s s'.
Proof.
  revert s. induction fuel as [|fuel IH]; intros s; simpl.
  - case_match; [done|]. intros [= ->]. apply grows_refl.
  - case_match; [|intros [= ->]; apply grows_refl]. intros Hp.
    apply IH in Hp. eapply grows_trans; [|exact Hp].
    set (window := drop (m_qhead s) (m_trail s)).
    apply (grows_then _ (propagate_pass propagate_clauses window
                           (propagate_pass propagate_binary window s))); [reflexivity|].
    eapply grows_trans;
      [apply (grows_propagate_pass propagate_binary), grows_propagate_binary
      |apply (grows_propagate_pass propagate_clauses), grows_propagate_clauses].
Qed.

Lemma grows_is_fixed (s s' : lookahead) (l : literal) :
  grows s s' -> is_fixed l s = true ->
  is_fixed l s' = true /\ stamp_of l s' = stamp_of l s.
Proof.
  intros H Hf. unfold is_fixed, stamp_of in *. apply N.leb_le in Hf.
  rewrite (gr_level _ _ H), (gr_stamp _ _ H) by done. split; [by apply N.leb_le|done].
Qed.

Lemma grows_value (s s' : lookahead) (l : literal) :
  grows s s' -> value l s <> l_undef -> value l s' = value l s.
Proof.
  intros H Hv. unfold value, is_undef, is_true in *.
  destruct (is_fixed l s) eqn:Hf; [|done].
  destruct (grows_is_fixed s s' l H Hf) as [-> ->]. done.
Qed.

(** The loop of [propagate] ends on a conflict or with the queue empty. *)
Lemma propagate_exit fuel s s' :
  propagate fuel s = Some s' ->
  inconsistent s' = true \/ (length (m_trail s') <= m_qhead s')%nat.
Proof.
  revert s. induction fuel as [|fuel IH]; intros s; simpl.
  - case_match eqn:E; [done|]. intros [= <-].
    apply andb_false_iff in E as [E|E].
    + left. by apply negb_false_iff.
    + right. by apply Nat.ltb_ge.
  - case_match eqn:E; [apply IH|]. intros [= <-].
    apply andb_false_iff in E as [E|E].
    + left. by apply negb_false_iff.
    + right. by apply Nat.ltb_ge.
Qed.

(** X8. Propagation never retracts: when [propagate] returns, every
    literal that had a value before has the same value, the level is the
    same, the trail has only grown and a conflict found before is still
    there; and it returns only on a conflict or when the propagation queue
    is empty. *)
Theorem propagate_keeps_values (fuel : nat) (s s' : lookahead) :
  propagate fuel s = Some s' ->
  (forall l, value l s <> l_undef -> value l s' = value l s)
  /\ m_level s' = m_level s
  /\ m_trail s `prefix_of` m_trail s'
  /\ (inconsistent s = true -> inconsistent s' = true)
  /\ (inconsistent s' = true \/ (length (m_trail s') <= m_qhead s')%nat).
Proof.
  intros Hp. pose proof (grows_propagate fuel s s' Hp) as H.
  split; [|split; [|split; [|split]]].
  - intros l. by apply grows_value.
  - apply (gr_level _ _ H).
  - apply (gr_trail _ _ H).
  - apply (gr_conflict _ _ H).
  - by eapply propagate_exit.
Qed.

Lemma propagate_keeps_values_witness :
  exists s',
    propagate 10 (assign (neg 1) autarky_state) = Some s'
    /\ value (neg 1) s' = value (neg 1) (assign (neg 1) autarky_state)
    /\ m_trail (assign (neg 1) autarky_state) `prefix_of` m_trail s'.
Proof.
  destruct (propagate 10 (assign (neg 1) autarky_state)) as [s'|] eqn:E;
    [|vm_compute in E; discriminate].
  exists s'. split; [reflexivity|].
  destruct (propagate_keeps_values 10 _ s' E) as (V & _ & T & _).
  split; [apply V; vm_compute; discriminate|exact T].
Defined.

(** ** What [assign] does to a literal *)

(** The level is even and at most [c_fixed_truth]: the stamp of a literal
    made true or false at the level does not wrap, and its low bit is the
    truth value. *)
Definition level_ok (s : lookahead) : Prop :=
  N.even (m_level s) = true /\ m_level s <= c_fixed_truth.

(** The variable of [l] has a stamp. *)
Definition var_in (s : lookahead) (l : literal) : Prop :=
  (N.to_nat (var l) < length (m_stamp s))%nat.

Lemma value_cases (l : literal) (s : lookahead) :
  (value l s = l_undef /\ is_undef l s = true)
  \/ (value l s = l_true /\ is_undef l s = false /\ is_true l s = true /\ is_false l s = false)
  \/ (value l s = l_false /\ is_undef l s = false /\ is_true l s = false /\ is_false l s = true).
Proof.
  unfold value, is_undef, is_true, is_false.
  destruct (is_fixed l s); simpl; [|by left].
  destruct (xorb _ _); simpl; tauto.
Qed.

Lemma stamp_at_level (s : lookahead) (b : bool) :
  level_ok s ->
  u32 (m_level s + (if b then 1 else 0)) = m_level s + (if b then 1 else 0)
  /\ N.odd (m_level s + (if b then 1 else 0)) = b.
Proof.
  intros [He Hle]. unfold c_fixed_truth, UINT_MAX in Hle. split.
  - unfold u32. apply N.mod_small. destruct b; lia.
  - rewrite N.odd_add, <- N.negb_even, He. by destruct b.
Qed.

(** What [assign l] does, by the value of [l]. *)
Lemma assign_spec (l : literal) (s : lookahead) :
  level_ok s -> var_in s l ->
  match value l s with
  | l_undef => value l (assign l s) = l_true
               /\ value (~~l) (assign l s) = l_false
               /\ m_trail (assign l s) = m_trail s ++ [l]
               /\ inconsistent (assign l s) = inconsistent s
  | l_false => inconsistent (assign l s) = true
               /\ m_trail (assign l s) = m_trail s
               /\ value l (assign l s) = l_false
  | l_true => assign l s = s
  end.
Proof.
  intros Hl Hv. pose proof (assg_assign l s) as H. unfold assg in H.
  destruct (value_cases l s) as [[Hval Hu]|[(Hval & Hu & Ht & Hf)|(Hval & Hu & Ht & Hf)]];
    rewrite Hval; rewrite Hu in H.
  - injection H as Hs Hlv Htr Hc.
    destruct (stamp_at_level s (sign l) Hl) as [E1 E2].
    assert (Hle : (m_level s <=? m_level s + (if sign l then 1 else 0)) = true)
      by (apply N.leb_le; lia).
    split; [|split; [|split; [done|done]]].
    + unfold value, is_undef, is_true, is_fixed, stamp_of. rewrite Hs, Hlv, E1.
      rewrite tnth_upd_eq by exact Hv. by rewrite E2, xorb_nilpotent, Hle.
    + unfold value, is_undef, is_true, is_fixed, stamp_of. rewrite var_lnot, sign_lnot.
      rewrite Hs, Hlv, E1. rewrite tnth_upd_eq by exact Hv. rewrite E2, Hle.
      by destruct (sign l).
  - unfold assign. by rewrite Hu, Hf.
  - rewrite Hf in H. injection H as Hs Hlv Htr Hc.
    split; [done|]. split; [done|].
    rewrite (grows_value s (assign l s) l (grows_assign l s)); [done|].
    by rewrite Hval.
Qed.

(** X9. [assign l], at an even level that is at most [c_fixed_truth]: an
    unassigned [l] becomes true, its complement false, and [l] is put at
    the end of the trail; a false [l] raises the conflict flag and leaves
    the trail and the value of [l] alone; a true [l] changes nothing. *)
Theorem assign_value (l : literal) (s : lookahead) :
  N.even (m_level s) = true -> m_level s <= c_fixed_truth ->
  (N.to_nat (var l) < length (m_stamp s))%nat ->
  match value l s with
  | l_undef => value l (assign l s) = l_true
               /\ value (~~l) (assign l s) = l_false
               /\ m_trail (assign l s) = m_trail s ++ [l]
               /\ inconsistent (assign l s) = inconsistent s
  | l_false => inconsistent (assign l s) = true
               /\ m_trail (assign l s) = m_trail s
               /\ value l (assign l s) = l_false
  | l_true => assign l s = s
  end.
Proof. intros He Hle Hv. by apply assign_spec. Qed.

Lemma assign_value_witness :
  value (neg 1) (assign (neg 1) autarky_state) = l_true
  /\ value (~~(neg 1)) (assign (neg 1) autarky_state) = l_false
  /\ m_trail (assign (neg 1) autarky_state) = m_trail autarky_state ++ [neg 1]
  /\ inconsistent (assign (neg 1) autarky_state) = inconsistent autarky_state.
Proof.
  assert (He : N.even (m_level autarky_state) = true) by (vm_compute; reflexivity).
  assert (Hle : m_level autarky_state <= c_fixed_truth) by (vm_compute; discriminate).
  assert (Hv : (N.to_nat (var (neg 1)) < length (m_stamp autarky_state))%nat)
    by (vm_compute; lia).
  exact (assign_value (neg 1) autarky_state He Hle Hv).
Defined.

(** ** Binary propagation is complete *)

(** The adjacency table and the mode. *)
Definition bview (s : lookahead) := (m_binary s, m_search_mode s).

(** Every literal of the adjacency table has a stamp. *)
Definition binary_in (s : lookahead) : Prop := Forall (Forall (var_in s)) (m_binary s).

Lemma binary_of_bview (l : literal) (s s' : lookahead) :
  bview s' = bview s -> binary_of l s' = binary_of l s.
Proof. unfold bview, binary_of. by intros [= -> _]. Qed.

Lemma bview_mode (s s' : lookahead) :
  bview s' = bview s -> m_search_mode s <> searching -> m_search_mode s' <> searching.
Proof. unfold bview. by intros [= _ ->]. Qed.

Lemma bview_binary (s s' : lookahead) : bview s' = bview s -> m_binary s' = m_binary s.
Proof. unfold bview. by intros [= -> _]. Qed.

Lemma bview_assign l s : bview (assign l s) = bview s.
Proof.
  unfold assign, validate_assign, set_conflict, set_true. cbv zeta.
  repeat case_match; reflexivity.
Qed.

Lemma bview_propagated l s : bview (propagated l s) = bview s.
Proof.
  unfold propagated. cbv zeta. rewrite <- (bview_assign l s).
  generalize (assign l s). intros s1. by destruct (m_search_mode s1).
Qed.

Lemma bview_fold_left {A} (f : lookahead -> A -> lookahead) (l : list A) (s : lookahead) :
  (forall s a, bview (f s a) = bview s) -> bview (fold_left f l s) = bview s.
Proof. intros H. by apply (fold_left_frame f bview). Qed.

Lemma bview_propagate_ternary l l1 l2 s :
  m_search_mode s <> searching -> bview (propagate_ternary l l1 l2 s).2 = bview s.
Proof.
  intros Hm. unfold propagate_ternary.
  repeat case_match; simpl; first [done | apply bview_propagated].
Qed.

Lemma bview_propagate_clause l b off s :
  m_search_mode s <> searching -> bview (propagate_clause l b off s).2 = bview s.
Proof.
  intros Hm. unfold propagate_clause. cbv zeta.
  repeat case_match; simpl;
    first [ done
          | reflexivity
          | etrans; [apply bview_propagated|reflexivity] ].
Qed.

Lemma bview_propagate_ext l idx s : bview (propagate_ext l idx s).2 = bview s.
Proof.
  unfold propagate_ext. destruct (s_ext (m_s s)) as [e|]; [|done].
  destruct (ext_propagate e _ l idx) as [calls keep]. cbv zeta.
  assert (H : bview (fold_left (fun s c => ext_apply c s) calls s) = bview s).
  { apply bview_fold_left. intros s0 [x|]; simpl; [apply bview_assign|reflexivity]. }
  repeat case_match; simpl; by rewrite <- H.
Qed.

Lemma bview_propagate_clauses l s :
  m_search_mode s <> searching -> bview (propagate_clauses l s) = bview s.
Proof.
  intros Hm. unfold propagate_clauses. destruct (inconsistent s); [done|].
  assert (H : bview s = bview s) by done. revert H.
  generalize (@nil watched). generalize (get_wlist l s). intros rest.
  generalize s at 1 3 as s1. intros s1. revert s1.
  induction rest as [|w rest IH]; intros s1 kept Hs; simpl.
  - by rewrite <- Hs.
  - destruct (inconsistent s1); [by rewrite <- Hs|].
    assert (Hm1 : m_search_mode s1 <> searching).
    { unfold bview in Hs. injection Hs as _ ->. exact Hm. }
    assert (H : bview (propagate_watch l w s1).2 = bview s1).
    { destruct w; simpl; [done|by apply bview_propagate_ternary|
                          by apply bview_propagate_clause|apply bview_propagate_ext]. }
    destruct (propagate_watch l w s1) as [k s2]. apply IH.
    simpl in H. by rewrite H.
Qed.

Lemma bview_propagate_binary_loop lits s : bview (propagate_binary_loop lits s) = bview s.
Proof.
  revert s. induction lits as [|w lits IH]; intros s; simpl; [done|].
  destruct (inconsistent s); [done|]. by rewrite IH, bview_assign.
Qed.

Lemma bview_propagate_pass f window s :
  (forall l s, m_search_mode s <> searching -> bview (f l s) = bview s) ->
  m_search_mode s <> searching -> bview (propagate_pass f window s) = bview s.
Proof.
  intros Hf. revert s. induction window as [|l window IH]; intros s Hm; simpl; [done|].
  destruct (inconsistent s); [done|].
  pose proof (Hf l s Hm) as H. rewrite IH; [done|].
  unfold bview in H. injection H as _ ->. exact Hm.
Qed.

Lemma grows_is_true (s s' : lookahead) (l : literal) :
  grows s s' -> is_true l s = true -> is_true l s' = true.
Proof.
  intros H Ht. unfold is_true in *. apply andb_true_iff in Ht as [Hf Hx].
  destruct (grows_is_fixed s s' l H Hf) as [-> ->]. by rewrite Hx.
Qed.

Lemma level_ok_grows (s s' : lookahead) : grows s s' -> level_ok s -> level_ok s'.
Proof. intros H. unfold level_ok. by rewrite (gr_level _ _ H). Qed.

Lemma var_in_grows (s s' : lookahead) (l : literal) : grows s s' -> var_in s l -> var_in s' l.
Proof. intros H. unfold var_in. by rewrite (gr_len _ _ H). Qed.

Lemma consistent_grows (s s' : lookahead) :
  grows s s' -> inconsistent s' = false -> inconsistent s = false.
Proof.
  intros H Hc. destruct (inconsistent s) eqn:E; [|done].
  by rewrite (gr_conflict _ _ H E) in Hc.
Qed.

(** [assign l] without a conflict leaves [l] true. *)
Lemma assign_true (l : literal) (s : lookahead) :
  level_ok s -> var_in s l -> inconsistent (assign l s) = false -> is_true l (assign l s) = true.
Proof.
  intros Hl Hv Hc. pose proof (assign_spec l s Hl Hv) as H.
  destruct (value_cases l s) as [[Hval Hu]|[(Hval & Hu & Ht & Hf)|(Hval & Hu & Ht & Hf)]];
    rewrite Hval in H.
  - destruct H as (H & _).
    destruct (value_cases l (assign l s)) as [[E _]|[(_ & _ & E & _)|(E & _)]];
      [congruence|done|congruence].
  - by rewrite H.
  - destruct H as (H & _). congruence.
Qed.

Lemma propagate_binary_loop_true (lits : list literal) (s : lookahead) :
  level_ok s -> Forall (var_in s) lits ->
  inconsistent (propagate_binary_loop lits s) = false ->
  Forall (fun w => is_true w (propagate_binary_loop lits s) = true) lits.
Proof.
  revert s. induction lits as [|w lits IH]; intros s Hl Hv Hc; simpl in *; [by constructor|].
  destruct (inconsistent s) eqn:E; [congruence|].
  apply Forall_cons in Hv as [Hw Hv].
  pose proof (grows_assign w s) as G1.
  pose proof (grows_propagate_binary_loop lits (assign w s)) as G2.
  constructor.
  - eapply grows_is_true; [exact G2|]. apply assign_true; try done.
    by eapply consistent_grows.
  - apply IH; [by eapply level_ok_grows|
               eapply Forall_impl; [exact Hv|intros x; by apply var_in_grows]|done].
Qed.

Lemma binary_in_of (l : literal) (s : lookahead) :
  binary_in s -> Forall (var_in s) (binary_of l s).
Proof. intros H. unfold binary_of. apply Forall_tnth; [by constructor|exact H]. Qed.

Lemma binary_in_grows (s s' : lookahead) :
  grows s s' -> m_binary s' = m_binary s -> binary_in s -> binary_in s'.
Proof.
  intros G E H. unfold binary_in. rewrite E.
  eapply Forall_impl; [exact H|]. intros t Ht.
  eapply Forall_impl; [exact Ht|]. intros x. by apply var_in_grows.
Qed.

(** The first loop of [propagate]. *)
Lemma propagate_pass_binary_true (window : list literal) (s : lookahead) :
  level_ok s -> binary_in s ->
  inconsistent (propagate_pass propagate_binary window s) = false ->
  forall l w, l ∈ window -> w ∈ binary_of l s ->
              is_true w (propagate_pass propagate_binary window s) = true.
Proof.
  revert s. induction window as [|x window IH]; intros s Hl Hb Hc l w Hin Hw; simpl in *.
  - by apply elem_of_nil in Hin.
  - destruct (inconsistent s) eqn:E; [congruence|].
    pose proof (grows_propagate_binary x s) as G1.
    pose proof (grows_propagate_pass propagate_binary window (propagate_binary x s)
                  grows_propagate_binary) as G2.
    pose proof (bview_propagate_binary_loop (binary_of x s) s) as B.
    fold (propagate_binary x s) in B.
    apply elem_of_cons in Hin as [->|Hin].
    + eapply grows_is_true; [exact G2|].
      pose proof (propagate_binary_loop_true (binary_of x s) s Hl (binary_in_of x s Hb)) as H.
      fold (propagate_binary x s) in H.
      eapply Forall_forall in H; [exact H| |exact Hw].
      by eapply consistent_grows.
    + apply IH with (l := l);
        [by eapply level_ok_grows| |done|done|by rewrite (binary_of_bview _ _ _ B)].
      eapply binary_in_grows; [exact G1| |exact Hb].
      by apply bview_binary.
Qed.

(** The literals of the trail from position [q0] to the head of the queue
    have all their binary consequences true. *)
Definition closed_from (q0 : nat) (s : lookahead) : Prop :=
  forall i l w, (q0 <= i < m_qhead s)%nat -> m_trail s !! i = Some l ->
                w ∈ binary_of l s -> is_true w s = true.

Lemma propagate_closed (fuel : nat) (q0 : nat) (s s' : lookahead) :
  m_search_mode s <> searching -> level_ok s -> binary_in s ->
  closed_from q0 s ->
  propagate fuel s = Some s' -> inconsistent s' = false ->
  m_binary s' = m_binary s
  /\ forall i l w, (q0 <= i)%nat -> m_trail s' !! i = Some l ->
                   w ∈ binary_of l s' -> is_true w s' = true.
Proof.
  revert s. induction fuel as [|fuel IH]; intros s Hm Hl Hb Hcl; simpl.
  - case_match eqn:E; [done|]. intros [= <-] Hc. split; [done|].
    intros i l w Hi Hlk Hw. apply (Hcl i l w); [|done|done].
    rewrite Hc in E. simpl in E. apply Nat.ltb_ge in E.
    apply lookup_lt_Some in Hlk. lia.
  - case_match eqn:E; cycle 1.
    { intros [= <-] Hc. split; [done|].
      intros i l w Hi Hlk Hw. apply (Hcl i l w); [|done|done].
      rewrite Hc in E. simpl in E. apply Nat.ltb_ge in E.
      apply lookup_lt_Some in Hlk. lia. }
    apply andb_true_iff in E as [_ Hq]. apply Nat.ltb_lt in Hq.
    set (window := drop (m_qhead s) (m_trail s)).
    set (s1 := propagate_pass propagate_binary window s).
    set (s2 := propagate_pass propagate_clauses window s1).
    set (s3 := set_m_qhead (length (m_trail s)) s2).
    intros Hp Hc.
    pose proof (grows_propagate_pass propagate_binary window s grows_propagate_binary) as G1.
    fold s1 in G1.
    pose proof (grows_propagate_pass propagate_clauses window s1 grows_propagate_clauses) as G2.
    fold s2 in G2.
    assert (G3 : grows s2 s3) by (by apply grows_assg).
    pose proof (grows_propagate fuel s3 s' Hp) as G4.
    assert (B1 : bview s1 = bview s).
    { apply bview_propagate_pass; [|done]. intros l0 s0 _. apply bview_propagate_binary_loop. }
    assert (Hm1 : m_search_mode s1 <> searching) by (by apply (bview_mode s)).
    assert (B2 : bview s2 = bview s1).
    { apply bview_propagate_pass; [|done]. intros l0 s0. apply bview_propagate_clauses. }
    assert (B3 : bview s3 = bview s) by (by rewrite <- B1, <- B2).
    assert (G : grows s s3) by (eapply grows_trans; [exact G1|eapply grows_trans; done]).
    assert (E3 : m_binary s3 = m_binary s) by (by apply bview_binary).
    assert (Hc1 : inconsistent s1 = false).
    { eapply consistent_grows; [exact G2|]. eapply consistent_grows; [exact G3|].
      by eapply consistent_grows. }
    destruct (IH s3) as [IH1 IH2]; try done.
    + by apply (bview_mode s).
    + by eapply level_ok_grows.
    + by eapply binary_in_grows.
    + intros i l w Hi Hlk Hw.
      change (m_qhead s3) with (length (m_trail s)) in Hi.
      rewrite (binary_of_bview _ _ _ B3) in Hw.
      assert (Hlk0 : m_trail s !! i = Some l).
      { destruct (gr_trail _ _ G) as [ext Hext]. rewrite Hext in Hlk.
        rewrite lookup_app_l in Hlk by lia. exact Hlk. }
      destruct (Nat.lt_ge_cases i (m_qhead s)) as [Hlt|Hge].
      * eapply grows_is_true; [exact G|]. apply (Hcl i l w); [lia|done|done].
      * eapply grows_is_true; [eapply grows_trans; [exact G2|exact G3]|].
        apply (propagate_pass_binary_true window s Hl Hb Hc1 l w); [|done].
        unfold window. apply list_elem_of_lookup. exists (i - m_qhead s)%nat.
        rewrite lookup_drop. rewrite <- Hlk0. f_equal. lia.
    + split; [by rewrite IH1|exact IH2].
Qed.

(** X10. In a lookahead mode [propagate] closes the trail under the binary
    clauses: when it returns without a conflict, every literal of the trail
    from the head of the queue on has all the literals of its adjacency
    list true, and the adjacency table is the one it started with. *)
Theorem propagate_binary_closed (fuel : nat) (s s' : lookahead) :
  m_search_mode s <> searching ->
  N.even (m_level s) = true -> m_level s <= c_fixed_truth ->
  Forall (Forall (fun w => (N.to_nat (var w) < length (m_stamp s))%nat)) (m_binary s) ->
  propagate fuel s = Some s' -> inconsistent s' = false ->
  m_binary s' = m_binary s
  /\ forall l w, l ∈ drop (m_qhead s) (m_trail s') -> w ∈ binary_of l s' ->
                 is_true w s' = true.
Proof.
  intros Hm He Hle Hb Hp Hc.
  destruct (propagate_closed fuel (m_qhead s) s s' Hm (conj He Hle) Hb) as [H1 H2]; try done.
  { intros i l w Hi. lia. }
  split; [exact H1|]. intros l w Hin Hw.
  apply list_elem_of_lookup in Hin as [i Hi]. rewrite lookup_drop in Hi.
  by apply (H2 (m_qhead s + i)%nat l w); [lia| |].
Qed.

(** Scenario 1 at the start of the probe of [-1] at level 2, as
    [push_lookahead1] sets it up, and after the propagation. *)
Definition probe_example : lookahead :=
  Eval vm_compute in
    assign (neg 1) (set_m_level 2 (set_m_search_mode lookahead1 trivial_sat_state)).

Definition probe_example_done : lookahead :=
  Eval vm_compute in
    match propagate 10 probe_example with
    | Some s => s
    | None => probe_example
    end.

Lemma propagate_binary_closed_witness :
  propagate 10 probe_example = Some probe_example_done
  /\ m_binary probe_example_done = m_binary probe_example
  /\ is_true (pos 2) probe_example_done = true.
Proof.
  assert (E : propagate 10 probe_example = Some probe_example_done) by (vm_compute; reflexivity).
  assert (Hm : m_search_mode probe_example <> searching) by (vm_compute; discriminate).
  assert (He : N.even (m_level probe_example) = true) by (vm_compute; reflexivity).
  assert (Hle : m_level probe_example <= c_fixed_truth) by (vm_compute; discriminate).
  assert (Hb : Forall (Forall (fun w => (N.to_nat (var w) < length (m_stamp probe_example))%nat))
                 (m_binary probe_example)).
  { repeat (constructor; [repeat (constructor; [vm_compute; lia|])|]); constructor. }
  assert (Hc : inconsistent probe_example_done = false) by (vm_compute; reflexivity).
  destruct (propagate_binary_closed 10 _ _ Hm He Hle Hb E Hc) as [H1 H2].
  split; [exact E|]. split; [exact H1|].
  apply (H2 (neg 1)).
  - vm_compute. repeat constructor.
  - vm_compute. repeat constructor.
Defined.

(** ** The trail of a round of lookahead *)

Lemma stamp_fold_set_undef (ext : list literal) (s : lookahead) (x : bool_var) :
  tnth 0 (m_stamp (fold_left (fun s l => set_undef l s) ext s)) x
  = if bool_decide (Exists (fun l => var l = x) ext) then 0 else tnth 0 (m_stamp s) x.
Proof.
  revert s. induction ext as [|l ext IH]; intros s; cbn [fold_left].
  - rewrite bool_decide_false; [done|]. by intros H%Exists_nil.
  - rewrite IH. unfold set_undef. cbn [m_stamp set_m_stamp].
    destruct (decide (var l = x)) as [E|E].
    + rewrite (bool_decide_true (Exists _ (l :: ext))) by (by left).
      case_bool_decide; [done|]. subst x.
      rewrite tnth_lookup, upd_insert. unfold tnth.
      destruct (N.ltb_spec (var l) (N.of_nat (length (m_stamp s)))) as [Hlt|Hge].
      * rewrite list_lookup_insert_eq by lia. done.
      * rewrite lookup_ge_None_2; [done|]. rewrite length_insert. lia.
    + rewrite tnth_upd_ne by done.
      destruct (bool_decide (Exists (fun l0 => var l0 = x) ext)) eqn:B.
      * apply bool_decide_eq_true in B. rewrite bool_decide_true; [done|by right].
      * apply bool_decide_eq_false in B. rewrite bool_decide_false; [done|].
        intros [H|H]%Exists_cons; done.
Qed.

Lemma reset_wnb_fields (s : lookahead) :
  m_trail (reset_wnb s) = take (back 0%nat (m_trail_lim s)) (m_trail s)
  /\ m_qhead (reset_wnb s) = back 0%nat (m_qhead_lim s)
  /\ lims (reset_wnb s)
     = (pop_back (m_trail_lim s), pop_back (m_qhead_lim s), m_binary_trail_lim s,
        m_num_tc1_lim s, m_retired_clause_lim s, m_retired_ternary_lim s)
  /\ m_stamp (reset_wnb s)
     = m_stamp (fold_left (fun s l => set_undef l s)
                  (drop (back 0%nat (m_trail_lim s)) (m_trail s))
                  (set_m_qhead (back 0%nat (m_qhead_lim s)) s)).
Proof.
  unfold reset_wnb. cbv zeta.
  set (s0 := set_m_qhead (back 0%nat (m_qhead_lim s)) s).
  change (m_trail_lim s0) with (m_trail_lim s). change (m_trail s0) with (m_trail s).
  set (F := fun (s : lookahead) (l : literal) => set_undef l s).
  set (ext := drop (back 0%nat (m_trail_lim s)) (m_trail s)).
  pose proof (fold_left_frame F m_trail (fun _ _ => eq_refl) ext s0) as H1.
  pose proof (fold_left_frame F m_qhead (fun _ _ => eq_refl) ext s0) as H2.
  pose proof (fold_left_frame F lims (fun _ _ => eq_refl) ext s0) as H3.
  generalize dependent (fold_left F ext s0). intros s1 H1 H2 H3.
  change (m_trail s0) with (m_trail s) in H1.
  change (m_qhead s0) with (back 0%nat (m_qhead_lim s)) in H2.
  change (lims s0) with (lims s) in H3.
  unfold lims in *. injection H3 as L1 L2 L3 L4 L5 L6. simpl.
  by rewrite H1, H2, L1, L2, L3, L4, L5, L6.
Qed.

(** X11. [reset_wnb] undoes everything that was put on the trail since the
    matching [init_wnb]: whatever ran in between, as long as it left the
    stacks of marks alone and only added to the trail, the trail, the head
    of the queue and the six stacks are again those before [init_wnb], the
    stamp of every literal that was added to the trail is 0, and the stamp
    of every other variable is left as it is. *)
Theorem reset_wnb_undoes (s s1 : lookahead) :
  lims s1 = lims (init_wnb s) -> m_trail s `prefix_of` m_trail s1 ->
  m_trail (reset_wnb s1) = m_trail s
  /\ m_qhead (reset_wnb s1) = m_qhead s
  /\ lims (reset_wnb s1) = lims s
  /\ (forall l, l ∈ drop (length (m_trail s)) (m_trail s1) -> stamp_of l (reset_wnb s1) = 0)
  /\ (forall l, (forall l', l' ∈ drop (length (m_trail s)) (m_trail s1) -> var l' <> var l) ->
                stamp_of l (reset_wnb s1) = stamp_of l s1).
Proof.
  intros Hl [ext Hext].
  destruct (reset_wnb_fields s1) as (F1 & F2 & F3 & F4).
  unfold lims, init_wnb in Hl. simpl in Hl. injection Hl as L1 L2 L3 L4 L5 L6.
  rewrite L1, back_snoc in F1, F4. rewrite L2, back_snoc in F2.
  rewrite L1, L2, !pop_back_snoc, L3, L4, L5, L6 in F3.
  rewrite Hext, take_app_length in F1. rewrite Hext, drop_app_length in F4.
  split; [exact F1|]. split; [exact F2|]. split; [exact F3|].
  rewrite Hext, drop_app_length. unfold stamp_of.
  split; intros l Hin; rewrite F4, stamp_fold_set_undef.
  - rewrite bool_decide_true; [done|]. apply Exists_exists. by exists l.
  - rewrite bool_decide_false; [done|]. intros (l' & Hl' & E)%Exists_exists. by apply (Hin l').
Qed.

(** Scenario 1 in a round of lookahead: after [init_wnb], and after the
    probe of [-1] at level 2. *)
Definition round_example : lookahead := Eval vm_compute in init_wnb trivial_sat_state.

Definition round_example_probed : lookahead :=
  Eval vm_compute in
    match push_lookahead1 10 (neg 1) 2 round_example with
    | Some s => pop_lookahead1 (neg 1) s
    | None => round_example
    end.

Lemma reset_wnb_undoes_witness :
  m_trail round_example_probed <> m_trail trivial_sat_state
  /\ m_trail (reset_wnb round_example_probed) = m_trail trivial_sat_state
  /\ m_qhead (reset_wnb round_example_probed) = m_qhead trivial_sat_state
  /\ lims (reset_wnb round_example_probed) = lims trivial_sat_state
  /\ stamp_of (neg 1) (reset_wnb round_example_probed) = 0.
Proof.
  assert (Hl : lims round_example_probed = lims (init_wnb trivial_sat_state))
    by (vm_compute; reflexivity).
  assert (Hp : m_trail trivial_sat_state `prefix_of` m_trail round_example_probed).
  { exists (drop (length (m_trail trivial_sat_state)) (m_trail round_example_probed)).
    vm_compute. reflexivity. }
  destruct (reset_wnb_undoes trivial_sat_state round_example_probed Hl Hp)
    as (H1 & H2 & H3 & H4 & _).
  split; [vm_compute; discriminate|]. split; [exact H1|]. split; [exact H2|].
  split; [exact H3|]. apply H4. vm_compute. repeat constructor.
Defined.

(** ** Probes do not show at the level of the search *)

Lemma value_stamp (l : literal) (s s' : lookahead) :
  m_level s' = m_level s -> stamp_of l s' = stamp_of l s -> value l s' = value l s.
Proof.
  intros Hl Hs. unfold value, is_undef, is_true, is_fixed. by rewrite Hl, Hs.
Qed.

Lemma value_undef (l : literal) (s : lookahead) :
  stamp_of l s < m_level s -> value l s = l_undef.
Proof.
  intros H. unfold value, is_undef, is_fixed.
  by rewrite (proj2 (N.leb_gt (m_level s) (stamp_of l s)) H).
Qed.

(** A state [r] at the level of [s] that holds the stamps written at a
    lower level [m_level s1] from the stamps of [s] gives every literal
    the value it has in [s]. *)
Lemma probe_values (s s1 s3 r : lookahead) (l : literal) :
  N.even (m_level s1) = true -> N.even (m_level s) = true ->
  m_level s1 < m_level s -> m_level s <= c_fixed_truth ->
  m_stamp s1 = m_stamp s -> grows s1 s3 ->
  m_stamp r = m_stamp s3 -> m_level r = m_level s ->
  value l r = value l s.
Proof.
  intros He1 He Hlt Hle Hs1 G Hr Hlr.
  assert (Hlt1 : m_level s1 + 1 < m_level s).
  { assert (m_level s1 + 1 <> m_level s); [|lia].
    intros E. rewrite <- E, N.even_add, He1 in He. done. }
  unfold c_fixed_truth, UINT_MAX in Hle.
  destruct (N.le_gt_cases (m_level s1) (stamp_of l s)) as [Hfix|Hun].
  - apply value_stamp; [done|]. unfold stamp_of in *. rewrite Hr.
    rewrite (gr_stamp _ _ G) by (by rewrite Hs1). by rewrite Hs1.
  - destruct (gr_new _ _ G (var l)) as [E|[E|E]].
    + apply value_stamp; [done|]. unfold stamp_of. by rewrite Hr, E, Hs1.
    + rewrite !value_undef; [done|lia|]. unfold stamp_of. rewrite Hr, E, Hlr.
      unfold u32. rewrite N.mod_small by lia. lia.
    + rewrite !value_undef; [done|lia|]. unfold stamp_of. rewrite Hr, E, Hlr.
      unfold u32. rewrite N.mod_small by lia. lia.
Qed.

Lemma assg_pop_lookahead1 (lit : literal) (s : lookahead) :
  m_stamp (pop_lookahead1 lit s) = m_stamp s /\ m_level (pop_lookahead1 lit s) = m_level s.
Proof.
  unfold pop_lookahead1. cbv zeta.
  set (s0 := set_m_search_mode searching (set_m_inconsistent false s)).
  assert (H : forall t, (m_stamp t, m_level t) = (m_stamp s0, m_level s0) ->
              m_stamp (set_m_wstack [] t) = m_stamp s /\ m_level (set_m_wstack [] t) = m_level s).
  { intros t [= H1 H2]. split; simpl; [by rewrite H1|by rewrite H2]. }
  destruct (negb (inconsistent s)); apply H; [|done].
  apply (fold_left_frame (fun s l2 => add_binary (~~lit) l2 s)
           (fun t => (m_stamp t, m_level t))).
  intros t a. pose proof (assg_add_binary (~~lit) a t) as E. unfold assg in E.
  by injection E as -> -> _ _.
Qed.

(** X12. A lookahead probe does not show at the level of the search.  At
    an even search level that is at most [c_fixed_truth], after
    [push_lookahead1] at a lower even level every literal has the value
    it had before, at the level the solver is put back to, and so it has
    after the [pop_lookahead1] that follows; the same holds after
    [push_lookahead2], which also takes the conflict flag down. *)
Theorem probe_keeps_values (fuel : nat) (lit : literal) (level : N) (s : lookahead) :
  N.even level = true -> N.even (m_level s) = true ->
  level < m_level s -> m_level s <= c_fixed_truth ->
  (forall s', push_lookahead1 fuel lit level s = Some s' ->
     m_level s' = m_level s
     /\ (forall l, value l s' = value l s)
     /\ (forall l, value l (pop_lookahead1 lit s') = value l s)
     /\ m_trail s `prefix_of` m_trail s')
  /\ (forall unsat s', push_lookahead2 fuel lit level s = Some (unsat, s') ->
        m_level s' = m_level s
        /\ (forall l, value l s' = value l s)
        /\ inconsistent s' = false
        /\ m_trail s `prefix_of` m_trail s').
Proof.
  intros He1 He Hlt Hle. split.
  - intros s'. unfold push_lookahead1. cbv zeta.
    set (s1 := set_m_level level (set_m_search_mode lookahead1 s)).
    destruct (propagate fuel (assign lit s1)) as [s3|] eqn:E; [|done].
    intros [= <-].
    assert (G : grows s1 s3).
    { eapply grows_trans; [apply grows_assign|by apply (grows_propagate fuel)]. }
    split; [done|]. split; [|split].
    + intros l. by apply (probe_values s s1 s3).
    + intros l. destruct (assg_pop_lookahead1 lit (set_m_level (m_level s) s3)) as [P1 P2].
      apply (probe_values s s1 s3); try done.
    + apply (gr_trail _ _ G).
  - intros unsat s'. unfold push_lookahead2. cbv zeta.
    set (s1 := set_m_search_mode lookahead2 (set_m_level level s)).
    destruct (propagate fuel (assign lit s1)) as [s3|] eqn:E; [|done].
    intros [= _ <-].
    assert (G : grows s1 s3).
    { eapply grows_trans; [apply grows_assign|by apply (grows_propagate fuel)]. }
    split; [done|]. split; [|split; [done|]].
    + intros l. by apply (probe_values s s1 s3).
    + apply (gr_trail _ _ G).
Qed.

(** Scenario 1 at the level of the search, and after the probe of [-1]
    at level 2. *)
Definition search_level_example : lookahead :=
  Eval vm_compute in set_m_level c_fixed_truth trivial_sat_state.

Definition search_level_probed : lookahead :=
  Eval vm_compute in
    match push_lookahead1 10 (neg 1) 2 search_level_example with
    | Some s => s
    | None => search_level_example
    end.

Lemma probe_keeps_values_witness :
  m_stamp search_level_probed <> m_stamp search_level_example
  /\ forall l, value l (pop_lookahead1 (neg 1) search_level_probed)
               = value l search_level_example.
Proof.
  assert (He1 : N.even 2 = true) by reflexivity.
  assert (He : N.even (m_level search_level_example) = true) by (vm_compute; reflexivity).
  assert (Hlt : 2 < m_level search_level_example) by (vm_compute; reflexivity).
  assert (Hle : m_level search_level_example <= c_fixed_truth) by (vm_compute; discriminate).
  assert (E : push_lookahead1 10 (neg 1) 2 search_level_example = Some search_level_probed)
    by (vm_compute; reflexivity).
  destruct (probe_keeps_values 10 (neg 1) 2 search_level_example He1 He Hlt Hle) as [H _].
  destruct (H _ E) as (_ & _ & V & _).
  split; [vm_compute; discriminate|exact V].
Defined.

(** ** The prefix of the search tree *)

Lemma mask_ones (n : N) : N.shiftl 1 n - 1 = N.ones n.
Proof. by rewrite N.sub_1_r. Qed.

Lemma testbit_mask (n i : N) : N.testbit (N.shiftl 1 n - 1) i = (i <? n).
Proof.
  rewrite mask_ones. destruct (N.ltb_spec i n).
  - by apply N.ones_spec_low.
  - by apply N.ones_spec_high.
Qed.

(** X13. The bits of the prefix, below depth 64 (the depth is the number
    of marks on [m_trail_lim]): [flip_prefix] sets the bit of the current
    depth, keeps the bits below it and clears the bits above;
    [prune_prefix] keeps the bits below the current depth and clears the
    others, so it undoes a [flip_prefix] at the same depth up to the bits
    that were set at or above the depth.  From depth 64 on neither
    changes the prefix. *)
Theorem prefix_bits (s : lookahead) :
  ((length (m_trail_lim s) < 64)%nat ->
   (forall i, N.testbit (m_prefix (flip_prefix s)) i
              = if i <? N.of_nat (length (m_trail_lim s)) then N.testbit (m_prefix s) i
                else i =? N.of_nat (length (m_trail_lim s)))
   /\ (forall i, N.testbit (m_prefix (prune_prefix s)) i
                 = (i <? N.of_nat (length (m_trail_lim s))) && N.testbit (m_prefix s) i)
   /\ m_prefix (prune_prefix (flip_prefix s)) = m_prefix (prune_prefix s))
  /\ ((64 <= length (m_trail_lim s))%nat ->
      flip_prefix s = s /\ prune_prefix s = s).
Proof.
  split.
  - intros Hd. apply Nat.ltb_lt in Hd.
    set (d := N.of_nat (length (m_trail_lim s))).
    assert (Ef : flip_prefix s
                 = set_m_prefix (N.lor (N.shiftl 1 d) (N.land (m_prefix s) (N.shiftl 1 d - 1))) s).
    { unfold flip_prefix. by rewrite Hd. }
    assert (Ep : forall t, m_trail_lim t = m_trail_lim s ->
                   m_prefix (prune_prefix t) = N.land (m_prefix t) (N.shiftl 1 d - 1)).
    { intros t Ht. unfold prune_prefix. by rewrite Ht, Hd. }
    rewrite Ef, (Ep (set_m_prefix _ s)), (Ep s) by done. simpl.
    assert (F : forall i, N.testbit (N.lor (N.shiftl 1 d) (N.land (m_prefix s) (N.shiftl 1 d - 1))) i
                          = if i <? d then N.testbit (m_prefix s) i else i =? d).
    { intros i. rewrite N.lor_spec, N.land_spec, testbit_mask, N.shiftl_1_l, N.pow2_bits_eqb.
      destruct (N.ltb_spec i d) as [Hlt|Hge].
      - rewrite andb_true_r. replace (d =? i) with false; [done|].
        symmetry. apply N.eqb_neq. lia.
      - rewrite andb_false_r, orb_false_r. apply N.eqb_sym. }
    split; [exact F|]. split.
    + intros i. rewrite N.land_spec, testbit_mask. apply andb_comm.
    + apply N.bits_inj. intros i. rewrite !N.land_spec, F, testbit_mask.
      destruct (i <? d); by rewrite ?andb_false_r.
  - intros Hd. apply Nat.ltb_ge in Hd. unfold flip_prefix, prune_prefix. by rewrite Hd.
Qed.

Lemma prefix_bits_witness :
  m_prefix (flip_prefix autarky_pushed) = 2
  /\ m_prefix (prune_prefix (flip_prefix autarky_pushed)) = m_prefix (prune_prefix autarky_pushed).
Proof.
  assert (Hd : (length (m_trail_lim autarky_pushed) < 64)%nat) by (vm_compute; lia).
  destruct (prefix_bits autarky_pushed) as [H _]. destruct (H Hd) as (_ & _ & E).
  split; [vm_compute; reflexivity|exact E].
Defined.

(** X14. After [update_prefix l], at a depth of at most 31 and with a
    prefix that fits in 32 bits, [active_prefix] answers [true] for the
    variable of [l]: either its recorded prefix was replaced by the
    current one, or it already agreed with the current prefix on the bits
    below its recorded length. *)
Theorem update_prefix_activates (l : literal) (s : lookahead) :
  (N.to_nat (var l) < length (m_vprefix s))%nat ->
  (length (m_trail_lim s) <= 31)%nat -> m_prefix s < 4294967296 ->
  active_prefix (var l) (update_prefix l s) = true.
Proof.
  intros Hv Hd Hp. unfold update_prefix. cbv zeta.
  set (p := prefix.m_prefix (tnth (prefix.mk 0 0) (m_vprefix s) (var l))).
  set (pl := prefix.m_length (tnth (prefix.mk 0 0) (m_vprefix s) (var l))).
  destruct ((length (m_trail_lim s) <=? pl)%nat
            || negb (N.land p (N.shiftl 1 (N.of_nat (Nat.min 31 pl)) - 1)
                     =? N.land (m_prefix s) (N.shiftl 1 (N.of_nat (Nat.min 31 pl)) - 1)))
    eqn:E.
  - unfold active_prefix. cbv zeta. simpl.
    rewrite tnth_upd_eq by exact Hv. simpl.
    rewrite Nat.ltb_irrefl, Nat.eqb_refl. simpl.
    unfold u32. rewrite N.mod_small by exact Hp. apply N.eqb_refl.
  - apply orb_false_iff in E as [E1 E2]. apply Nat.leb_gt in E1.
    apply negb_false_iff, N.eqb_eq in E2.
    unfold active_prefix. cbv zeta. fold p pl.
    replace (length (m_trail_lim s) <? pl)%nat with false
      by (symmetry; apply Nat.ltb_ge; lia).
    replace (pl =? length (m_trail_lim s))%nat with false
      by (symmetry; apply Nat.eqb_neq; lia).
    replace (31 <=? pl)%nat with false by (symmetry; apply Nat.leb_gt; lia).
    simpl. rewrite (Nat.min_comm pl 31), E2. apply N.eqb_refl.
Qed.

Lemma update_prefix_activates_witness :
  active_prefix (var (pos 1)) (update_prefix (pos 1) autarky_pushed) = true.
Proof.
  apply update_prefix_activates; [vm_compute; lia|vm_compute; lia|vm_compute; reflexivity].
Defined.

(** ** The two tests of the clause set *)

Lemma is_true_not_false (l : literal) (s : lookahead) : is_true l s = true -> is_false l s = false.
Proof.
  unfold is_true, is_false. destruct (is_fixed l s); [|done]. simpl.
  by destruct (xorb _ _).
Qed.

(** X15. [is_unsat] and [is_sat] never both answer [true]: when every
    literal of some clause is false, [is_sat] answers [false]. *)
Theorem is_unsat_not_sat (s : lookahead) : is_unsat s = true -> is_sat s = false.
Proof.
  unfold is_unsat, is_sat. intros H.
  apply existsb_exists in H as (off & Hoff & Hc).
  apply andb_false_iff. right.
  destruct (forallb _ (m_clauses s)) eqn:E; [|done].
  rewrite forallb_forall in E. specialize (E off Hoff).
  apply existsb_exists in E as (x & Hx & Ht).
  rewrite forallb_forall in Hc. specialize (Hc x Hx).
  by rewrite (is_true_not_false x s Ht) in Hc.
Qed.

(** Scenario 4 with [-1], [-2] and [-3] assigned: the first clause is false. *)
Definition falsified_example : lookahead :=
  Eval vm_compute in assign (neg 3) (assign (neg 2) (assign (neg 1) autarky_state)).

Lemma is_unsat_not_sat_witness :
  is_unsat falsified_example = true /\ is_sat falsified_example = false.
Proof.
  assert (H : is_unsat falsified_example = true) by (vm_compute; reflexivity).
  split; [exact H|exact (is_unsat_not_sat falsified_example H)].
Defined.

(** ** The rows of the heuristic *)

(** The lengths of the rows of [m_H]. *)
Definition H_shape (s : lookahead) : list nat := map length (m_H s).

Lemma H_shape_set_H (hpi : nat) (l : literal) (x : float) (s : lookahead) :
  H_shape (set_H hpi l x s) = H_shape s.
Proof.
  unfold H_shape, set_H. simpl. apply list_eq. intros i.
  rewrite !list_lookup_fmap. destruct (decide (i = hpi)) as [->|Hne].
  - destruct (m_H s !! hpi) as [row|] eqn:E.
    + rewrite list_lookup_insert_eq by (by eapply lookup_lt_Some).
      simpl. unfold nth_nat. rewrite E. simpl. by rewrite length_upd.
    + rewrite list_insert_ge by (by apply lookup_ge_None). by rewrite E.
  - by rewrite list_lookup_insert_ne.
Qed.

Lemma H_shape_l_score_binary hi l lits sum s :
  H_shape (l_score_binary hi l lits sum s).2 = H_shape s.
Proof.
  revert sum s. induction lits as [|w lits IH]; intros sum s; simpl; [done|].
  rewrite IH. by case_match.
Qed.

Lemma H_shape_l_score l hi f sq af s : H_shape (l_score l hi f sq af s).2 = H_shape s.
Proof.
  unfold l_score. pose proof (H_shape_l_score_binary hi l (binary_of l s) 0%float s) as H.
  by destruct (l_score_binary hi l (binary_of l s) 0%float s) as [sum s1].
Qed.

Lemma H_shape_h_scores_var hi hpi f sq af x s :
  H_shape (h_scores_var hi hpi f sq af x s) = H_shape s.
Proof.
  unfold h_scores_var. cbv zeta.
  pose proof (H_shape_l_score (mk_literal x false) hi f sq af s) as H1.
  destruct (l_score (mk_literal x false) hi f sq af s) as [p s1].
  pose proof (H_shape_l_score (~~(mk_literal x false)) hi f sq af s1) as H2.
  destruct (l_score (~~(mk_literal x false)) hi f sq af s1) as [q s2].
  simpl in *. rewrite <- H1, <- H2.
  change (H_shape (set_H hpi (~~(mk_literal x false)) q (set_H hpi (mk_literal x false) p s2))
          = H_shape s2).
  by rewrite !H_shape_set_H.
Qed.

Lemma H_shape_h_scores hi hpi s : H_shape (h_scores hi hpi s) = H_shape s.
Proof.
  unfold h_scores. cbv zeta. apply (fold_left_frame _ H_shape).
  intros t x. apply H_shape_h_scores_var.
Qed.

Lemma H_shape_ensure_H (level : nat) (s : lookahead) :
  H_shape (ensure_H level s)
  = H_shape s ++ replicate (S level - length (m_H s)) (m_num_vars s * 2)%nat.
Proof.
  unfold H_shape, ensure_H. simpl. rewrite map_app. f_equal.
  rewrite <- (length_replicate (m_num_vars s * 2) 0%float) at 2.
  generalize (replicate (m_num_vars s * 2) 0%float). intros row.
  induction (S level - length (m_H s))%nat as [|k IH]; simpl; [done|]. by rewrite IH.
Qed.

Lemma heur_row (s t : lookahead) (k : nat) :
  Forall (fun row => length row = (m_num_vars s * 2)%nat) (m_H s) ->
  H_shape t = H_shape (ensure_H k s) -> (m_heur t <= k)%nat ->
  (m_heur t < length (m_H t))%nat
  /\ (length (m_H s) <= length (m_H t))%nat
  /\ Forall (fun row => length row = (m_num_vars s * 2)%nat) (m_H t).
Proof.
  intros Hrows E Hk.
  assert (Hs : Forall (fun n => n = (m_num_vars s * 2)%nat) (H_shape s)).
  { unfold H_shape. by apply Forall_fmap. }
  rewrite H_shape_ensure_H in E.
  assert (El : length (m_H t) = (length (m_H s) + (S k - length (m_H s)))%nat).
  { rewrite <- (length_map length (m_H t)). fold (H_shape t).
    rewrite E, length_app, length_replicate. unfold H_shape. by rewrite length_map. }
  split; [lia|]. split; [lia|].
  assert (F : Forall (fun n => n = (m_num_vars s * 2)%nat) (H_shape t)).
  { rewrite E. apply Forall_app. split; [done|]. by apply Forall_replicate. }
  unfold H_shape in F. by apply Forall_fmap in F.
Qed.

Lemma H_shape_set_m_heur (k : nat) (s : lookahead) : H_shape (set_m_heur k s) = H_shape s.
Proof. reflexivity. Qed.

(** X16. After [init_pre_selection] the row [m_heur] of the table [m_H]
    exists, the table has lost no row, and every row has two entries per
    variable if the rows that were there before had: [ensure_H] adds rows
    of that length up to the level that is read and written, and
    [h_scores] changes no length. *)
Theorem init_pre_selection_heur (level : nat) (s : lookahead) :
  Forall (fun row => length row = (m_num_vars s * 2)%nat) (m_H s) ->
  (m_heur (init_pre_selection level s) < length (m_H (init_pre_selection level s)))%nat
  /\ (length (m_H s) <= length (m_H (init_pre_selection level s)))%nat
  /\ Forall (fun row => length row = (m_num_vars s * 2)%nat) (m_H (init_pre_selection level s)).
Proof.
  intros Hrows. unfold init_pre_selection. cbv zeta.
  destruct (level <=? 1)%nat; [|destruct (level <? m_max_hlevel (m_config s))%nat].
  - apply (heur_row s _ 2); [done| |simpl; lia].
    by rewrite H_shape_set_m_heur, !H_shape_h_scores.
  - apply (heur_row s _ level); [done| |reflexivity].
    by rewrite H_shape_set_m_heur, !H_shape_h_scores.
  - apply (heur_row s _ (m_max_hlevel (m_config s))); [done| |reflexivity].
    by rewrite H_shape_set_m_heur, !H_shape_h_scores.
Qed.

Lemma init_pre_selection_heur_witness :
  (m_heur (init_pre_selection 0 autarky_state)
   < length (m_H (init_pre_selection 0 autarky_state)))%nat
  /\ m_H (init_pre_selection 0 autarky_state) <> [].
Proof.
  assert (H : Forall (fun row => length row = (m_num_vars autarky_state * 2)%nat)
                (m_H autarky_state)) by (vm_compute; constructor).
  split; [exact (proj1 (init_pre_selection_heur 0 autarky_state H))|].
  vm_compute. discriminate.
Defined.

(** ** The offsets of the lookahead table *)

(** Every offset of the lookahead table is even. *)
Definition offsets_even (s : lookahead) : Prop :=
  Forall (fun e => N.even (m_offset e) = true) (m_lookahead s).

Lemma even_u32_add2 (x : N) : N.even x = true -> N.even (u32 (x + 2)) = true.
Proof.
  intros H. unfold u32. change 4294967296 with (2 ^ 32).
  rewrite <- N.negb_odd, <- N.bit0_odd, N.mod_pow2_bits_low by done.
  rewrite N.bit0_odd, N.odd_add, <- N.negb_even, H. done.
Qed.

Lemma offsets_even_set_offset (idx offset : N) (s : lookahead) :
  N.even offset = true -> offsets_even s -> offsets_even (set_offset idx offset s).
Proof.
  intros Ho Hs. unfold offsets_even, set_offset. simpl. by apply Forall_upd.
Qed.

Lemma offsets_even_set_lookahead (l : literal) (s : lookahead) :
  offsets_even s -> offsets_even (set_lookahead l s).
Proof.
  intros Hs. unfold offsets_even, set_lookahead. simpl.
  apply Forall_app. split; [done|]. by repeat constructor.
Qed.

Lemma offsets_even_view (s s' : lookahead) :
  m_lookahead s' = m_lookahead s -> offsets_even s -> offsets_even s'.
Proof. unfold offsets_even. by intros ->. Qed.

Lemma offsets_even_table (fuel : nat) :
  (forall u v offset s s',
      N.even offset = true -> offsets_even s ->
      table_down fuel u v offset s = Some s' -> offsets_even s')
  /\ (forall u v offset s s',
        N.even offset = true -> offsets_even s ->
        table_up fuel u v offset s = Some s' -> offsets_even s').
Proof.
  induction fuel as [|fuel [IHd IHu]]; split; intros u v offset s s' Ho Hs; simpl; try done.
  - case_match; [|done]. by intros [= <-].
  - case_match; [by intros [= <-]|].
    assert (H1 : offsets_even
                   (set_lookahead (get_vcomp u (set_rank u (N.of_nat (length (m_lookahead s))) s))
                      (set_rank u (N.of_nat (length (m_lookahead s))) s))).
    { apply offsets_even_set_lookahead. by eapply offsets_even_view; [|exact Hs]. }
    case_match; intros Ht.
    + eapply IHd; [exact Ho| |exact Ht]. by eapply offsets_even_view; [|exact H1].
    + eapply IHu; [exact Ho|exact H1|exact Ht].
  - assert (H1 : offsets_even (set_offset (get_rank u s) offset s))
      by (by apply offsets_even_set_offset).
    case_match; intros Ht.
    + eapply IHu; [by apply even_u32_add2| |exact Ht]. by eapply offsets_even_view; [|exact H1].
    + eapply IHd; [by apply even_u32_add2| |exact Ht]. by eapply offsets_even_view; [|exact H1].
Qed.

(** X17. Every offset that [construct_lookahead_table] writes is even: it
    counts up from 0 in steps of 2, a new entry starts at offset 0, and a
    wrap-around of the 32-bit counter keeps it even.  So when the offsets of
    the table were even before, as in the empty table that [pre_select]
    hands over, they are all even after. *)
Theorem lookahead_offsets_even (fuel : nat) (s s' : lookahead) :
  Forall (fun e => N.even (m_offset e) = true) (m_lookahead s) ->
  construct_lookahead_table fuel s = Some s' ->
  Forall (fun e => N.even (m_offset e) = true) (m_lookahead s').
Proof.
  intros Hs Ht. unfold construct_lookahead_table in Ht.
  by eapply (proj1 (offsets_even_table fuel)); [| |exact Ht].
Qed.

(** Scenario 4 in [pre_select]: after [find_heights], and after
    [construct_lookahead_table]. *)
Definition forest_example : lookahead :=
  Eval vm_compute in
    let s := set_m_lookahead [] (inc_istamp (set_m_level c_fixed_truth autarky_state)) in
    match select 20 (scope_lvl s) s with
    | Some (true, s1) =>
        match get_scc 20 s1 with
        | Some s2 => match find_heights 20 s2 with Some s3 => s3 | None => s end
        | None => s
        end
    | _ => s
    end.

Definition table_example : lookahead :=
  Eval vm_compute in
    match construct_lookahead_table 20 forest_example with
    | Some s => s
    | None => forest_example
    end.

Lemma lookahead_offsets_even_witness :
  m_lookahead table_example <> []
  /\ Forall (fun e => N.even (m_offset e) = true) (m_lookahead table_example).
Proof.
  assert (H0 : Forall (fun e => N.even (m_offset e) = true) (m_lookahead forest_example))
    by (vm_compute; constructor).
  assert (E : construct_lookahead_table 20 forest_example = Some table_example)
    by (vm_compute; reflexivity).
  split; [vm_compute; discriminate|].
  exact (lookahead_offsets_even 20 _ _ H0 E).
Defined.

(** ** What a scope does to the values *)

(** The stamps and the level. *)
Definition sview (s : lookahead) := (m_stamp s, m_level s).

Lemma sview_fold_left {A} (f : lookahead -> A -> lookahead) (l : list A) (s : lookahead) :
  (forall s a, sview (f s a) = sview s) -> sview (fold_left f l s) = sview s.
Proof. intros H. by apply (fold_left_frame f sview). Qed.

Lemma stamp_fold_undef (F : lookahead -> literal -> lookahead) (ext : list literal)
    (s : lookahead) (x : bool_var) :
  (forall s l, m_stamp (F s l) = upd (m_stamp s) (var l) 0) ->
  tnth 0 (m_stamp (fold_left F ext s)) x
  = if bool_decide (Exists (fun l => var l = x) ext) then 0 else tnth 0 (m_stamp s) x.
Proof.
  intros HF. revert s. induction ext as [|l ext IH]; intros s; cbn [fold_left].
  - rewrite bool_decide_false; [done|]. by intros H%Exists_nil.
  - rewrite IH, HF.
    destruct (decide (var l = x)) as [E|E].
    + rewrite (bool_decide_true (Exists _ (l :: ext))) by (by left).
      case_bool_decide; [done|]. subst x.
      rewrite tnth_lookup, upd_insert. unfold tnth.
      destruct (N.ltb_spec (var l) (N.of_nat (length (m_stamp s)))) as [Hlt|Hge].
      * rewrite list_lookup_insert_eq by lia. done.
      * rewrite lookup_ge_None_2; [done|]. rewrite length_insert. lia.
    + rewrite tnth_upd_ne by done.
      destruct (bool_decide (Exists (fun l0 => var l0 = x) ext)) eqn:B.
      * apply bool_decide_eq_true in B. rewrite bool_decide_true; [done|by right].
      * apply bool_decide_eq_false in B. rewrite bool_decide_false; [done|].
        intros [H|H]%Exists_cons; done.
Qed.

Lemma elem_of_rev_iff {A} (x : A) (l : list A) : x ∈ rev l <-> x ∈ l.
Proof. rewrite !list_elem_of_In. symmetry. apply in_rev. Qed.

Lemma sview_pop (s : lookahead) :
  m_level (pop s) = m_level s
  /\ forall x, tnth 0 (m_stamp (pop s)) x
               = if bool_decide (Exists (fun l => var l = x)
                                   (drop (back 0%nat (m_trail_lim s)) (m_trail s)))
                 then 0 else tnth 0 (m_stamp s) x.
Proof.
  unfold pop.
  assert (H1 : sview (pop_assumptions s) = sview s
               /\ m_trail_lim (pop_assumptions s) = m_trail_lim s
               /\ m_trail (pop_assumptions s) = m_trail s).
  { unfold pop_assumptions. by case_bool_decide. }
  generalize dependent (pop_assumptions s). intros s1 (V1 & L1 & T1).
  assert (H2 : m_level (pop_trail s1) = m_level s
               /\ forall x, tnth 0 (m_stamp (pop_trail s1)) x
                            = if bool_decide (Exists (fun l => var l = x)
                                                (drop (back 0%nat (m_trail_lim s)) (m_trail s)))
                              then 0 else tnth 0 (m_stamp s) x).
  { unfold pop_trail. cbv zeta. rewrite L1, T1.
    set (F := fun (s : lookahead) (l : literal) =>
                set_m_freevars (freevars_insert (var l) (m_freevars s)) (set_undef l s)).
    set (ext := drop (back 0%nat (m_trail_lim s)) (m_trail s)).
    pose proof (fold_left_frame F m_level (fun _ _ => eq_refl) (rev ext) s1) as HL.
    pose proof (fun x => stamp_fold_undef F (rev ext) s1 x (fun _ _ => eq_refl)) as HS.
    generalize dependent (fold_left F (rev ext) s1). intros s2 HL HS.
    unfold sview in V1. injection V1 as V1 V2. simpl. split; [congruence|].
    intros x. rewrite HS, V1. apply (f_equal (fun b : bool => if b then 0 else _)).
    apply bool_decide_ext. rewrite !Exists_exists.
    split; intros (l & Hl & E); exists l; (split; [|done]); by apply elem_of_rev_iff. }
  generalize dependent (pop_trail s1). intros s2 H2.
  assert (H3 : sview (pop_num_tc1 s2) = sview s2) by reflexivity.
  generalize dependent (pop_num_tc1 s2). intros s3 H3.
  assert (H4 : sview (pop_retired_clauses s3) = sview s3).
  { unfold pop_retired_clauses. cbv zeta.
    match goal with
    | |- context [fold_left ?f ?l s3] =>
        pose proof (sview_fold_left f l s3) as H;
        generalize dependent (fold_left f l s3)
    end.
    intros s' H. simpl. apply H. intros t off. unfold attach_clause. cbv zeta.
    by case_match. }
  generalize dependent (pop_retired_clauses s3). intros s4 H4.
  assert (H5 : sview (pop_retired_ternary s4) = sview s4).
  { unfold pop_retired_ternary. cbv zeta.
    match goal with
    | |- context [fold_left ?f ?l s4] =>
        pose proof (sview_fold_left f l s4) as H;
        generalize dependent (fold_left f l s4)
    end.
    intros s' H. simpl. by apply H. }
  generalize dependent (pop_retired_ternary s4). intros s5 H5.
  assert (H6 : sview (pop_binary s5) = sview s5).
  { unfold pop_binary. cbv zeta.
    match goal with
    | |- context [fold_left ?f ?l s5] =>
        pose proof (sview_fold_left f l s5) as H;
        generalize dependent (fold_left f l s5)
    end.
    intros s' H. simpl. apply H. intros t idx. unfold del_binary. cbv zeta.
    by case_match. }
  generalize dependent (pop_binary s5). intros s6 H6.
  assert (H7 : sview (pop_qhead s6) = sview s6) by reflexivity.
  generalize dependent (pop_qhead s6). intros s7 H7.
  assert (E : sview s7 = sview s2) by congruence.
  unfold sview in E. injection E as -> ->. exact H2.
Qed.

(** X18. A [push] at a level that is at most the level of the solver,
    which is above 0, followed by its [pop] gives every literal the value
    it had before the push: the literals that the scope assigned are
    unassigned again and no other stamp has changed.  The level is the
    one before the push. *)
Theorem push_pop_values (fuel : nat) (lit : literal) (level : N) (s s' : lookahead) :
  0 < m_level s -> level <= m_level s ->
  push fuel lit level s = Some s' ->
  m_level (pop s') = m_level s /\ forall l, value l (pop s') = value l s.
Proof.
  intros Hpos Hle Hp. rewrite push_eq in Hp.
  destruct (propagate fuel (assign lit (push_marks lit level s))) as [s3|] eqn:E; [|done].
  injection Hp as <-.
  set (s0 := push_marks lit level s) in *.
  assert (G : grows s0 s3).
  { eapply grows_trans; [apply grows_assign|by apply (grows_propagate fuel)]. }
  assert (HL : lims s3 = lims s0).
  { apply lims_propagate in E. by rewrite E, lims_assign. }
  destruct (sview_pop (set_m_level (m_level s) s3)) as [P1 P2].
  change (m_level (set_m_level (m_level s) s3)) with (m_level s) in P1.
  split; [exact P1|]. intros l.
  assert (Eb : back 0%nat (m_trail_lim (set_m_level (m_level s) s3)) = length (m_trail s0)).
  { change (m_trail_lim (set_m_level (m_level s) s3)) with (lims s3).1.1.1.1.1.
    rewrite HL. simpl. apply back_snoc. }
  unfold value, is_undef, is_true, is_fixed, stamp_of. rewrite P1, P2, Eb.
  change (m_trail (set_m_level (m_level s) s3)) with (m_trail s3).
  change (m_stamp (set_m_level (m_level s) s3)) with (m_stamp s3).
  case_bool_decide as Hex.
  - apply Exists_exists in Hex as (l' & Hin & Hv).
    pose proof (gr_ext _ _ G l' Hin) as Hlt. rewrite Hv in Hlt.
    change (m_stamp s0) with (m_stamp s) in Hlt. change (m_level s0) with level in Hlt.
    replace (m_level s <=? 0) with false by (symmetry; apply N.leb_gt; lia).
    replace (m_level s <=? tnth 0 (m_stamp s) (var l)) with false
      by (symmetry; apply N.leb_gt; lia).
    done.
  - destruct (gr_from _ _ G (var l)) as [->|H]; [done|].
    exfalso. apply Hex. exact H.
Qed.

(** Scenario 4 at the level of the search, and after the decision [-1]. *)
Definition decision_example : lookahead :=
  Eval vm_compute in set_m_level c_fixed_truth autarky_state.

Definition decision_example_pushed : lookahead :=
  Eval vm_compute in
    match push 10 (neg 1) c_fixed_truth decision_example with
    | Some s => s
    | None => decision_example
    end.

Lemma push_pop_values_witness :
  value (neg 1) decision_example_pushed <> value (neg 1) decision_example
  /\ forall l, value l (pop decision_example_pushed) = value l decision_example.
Proof.
  assert (Hpos : 0 < m_level decision_example) by (vm_compute; reflexivity).
  assert (Hle : c_fixed_truth <= m_level decision_example) by (vm_compute; discriminate).
  assert (E : push 10 (neg 1) c_fixed_truth decision_example = Some decision_example_pushed)
    by (vm_compute; reflexivity).
  split; [vm_compute; discriminate|].
  exact (proj2 (push_pop_values 10 (neg 1) _ _ _ Hpos Hle E)).
Defined.

(** ** Propagation is sound *)

(** A literal with the variable and the sign of another is that literal. *)
Lemma literal_eq (a b : literal) : var a = var b -> sign a = sign b -> a = b.
Proof.
  destruct a as [i], b as [j]. unfold var, sign. simpl. intros Hv Hs. f_equal.
  rewrite (N.div2_odd i), (N.div2_odd j), Hv, Hs. done.
Qed.

Lemma is_false_lnot (l : literal) (s : lookahead) : is_false l s = is_true (~~l) s.
Proof.
  unfold is_false, is_true, is_fixed, stamp_of. rewrite var_lnot, sign_lnot.
  destruct (m_level s <=? _); [|done]. simpl.
  by destruct (N.odd _), (sign l).
Qed.

Lemma lit_ok_var (n : N) (l : literal) : lit_ok n l -> var l < n.
Proof. unfold lit_ok, var. intros H. apply lt_double_div2. done. Qed.

(** What [assign], [add_binary] and the stamps of the implication graph
    leave alone. *)
Definition aview (s : lookahead) := (m_binary s, m_watches s, m_bstamp s, m_bstamp_id s).
Definition bsview (s : lookahead) := (m_bstamp s, m_bstamp_id s).
Definition wview (s : lookahead) := (m_watches s, m_bstamp s, m_bstamp_id s).

Lemma aview_assign (l : literal) (s : lookahead) : aview (assign l s) = aview s.
Proof.
  unfold assign, validate_assign, set_conflict, set_true. cbv zeta.
  repeat case_match; reflexivity.
Qed.

Lemma wview_add_binary (u v : literal) (s : lookahead) : wview (add_binary u v s) = wview s.
Proof. unfold add_binary, validate_binary. cbv zeta. repeat case_match; reflexivity. Qed.

(** The offsets of the clause watches of a list. *)
Definition offs (wl : watch_list) : list clause_offset :=
  omap (fun w => match w with CLAUSE _ off => Some off | _ => None end) wl.

Lemma alloc_assign (l : literal) (s : lookahead) :
  m_cls_allocator (assign l s) = m_cls_allocator s.
Proof.
  unfold assign, validate_assign, set_conflict, set_true. cbv zeta.
  repeat case_match; reflexivity.
Qed.

Lemma alloc_add_binary (u v : literal) (s : lookahead) :
  m_cls_allocator (add_binary u v s) = m_cls_allocator s.
Proof. unfold add_binary, validate_binary. cbv zeta. repeat case_match; reflexivity. Qed.

(** *** Lists of watches and clauses *)

Lemma offs_erase_first (p : watched -> bool) (wl : watch_list) :
  offs (erase_first p wl) `sublist_of` offs wl.
Proof.
  induction wl as [|w wl IH]; simpl; [done|].
  destruct (p w).
  - unfold offs. simpl. destruct w; simpl; try done. by apply sublist_cons.
  - unfold offs in *. simpl. destruct w; simpl; try done. by apply sublist_skip.
Qed.

Lemma offs_middle (kept rest : watch_list) (w : watched) :
  offs (kept ++ rest) `sublist_of` offs (kept ++ w :: rest).
Proof.
  unfold offs. rewrite !omap_app. apply sublist_app; [done|]. simpl.
  destruct w; simpl; try done. by apply sublist_cons.
Qed.

Lemma elem_of_offs (off : clause_offset) (wl : watch_list) :
  off ∈ offs wl <-> exists b, CLAUSE b off ∈ wl.
Proof.
  unfold offs. rewrite list_elem_of_omap. split.
  - intros (w & Hw & E). destruct w; simplify_eq. by eexists.
  - intros (b & Hb). by exists (CLAUSE b off).
Qed.

(** [swap c i j]: the clause [c] with the literals at [i] and [j] exchanged. *)
Definition swap (c : list literal) (i j : nat) : list literal :=
  <[j := lit_at c i]> (<[i := lit_at c j]> c).

Definition swap_idx (i j k : nat) : nat :=
  if decide (k = j) then i else if decide (k = i) then j else k.

Lemma swap_idx_invol (i j k : nat) : swap_idx i j (swap_idx i j k) = k.
Proof. unfold swap_idx. repeat case_decide; congruence. Qed.

Lemma swap_lookup (c : list literal) (i j k : nat) :
  (i < length c)%nat -> (j < length c)%nat -> swap c i j !! k = c !! swap_idx i j k.
Proof.
  intros Hi Hj. unfold swap, swap_idx, lit_at.
  destruct (decide (k = j)) as [->|Hkj].
  - rewrite list_lookup_insert_eq by (by rewrite length_insert). symmetry. by apply nth_nat_lt.
  - rewrite list_lookup_insert_ne by done.
    destruct (decide (k = i)) as [->|Hki].
    + rewrite list_lookup_insert_eq by done. symmetry. by apply nth_nat_lt.
    + by rewrite list_lookup_insert_ne.
Qed.

Lemma swap_lit_at (c : list literal) (i j k : nat) :
  (i < length c)%nat -> (j < length c)%nat -> lit_at (swap c i j) k = lit_at c (swap_idx i j k).
Proof. intros Hi Hj. unfold lit_at, nth_nat. by rewrite swap_lookup. Qed.

Lemma length_swap (c : list literal) (i j : nat) : length (swap c i j) = length c.
Proof. unfold swap. by rewrite !length_insert. Qed.

Lemma NoDup_swap (c : list literal) (i j : nat) :
  (i < length c)%nat -> (j < length c)%nat -> NoDup c -> NoDup (swap c i j).
Proof.
  intros Hi Hj Hc. apply NoDup_alt. intros k1 k2 x. rewrite !swap_lookup by done.
  intros H1 H2. pose proof (proj1 (NoDup_alt c) Hc _ _ _ H1 H2) as E.
  by rewrite <- (swap_idx_invol i j k1), E, swap_idx_invol.
Qed.

Lemma elem_of_swap (c : list literal) (i j : nat) (x : literal) :
  (i < length c)%nat -> (j < length c)%nat -> x ∈ swap c i j <-> x ∈ c.
Proof.
  intros Hi Hj. rewrite !list_elem_of_lookup. split; intros [k Hk].
  - exists (swap_idx i j k). by rewrite <- swap_lookup.
  - exists (swap_idx i j k). by rewrite swap_lookup, swap_idx_invol.
Qed.

Lemma clause_ok_swap (n : N) (c : list literal) (i j : nat) :
  (i < length c)%nat -> (j < length c)%nat -> clause_ok n c -> clause_ok n (swap c i j).
Proof.
  intros Hi Hj Hc. unfold swap.
  apply clause_ok_insert; [apply clause_ok_insert; [done|]|]; by apply clause_ok_lit_at.
Qed.

Lemma NoDup_lit_at (c : list literal) (i j : nat) :
  NoDup c -> (i < length c)%nat -> (j < length c)%nat -> lit_at c i = lit_at c j -> i = j.
Proof.
  intros Hc Hi Hj E. apply (proj1 (NoDup_alt c) Hc i j (lit_at c i)).
  - by apply nth_nat_lt.
  - rewrite E. by apply nth_nat_lt.
Qed.

(** What [find_idx] finds. *)
Lemma find_idx_spec (p : literal -> bool) (t : list literal) (i j : nat) :
  find_idx p t i = Some j ->
  (i <= j)%nat
  /\ (exists x, t !! (j - i)%nat = Some x /\ p x = true)
  /\ forall k y, (k < j - i)%nat -> t !! k = Some y -> p y = false.
Proof.
  revert i. induction t as [|x t IH]; intros i; simpl; [done|].
  destruct (p x) eqn:E.
  - intros [= <-]. split; [lia|]. rewrite Nat.sub_diag. split; [by exists x|]. intros k y Hk. lia.
  - intros H. apply IH in H as (H1 & (y & H2 & H3) & H4). split; [lia|]. split.
    + exists y. split; [|done]. replace (j - i)%nat with (S (j - S i)) by lia. done.
    + intros k z Hk Hz. destruct k as [|k]; simpl in Hz; [by injection Hz as <-|].
      apply (H4 k); [lia|done].
Qed.

Lemma find_idx_None (p : literal -> bool) (t : list literal) (i : nat) :
  find_idx p t i = None -> Forall (fun x => p x = false) t.
Proof.
  revert i. induction t as [|x t IH]; intros i; simpl; [done|].
  destruct (p x) eqn:E; [done|]. intros H. constructor; [done|by eapply IH].
Qed.

Lemma get_clause_set_clause (off off' : clause_offset) (c : list literal) (s : lookahead) :
  get_clause off' (set_clause off c s)
  = if decide (off' = off /\ (off < length (m_cls_allocator s))%nat) then c
    else get_clause off' s.
Proof.
  unfold get_clause, set_clause, nth_nat. simpl.
  case_decide as H.
  - destruct H as [-> H]. by rewrite list_lookup_insert_eq.
  - destruct (decide (off' = off)) as [->|Hne].
    + rewrite list_insert_ge; [done|]. apply Nat.nlt_ge. tauto.
    + by rewrite list_lookup_insert_ne.
Qed.

Lemma get_wlist_set_wlist (a l : literal) (wl : watch_list) (s : lookahead) :
  get_wlist l (set_wlist a wl s)
  = if decide (l = a /\ (N.to_nat (index a) < length (m_watches s))%nat) then wl
    else get_wlist l s.
Proof.
  unfold get_wlist, set_wlist. simpl. case_decide as H.
  - destruct H as [-> H]. by rewrite tnth_upd_eq.
  - destruct (decide (index a = index l)) as [E|E].
    + apply index_inj in E. subst a. unfold upd.
      destruct (N.ltb_spec (index l) (N.of_nat (length (m_watches s)))); [|done].
      exfalso. apply H. split; [done|lia].
    + by rewrite tnth_upd_ne.
Qed.

Lemma get_wlist_out (l : literal) (s : lookahead) :
  ~ (N.to_nat (index l) < length (m_watches s))%nat -> get_wlist l s = [].
Proof.
  intros H. unfold get_wlist. rewrite tnth_lookup, lookup_ge_None_2; [done|].
  by apply Nat.nlt_ge.
Qed.


Lemma offs_fresh (kept rest : watch_list) (b : literal) (off : clause_offset) :
  NoDup (offs (kept ++ CLAUSE b off :: rest)) -> off ∉ offs (kept ++ rest).
Proof.
  unfold offs. rewrite !omap_app. simpl. intros H.
  apply NoDup_app in H as (H1 & H2 & H3). apply NoDup_cons in H3 as [H3 _].
  intros Hin. apply elem_of_app in Hin as [Hin|Hin]; [|done].
  apply (H2 off Hin). left.
Qed.

Lemma offs_blocked (kept rest : watch_list) (a b : literal) (off : clause_offset) :
  offs (kept ++ CLAUSE a off :: rest) = offs (kept ++ CLAUSE b off :: rest).
Proof. unfold offs. by rewrite !omap_app. Qed.

Lemma Forall_middle {A} (P : A -> Prop) (kept rest : list A) (w : A) :
  Forall P (kept ++ rest) -> P w -> Forall P (kept ++ w :: rest).
Proof.
  intros H Hw. apply Forall_app in H as [Ha Hb]. apply Forall_app. split; [done|].
  by constructor.
Qed.

Lemma existsb_lookup {A} (p : A -> bool) (c : list A) :
  existsb p c = true <-> exists k x, c !! k = Some x /\ p x = true.
Proof.
  rewrite existsb_exists. split.
  - intros (x & Hx & Hp). apply list_elem_of_In, list_elem_of_lookup in Hx as [k Hk]. eauto.
  - intros (k & x & Hk & Hp). exists x. split; [|done].
    apply list_elem_of_In, list_elem_of_lookup. eauto.
Qed.

Lemma existsb_false_lookup {A} (p : A -> bool) (c : list A) (k : nat) (x : A) :
  existsb p c = false -> c !! k = Some x -> p x = false.
Proof.
  intros H Hk. destruct (p x) eqn:E; [|done].
  assert (H' : existsb p c = true) by (apply existsb_lookup; eauto). congruence.
Qed.

Lemma existsb_swap (p : literal -> bool) (c : list literal) (i j : nat) :
  (i < length c)%nat -> (j < length c)%nat ->
  existsb p c = true -> existsb p (swap c i j) = true.
Proof.
  intros Hi Hj. rewrite !existsb_lookup. intros (k & x & Hk & Hp).
  exists (swap_idx i j k), x. split; [|done]. by rewrite swap_lookup, swap_idx_invol.
Qed.

Lemma lit_at_lookup (c : list literal) (k : nat) (x : literal) :
  c !! k = Some x -> lit_at c k = x.
Proof. intros H. unfold lit_at, nth_nat. by rewrite H. Qed.

Section Soundness.
Variable n : N.
Variable M : bool_var -> bool.

(** The value of a literal under the assignment [M]. *)
Definition lit_true (l : literal) : bool := xorb (M (var l)) (sign l).

Lemma lit_true_lnot (l : literal) : lit_true (~~l) = negb (lit_true l).
Proof. unfold lit_true. rewrite var_lnot, sign_lnot. by destruct (M (var l)), (sign l). Qed.

(** [M] makes every literal true that the solver holds true. *)
Definition agrees (s : lookahead) : Prop :=
  forall l, lit_ok n l -> is_true l s = true -> lit_true l = true.

(** [M] satisfies the binary clauses of the adjacency table: [w] in the
    list of [l] stands for the clause [~l \/ w]. *)
Definition sat_binary (s : lookahead) : Prop :=
  forall l w, w ∈ binary_of l s -> lit_true l = true -> lit_true w = true.

(** A watch in the list of [l] is a ternary or a clause watch.
    [TERNARY l1 l2] stands for the clause [~l \/ l1 \/ l2], which [M]
    satisfies; a clause watch is for a clause that has [~l] as its first
    or second literal. *)
Definition watch_sat (s : lookahead) (l : literal) (w : watched) : Prop :=
  match w with
  | BINARY _ _ => False
  | TERNARY l1 l2 => lit_true l = true -> lit_true l1 || lit_true l2 = true
  | CLAUSE _ off =>
      lit_at (get_clause off s) 0 = ~~l \/ lit_at (get_clause off s) 1 = ~~l
  | EXT_CONSTRAINT _ => False
  end.

(** The watches of the list of [l] are as [watch_sat] says, and no clause
    is watched twice in the list. *)
Definition list_sat (s : lookahead) (l : literal) (wl : watch_list) : Prop :=
  Forall (watch_sat s l) wl /\ NoDup (offs wl).

(** The lists of all literals but [skip], the one whose list
    [propagate_clauses] is going through. *)
Definition sat_watches (skip : option literal) (s : lookahead) : Prop :=
  forall l, skip <> Some l -> list_sat s l (get_wlist l s).

(** The literals of a clause are distinct and [M] makes one of them true. *)
Definition clause_good (c : list literal) : Prop :=
  NoDup c /\ existsb lit_true c = true.

Definition sat_clauses (s : lookahead) : Prop := Forall clause_good (m_cls_allocator s).

(** A state of a solver over [n] variables whose clauses [M] satisfies, in
    which [M] makes true what the solver holds true and what is on the
    trail, and no conflict is flagged. *)
Record sound (skip : option literal) (s : lookahead) : Prop := mk_sound {
  so_wf : wf n s;
  so_bstamp : bstamp_inv s;
  so_level : level_ok s;
  so_stamps : (N.to_nat n <= length (m_stamp s))%nat;
  so_binary : sat_binary s;
  so_watches : sat_watches skip s;
  so_clauses : sat_clauses s;
  so_agrees : agrees s;
  so_trail : Forall (fun l => lit_true l = true) (m_trail s);
  so_consistent : inconsistent s = false
}.

Lemma sound_core (skip : option literal) (s s' : lookahead) :
  core s' = core s -> bstamp_inv s' -> assg s' = assg s -> sound skip s -> sound skip s'.
Proof.
  intros Hc B' Ha [W B L S SB SW SC A T C].
  assert (Hbin : m_binary s' = m_binary s)
    by exact (f_equal (fun c => c.1.1.1.1.1.1.1.1.2) Hc).
  assert (Hwa : m_watches s' = m_watches s)
    by exact (f_equal (fun c => c.1.1.1.1.1.2) Hc).
  assert (Hal : m_cls_allocator s' = m_cls_allocator s)
    by exact (f_equal (fun c => c.1.1.1.1.2) Hc).
  unfold assg in Ha. injection Ha as Hs Hl Ht Hx.
  split.
  - by apply (wf_core n s).
  - exact B'.
  - unfold level_ok. by rewrite Hl.
  - by rewrite Hs.
  - unfold sat_binary, binary_of. by rewrite Hbin.
  - unfold sat_watches, list_sat, watch_sat, get_wlist, get_clause. by rewrite Hwa, Hal.
  - unfold sat_clauses. by rewrite Hal.
  - unfold agrees, is_true, is_fixed, stamp_of. by rewrite Hs, Hl.
  - by rewrite Ht.
  - unfold inconsistent. by rewrite Hx.
Qed.

Lemma sound_fields (skip : option literal) (s s' : lookahead) :
  core s' = core s -> bsview s' = bsview s -> assg s' = assg s -> sound skip s -> sound skip s'.
Proof.
  intros Hc Hb Ha So. apply (sound_core skip s); try done.
  destruct So as [_ B _ _ _ _ _ _ _ _].
  unfold bsview in Hb. injection Hb as Hb1 Hb2.
  unfold bstamp_inv in *. rewrite Hb1, Hb2. exact B.
Qed.

Lemma sound_assign (skip : option literal) (l : literal) (s : lookahead) :
  sound skip s -> lit_ok n l -> lit_true l = true -> sound skip (assign l s).
Proof.
  intros So Hl Ht. pose proof So as [W B L S SB SW SC A T C].
  assert (Hv : var_in s l).
  { unfold var_in. apply lit_ok_var in Hl. lia. }
  pose proof (assign_spec l s L Hv) as Sp.
  pose proof (aview_assign l s) as Av. unfold aview in Av. injection Av as A1 A2 A3 A4.
  pose proof (alloc_assign l s) as Al.
  pose proof (assg_assign l s) as Ag. unfold assg in Ag.
  destruct (value_cases l s) as [[Hval Hu]|[(Hval & Hu & Htr & Hf)|(Hval & Hu & Htr & Hf)]];
    rewrite Hval in Sp.
  - rewrite Hu in Ag. injection Ag as G1 G2 G3 G4.
    destruct Sp as (V1 & V2 & V3 & V4).
    split.
    + by destruct (step_assign n l s W Hl).
    + unfold bstamp_inv in *. rewrite A3, A4. exact B.
    + unfold level_ok. by rewrite G2.
    + by rewrite G1, length_upd.
    + unfold sat_binary, binary_of. by rewrite A1.
    + unfold sat_watches, list_sat, watch_sat, get_wlist, get_clause. by rewrite A2, Al.
    + unfold sat_clauses. by rewrite Al.
    + intros l' Hl' Ht'. destruct (decide (var l' = var l)) as [E|E].
      * destruct (decide (sign l' = sign l)) as [E'|E'].
        -- by rewrite (literal_eq l' l E E').
        -- assert (El : l' = ~~l).
           { apply literal_eq; [by rewrite var_lnot|]. rewrite sign_lnot.
             by destruct (sign l'), (sign l). }
           subst l'.
           destruct (value_cases (~~l) (assign l s)) as [[X _]|[(X & _)|(_ & _ & X & _)]];
             congruence.
      * apply A; [done|]. revert Ht'. unfold is_true, is_fixed, stamp_of.
        rewrite G1, G2, tnth_upd_ne by done. done.
    + rewrite V3. apply Forall_app. split; [done|]. by constructor.
    + by rewrite V4.
  - by rewrite Sp.
  - exfalso. rewrite is_false_lnot in Hf.
    apply A in Hf; [|by apply (lit_ok_lnot n l)].
    rewrite lit_true_lnot, Ht in Hf. done.
Qed.

Lemma sound_propagated (skip : option literal) (l : literal) (s : lookahead) :
  sound skip s -> lit_ok n l -> lit_true l = true -> sound skip (propagated l s).
Proof.
  intros So Hl Ht. pose proof (sound_assign skip l s So Hl Ht) as H.
  unfold propagated. cbv zeta. destruct (m_search_mode (assign l s)); try done.
  by eapply sound_fields; [| | |exact H].
Qed.

Lemma sound_add_binary (skip : option literal) (u v : literal) (s : lookahead) :
  sound skip s -> lit_ok n u -> lit_ok n v -> lit_true u || lit_true v = true ->
  sound skip (add_binary u v s).
Proof.
  intros So Hu Hv Huv. pose proof So as [W B L S SB SW SC A T C].
  pose proof (wview_add_binary u v s) as Wv. unfold wview in Wv. injection Wv as W1 W2 W3.
  pose proof (alloc_add_binary u v s) as Al.
  pose proof (assg_add_binary u v s) as Ag. unfold assg in Ag. injection Ag as G1 G2 G3 G4.
  split.
  - by destruct (step_add_binary n u v s W Hu Hv).
  - unfold bstamp_inv in *. rewrite W2, W3. exact B.
  - unfold level_ok. by rewrite G2.
  - by rewrite G1.
  - intros l w. unfold binary_of. rewrite m_binary_add_binary.
    destruct (add_skips u v s); [apply SB|].
    rewrite (elem_of_add_tbl n) by (done || by destruct W).
    intros [H|[[Hi ->]|[Hi ->]]] Hl.
    + by apply (SB l w).
    + apply index_inj in Hi. subst l. rewrite lit_true_lnot in Hl.
      apply negb_true_iff in Hl. by rewrite Hl in Huv.
    + apply index_inj in Hi. subst l. rewrite lit_true_lnot in Hl.
      apply negb_true_iff in Hl. rewrite Hl, orb_false_r in Huv. done.
  - unfold sat_watches, list_sat, watch_sat, get_wlist, get_clause. by rewrite W1, Al.
  - unfold sat_clauses. by rewrite Al.
  - unfold agrees, is_true, is_fixed, stamp_of. by rewrite G1, G2.
  - by rewrite G3.
  - unfold inconsistent. by rewrite G4.
Qed.

(** The literals that carry the stamp are consequences of [a] under [M]. *)
Definition stamp_sem (a : literal) (s : lookahead) : Prop :=
  forall x, is_stamped x s = true -> lit_true a = true -> lit_true x = true.

Lemma stamp_sem_view (a : literal) (s s' : lookahead) :
  bsview s' = bsview s -> stamp_sem a s -> stamp_sem a s'.
Proof. unfold bsview, stamp_sem, is_stamped. by intros [= -> ->]. Qed.

Lemma is_stamped_range (x : literal) (s : lookahead) :
  m_bstamp_id s <> 0 -> is_stamped x s = true -> (N.to_nat (index x) < length (m_bstamp s))%nat.
Proof.
  intros Hid. unfold is_stamped, tnth.
  destruct (N.ltb_spec (index x) (N.of_nat (length (m_bstamp s)))) as [Hlt|Hge]; [lia|].
  intros E%N.eqb_eq. by rewrite <- E in Hid.
Qed.

Lemma inc_bstamp_id (s : lookahead) : m_bstamp_id (inc_bstamp s) <> 0.
Proof.
  unfold inc_bstamp. cbv zeta. simpl.
  destruct (N.eqb_spec (u32 (m_bstamp_id s + 1)) 0) as [E|E]; simpl; [|done].
  rewrite E. done.
Qed.

Lemma sound_set_bstamps (skip : option literal) (a : literal) (s : lookahead) :
  sound skip s -> sound skip (set_bstamps a s) /\ stamp_sem a (set_bstamps a s).
Proof.
  intros So. pose proof So as [W B L S SB SW SC A T C].
  destruct (inc_bstamp_fresh s B) as [B1 F1].
  assert (Hb : binary_of a (set_bstamp a (inc_bstamp s)) = binary_of a s).
  { unfold binary_of, set_bstamp, inc_bstamp. cbv zeta. by case_match. }
  assert (B2 : bstamp_inv (set_bstamps a s)).
  { unfold set_bstamps. cbv zeta. rewrite Hb.
    pose proof (bstamp_inv_set_bstamp a _ B1) as H. revert H.
    generalize (set_bstamp a (inc_bstamp s)). generalize (binary_of a s).
    intros ws. induction ws as [|w ws IH]; intros t Ht; simpl; [done|].
    apply IH. by apply bstamp_inv_set_bstamp. }
  split.
  - assert (E : (core (set_bstamps a s), assg (set_bstamps a s)) = (core s, assg s)).
    { unfold set_bstamps. cbv zeta.
      rewrite (fold_left_frame _ (fun t => (core t, assg t))) by reflexivity.
      unfold set_bstamp, inc_bstamp. cbv zeta. by case_match. }
    apply (sound_core skip s); [exact (f_equal fst E)|exact B2|exact (f_equal snd E)|exact So].
  - intros x Hx Ha.
    assert (Hid : m_bstamp_id (set_bstamps a s) <> 0).
    { unfold set_bstamps. cbv zeta.
      rewrite (fold_left_frame _ m_bstamp_id) by reflexivity. apply inc_bstamp_id. }
    pose proof (is_stamped_range x _ Hid Hx) as Hr.
    assert (Hlen : length (m_bstamp (set_bstamps a s)) = length (m_bstamp (inc_bstamp s))).
    { unfold set_bstamps. cbv zeta.
      generalize (binary_of a (set_bstamp a (inc_bstamp s))). intros ws.
      assert (Hl0 : length (m_bstamp (set_bstamp a (inc_bstamp s)))
                    = length (m_bstamp (inc_bstamp s))).
      { unfold set_bstamp. simpl. apply length_upd. }
      revert Hl0. generalize (set_bstamp a (inc_bstamp s)).
      induction ws as [|w ws IH]; intros t Ht; simpl; [done|].
      apply IH. unfold set_bstamp. simpl. by rewrite length_upd. }
    rewrite Hlen in Hr.
    revert Hx. unfold set_bstamps. cbv zeta.
    rewrite is_stamped_fold_set_bstamp
      by (unfold set_bstamp; simpl; by rewrite length_upd).
    rewrite is_stamped_set_bstamp by done.
    rewrite F1, orb_false_r, Hb. intros [H|H]%orb_true_iff.
    + by apply (SB a x); [apply bool_decide_eq_true in H|].
    + apply bool_decide_eq_true in H. by subst x.
Qed.


(** *** Watch lists *)

Lemma list_sat_alloc (s s' : lookahead) (l : literal) (wl : watch_list) :
  m_cls_allocator s' = m_cls_allocator s -> list_sat s l wl -> list_sat s' l wl.
Proof. intros E. unfold list_sat, watch_sat, get_clause. by rewrite E. Qed.

Lemma list_sat_erase (s : lookahead) (l : literal) (p : watched -> bool) (wl : watch_list) :
  list_sat s l wl -> list_sat s l (erase_first p wl).
Proof.
  intros [H1 H2]. split; [by apply Forall_erase_first|].
  eapply sublist_NoDup; [exact H2|apply offs_erase_first].
Qed.

Lemma list_sat_drop (s : lookahead) (l : literal) (kept rest : watch_list) (w : watched) :
  list_sat s l (kept ++ w :: rest) -> list_sat s l (kept ++ rest).
Proof.
  intros [H1 H2]. split.
  - apply Forall_app in H1 as [Ha Hb]. apply Forall_cons in Hb as [_ Hb]. by apply Forall_app.
  - eapply sublist_NoDup; [exact H2|apply offs_middle].
Qed.

Lemma list_sat_nil (s : lookahead) (l : literal) : list_sat s l [].
Proof. split; constructor. Qed.

Lemma sound_weaken (l : literal) (s : lookahead) : sound None s -> sound (Some l) s.
Proof.
  intros [W B L S SB SW SC A T C].
  split; [exact W|exact B|exact L|exact S|exact SB| |exact SC|exact A|exact T|exact C].
  intros l' _. by apply SW.
Qed.

Lemma sound_set_wlist (skip : option literal) (a : literal) (wl : watch_list) (s : lookahead) :
  sound skip s -> Forall (watch_ok n (length (m_cls_allocator s))) wl ->
  (skip <> Some a -> list_sat s a wl) -> sound skip (set_wlist a wl s).
Proof.
  intros So Hok Hsat. pose proof So as [W B L S SB SW SC A T C].
  split; [|exact B|exact L|exact S|exact SB| |exact SC|exact A|exact T|exact C].
  - by destruct (step_set_wlist n a wl s W Hok).
  - intros l Hl. rewrite get_wlist_set_wlist. apply (list_sat_alloc s); [done|].
    case_decide as H; [|by apply SW]. destruct H as [-> _]. by apply Hsat.
Qed.

Lemma sound_close (l : literal) (wl : watch_list) (s : lookahead) :
  sound (Some l) s -> Forall (watch_ok n (length (m_cls_allocator s))) wl ->
  list_sat s l wl -> sound None (set_wlist l wl s).
Proof.
  intros So Hok Hsat. pose proof So as [W B L S SB SW SC A T C].
  split; [|exact B|exact L|exact S|exact SB| |exact SC|exact A|exact T|exact C].
  - by destruct (step_set_wlist n l wl s W Hok).
  - intros l' _. rewrite get_wlist_set_wlist. apply (list_sat_alloc s); [done|].
    case_decide as H; [by destruct H as [-> _]|].
    destruct (decide (l' = l)) as [->|Hne].
    + rewrite get_wlist_out; [apply list_sat_nil|]. tauto.
    + apply SW. congruence.
Qed.

Lemma sound_erase (skip : option literal) (a : literal) (p : watched -> bool) (s : lookahead) :
  sound skip s -> sound skip (set_wlist a (erase_first p (get_wlist a s)) s).
Proof.
  intros So. apply sound_set_wlist; [done| |].
  - apply Forall_erase_first, wf_get_wlist. by destruct So.
  - intros Hs. apply list_sat_erase. by destruct So as [_ _ _ _ _ SW _ _ _ _]; apply SW.
Qed.

Lemma sound_detach_ternary (skip : option literal) (l1 l2 l3 : literal) (s : lookahead) :
  sound skip s -> sound skip (detach_ternary l1 l2 l3 s).
Proof.
  intros So. unfold detach_ternary. cbv zeta.
  set (s1 := set_m_retired_ternary _ s).
  assert (S1 : sound skip s1).
  { pose proof So as [W B L S SB SW SC A T C].
    split; [|exact B|exact L|exact S|exact SB|exact SW|exact SC|exact A|exact T|exact C].
    by destruct (step_retire_ternary n (mk_ternary_rec l1 l2 l3) s W). }
  clearbody s1. unfold erase_ternary_watch.
  by apply sound_erase, sound_erase.
Qed.

Lemma sound_detach_clause (skip : option literal) (off : clause_offset) (s : lookahead) :
  sound skip s -> sound skip (detach_clause off s).
Proof.
  intros So. unfold detach_clause. cbv zeta.
  generalize (get_clause off s). intros c.
  set (s1 := set_m_retired_clauses _ s).
  assert (S1 : sound skip s1).
  { pose proof So as [W B L S SB SW SC A T C].
    split; [|exact B|exact L|exact S|exact SB|exact SW|exact SC|exact A|exact T|exact C].
    by destruct (step_retire_clause n off s W). }
  clearbody s1. unfold erase_clause_watch.
  by apply sound_erase, sound_erase.
Qed.

(** *** Adding a binary clause *)

Lemma bsview_add_binary (u v : literal) (s : lookahead) : bsview (add_binary u v s) = bsview s.
Proof. unfold add_binary, validate_binary. cbv zeta. repeat case_match; reflexivity. Qed.

Lemma sound_add_tc1_loop (skip : option literal) (u v : literal) (ws : list literal)
    (s : lookahead) :
  sound skip s -> lit_ok n u -> Forall (lit_ok n) ws -> stamp_sem (~~u) s ->
  lit_true u || lit_true v = true ->
  Forall (fun w => lit_true v = true -> lit_true w = true) ws ->
  sound skip (add_tc1_loop u ws s).2.
Proof.
  intros So Hu Hws. revert s So.
  induction Hws as [|w ws Hw Hws IH]; intros s So St Huv Hv; simpl; [done|].
  apply Forall_cons in Hv as [Hvw Hv].
  destruct (negb (is_fixed w s)); [|by apply IH].
  destruct (is_stamped (~~w) s) eqn:Es.
  - simpl. apply sound_assign; [done|done|].
    destruct (lit_true u) eqn:Eu; [done|]. simpl in Huv.
    assert (Hnu : lit_true (~~u) = true) by (by rewrite lit_true_lnot, Eu).
    pose proof (St _ Es Hnu) as Hnw. rewrite lit_true_lnot, (Hvw Huv) in Hnw. done.
  - destruct (m_num_tc1 s <? m_tc1_limit (m_config s)); [|by apply IH].
    apply IH; [|by eapply stamp_sem_view; [|exact St]; rewrite bsview_add_binary|done|done].
    apply sound_add_binary; [|done|done|].
    + by eapply sound_fields; [| | |exact So].
    + destruct (lit_true u) eqn:Eu; [done|]. simpl in *. by apply Hvw.
Qed.

Lemma sound_try_add_binary (skip : option literal) (u v : literal) (s : lookahead) :
  sound skip s -> lit_ok n u -> lit_ok n v -> lit_true u || lit_true v = true ->
  sound skip (try_add_binary u v s).
Proof.
  intros So Hu Hv Huv. unfold try_add_binary. cbv zeta.
  set (s1 := if negb (is_undef u s) || negb (is_undef v s) then _ else s).
  assert (S1 : sound skip s1).
  { subst s1. case_match; [|done]. by eapply sound_fields; [| | |exact So]. }
  clearbody s1. clear So.
  destruct (sound_set_bstamps skip (~~u) s1 S1) as [S2 St2].
  generalize dependent (set_bstamps (~~u) s1). intros s2 S2 St2.
  destruct (is_stamped (~~v) s2) eqn:E1.
  { apply sound_assign; [done|done|].
    destruct (lit_true u) eqn:Eu; [done|]. simpl in Huv.
    assert (Hnu : lit_true (~~u) = true) by (by rewrite lit_true_lnot, Eu).
    pose proof (St2 _ E1 Hnu) as Hnv. rewrite lit_true_lnot, Huv in Hnv. done. }
  destruct (negb (is_stamped v s2)); [|exact S2].
  assert (S3 : sound skip (add_tc1 u v s2).2).
  { unfold add_tc1. apply (sound_add_tc1_loop skip u v); try done.
    - apply wf_binary_of. by destruct S2.
    - apply Forall_forall. intros w Hw Ht. destruct S2 as [_ _ _ _ SB _ _ _ _ _].
      by apply (SB v w). }
  destruct (add_tc1 u v s2) as [r s3]. simpl in S3. destruct r; [|exact S3].
  destruct (sound_set_bstamps skip (~~v) s3 S3) as [S4 St4].
  generalize dependent (set_bstamps (~~v) s3). intros s4 S4 St4.
  assert (Hvu : lit_true v || lit_true u = true) by (by rewrite orb_comm).
  destruct (is_stamped (~~u) s4) eqn:E2.
  { apply sound_assign; [done|done|].
    destruct (lit_true v) eqn:Ev; [done|]. simpl in Hvu.
    assert (Hnv : lit_true (~~v) = true) by (by rewrite lit_true_lnot, Ev).
    pose proof (St4 _ E2 Hnv) as Hnu. rewrite lit_true_lnot, Hvu in Hnu. done. }
  assert (S5 : sound skip (add_tc1 v u s4).2).
  { unfold add_tc1. apply (sound_add_tc1_loop skip v u); try done.
    - apply wf_binary_of. by destruct S4.
    - apply Forall_forall. intros w Hw Ht. destruct S4 as [_ _ _ _ SB _ _ _ _ _].
      by apply (SB u w). }
  destruct (add_tc1 v u s4) as [r2 s5]. simpl in S5. destruct r2; [|exact S5].
  apply sound_add_binary; [|done|done|done].
  eapply sound_fields; [| | |exact S5].
  - by rewrite !core_update_prefix.
  - unfold update_prefix. cbv zeta. by repeat case_match.
  - by rewrite !assg_update_prefix.
Qed.

Lemma is_false_lit (skip : option literal) (l : literal) (s : lookahead) :
  sound skip s -> lit_ok n l -> is_false l s = true -> lit_true l = false.
Proof.
  intros [_ _ _ _ _ _ _ A _ _] Hl Hf. rewrite is_false_lnot in Hf.
  apply A in Hf; [|by apply (lit_ok_lnot n l)].
  rewrite lit_true_lnot in Hf. by apply negb_true_iff in Hf.
Qed.

(** *** The clause store is left alone *)

Lemma alloc_propagated (l : literal) (s : lookahead) :
  m_cls_allocator (propagated l s) = m_cls_allocator s.
Proof.
  unfold propagated. cbv zeta. rewrite <- (alloc_assign l s).
  generalize (assign l s). intros s1. by destruct (m_search_mode s1).
Qed.

Lemma alloc_set_bstamps (l : literal) (s : lookahead) :
  m_cls_allocator (set_bstamps l s) = m_cls_allocator s.
Proof.
  unfold set_bstamps. cbv zeta. rewrite (fold_left_frame _ m_cls_allocator) by reflexivity.
  unfold set_bstamp, inc_bstamp. cbv zeta. by case_match.
Qed.

Lemma alloc_add_tc1_loop (u : literal) (ws : list literal) (s : lookahead) :
  m_cls_allocator (add_tc1_loop u ws s).2 = m_cls_allocator s.
Proof.
  revert s. induction ws as [|w ws IH]; intros s; simpl; [done|].
  destruct (negb (is_fixed w s)); [|apply IH].
  destruct (is_stamped (~~w) s); [simpl; apply alloc_assign|].
  destruct (m_num_tc1 s <? m_tc1_limit (m_config s)); [|apply IH].
  by rewrite IH, alloc_add_binary.
Qed.

Lemma alloc_try_add_binary (u v : literal) (s : lookahead) :
  m_cls_allocator (try_add_binary u v s) = m_cls_allocator s.
Proof.
  unfold try_add_binary. cbv zeta.
  set (s0 := if negb (is_undef u s) || negb (is_undef v s)
             then verbose (diag_adding_assigned_binary v u) s else s).
  assert (H0 : m_cls_allocator s0 = m_cls_allocator s) by (unfold s0; by case_match).
  clearbody s0. rewrite <- H0. clear H0.
  rewrite <- (alloc_set_bstamps (~~u) s0).
  generalize (set_bstamps (~~u) s0). intros s1.
  destruct (is_stamped (~~v) s1); [apply alloc_assign|].
  destruct (negb (is_stamped v s1)); [|done].
  pose proof (alloc_add_tc1_loop u (binary_of v s1) s1) as H2.
  unfold add_tc1. destruct (add_tc1_loop u (binary_of v s1) s1) as [[] s2]; simpl in H2; [|done].
  rewrite <- H2. rewrite <- (alloc_set_bstamps (~~v) s2).
  generalize (set_bstamps (~~v) s2). intros s3.
  destruct (is_stamped (~~u) s3); [apply alloc_assign|].
  pose proof (alloc_add_tc1_loop v (binary_of u s3) s3) as H4.
  destruct (add_tc1_loop v (binary_of u s3) s3) as [[] s4]; simpl in H4; [|done].
  rewrite alloc_add_binary. unfold update_prefix. cbv zeta. by repeat case_match.
Qed.

(** *** The cases of [propagate_clauses] *)

(** The state while [propagate_clauses l] runs: the list of [l] will be
    [wl], what was kept and what is still to come. *)
Definition loop_inv (l : literal) (s : lookahead) (wl : watch_list) : Prop :=
  sound (Some l) s
  /\ Forall (watch_ok n (length (m_cls_allocator s))) wl
  /\ list_sat s l wl.

Lemma loop_inv_frame (l : literal) (s s' : lookahead) (wl : watch_list) :
  loop_inv l s wl -> sound (Some l) s' -> m_cls_allocator s' = m_cls_allocator s ->
  loop_inv l s' wl.
Proof.
  intros (_ & Hok & Hsat) So E. split; [done|]. split; [by rewrite E|].
  by apply (list_sat_alloc s).
Qed.

Lemma loop_inv_drop (l : literal) (s : lookahead) (kept rest : watch_list) (w : watched) :
  loop_inv l s (kept ++ w :: rest) -> loop_inv l s (kept ++ rest).
Proof.
  intros (So & Hok & Hsat). split; [done|]. split; [|by eapply list_sat_drop].
  apply Forall_app in Hok as [Ha Hb]. apply Forall_cons in Hb as [_ Hb]. by apply Forall_app.
Qed.

Lemma sound_propagate_ternary (l l1 l2 : literal) (kept rest : watch_list) (s : lookahead) :
  loop_inv l s (kept ++ TERNARY l1 l2 :: rest) -> lit_ok n l -> lit_true l = true ->
  loop_inv l (propagate_ternary l l1 l2 s).2
    (kept ++ option_list (propagate_ternary l l1 l2 s).1 ++ rest).
Proof.
  intros LI Hl Ht. pose proof LI as (So & Hok & Hsat).
  assert (Hw : watch_ok n (length (m_cls_allocator s)) (TERNARY l1 l2)).
  { apply Forall_app in Hok as [_ Hb]. by apply Forall_cons in Hb as [? _]. }
  destruct Hw as [H1 H2].
  assert (H12 : lit_true l1 || lit_true l2 = true).
  { destruct Hsat as [Hs _]. apply Forall_app in Hs as [_ Hb].
    apply Forall_cons in Hb as [Hb _]. by apply Hb. }
  assert (Keep : forall s', sound (Some l) s' -> m_cls_allocator s' = m_cls_allocator s ->
                   loop_inv l s' (kept ++ option_list (Some (TERNARY l1 l2)) ++ rest)).
  { intros s' So' E. by apply (loop_inv_frame l s). }
  assert (Drop : forall s', sound (Some l) s' -> m_cls_allocator s' = m_cls_allocator s ->
                   loop_inv l s' (kept ++ option_list None ++ rest)).
  { intros s' So' E. apply (loop_inv_frame l s); [|done|done]. by eapply loop_inv_drop. }
  unfold propagate_ternary.
  destruct (is_fixed l1 s).
  - destruct (is_false l1 s) eqn:F1; [|by apply Keep].
    rewrite (is_false_lit _ l1 s So H1 F1) in H12. simpl in H12.
    destruct (is_undef l2 s).
    { apply Keep; [by apply sound_propagated|apply alloc_propagated]. }
    destruct (is_false l2 s) eqn:F2; [|by apply Keep].
    by rewrite (is_false_lit _ l2 s So H2 F2) in H12.
  - destruct (is_fixed l2 s).
    + destruct (is_false l2 s) eqn:F2; [|by apply Keep].
      rewrite (is_false_lit _ l2 s So H2 F2), orb_false_r in H12.
      apply Keep; [by apply sound_propagated|apply alloc_propagated].
    + destruct (m_search_mode s); cbn [fst snd].
      * apply Drop.
        -- apply sound_try_add_binary; try done. by apply sound_detach_ternary.
        -- by rewrite alloc_try_add_binary.
      * apply Keep; [|done]. by eapply sound_fields; [| | |exact So].
      * by apply Keep.
Qed.

(** *** Long clauses *)

Lemma sound_set_clause (l : literal) (off : clause_offset) (c' : list literal) (s : lookahead) :
  sound (Some l) s -> clause_ok n c' -> clause_good c' ->
  (forall x, x <> l ->
     lit_at (get_clause off s) 0 = ~~x \/ lit_at (get_clause off s) 1 = ~~x ->
     lit_at c' 0 = ~~x \/ lit_at c' 1 = ~~x) ->
  sound (Some l) (set_clause off c' s).
Proof.
  intros So Hc Hg Hx. pose proof So as [W B L S SB SW SC A T C].
  split; [|exact B|exact L|exact S|exact SB| | |exact A|exact T|exact C].
  - by destruct (step_set_clause n off c' s W Hc).
  - intros l' Hl'. assert (Hne : l' <> l) by congruence.
    destruct (SW l' Hl') as [H1 H2]. split; [|exact H2].
    change (get_wlist l' (set_clause off c' s)) with (get_wlist l' s).
    eapply Forall_impl; [exact H1|]. intros w Hw. destruct w as [? ?|? ?|b off'|?]; try done.
    simpl in *. rewrite get_clause_set_clause. case_decide as Hd; [|done].
    destruct Hd as [-> _]. by apply Hx.
  - unfold sat_clauses, set_clause. simpl. by apply Forall_insert.
Qed.

Lemma list_sat_set_clause (l : literal) (off : clause_offset) (c' : list literal)
    (wl : watch_list) (s : lookahead) :
  off ∉ offs wl -> list_sat s l wl -> list_sat (set_clause off c' s) l wl.
Proof.
  intros Hn [H1 H2]. split; [|done].
  apply Forall_forall. intros w Hw. pose proof (proj1 (Forall_forall _ _) H1 w Hw) as Hs.
  destruct w as [? ?|? ?|b off'|?]; try done. simpl in *.
  rewrite get_clause_set_clause. case_decide as Hd; [|done]. destruct Hd as [-> _].
  exfalso. apply Hn. apply elem_of_offs. by exists b.
Qed.

Lemma sound_push_watch (l a b : literal) (off : clause_offset) (s : lookahead) :
  sound (Some l) s -> a <> l -> (off < length (m_cls_allocator s))%nat ->
  lit_at (get_clause off s) 0 = ~~a \/ lit_at (get_clause off s) 1 = ~~a ->
  off ∉ offs (get_wlist a s) ->
  sound (Some l) (push_watch a (CLAUSE b off) s).
Proof.
  intros So Ha Hoff Hpos Hn. unfold push_watch. apply sound_set_wlist; [done| |].
  - apply Forall_app. split; [apply wf_get_wlist; by destruct So|]. by constructor.
  - intros _. destruct So as [_ _ _ _ _ SW _ _ _ _].
    destruct (SW a) as [H1 H2]; [congruence|]. split.
    + apply Forall_app. split; [done|]. by constructor.
    + unfold offs. rewrite omap_app. simpl. apply NoDup_app. split; [exact H2|].
      split; [|apply NoDup_singleton].
      intros x Hx Hx'. apply list_elem_of_singleton in Hx'. subst x. by apply Hn.
Qed.

(** A literal of a clause that [M] makes true is not one the solver holds
    false. *)
Lemma true_not_false (skip : option literal) (c : list literal) (k : nat) (x : literal)
    (s : lookahead) :
  sound skip s -> clause_ok n c -> c !! k = Some x -> lit_true x = true ->
  is_false x s = false.
Proof.
  intros So [_ Hc] Hk Hx. destruct (is_false x s) eqn:E; [|done].
  rewrite (is_false_lit skip x s So) in Hx; [done| |done].
  by apply (Forall_lookup_1 _ _ _ _ Hc Hk).
Qed.

Lemma sound_propagate_clause (l b : literal) (off : clause_offset) (kept rest : watch_list)
    (s : lookahead) :
  loop_inv l s (kept ++ CLAUSE b off :: rest) -> lit_ok n l -> lit_true l = true ->
  loop_inv l (propagate_clause l b off s).2
    (kept ++ option_list (propagate_clause l b off s).1 ++ rest).
Proof.
  intros LI Hl Ht. pose proof LI as (So & Hok & [Hsat Hnd]).
  assert (Hoff : (off < length (m_cls_allocator s))%nat).
  { apply Forall_app in Hok as [_ Hb]. by apply Forall_cons in Hb as [? _]. }
  assert (Hpos : lit_at (get_clause off s) 0 = ~~l \/ lit_at (get_clause off s) 1 = ~~l).
  { apply Forall_app in Hsat as [_ Hb]. by apply Forall_cons in Hb as [? _]. }
  pose proof (offs_fresh _ _ _ _ Hnd) as Hfresh.
  pose proof (loop_inv_drop _ _ _ _ _ LI) as (_ & Hok' & Hsat').
  assert (Hnl : lit_true (~~l) = false) by (by rewrite lit_true_lnot, Ht).
  unfold propagate_clause.
  destruct (is_true b s); [exact LI|]. cbv zeta.
  set (c := get_clause off s) in *.
  assert (Cok : clause_ok n c) by (apply wf_get_clause; [by destruct So|done]).
  assert (Cgood : clause_good c).
  { unfold c, get_clause. apply Forall_nth_nat; [by destruct So|done]. }
  pose proof Cok as [Clen _]. destruct Cgood as [Cnd Csat].
  set (c1 := if bool_decide (lit_at c 0 = ~~l) then _ else c).
  assert (F1 : clause_ok n c1 /\ NoDup c1 /\ existsb lit_true c1 = true
               /\ lit_at c1 1 = ~~l
               /\ forall x, x <> l -> lit_at c 0 = ~~x \/ lit_at c 1 = ~~x ->
                    lit_at c1 0 = ~~x \/ lit_at c1 1 = ~~x).
  { unfold c1. case_bool_decide as E.
    - change (<[1%nat := lit_at c 0]> (<[0%nat := lit_at c 1]> c)) with (swap c 0 1).
      split; [apply clause_ok_swap; [lia|lia|done]|].
      split; [apply NoDup_swap; [lia|lia|done]|].
      split; [apply existsb_swap; [lia|lia|done]|].
      rewrite !swap_lit_at by lia. split; [exact E|].
      intros x Hx [H|H]; [|by left]. rewrite E in H. by apply lnot_inj in H.
    - destruct Hpos as [H|H]; [done|]. done. }
  clearbody c1. destruct F1 as (C1ok & C1nd & C1sat & C11 & C1pos).
  pose proof C1ok as [C1len _].
  set (s1 := set_clause off c1 s).
  assert (So1 : sound (Some l) s1) by (by apply sound_set_clause).
  assert (G1 : get_clause off s1 = c1).
  { unfold s1. rewrite get_clause_set_clause. by rewrite decide_True. }
  assert (A1 : length (m_cls_allocator s1) = length (m_cls_allocator s))
    by (unfold s1, set_clause; simpl; by rewrite length_insert).
  assert (L1 : list_sat s1 l (kept ++ rest)) by (by apply list_sat_set_clause).
  set (a := lit_at c1 0).
  assert (Hane : a <> ~~l).
  { intros E. unfold a in E. rewrite <- C11 in E. apply NoDup_lit_at in E; [done|done|lia|lia]. }
  assert (Keep1 : forall b' s', sound (Some l) s' -> m_cls_allocator s' = m_cls_allocator s1 ->
            loop_inv l s' (kept ++ option_list (Some (CLAUSE b' off)) ++ rest)).
  { intros b' s' So' E. split; [done|]. split.
    - rewrite E, A1. apply Forall_middle; [done|]. exact Hoff.
    - apply (list_sat_alloc s1); [done|]. destruct L1 as [L1a L1b]. split.
      + apply Forall_middle; [done|]. simpl. rewrite G1. by right.
      + simpl. by rewrite (offs_blocked kept rest b' b off). }
  destruct (is_true a s1); [by apply Keep1|].
  destruct (find_idx _ (drop 2 c1) 2) as [j|] eqn:Ef.
  2:{ (* unit or conflict *)
    pose proof (find_idx_None _ _ _ Ef) as Hall.
    assert (Ma : lit_true a = true).
    { apply existsb_lookup in C1sat as (k & x & Hk & Hx).
      destruct k as [|[|k]].
      - by rewrite <- (lit_at_lookup _ _ _ Hk) in Hx.
      - rewrite <- (lit_at_lookup _ _ _ Hk), C11 in Hx. congruence.
      - assert (Hd : drop 2 c1 !! k = Some x) by (by rewrite lookup_drop).
        pose proof (Forall_lookup_1 _ _ _ _ Hall Hd) as Hf. simpl in Hf.
        rewrite (true_not_false _ c1 (S (S k)) x s1 So1) in Hf; done. }
    assert (Fa : is_false a s1 = false) by (by apply (true_not_false _ c1 0%nat a s1 So1);
      [|apply nth_nat_lt; lia|]).
    rewrite Fa. apply Keep1; [|apply alloc_propagated].
    apply sound_propagated; [done| |done]. apply clause_ok_lit_at; [done|lia]. }
  (* the watch moves to c[j] *)
  destruct (find_idx_spec _ _ _ _ Ef) as (Hj2 & (d & Hd & Hpd) & Hbefore).
  rewrite lookup_drop in Hd. replace (2 + (j - 2))%nat with j in Hd by lia.
  pose proof (lookup_lt_Some _ _ _ Hd) as Hjlen.
  pose proof (lit_at_lookup _ _ _ Hd) as Edj.
  set (c2 := <[j := ~~l]> (<[1%nat := lit_at c1 j]> c1)).
  assert (Ec2 : c2 = swap c1 1 j) by (unfold c2, swap; by rewrite C11).
  clearbody c2.
  assert (C2ok : clause_ok n c2) by (rewrite Ec2; apply clause_ok_swap; [lia|lia|done]).
  assert (C2nd : NoDup c2) by (rewrite Ec2; apply NoDup_swap; [lia|lia|done]).
  assert (C2sat : existsb lit_true c2 = true)
    by (rewrite Ec2; apply existsb_swap; [lia|lia|done]).
  assert (C20 : lit_at c2 0 = a).
  { rewrite Ec2, swap_lit_at by lia. unfold swap_idx. by rewrite !decide_False by lia. }
  assert (C21 : lit_at c2 1 = d).
  { rewrite Ec2, swap_lit_at by lia. unfold swap_idx.
    by rewrite decide_False, decide_True by lia. }
  assert (Hdl : d <> ~~l).
  { intros E. rewrite <- Edj, <- C11 in E. apply NoDup_lit_at in E; [lia|done|lia|lia]. }
  assert (Hda : d <> a).
  { intros E. unfold a in E. rewrite <- Edj in E.
    apply NoDup_lit_at in E; [lia|done|lia|lia]. }
  rewrite C20, C21.
  set (s2 := set_clause off c2 s1).
  assert (So2 : sound (Some l) s2).
  { apply sound_set_clause; [done|done|done|]. rewrite G1, C20, C21.
    intros x Hx [H|H]; [by left|]. rewrite C11 in H. by apply lnot_inj in H. }
  assert (G2 : get_clause off s2 = c2).
  { unfold s2. rewrite get_clause_set_clause. by rewrite decide_True by lia. }
  assert (A2 : length (m_cls_allocator s2) = length (m_cls_allocator s))
    by (unfold s2, set_clause; simpl; by rewrite length_insert).
  assert (L2 : list_sat s2 l (kept ++ rest)).
  { apply list_sat_set_clause; [done|exact L1]. }
  set (s3 := push_watch (~~d) (CLAUSE a off) s2).
  assert (So3 : sound (Some l) s3).
  { apply sound_push_watch; [done| |lia| |].
    - intros E. apply Hdl. by rewrite <- E, lnot_lnot.
    - rewrite G2, C21, lnot_lnot. by right.
    - intros Hin. apply elem_of_offs in Hin as [b' Hb'].
      destruct So1 as [_ _ _ _ _ SW1 _ _ _ _].
      destruct (SW1 (~~d)) as [H1 _].
      { intros E. apply Hdl. injection E as E. by rewrite E, lnot_lnot. }
      pose proof (proj1 (Forall_forall _ _) H1 _ Hb') as Hw. simpl in Hw.
      rewrite G1, lnot_lnot in Hw. destruct Hw as [Hw|Hw]; [by apply Hda|].
      rewrite C11 in Hw. by apply Hdl. }
  assert (Drop3 : forall s', sound (Some l) s' -> m_cls_allocator s' = m_cls_allocator s3 ->
            loop_inv l s' (kept ++ option_list None ++ rest)).
  { intros s' So' E. split; [done|]. split.
    - rewrite E. change (m_cls_allocator s3) with (m_cls_allocator s2). by rewrite A2.
    - by apply (list_sat_alloc s2). }
  set (found := existsb _ (drop (S j) c2)).
  destruct (negb found && is_undef d s3 && is_undef a s3) eqn:Ec.
  - assert (Ef' : found = false) by (by destruct found).
    assert (Mad : lit_true a || lit_true d = true).
    { apply existsb_lookup in C2sat as (k & x & Hk & Hx).
      destruct (decide (k = 0%nat)) as [->|K0].
      { by rewrite <- C20, (lit_at_lookup _ _ _ Hk), Hx. }
      destruct (decide (k = 1%nat)) as [->|K1].
      { by rewrite <- C21, (lit_at_lookup _ _ _ Hk), Hx, orb_true_r. }
      exfalso. destruct (decide (k = j)) as [->|Kj].
      { rewrite Ec2, swap_lookup in Hk by lia. unfold swap_idx in Hk.
        rewrite decide_True in Hk by done.
        rewrite <- (lit_at_lookup _ _ _ Hk), C11 in Hx. congruence. }
      destruct (decide (k < j)%nat) as [Klt|Kge].
      - pose proof Hk as Hk1. rewrite Ec2, swap_lookup in Hk1 by lia. unfold swap_idx in Hk1.
        rewrite !decide_False in Hk1 by lia.
        assert (Hdk : drop 2 c1 !! (k - 2)%nat = Some x).
        { rewrite lookup_drop. by replace (2 + (k - 2))%nat with k by lia. }
        pose proof (Hbefore (k - 2)%nat x ltac:(lia) Hdk) as Hf. simpl in Hf.
        rewrite (true_not_false _ c1 k x s1 So1) in Hf; done.
      - assert (Hdk : drop (S j) c2 !! (k - S j)%nat = Some x).
        { rewrite lookup_drop. by replace (S j + (k - S j))%nat with k by lia. }
        pose proof (existsb_false_lookup _ _ _ _ Ef' Hdk) as Hf. simpl in Hf.
        rewrite (true_not_false _ c2 k x s3 So3) in Hf; done. }
    assert (Haok : lit_ok n a) by (apply clause_ok_lit_at; [done|lia]).
    assert (Hdok : lit_ok n d) by (rewrite <- Edj; by apply clause_ok_lit_at).
    destruct (m_search_mode s3).
    + apply Drop3.
      * apply sound_try_add_binary; [|done|done|done]. by apply sound_detach_clause.
      * etrans; [apply alloc_try_add_binary|reflexivity].
    + apply Drop3; [|done]. by eapply sound_fields; [| | |exact So3].
    + by apply Drop3.
  - destruct (found && bool_decide (m_search_mode s3 = lookahead1)
              && (m_weighted_new_binaries s3 =? 0)%float).
    + destruct (existsb _ (drop 2 c2)); [by apply Drop3|].
      apply Drop3; [|done]. by eapply sound_fields; [| | |exact So3].
    + by apply Drop3.
Qed.

(** *** The loops *)

Lemma sound_propagate_watch (l : literal) (w : watched) (kept rest : watch_list)
    (s : lookahead) :
  loop_inv l s (kept ++ w :: rest) -> lit_ok n l -> lit_true l = true ->
  loop_inv l (propagate_watch l w s).2 (kept ++ option_list (propagate_watch l w s).1 ++ rest).
Proof.
  intros LI Hl Ht.
  assert (Hw : watch_sat s l w).
  { destruct LI as (_ & _ & [Hs _]). apply Forall_app in Hs as [_ Hb].
    by apply Forall_cons in Hb as [? _]. }
  destruct w as [x b|l1 l2|b off|idx]; simpl in Hw; try done.
  - by apply sound_propagate_ternary.
  - by apply sound_propagate_clause.
Qed.

Lemma sound_propagate_clauses_loop (l : literal) (rest kept : watch_list) (s : lookahead) :
  loop_inv l s (kept ++ rest) -> lit_ok n l -> lit_true l = true ->
  sound None (propagate_clauses_loop l rest kept s).
Proof.
  intros LI Hl Ht. revert kept s LI.
  induction rest as [|w rest IH]; intros kept s LI; simpl.
  - rewrite app_nil_r in LI. destruct LI as (So & Hok & Hsat). by apply sound_close.
  - destruct (inconsistent s).
    { destruct LI as (So & Hok & Hsat). by apply sound_close. }
    pose proof (sound_propagate_watch l w kept rest s LI Hl Ht) as LI1.
    destruct (propagate_watch l w s) as [k s1]. simpl in LI1.
    apply IH. by rewrite <- app_assoc.
Qed.

Lemma sound_propagate_clauses (l : literal) (s : lookahead) :
  sound None s -> lit_ok n l -> lit_true l = true -> sound None (propagate_clauses l s).
Proof.
  intros So Hl Ht. unfold propagate_clauses. destruct (inconsistent s); [done|].
  apply sound_propagate_clauses_loop; [|done|done].
  split; [by apply sound_weaken|]. split.
  - apply wf_get_wlist. by destruct So.
  - destruct So as [_ _ _ _ _ SW _ _ _ _]. by apply SW.
Qed.

Lemma sound_propagate_binary (l : literal) (s : lookahead) :
  sound None s -> lit_ok n l -> lit_true l = true -> sound None (propagate_binary l s).
Proof.
  intros So Hl Ht. unfold propagate_binary.
  assert (Hok : Forall (lit_ok n) (binary_of l s)) by (apply wf_binary_of; by destruct So).
  assert (Hsat : Forall (fun w => lit_true w = true) (binary_of l s)).
  { apply Forall_forall. intros w Hw. destruct So as [_ _ _ _ SB _ _ _ _ _].
    by apply (SB l w). }
  revert Hok Hsat. generalize (binary_of l s). intros lits Hok. revert s So.
  induction Hok as [|w lits Hw _ IH]; intros s So Hsat; simpl; [done|].
  apply Forall_cons in Hsat as [Sw Hsat].
  destruct (inconsistent s); [done|]. apply IH; [|done]. by apply sound_assign.
Qed.

Lemma sound_propagate_pass (f : literal -> lookahead -> lookahead) (window : list literal)
    (s : lookahead) :
  (forall l s, sound None s -> lit_ok n l -> lit_true l = true -> sound None (f l s)) ->
  sound None s -> Forall (lit_ok n) window -> Forall (fun l => lit_true l = true) window ->
  sound None (propagate_pass f window s).
Proof.
  intros Hf So Hok. revert s So.
  induction Hok as [|l window Hl _ IH]; intros s So Hsat; simpl; [done|].
  apply Forall_cons in Hsat as [Sl Hsat].
  destruct (inconsistent s); [done|]. apply IH; [|done]. by apply Hf.
Qed.

Lemma sound_propagate (fuel : nat) (s s' : lookahead) :
  sound None s -> propagate fuel s = Some s' -> sound None s'.
Proof.
  revert s. induction fuel as [|fuel IH]; intros s So; simpl.
  - case_match; [done|]. by intros [= <-].
  - case_match; [|by intros [= <-]]. intros Hp.
    assert (Hwin : Forall (lit_ok n) (drop (m_qhead s) (m_trail s))).
    { apply Forall_drop. by destruct So as [[] _ _ _ _ _ _ _ _ _]. }
    assert (Swin : Forall (fun l => lit_true l = true) (drop (m_qhead s) (m_trail s))).
    { apply Forall_drop. by destruct So. }
    revert Hp. generalize (drop (m_qhead s) (m_trail s)) Hwin Swin. intros window Hwin' Swin' Hp.
    eapply IH; [|exact Hp].
    apply (sound_fields None (propagate_pass propagate_clauses window
                           (propagate_pass propagate_binary window s)));
      [reflexivity|reflexivity|reflexivity|].
    apply (sound_propagate_pass propagate_clauses); [apply sound_propagate_clauses| |done|done].
    apply (sound_propagate_pass propagate_binary); [apply sound_propagate_binary|done|done|done].
Qed.

End Soundness.

(** *** A decision procedure for [sound] *)

(** The literals of index below [k]. *)
Definition lits_upto (k : nat) : list literal :=
  map (fun i => to_literal (N.of_nat i)) (seq 0 k).

Lemma elem_of_lits_upto (k : nat) (l : literal) :
  (N.to_nat (index l) < k)%nat -> l ∈ lits_upto k.
Proof.
  intros H. unfold lits_upto. apply list_elem_of_fmap. exists (N.to_nat (index l)). split.
  - destruct l as [i]. simpl. by rewrite N2Nat.id.
  - apply list_elem_of_In, in_seq. lia.
Qed.

Definition watch_satb (M : bool_var -> bool) (s : lookahead) (l : literal) (w : watched)
  : bool :=
  match w with
  | BINARY _ _ => false
  | TERNARY l1 l2 => implb (lit_true M l) (lit_true M l1 || lit_true M l2)
  | CLAUSE _ off =>
      bool_decide (lit_at (get_clause off s) 0 = ~~l)
      || bool_decide (lit_at (get_clause off s) 1 = ~~l)
  | EXT_CONSTRAINT _ => false
  end.

Definition soundb (n : N) (M : bool_var -> bool) (s : lookahead) : bool :=
  wfb n s
  && forallb (fun x => x <=? m_bstamp_id s) (m_bstamp s)
  && (m_bstamp_id s <=? UINT_MAX)
  && N.even (m_level s)
  && (m_level s <=? c_fixed_truth)
  && (N.to_nat n <=? length (m_stamp s))%nat
  && forallb (fun l => implb (lit_true M l) (forallb (lit_true M) (binary_of l s)))
       (lits_upto (length (m_binary s)))
  && forallb (fun l => forallb (watch_satb M s l) (get_wlist l s)
                       && bool_decide (NoDup (offs (get_wlist l s))))
       (lits_upto (length (m_watches s)))
  && forallb (fun c => bool_decide (NoDup c) && existsb (lit_true M) c) (m_cls_allocator s)
  && forallb (fun l => implb (is_true l s) (lit_true M l)) (lits_upto (N.to_nat (2 * n)))
  && forallb (lit_true M) (m_trail s)
  && negb (inconsistent s).

Lemma forallb_elem_of {A} (p : A -> bool) (t : list A) (x : A) :
  forallb p t = true -> x ∈ t -> p x = true.
Proof.
  intros H Hx. apply list_elem_of_In in Hx. by apply (proj1 (forallb_forall p t) H).
Qed.

Lemma soundb_sound (n : N) (M : bool_var -> bool) (s : lookahead) :
  soundb n M s = true -> sound n M None s.
Proof.
  unfold soundb. rewrite !andb_true_iff.
  intros [[[[[[[[[[[H1 H2] H3] H4] H5] H6] H7] H8] H9] H10] H11] H12].
  apply N.leb_le in H3. apply N.leb_le in H5. apply Nat.leb_le in H6.
  apply negb_true_iff in H12.
  split; [exact (wfb_wf n s H1)| |exact (conj H4 H5)|exact H6| | | | | |exact H12].
  - split; [|exact H3]. eapply forallb_Forall; [|exact H2].
    intros x. apply N.leb_le.
  - intros l w Hw Hl.
    destruct (decide (N.to_nat (index l) < length (m_binary s))%nat) as [Hi|Hi].
    + pose proof (forallb_elem_of _ _ l H7 (elem_of_lits_upto _ l Hi)) as Hb.
      cbv beta in Hb. rewrite Hl in Hb. exact (forallb_elem_of _ _ w Hb Hw).
    + unfold binary_of, tnth in Hw.
      destruct (N.ltb_spec (index l) (N.of_nat (length (m_binary s)))); [lia|].
      by apply elem_of_nil in Hw.
  - intros l _.
    destruct (decide (N.to_nat (index l) < length (m_watches s))%nat) as [Hi|Hi].
    + pose proof (forallb_elem_of _ _ l H8 (elem_of_lits_upto _ l Hi)) as Hb.
      cbv beta in Hb.
      apply andb_true_iff in Hb as [Hb1 Hb2]. apply bool_decide_eq_true_1 in Hb2.
      split; [|exact Hb2].
      eapply forallb_Forall; [|exact Hb1]. intros w Hw.
      destruct w as [? ?|l1 l2|b off|?]; cbn [watch_satb watch_sat] in *;
        [discriminate| | |discriminate].
      * intros Hl. rewrite Hl in Hw. exact Hw.
      * apply orb_true_iff in Hw as [Hw|Hw]; apply bool_decide_eq_true_1 in Hw;
          [left|right]; exact Hw.
    + rewrite get_wlist_out by exact Hi. split; constructor.
  - eapply forallb_Forall; [|exact H9]. intros c [Hc1 Hc2]%andb_true_iff.
    apply bool_decide_eq_true_1 in Hc1. exact (conj Hc1 Hc2).
  - intros l Hl Ht.
    assert (Hi : (N.to_nat (index l) < N.to_nat (2 * n))%nat) by (unfold lit_ok in Hl; lia).
    pose proof (forallb_elem_of _ _ l H10 (elem_of_lits_upto _ l Hi)) as Hb.
    cbv beta in Hb. rewrite Ht in Hb. exact Hb.
  - eapply forallb_Forall; [|exact H11]. intros x Hx. exact Hx.
Qed.

(** *** A concrete run *)

(** { (+1 \/ +5), (+2 \/ -3 \/ -5), (+1 \/ +2 \/ +3 \/ +4) } after
    [init_search], with [-1] made true, and after the propagation. *)
Definition unit_example : lookahead :=
  Eval vm_compute in
    assign (neg 1)
      (initial 10 (lookahead_of_cnf 5 [(pos 1, pos 5)]
                     [[pos 2; neg 3; neg 5]; [pos 1; pos 2; pos 3; pos 4]] [])).

Definition unit_example_done : lookahead :=
  Eval vm_compute in
    match propagate 10 unit_example with
    | Some s => s
    | None => unit_example
    end.

(** The assignment that makes [x1] false and every other variable true. *)
Definition unit_example_model (v : bool_var) : bool := negb (v =? 0).

(** X19. [propagate] is sound: when an assignment [M] of the variables
    satisfies every binary, ternary and longer clause of the lookahead
    and makes true every literal the lookahead holds true, in a
    consistent, well-formed state (a stamp for each variable, no binary
    stamp above the epoch, an even level at most [c_fixed_truth]) whose
    watch lists are in order (a long clause watched for [l] has
    [~l] among its first two literals, no list watches a clause twice, no
    clause repeats a literal, there are no extension watches), then
    [propagate] ends without a conflict, [M] makes true every literal it
    has made true and satisfies every binary clause it has added, and the
    state it leaves is again of this kind. *)
Theorem propagate_sound (n : N) (M : bool_var -> bool) (fuel : nat) (s s' : lookahead) :
  sound n M None s -> propagate fuel s = Some s' ->
  inconsistent s' = false
  /\ (forall l, lit_ok n l -> is_true l s' = true -> lit_true M l = true)
  /\ Forall (fun l => lit_true M l = true) (m_trail s')
  /\ (forall l w, w ∈ binary_of l s' -> lit_true M l = true -> lit_true M w = true)
  /\ sound n M None s'.
Proof.
  intros So Hp. pose proof (sound_propagate n M fuel s s' So Hp) as So'.
  pose proof So' as [_ _ _ _ SB _ _ A T C]. done.
Qed.

Lemma propagate_sound_witness :
  propagate 10 unit_example = Some unit_example_done
  /\ inconsistent unit_example_done = false
  /\ lit_true unit_example_model (pos 5) = true.
Proof.
  assert (E : propagate 10 unit_example = Some unit_example_done) by (vm_compute; reflexivity).
  assert (So : sound 5 unit_example_model None unit_example).
  { apply soundb_sound. vm_compute. reflexivity. }
  destruct (propagate_sound 5 unit_example_model 10 _ _ So E) as (H1 & H2 & _).
  split; [exact E|]. split; [exact H1|].
  apply H2; vm_compute; reflexivity.
Defined.

End sat.
